(* ===== verification/_CoqProject ===== *)
-Q . S2P
Prelude.v
GoStrings.v
Base64.v
Json.v
JsonTermination.v
JsonRoundTrip.v
GoTime.v
Duration.v
Messages.v
Snapshot.v
Events.v
RecordingJobs.v
RelayState.v
Wire.v
Typing.v
DuplicateCheck.v
Framing.v
Outbox.v
Commands.v
Csv.v
Authorizer.v
Reload.v
ReloadLoop.v
Session.v
StateTypes.v
Liveness.v
Grants.v
Api.v
Access.v
GrantEndpoint.v
EventStream.v
Requests.v
Server.v
System.v
Main.v
Scenario.v
Waiters.v
Ledger.v
Streams.v
RightsInUse.v
Conversation.v
