(* ===== verification/Prelude.v ===== *)
(** * IncomUdon Management Service: a verification library

    The service connects to an audio Relay over the Private Control Link, a
    framed JSON protocol on a TLS or Unix socket.  It mirrors what the Relay
    reports, serves it to other services over an mTLS HTTP API, signs
    Service Admission grants, and queues revocations for the Relay in a file
    that survives restarts.  This library is a shallow embedding of the whole
    program: Go functions are Rocq functions, pointers shared between objects
    are references into heaps, errors are values, and what goroutines do
    between each other's critical sections are steps of a relation.

    ** How the program is put together

    [main] (main.go) reads the configuration, opens the link's client and the
    API server, and starts three goroutines: the client's [run], which dials,
    holds a session until it fails and dials again; the API's
    [runAuthorizerReload]; and the HTTP servers, one goroutine a request.
    They meet in three shared objects: the relay state (main.go), which points
    to the live event hub and the recording jobs; the client's command queue;
    and the authorizer in force.  Each has its own lock.  A critical section
    is one operation of the model, and between two sections of a goroutine
    any other may run.

    ** Files and sources

    The Go standard library, as far as the program uses it:
    - this file: errors and results, the [try] and [reject] notations, map
      iteration orders ([map_order]), sorting by a key, lists, and the
      tactic [go_bool] that reads boolean conditions;
    - [GoStrings]: strings, bytes, unicode/utf8, strconv; [Base64];
      [GoTime], [Duration]: RFC 3339, truncation, time.ParseDuration with
      its float64 arithmetic;
    - [Json]: the scanner, the decoder into structs and the encoder of
      encoding/json; [JsonTermination]: the parser's bound is never reached;
      [JsonRoundTrip]: printing then parsing is the identity;
    - [Csv]: encoding/csv, with the program's readManagementCSV.

    private_control.go:
    - [Messages]: message types and validators; [Wire]: token scan, strict
      decoding, frames, the JSON form of every message; [Typing]: decoded
      integers fit their Go types; [DuplicateCheck]: the token scan refuses
      exactly repeated members; [Framing]: frames round trip over writers
      that write in part;
    - [Snapshot]: chunked snapshots; [Commands]: the revocation queue, its
      result channels and the sending loop;
    - [Session]: configuration, handshake, message dispatch, session loop,
      reader goroutine; [Liveness]: progress of the loop.

    private_control_outbox.go: [Outbox], over a file system in which every
    call may fail and power may be lost between any two calls, in a directory
    that may be missing or newly made.

    main.go and its state: [RelayState], the projection; [Server], flags and
    environment, construction of everything, the health listener;
    [StateTypes], the invariant of the relay state.

    management_events.go: [Events], the hub with its Go channels in a heap;
    [EventStream], what the handler's loop writes.  recording_jobs.go:
    [RecordingJobs].  management_api.go: [Authorizer], the three ACL files and
    every access decision; [Api], the handlers, with those of
    service_admission_api.go; [Requests], the same handlers cut into their
    critical sections; [Access], what they may change and reveal;
    [GrantEndpoint], the grant request from the files to the token.
    service_admission_grants.go: [Grants].  management_acl_reload.go:
    [Reload], one reload; [ReloadLoop], all of them.

    The composition:
    - [System] wires the objects as [main] does and gives each goroutine its
      relation.  [link_step]: the dialing and the hello up to markConnected,
      the request for a snapshot, the steps of the session loop, and
      markDisconnected after runSession.  [request_step]: authentication, the
      sections of the handler, the queueing of a revocation, the end of its
      wait, each event of a stream.  [reload_step]: the queueing of a reload
      and its swap.  [service_step] is any of them.
    - [Main] puts these inside the process: [run] with its loop condition, its
      attempts, in which alone the link moves, and its pauses; the reload until
      it returns; the context; and the shutdown of the two servers under one
      deadline.
    - [Scenario] runs concrete schedules of the service and shows every run to
      be one of [service_step]; the examples of the files after it are such
      runs.
    - What holds of the service in every reachable state: [Waiters], of the
      requests that wait for a revocation; [Ledger], of the revocations, as a
      specification without goroutines; [Streams], of the event streams and
      the hub; [RightsInUse], of requests that overlap a reload;
      [Conversation], of the bytes on the wire.

    Components meet at interfaces where the source has one: the reload is
    verified against [DurableQueue], which the command queue implements; the
    handlers take the revoker as an operation on a type, instantiated with the
    client in [System]; writers and dialers are functions under the contract
    of io.Writer ([writer_contract]).

    ** What is shown

    - Durability: replacing the store file is atomic under failures and power
      loss; a restart finds the pending commands; a batch is queued as a whole
      and stored, or not queued at all, and what a refusal leaves in the file is
      stated; a reload that takes rights away is in force only when every
      restart finds their revocations.
    - The link: exactly the valid frames are read and the bytes sent are one
      hello, one snapshot request and each revocation once; strict decoding
      accepts exactly the documents without repeated or unknown members; the
      handshake succeeds exactly under the stated conditions, a message has
      exactly one of four effects or ends the session, with what it then
      leaves; no queued command is forgotten, and each
      is sent or settled within a bounded number of steps of the loop.
    - Authority: rights are exactly those of the enabled rows of the files;
      a request changes only what its service may change and a listing or a
      stream shows only what it may see; a grant never exceeds its ACL row, from
      the client certificate and the files to the token in the response; a
      right that a reload takes away has its revocation queued first, over any
      number of reloads.
    - State: the API serves channel state only from a snapshot of the open
      connection with the later events replayed; live readers see events
      without gaps; snapshots do not depend on the order of their chunks; an
      ACL file is read as it was written; no result depends on the iteration
      order of a Go map; the API starts exactly from valid settings.
    - The whole: from every start, under every interleaving and failure, each
      component keeps its invariant and nothing is served without a Relay; the
      service implements a ledger of revocations that is on disk before
      anybody is told; how the wait for a revocation ends settles what its
      caller is told; the hub's subscribers are the open streams; when a
      request outlives the rights it was accepted with, the run went through a
      state in which their revocations were queued and stored; [run] holds a
      connection until the context ends and no longer; and the process exits
      with every request answered or at the deadline.  (That a request cut into
      sections is [ServeHTTP] when nothing comes between is a lemma,
      [Requests.sections_are_ServeHTTP].)

    Where modelling showed the code to fall short of its intent, the theorem
    says what the code does: a reload of more revocations than the queue has
    room for never succeeds ([Reload.reload_bounded_by_queue]); recording jobs
    are never freed ([RecordingJobs.recording_jobs_never_freed]); some
    admissible issuer configurations can sign no grant
    ([Grants.long_identity_never_issues]); the reconnection delay is not reset
    ([Main.run_until_cancelled]); a refused batch may be found by a restart
    ([Commands.refused_batch_stored]); the first store in a new directory can
    be lost with it ([Outbox.fresh_directory]); an open event stream holds the
    shutdown for its five seconds ([Main.process_ends_in_order]); nothing bounds the time that the body of an
    accepted request takes, so a grant can outlive the automatic revocation of
    its right ([RightsInUse.slow_body_outlasts_revocation]).

    ** Bounds

    Recursion that is not structural takes fuel, computed from the input and
    shown to be enough: two rounds a byte and two more for JSON
    ([JsonTermination.parse_fuel_enough]; the token scan then succeeds on
    every document without repeats, [DuplicateCheck.strict_decoding_exact]),
    two a byte and four more for CSV ([Csv.readManagementCSV_enough]), one a
    byte for frame writes, frame reads and durations
    ([Framing.write_loop_spec], [Conversation.reader_exact],
    [Duration.parse_components_fuel]).  Integers are [Z] with their Go ranges
    as invariants; event identifiers stop at the largest uint64 as in the
    source.

    ** What is a parameter

    SHA-256, Ed25519 signing, PEM and PKCS#8 parsing, certificates and the
    TLS files, random bytes, clocks, the contents of files, writers, dialers,
    and the order in which Go traverses a map.  Hypotheses on them are the
    documented ones: sizes of digests and signatures, that a signature
    verifies, the io.Writer contract.

    ** What is not modelled

    What net/http does below [ServeHTTP]: accepting connections, TLS, parsing
    (the request's path, query keys, body and certificate are inputs) and the
    routing of the health listener's mux.  [Shutdown] is what net/http documents:
    it returns when no request is in progress, and none can come after, or at
    its deadline; the requests of the health listener are not tracked.  The
    goroutine that closes the connection when the context ends (a session may
    end at any waiting point instead).  Timers, whose firing is a step; log
    lines; the numbers of a JSON document beyond their text and
    integer value; the Go tests and the container files.

    ** Open

    Event identifiers across the reconnections of a client; a bound on the
    time that a queued revocation takes, under fairness of the scheduler. *)

From stdpp Require Export base gmap strings list sorting pretty fin_maps.
From Stdlib Require Export ZArith Lia.
From Stdlib Require Ascii String.
Export Stdlib.Strings.Ascii(ascii(..), N_of_ascii, ascii_of_N, nat_of_ascii,
  ascii_of_nat, ascii_N_embedding, N_ascii_embedding, N_ascii_bounded).
Export (notations) Stdlib.Strings.Ascii.
Export Stdlib.Strings.String(prefix, substring, string_of_list_ascii, list_ascii_of_string).

#[global] Set Default Goal Selector "!".

(** ** Errors

    A Go [error] value.  [Errorf] is [errors.New] or [fmt.Errorf] without a
    wrapped cause, [Wrapf] is [fmt.Errorf] with [%w].  The remaining
    constructors are the sentinels of the standard library that the program
    compares against or returns itself. *)
Inductive error :=
| Errorf (format : string) (args : list string)
| Wrapf (format : string) (args : list string) (cause : error)
| ErrEOF
| ErrUnexpectedEOF
| ErrShortWrite
| ErrContextCanceled
| ErrContextDeadlineExceeded
| ErrNotExist.

#[global] Instance error_eq_dec : EqDecision error.
Proof. solve_decision. Defined.

(** [errors.Is]: the target is compared with every error of the chain. *)
Fixpoint errors_Is (err target : error) : bool :=
  bool_decide (err = target) ||
  match err with
  | Wrapf _ _ cause => errors_Is cause target
  | _ => false
  end.

(** ** Results

    A Go function returning [(T, error)] whose [T] is the zero value on every
    error path. *)
Inductive result (A : Type) :=
| Ok (value : A)
| Err (err : error).
Arguments Ok {A} value.
Arguments Err {A} err.

#[global] Instance Ok_inj {A} : Inj (=) (=) (@Ok A).
Proof. by intros x y [= ->]. Qed.

Definition is_ok {A} (r : result A) : bool :=
  match r with Ok _ => true | Err _ => false end.

Definition result_bind {A B} (r : result A) (k : A → result B) : result B :=
  match r with Ok a => k a | Err e => Err e end.

(** [if err != nil { return ..., fmt.Errorf("...: %w", err) }] *)
Definition map_err {A} (f : error → error) (r : result A) : result A :=
  match r with Ok a => Ok a | Err e => Err (f e) end.

(** [if cond { return ..., errors.New(msg) }] followed by the rest. *)
Definition reject_if {A} (cond : bool) (e : error) (k : result A) : result A :=
  if cond then Err e else k.

Declare Scope go_scope.
Delimit Scope go_scope with go.
Notation "'try' x <- r ; k" := (result_bind r (λ x, k))
  (at level 100, x pattern, r at level 99, k at level 200, right associativity) : go_scope.
Notation "'reject' c 'with' e ; k" := (reject_if c e k)
  (at level 100, c at level 99, e at level 99, k at level 200, right associativity) : go_scope.
#[global] Open Scope go_scope.

Lemma result_bind_ok {A B} (r : result A) (k : A → result B) b :
  result_bind r k = Ok b ↔ ∃ a, r = Ok a ∧ k a = Ok b.
Proof.
  destruct r; simpl; split; [eauto| |done|].
  - by intros (? & [= ->] & ?).
  - by intros (? & ? & _).
Qed.

Lemma map_err_ok {A} f (r : result A) a : map_err f r = Ok a ↔ r = Ok a.
Proof. destruct r; simpl; split; congruence. Qed.

Lemma reject_if_ok {A} c e (k : result A) a :
  reject_if c e k = Ok a ↔ c = false ∧ k = Ok a.
Proof. destruct c; simpl; split; [done|by intros []|done|by intros []]. Qed.

(** [go_ok] splits a hypothesis [computation = Ok v] into the successes of
    its steps; [go_case] destructs the scrutinee of a [match] or [if]. *)
Ltac go_ok :=
  repeat match goal with
  | H : result_bind _ _ = Ok _ |- _ => apply result_bind_ok in H; destruct H as (? & ? & H)
  | H : map_err _ _ = Ok _ |- _ => rewrite map_err_ok in H
  | H : reject_if _ _ _ = Ok _ |- _ => apply reject_if_ok in H; destruct H as [? H]
  | H : Ok _ = Ok _ |- _ => injection H as H
  | H : Err _ = Ok _ |- _ => discriminate H
  | H : Ok _ = Err _ |- _ => discriminate H
  end.

Ltac go_bool :=
  repeat match goal with
  | H : _ && _ = true |- _ => apply andb_true_iff in H as [? ?]
  | H : _ || _ = false |- _ => apply orb_false_iff in H as [? ?]
  | H : negb _ = true |- _ => apply negb_true_iff in H
  | H : negb _ = false |- _ => apply negb_false_iff in H
  | H : bool_decide _ = true |- _ => apply bool_decide_eq_true in H
  | H : bool_decide _ = false |- _ => apply bool_decide_eq_false in H
  | H : (_ <? _)%Z = true |- _ => apply Z.ltb_lt in H
  | H : (_ <? _)%Z = false |- _ => apply Z.ltb_ge in H
  | H : (_ <=? _)%Z = true |- _ => apply Z.leb_le in H
  | H : (_ <=? _)%Z = false |- _ => apply Z.leb_gt in H
  | H : (_ =? _)%Z = true |- _ => apply Z.eqb_eq in H
  | H : (_ =? _)%Z = false |- _ => apply Z.eqb_neq in H
  | H : String.eqb _ _ = true |- _ => apply String.eqb_eq in H
  | H : String.eqb _ _ = false |- _ => apply String.eqb_neq in H
  end.

(** ** Machine integers *)

Definition is_u8 (z : Z) : Prop := (0 ≤ z < 2 ^ 8)%Z.
Definition is_u16 (z : Z) : Prop := (0 ≤ z < 2 ^ 16)%Z.
Definition is_u32 (z : Z) : Prop := (0 ≤ z < 2 ^ 32)%Z.
Definition is_u64 (z : Z) : Prop := (0 ≤ z < 2 ^ 64)%Z.
Definition is_i64 (z : Z) : Prop := (- 2 ^ 63 ≤ z < 2 ^ 63)%Z.

(** Wrap-around of an unsigned 64-bit counter. *)
Definition wrap_u64 (z : Z) : Z := (z mod 2 ^ 64)%Z.
Definition max_u64 : Z := (2 ^ 64 - 1)%Z.

(** Wrap-around of a signed 64-bit integer (two's complement). *)
Definition wrap_i64 (z : Z) : Z := ((z + 2 ^ 63) mod 2 ^ 64 - 2 ^ 63)%Z.

Lemma wrap_u64_small z : is_u64 z → wrap_u64 z = z.
Proof. unfold is_u64, wrap_u64. intros. apply Z.mod_small. lia. Qed.

Lemma wrap_i64_small z : is_i64 z → wrap_i64 z = z.
Proof. unfold is_i64, wrap_i64. intros. rewrite Z.mod_small; lia. Qed.

(** ** Go maps

    [len(m)].  The iteration order of a Go map is unspecified: a loop over a
    map takes the order as an argument, and [map_order m l] says that [l] is
    one of the orders the runtime may choose. *)
Definition len_map {K} `{Countable K} {A} (m : gmap K A) : Z := Z.of_nat (size m).

Definition map_order {K} `{Countable K} {A} (m : gmap K A) (l : list (K * A)) : Prop :=
  l ≡ₚ map_to_list m.

Lemma map_order_default {K} `{Countable K} {A} (m : gmap K A) :
  map_order m (map_to_list m).
Proof. unfold map_order. reflexivity. Qed.

Lemma map_order_elem {K} `{Countable K} {A} (m : gmap K A) l k a :
  map_order m l → (k, a) ∈ l ↔ m !! k = Some a.
Proof. unfold map_order. intros Hl. by rewrite Hl, elem_of_map_to_list. Qed.

Lemma map_order_NoDup {K} `{Countable K} {A} (m : gmap K A) l :
  map_order m l → NoDup l.*1.
Proof. unfold map_order. intros Hl. rewrite Hl. apply NoDup_fst_map_to_list. Qed.

Lemma map_order_length {K} `{Countable K} {A} (m : gmap K A) l : map_order m l → length l = size m.
Proof. unfold map_order. intros Hl. by rewrite Hl, length_map_to_list. Qed.

Lemma len_map_insert_le {K} `{Countable K} {A} (m : gmap K A) k a :
  (len_map (<[k:=a]> m) ≤ len_map m + 1)%Z.
Proof.
  unfold len_map. destruct (m !! k) eqn:E.
  - rewrite map_size_insert_Some by eauto. lia.
  - rewrite map_size_insert_None by done. lia.
Qed.

Lemma len_map_delete_le {K} `{Countable K} {A} (m : gmap K A) k :
  (len_map (delete k m) ≤ len_map m)%Z.
Proof. unfold len_map. rewrite map_size_delete. destruct (m !! k); simpl; lia. Qed.

(** ** Invariants of step relations *)
Lemma rtc_invariant {A} {R : relation A} (P : A → Prop) x y :
  (∀ a b, P a → R a b → P b) → P x → rtc R x y → P y.
Proof. intros Hstep Hx Hxy. induction Hxy; eauto. Qed.

(** ** Sorting by a key

    [sort.Slice] with a strict comparison on distinct keys: the result is the
    unique sorted permutation, which merge sort computes. *)
Section sort_by.
Context {A K : Type} (key : A → K) (R : relation K)
  `{!RelDecision R, !PartialOrder R, !Total R}.

Definition key_le : relation A := λ x y, R (key x) (key y).

#[global] Instance key_le_dec : RelDecision key_le.
Proof. intros x y. unfold key_le. apply _. Defined.

#[global] Instance key_le_trans : Transitive key_le.
Proof. intros x y z. unfold key_le. apply transitivity. Qed.

#[global] Instance key_le_total : Total key_le.
Proof. intros x y. unfold key_le. apply (total R). Qed.

Definition sort_by (l : list A) : list A := merge_sort key_le l.

Lemma sort_by_perm l : sort_by l ≡ₚ l.
Proof. apply merge_sort_Permutation. Qed.

Lemma sort_by_sorted l : StronglySorted key_le (sort_by l).
Proof. apply StronglySorted_merge_sort; apply _. Qed.

(** Sorting forgets the order of the input: this is what makes a result
    independent of the iteration order of a map. *)
Lemma sort_by_perm_eq l1 l2 :
  NoDup (key <$> l1) → l1 ≡ₚ l2 → sort_by l1 = sort_by l2.
Proof.
  intros Hnd Hp. apply (StronglySorted_unique_strong key_le).
  - intros x y Hx Hy Hxy Hyx.
    rewrite sort_by_perm in Hx. rewrite sort_by_perm, <-Hp in Hy.
    assert (key x = key y) as Hk by (by apply (anti_symm R)).
    apply list_elem_of_lookup in Hx as [i Hi], Hy as [j Hj].
    assert (i = j) as ->; [|congruence].
    apply (NoDup_lookup _ i j (key x) Hnd); rewrite list_lookup_fmap.
    + by rewrite Hi.
    + by rewrite Hj, Hk.
  - apply sort_by_sorted.
  - apply sort_by_sorted.
  - by rewrite !sort_by_perm.
Qed.
End sort_by.

#[global] Instance Z_le_partial_order : PartialOrder Z.le := _.
