(* ===== verification/GoStrings.v ===== *)
(** * Go strings

    A Go [string] and a Go [[]byte] are both byte sequences: Rocq's [string]
    of 8-bit [ascii] characters.  This file holds the functions of the
    packages [strings], [bytes], [unicode/utf8] and [strconv] that the program
    calls, with the lemmas the components share. *)

From S2P Require Export Prelude.

(** ** Bytes *)

Definition byte_val (c : ascii) : Z := Z.of_N (N_of_ascii c).
Definition byte_of (z : Z) : ascii := ascii_of_N (Z.to_N z).

Lemma byte_val_range c : (0 ≤ byte_val c < 256)%Z.
Proof.
  unfold byte_val. pose proof (N_ascii_bounded c). lia.
Qed.

Lemma byte_of_val c : byte_of (byte_val c) = c.
Proof. unfold byte_of, byte_val. rewrite N2Z.id. apply ascii_N_embedding. Qed.

Lemma byte_val_of z : (0 ≤ z < 256)%Z → byte_val (byte_of z) = z.
Proof.
  intros. unfold byte_val, byte_of. rewrite N_ascii_embedding; lia.
Qed.

Lemma byte_val_inj c1 c2 : byte_val c1 = byte_val c2 → c1 = c2.
Proof. intros H. by rewrite <-(byte_of_val c1), H, byte_of_val. Qed.

(** [len(s)] *)
Definition len (s : string) : Z := Z.of_nat (String.length s).

(** [lo <= b && b <= hi] on bytes *)
Definition byte_in (lo hi : Z) (c : ascii) : bool :=
  (lo <=? byte_val c)%Z && (byte_val c <=? hi)%Z.

(** Every byte of a string satisfies a test. *)
Fixpoint string_forallb (p : ascii → bool) (s : string) : bool :=
  match s with
  | EmptyString => true
  | String c s' => p c && string_forallb p s'
  end.

Lemma string_forallb_app p s1 s2 :
  string_forallb p (s1 +:+ s2) = string_forallb p s1 && string_forallb p s2.
Proof.
  unfold String.app. induction s1 as [|c s1 IH]; simpl; [done|].
  by rewrite IH, andb_assoc.
Qed.

Lemma string_forallb_impl (p q : ascii → bool) s :
  (∀ c, p c = true → q c = true) →
  string_forallb p s = true → string_forallb q s = true.
Proof.
  intros Hpq. induction s as [|c s IH]; simpl; [done|].
  rewrite !andb_true_iff. intros []; auto.
Qed.

Lemma string_app_length s1 s2 :
  String.length (s1 +:+ s2) = (String.length s1 + String.length s2)%nat.
Proof. unfold String.app. induction s1; simpl; auto. Qed.

Lemma string_app_cons c s1 s2 : String c s1 +:+ s2 = String c (s1 +:+ s2).
Proof. done. Qed.

Lemma string_app_empty_l s : "" +:+ s = s.
Proof. done. Qed.

Lemma string_app_empty_r s : s +:+ "" = s.
Proof. unfold String.app. induction s; simpl; congruence. Qed.

Lemma string_app_assoc s1 s2 s3 : (s1 +:+ s2) +:+ s3 = s1 +:+ (s2 +:+ s3).
Proof. unfold String.app. induction s1; simpl; congruence. Qed.

Lemma len_app s1 s2 : len (s1 +:+ s2) = (len s1 + len s2)%Z.
Proof. unfold len. rewrite string_app_length. lia. Qed.

(** Two strings split at the first occurrence of a separator byte agree
    componentwise. *)
Lemma string_app_sep_inj (sep : ascii) p a1 b1 a2 b2 :
  p sep = false →
  string_forallb p a1 = true → string_forallb p a2 = true →
  a1 +:+ String sep b1 = a2 +:+ String sep b2 → a1 = a2 ∧ b1 = b2.
Proof.
  intros Hsep. revert a2.
  induction a1 as [|c1 a1 IH]; intros [|c2 a2]; simpl; unfold String.app;
    simpl; fold String.app; intros H1 H2 [=]; subst; go_bool; try congruence.
  - done.
  - destruct (IH a2) as [-> ->]; auto.
Qed.

(** ** Package strings *)

Definition HasPrefix (s prefix : string) : bool := String.prefix prefix s.

Definition HasSuffix (s suffix : string) : bool :=
  (String.length suffix <=? String.length s)%nat &&
  String.eqb (substring (String.length s - String.length suffix) (String.length suffix) s) suffix.

Definition TrimPrefix (s prefix : string) : string :=
  if HasPrefix s prefix
  then substring (String.length prefix) (String.length s - String.length prefix) s
  else s.

Definition TrimSuffix (s suffix : string) : string :=
  if HasSuffix s suffix
  then substring 0 (String.length s - String.length suffix) s
  else s.

(** *** Prefixes and suffixes *)

Lemma substring_0_app s t : substring 0 (String.length s) (s +:+ t) = s.
Proof. induction s as [|c s IH]; simpl; [by destruct t|by rewrite IH]. Qed.

Lemma substring_app_r s t : substring (String.length s) (String.length t) (s +:+ t) = t.
Proof.
  induction s as [|c s IH]; [|exact IH]. cbn [String.length].
  rewrite <-(string_app_empty_r t) at 2. rewrite string_app_empty_l. apply substring_0_app.
Qed.

Lemma HasPrefix_spec s p : HasPrefix s p = true ↔ ∃ t, s = p +:+ t.
Proof.
  unfold HasPrefix. revert s. induction p as [|c p IH]; intros s; simpl.
  - split; [|by destruct s]. intros _. by exists s.
  - destruct s as [|d s]; [split; [done|by intros (t & ?)]|]. cbn [prefix].
    destruct (Stdlib.Strings.Ascii.ascii_dec c d) as [->|Hne].
    + rewrite IH. split; intros (t & Ht); exists t; [by rewrite Ht|by injection Ht].
    + split; [done|]. intros (t & Ht). by injection Ht as ->.
Qed.

Lemma TrimPrefix_app p t : TrimPrefix (p +:+ t) p = t.
Proof.
  unfold TrimPrefix. rewrite (proj2 (HasPrefix_spec _ p)) by eauto.
  rewrite string_app_length. replace (_ + _ - _)%nat with (String.length t) by lia.
  apply substring_app_r.
Qed.

Lemma HasSuffix_app t q : HasSuffix (t +:+ q) q = true.
Proof.
  unfold HasSuffix. rewrite string_app_length. rewrite (proj2 (Nat.leb_le _ _)) by lia.
  replace (_ + _ - _)%nat with (String.length t) by lia. rewrite substring_app_r. apply String.eqb_refl.
Qed.

Lemma substring_split n s : (n ≤ String.length s)%nat →
  s = substring 0 n s +:+ substring n (String.length s - n) s.
Proof.
  revert s. induction n as [|n IH]; intros s Hn.
  - rewrite Nat.sub_0_r. pose proof (substring_0_app s "") as H. rewrite string_app_empty_r in H.
    rewrite H. by destruct s.
  - destruct s as [|c s]; simpl in Hn; [lia|]. cbn [String.length substring]. simpl.
    rewrite string_app_cons. f_equal. apply IH. lia.
Qed.

Lemma HasSuffix_spec s q : HasSuffix s q = true ↔ ∃ t, s = t +:+ q.
Proof.
  split; [|by intros (t & ->); apply HasSuffix_app].
  unfold HasSuffix. rewrite andb_true_iff, Nat.leb_le, String.eqb_eq. intros [Hl Hq].
  exists (substring 0 (String.length s - String.length q) s).
  pose proof (substring_split (String.length s - String.length q) s ltac:(lia)) as Hs.
  replace (String.length s - (String.length s - String.length q))%nat with (String.length q) in Hs by lia.
  by rewrite Hq in Hs.
Qed.

Lemma TrimSuffix_app t q : TrimSuffix (t +:+ q) q = t.
Proof.
  unfold TrimSuffix. rewrite HasSuffix_app, string_app_length.
  replace (_ + _ - _)%nat with (String.length t) by lia. apply substring_0_app.
Qed.

(** Two ways to cut a string in two. *)
Lemma string_app_split a b c d :
  a +:+ b = c +:+ d →
  (∃ x, c = a +:+ x ∧ b = x +:+ d) ∨ (∃ x, a = c +:+ x ∧ d = x +:+ b).
Proof.
  revert c. induction a as [|u a IH]; intros c; [intros Hb; left; by exists c|].
  destruct c as [|v c]; [intros Hd; right; by exists (String u a)|].
  simpl. intros [= <- Hac]. destruct (IH c Hac) as [(x & -> & ->)|(x & -> & ->)]; [left|right]; eauto.
Qed.

(** [strings.Split(s, sep)] for a separator of one byte. *)
Fixpoint split_on (sep : ascii) (s : string) : list string :=
  match s with
  | EmptyString => [""]
  | String c s' =>
      match split_on sep s' with
      | part :: parts => if Ascii.eqb c sep then "" :: part :: parts else String c part :: parts
      | [] => []
      end
  end.

Definition no_byte (b c : ascii) : bool := negb (Ascii.eqb c b).

Lemma split_on_last sep s : string_forallb (no_byte sep) s = true → split_on sep s = [s].
Proof.
  induction s as [|c s IH]; [done|]. simpl. rewrite andb_true_iff. intros [Hc Hs].
  rewrite IH by done. unfold no_byte in Hc. by destruct (Ascii.eqb c sep).
Qed.

Lemma split_on_app sep a b :
  string_forallb (no_byte sep) a = true →
  split_on sep (a +:+ String sep b) = a :: split_on sep b.
Proof.
  assert (∀ s, ∃ p ps, split_on sep s = p :: ps) as Hcons.
  { induction s as [|c s (p & ps & IH)]; [by exists "", []|]. simpl. rewrite IH.
    destruct (Ascii.eqb c sep); eauto. }
  induction a as [|c a IH].
  - intros _. rewrite string_app_empty_l. cbn [split_on].
    destruct (Hcons b) as (p & ps & ->). by rewrite Ascii.eqb_refl.
  - cbn [string_forallb]. rewrite andb_true_iff. intros [Hc Ha]. rewrite string_app_cons.
    cbn [split_on]. rewrite IH by done. unfold no_byte in Hc. by destruct (Ascii.eqb c sep).
Qed.

(** [strings.Contains(s, "c")] for a one-byte needle *)
Definition ContainsByte (s : string) (c : ascii) : bool :=
  negb (string_forallb (λ d, negb (Ascii.eqb c d)) s).

Definition byte_string (zs : list Z) : string :=
  string_of_list_ascii (byte_of <$> zs).

(** The UTF-8 encodings of the runes for which [unicode.IsSpace] holds. *)
Definition space_encodings : list string :=
  byte_string <$>
  [ [9]; [10]; [11]; [12]; [13]; [32]; [194; 133]; [194; 160]; [225; 154; 128];
    [226; 128; 128]; [226; 128; 129]; [226; 128; 130]; [226; 128; 131];
    [226; 128; 132]; [226; 128; 133]; [226; 128; 134]; [226; 128; 135];
    [226; 128; 136]; [226; 128; 137]; [226; 128; 138]; [226; 128; 168];
    [226; 128; 169]; [226; 128; 175]; [226; 129; 159]; [227; 128; 128] ]%Z.

(** Drop one leading member of [encs], or nothing. *)
Definition strip_one (encs : list string) (s : string) : option string :=
  match list_find (λ e, HasPrefix s e = true) encs with
  | Some (_, e) => Some (TrimPrefix s e)
  | None => None
  end.

(** Drop leading members of [encs]; [String.length s] rounds are enough since
    every member has at least one byte. *)
Fixpoint strip_all (fuel : nat) (encs : list string) (s : string) : string :=
  match fuel with
  | O => s
  | S fuel => match strip_one encs s with
              | Some s' => strip_all fuel encs s'
              | None => s
              end
  end.

(** [strings.TrimSpace] (and [bytes.TrimSpace]): leading and trailing runes
    with [unicode.IsSpace] are removed. *)
Definition TrimSpace (s : string) : string :=
  let left_trimmed := strip_all (String.length s) space_encodings s in
  String.rev (strip_all (String.length left_trimmed) (String.rev <$> space_encodings)
                (String.rev left_trimmed)).

(** [strings.TrimSpace(s) == ...] against the empty string *)
Definition blank (s : string) : bool := String.eqb (TrimSpace s) "".

(** ** Package unicode/utf8 *)

Definition is_cont (c : ascii) : bool := byte_in 128 191 c.

(** The size in bytes of the valid UTF-8 encoding at the head of [s], if there
    is one. *)
Definition rune_size (s : string) : option nat :=
  match s with
  | EmptyString => None
  | String a s1 =>
      if byte_in 0 127 a then Some 1%nat
      else match s1 with
      | EmptyString => None
      | String b s2 =>
          if byte_in 194 223 a then (if is_cont b then Some 2%nat else None)
          else match s2 with
          | EmptyString => None
          | String c s3 =>
              if (byte_in 224 224 a && byte_in 160 191 b ||
                  byte_in 225 236 a && is_cont b ||
                  byte_in 237 237 a && byte_in 128 159 b ||
                  byte_in 238 239 a && is_cont b)
              then (if is_cont c then Some 3%nat else None)
              else match s3 with
              | EmptyString => None
              | String d _ =>
                  if (byte_in 240 240 a && byte_in 144 191 b ||
                      byte_in 241 243 a && is_cont b ||
                      byte_in 244 244 a && byte_in 128 143 b)
                     && is_cont c && is_cont d
                  then Some 4%nat else None
              end
          end
      end
  end.

(** A fold over the runes of a string: [f b acc] sees [b = true] for a valid
    encoding and [b = false] for an invalid byte, which has width one. *)
Fixpoint fold_runes {A} (f : bool → A → A) (e : A) (s : string) : A :=
  match s with
  | EmptyString => e
  | String _ s1 =>
      match rune_size s with
      | None => f false (fold_runes f e s1)
      | Some 2%nat => match s1 with
                      | String _ s2 => f true (fold_runes f e s2)
                      | _ => e end
      | Some 3%nat => match s1 with
                      | String _ (String _ s3) => f true (fold_runes f e s3)
                      | _ => e end
      | Some 4%nat => match s1 with
                      | String _ (String _ (String _ s4)) => f true (fold_runes f e s4)
                      | _ => e end
      | Some _ => f true (fold_runes f e s1)
      end
  end.

Definition utf8_Valid (s : string) : bool := fold_runes andb true s.

Definition RuneCountInString (s : string) : Z := fold_runes (λ _ n, n + 1)%Z 0%Z s.

(** ** Package strconv *)

Definition is_digit (c : ascii) : bool := byte_in 48 57 c.

(** The value of a string of decimal digits. *)
Fixpoint digits_value (acc : Z) (s : string) : Z :=
  match s with
  | EmptyString => acc
  | String c s' => digits_value (acc * 10 + (byte_val c - 48)) s'
  end.

(** [strconv.ParseUint(s, 10, bits)] *)
Definition ParseUint (s : string) (bits : Z) : option Z :=
  if negb (String.eqb s "") && string_forallb is_digit s then
    let v := digits_value 0 s in
    if (v <? 2 ^ bits)%Z then Some v else None
  else None.

(** [strconv.ParseInt(s, 10, 64)] *)
Definition ParseInt (s : string) : option Z :=
  let '(neg, body) :=
    match s with
    | String c s' => if Ascii.eqb c "-"%char then (true, s')
                     else if Ascii.eqb c "+"%char then (false, s') else (false, s)
    | EmptyString => (false, s)
    end in
  match ParseUint body 64 with
  | Some v =>
      if neg then (if (v <=? 2 ^ 63)%Z then Some (- v)%Z else None)
      else (if (v <? 2 ^ 63)%Z then Some v else None)
  | None => None
  end.

(** [strconv.FormatUint(z, 10)] and [%d] *)
Definition FormatInt (z : Z) : string := pretty z.

(** ** Decimal numbers: formatting and parsing are inverse *)

Lemma digits_value_app acc s1 s2 :
  digits_value acc (s1 +:+ s2) = digits_value (digits_value acc s1) s2.
Proof. unfold String.app. revert acc. induction s1; simpl; auto. Qed.

Lemma pretty_digit (x : N) :
  (x < 10)%N →
  is_digit (pretty_N_char x) = true ∧ byte_val (pretty_N_char x) = (48 + Z.of_N x)%Z.
Proof.
  intros Hx.
  assert (x = 0 ∨ x = 1 ∨ x = 2 ∨ x = 3 ∨ x = 4 ∨ x = 5 ∨ x = 6 ∨ x = 7 ∨ x = 8 ∨ x = 9)%N
    as Hcases by lia.
  repeat destruct Hcases as [->|Hcases]; try by split.
  subst. by split.
Qed.

Lemma pretty_N_go_spec (x : N) s :
  ∃ d, pretty_N_go x s = d +:+ s ∧ string_forallb is_digit d = true ∧
       digits_value 0 d = Z.of_N x ∧ (d = "" ↔ x = 0%N) ∧
       (∀ c r, d = String c r → byte_val c ≠ 48%Z).
Proof.
  revert s. induction (N.lt_wf_0 x) as [x _ IH]. intros s.
  destruct (decide (x = 0)%N) as [->|Hx].
  { exists "". rewrite pretty_N_go_0. by split_and!. }
  assert (0 < x)%N as Hpos by lia. rewrite pretty_N_go_step by done.
  destruct (IH (x `div` 10)%N (N.div_lt x 10 Hpos eq_refl)
              (String (pretty_N_char (x `mod` 10)) s)) as (d & Hd & Hdig & Hval & Hnil & Hhead).
  destruct (pretty_digit (x `mod` 10)%N) as [Hc1 Hc2]; [by apply N.mod_lt|].
  exists (d +:+ String (pretty_N_char (x `mod` 10)) ""). split_and!.
  - by rewrite Hd, string_app_assoc.
  - rewrite string_forallb_app, Hdig. simpl. by rewrite Hc1.
  - rewrite digits_value_app, Hval. simpl. rewrite Hc2.
    rewrite N2Z.inj_div, N2Z.inj_mod. simpl.
    pose proof (Z.div_mod (Z.of_N x) 10). lia.
  - split; [|lia]. by destruct d.
  - intros c r Hcr. destruct d as [|c' d]; [|injection Hcr as <- _; by eapply Hhead].
    injection Hcr as <- _. rewrite Hc2. pose proof (proj1 Hnil eq_refl) as Hdiv.
    apply N.div_small_iff in Hdiv; [|done]. rewrite N.mod_small by done. lia.
Qed.

Lemma FormatInt_spec z :
  (0 ≤ z)%Z →
  FormatInt z ≠ "" ∧ string_forallb is_digit (FormatInt z) = true ∧
  digits_value 0 (FormatInt z) = z ∧
  (∀ c r, FormatInt z = String c r → byte_val c = 48%Z → z = 0%Z).
Proof.
  intros Hz. unfold FormatInt. destruct z as [|p|p]; [done| |lia].
  change (pretty (Z.pos p)) with (pretty_N_go (N.pos p) "").
  destruct (pretty_N_go_spec (N.pos p) "") as (d & -> & Hdig & Hval & Hnil & Hhead).
  rewrite string_app_empty_r. split_and!; auto; [|by intros c r Hcr ?%(Hhead c r Hcr)].
  intros ->. discriminate (proj1 Hnil eq_refl).
Qed.

Lemma ParseUint_FormatInt z bits :
  (0 ≤ z < 2 ^ bits)%Z → ParseUint (FormatInt z) bits = Some z.
Proof.
  intros Hz. destruct (FormatInt_spec z) as (Hne & Hdig & Hval & _); [lia|].
  unfold ParseUint. rewrite Hdig, Hval.
  rewrite (proj2 (String.eqb_neq _ _) Hne). simpl.
  by rewrite (proj2 (Z.ltb_lt z (2 ^ bits))) by lia.
Qed.

Lemma FormatInt_inj z1 z2 : FormatInt z1 = FormatInt z2 → z1 = z2.
Proof. unfold FormatInt. apply pretty_Z_inj. Qed.

Lemma digits_value_nonneg acc s :
  (0 ≤ acc)%Z → string_forallb is_digit s = true → (0 ≤ digits_value acc s)%Z.
Proof.
  revert acc. induction s as [|c s IH]; simpl; intros acc Hacc Hs; [done|].
  go_bool. apply IH; [|done]. unfold is_digit, byte_in in *. go_bool. lia.
Qed.

Lemma ParseUint_Some s bits v :
  ParseUint s bits = Some v →
  s ≠ "" ∧ string_forallb is_digit s = true ∧ v = digits_value 0 s ∧ (0 ≤ v < 2 ^ bits)%Z.
Proof.
  unfold ParseUint. intros H. case_match eqn:E; [|done].
  case_match eqn:E2; [|done]. simplify_eq. go_bool.
  split_and!; auto. by apply digits_value_nonneg.
Qed.

(** ** Ranges of parsed numbers *)

Open Scope Z_scope.

Lemma digits_value_ge acc s :
  0 ≤ acc → string_forallb is_digit s = true → acc * 10 ^ len s ≤ digits_value acc s.
Proof.
  revert acc. induction s as [|c s IH]; intros acc Hacc; simpl.
  { intros _. change (len "") with 0. lia. }
  rewrite andb_true_iff. intros [Hc Hs]. unfold is_digit, byte_in in Hc. go_bool.
  specialize (IH (acc * 10 + (byte_val c - 48)) ltac:(lia) Hs).
  replace (len (String c s)) with (len s + 1) by (unfold len; simpl; lia).
  assert (0 ≤ len s) by (unfold len; lia). rewrite Z.pow_add_r by lia.
  assert (0 < 10 ^ len s) by (apply Z.pow_pos_nonneg; lia). nia.
Qed.

Lemma ParseUint_range s bits v : ParseUint s bits = Some v → 0 ≤ v < 2 ^ bits.
Proof. by intros (_ & _ & _ & ?)%ParseUint_Some. Qed.

Close Scope Z_scope.
