(* ===== verification/Base64.v ===== *)
(** * base64.RawURLEncoding

    The unpadded URL-safe Base64 of [encoding/base64] as the program uses it:
    [EncodeToString] and the (lenient) [DecodeString], which skips carriage
    returns and newlines and accepts non-zero trailing bits.  The program
    decodes and re-encodes a value to accept its canonical spelling only. *)

From S2P Require Export GoStrings.

Open Scope Z_scope.

Definition base64url_alphabet : string :=
  "ABCDEFGHIJKLMNOPQRSTUVWXYZabcdefghijklmnopqrstuvwxyz0123456789-_".

Definition encode_sextet (n : Z) : ascii :=
  default "A"%char (String.get (Z.to_nat n) base64url_alphabet).

Definition decode_sextet (c : ascii) : option Z :=
  let v := byte_val c in
  if byte_in 65 90 c then Some (v - 65)
  else if byte_in 97 122 c then Some (v - 71)
  else if byte_in 48 57 c then Some (v + 4)
  else if Ascii.eqb c "-"%char then Some 62
  else if Ascii.eqb c "_"%char then Some 63
  else None.

(** [base64.RawURLEncoding.EncodeToString(src)] *)
Fixpoint EncodeToString (src : string) : string :=
  match src with
  | EmptyString => ""
  | String a EmptyString =>
      let v := byte_val a * 16 in
      String (encode_sextet (v / 64)) (String (encode_sextet (v mod 64)) "")
  | String a (String b EmptyString) =>
      let v := (byte_val a * 256 + byte_val b) * 4 in
      String (encode_sextet (v / 4096))
        (String (encode_sextet (v / 64 mod 64)) (String (encode_sextet (v mod 64)) ""))
  | String a (String b (String c rest)) =>
      let v := byte_val a * 65536 + byte_val b * 256 + byte_val c in
      String (encode_sextet (v / 262144))
        (String (encode_sextet (v / 4096 mod 64))
           (String (encode_sextet (v / 64 mod 64))
              (String (encode_sextet (v mod 64)) (EncodeToString rest))))
  end.

(** The sextets of the input; a byte outside the alphabet that is not a line
    break is a [CorruptInputError]. *)
Fixpoint sextets (s : string) : option (list Z) :=
  match s with
  | EmptyString => Some []
  | String c s' =>
      match decode_sextet c with
      | Some v => (v ::.) <$> sextets s'
      | None => if byte_in 10 10 c || byte_in 13 13 c then sextets s' else None
      end
  end.

(** Four sextets make three bytes; a final group has two or three sextets. *)
Fixpoint join_sextets (vs : list Z) : option string :=
  match vs with
  | [] => Some ""
  | [_] => None
  | [v0; v1] => Some (String (byte_of ((v0 * 64 + v1) / 16)) "")
  | [v0; v1; v2] =>
      let v := (v0 * 64 + v1) * 64 + v2 in
      Some (String (byte_of (v / 1024)) (String (byte_of (v / 4 mod 256)) ""))
  | v0 :: v1 :: v2 :: v3 :: rest =>
      let v := ((v0 * 64 + v1) * 64 + v2) * 64 + v3 in
      (λ r, String (byte_of (v / 65536))
              (String (byte_of (v / 256 mod 256)) (String (byte_of (v mod 256)) r)))
        <$> join_sextets rest
  end.

(** [base64.RawURLEncoding.DecodeString(s)] *)
Definition DecodeString (s : string) : option string := sextets s ≫= join_sextets.

(** The program's canonicality test: [s] is what encoding a value of [n]
    bytes gives. *)
Definition canonical_base64 (n : Z) (s : string) : bool :=
  match DecodeString s with
  | Some decoded => (len decoded =? n) && String.eqb (EncodeToString decoded) s
  | None => false
  end.

(** ** Encoding and decoding are inverse *)

Lemma decode_encode_sextet n : 0 ≤ n < 64 → decode_sextet (encode_sextet n) = Some n.
Proof.
  intros Hn.
  assert (∀ k, (k < 64)%nat → decode_sextet (encode_sextet (Z.of_nat k)) = Some (Z.of_nat k)) as H.
  { intros k Hk. do 64 (destruct k as [|k]; [done|]). lia. }
  specialize (H (Z.to_nat n)). rewrite Z2Nat.id in H by lia. apply H. lia.
Qed.

Lemma string_ind3 (P : string → Prop) :
  P "" → (∀ a, P (String a "")) → (∀ a b, P (String a (String b ""))) →
  (∀ a b c s, P s → P (String a (String b (String c s)))) → ∀ s, P s.
Proof.
  intros H0 H1 H2 H3. fix IH 1. intros [|a [|b [|c s]]]; [apply H0|apply H1|apply H2|apply H3, IH].
Qed.

Lemma byte_of_eq z c : z = byte_val c → byte_of z = c.
Proof. intros ->. apply byte_of_val. Qed.

Lemma sextets_encoded n s :
  0 ≤ n < 64 → sextets (String (encode_sextet n) s) = (n ::.) <$> sextets s.
Proof. intros Hn. simpl. by rewrite decode_encode_sextet. Qed.

Ltac sextet_arith :=
  Z.to_euclidean_division_equations; lia.

Lemma DecodeString_EncodeToString s : DecodeString (EncodeToString s) = Some s.
Proof.
  unfold DecodeString.
  assert (∃ vs, sextets (EncodeToString s) = Some vs ∧ join_sextets vs = Some s)
    as (vs & -> & H); [|exact H].
  induction s as [|a|a b|a b c s (vs & Hvs & Hs)] using string_ind3;
    cbn [EncodeToString]; cbv zeta.
  - by exists [].
  - pose proof (byte_val_range a).
    rewrite !sextets_encoded by sextet_arith. simpl. eexists; split; [done|].
    simpl. do 2 f_equal. apply byte_of_eq. sextet_arith.
  - pose proof (byte_val_range a). pose proof (byte_val_range b).
    rewrite !sextets_encoded by sextet_arith. simpl. eexists; split; [done|].
    simpl. f_equal. f_equal; [|f_equal]; apply byte_of_eq; sextet_arith.
  - pose proof (byte_val_range a). pose proof (byte_val_range b).
    pose proof (byte_val_range c).
    rewrite !sextets_encoded by sextet_arith. rewrite Hvs.
    simpl. eexists; split; [done|].
    simpl. rewrite Hs. simpl.
    f_equal. f_equal; [|f_equal; [|f_equal]]; apply byte_of_eq; sextet_arith.
Qed.

Lemma EncodeToString_inj s1 s2 : EncodeToString s1 = EncodeToString s2 → s1 = s2.
Proof.
  intros H. apply (f_equal DecodeString) in H.
  rewrite !DecodeString_EncodeToString in H. congruence.
Qed.

Lemma EncodeToString_len s :
  len (EncodeToString s) = len s / 3 * 4 + (len s mod 3 * 8 + 5) / 6.
Proof.
  unfold len. induction s as [|a|a b|a b c s IH] using string_ind3; [done..|].
  cbn [EncodeToString String.length]. cbv zeta. rewrite !Nat2Z.inj_succ, IH.
  generalize (Z.of_nat (String.length s)). intros z.
  replace (Z.succ (Z.succ (Z.succ z))) with (z + 1 * 3) by lia.
  rewrite Z.div_add, Z.mod_add by done. lia.
Qed.

Lemma canonical_base64_spec n s :
  canonical_base64 n s = true ↔ ∃ b, len b = n ∧ s = EncodeToString b.
Proof.
  unfold canonical_base64. split.
  - intros H. case_match; [|done]. go_bool. eauto.
  - intros (b & <- & ->). rewrite DecodeString_EncodeToString.
    rewrite Z.eqb_refl. simpl. apply String.eqb_refl.
Qed.

(** The bytes of an encoded string are those of the alphabet. *)
Definition base64url_byte (c : ascii) : bool :=
  match decode_sextet c with Some _ => true | None => false end.

Lemma encode_sextet_byte n : 0 ≤ n < 64 → base64url_byte (encode_sextet n) = true.
Proof. intros. unfold base64url_byte. by rewrite decode_encode_sextet. Qed.

Lemma EncodeToString_bytes s : string_forallb base64url_byte (EncodeToString s) = true.
Proof.
  induction s as [|a|a b|a b c s IH] using string_ind3; [done|..];
    cbn [EncodeToString string_forallb]; cbv zeta;
    repeat match goal with x : ascii |- _ =>
      lazymatch goal with _ : 0 ≤ byte_val x < 256 |- _ => fail
      | _ => pose proof (byte_val_range x) end end;
    rewrite !encode_sextet_byte by sextet_arith; [done..|exact IH].
Qed.

Close Scope Z_scope.
