(* ===== verification/Json.v ===== *)
(** * encoding/json

    The part of Go's [encoding/json] that the program uses: the scanner's
    grammar with its nesting limit, string unquoting, the decoding of a value
    into a Go struct (exact, then case-folded member names, unknown members,
    null, integer ranges), and the compact output of [json.Marshal] with its
    HTML-safe escapes.

    A document is kept as a tree whose objects are lists of members, so that
    the order and the repetition of members are visible. *)

From S2P Require Export GoStrings.

Open Scope Z_scope.

Inductive json :=
| JNull
| JBool (b : bool)
| JNumber (literal : string)
| JString (s : string)
| JArray (elements : list json)
| JObject (members : list (string * json)).

(** ** Lexical scanning *)

Definition json_space (c : ascii) : bool :=
  byte_in 32 32 c || byte_in 9 10 c || byte_in 13 13 c.

Fixpoint skip_space (s : string) : string :=
  match s with
  | String c s' => if json_space c then skip_space s' else s
  | EmptyString => s
  end.

(** The longest prefix of decimal digits and what follows it. *)
Fixpoint span_digits (s : string) : string * string :=
  match s with
  | String c s' =>
      if is_digit c then let '(d, r) := span_digits s' in (String c d, r) else ("", s)
  | EmptyString => ("", s)
  end.

(** [(. [0-9]+)?] *)
Definition scan_fraction (s : string) : option (string * string) :=
  match s with
  | String c s' =>
      if byte_val c =? 46 then
        let '(d, r) := span_digits s' in
        if String.eqb d "" then None else Some (String c d, r)
      else Some ("", s)
  | EmptyString => Some ("", s)
  end.

(** [[+-]?] *)
Definition scan_sign (s : string) : string * string :=
  match s with
  | String c r => if (byte_val c =? 43) || (byte_val c =? 45) then (String c "", r) else ("", s)
  | EmptyString => ("", s)
  end.

(** [([eE] [+-]? [0-9]+)?] *)
Definition scan_exponent (s : string) : option (string * string) :=
  match s with
  | String c s' =>
      if (byte_val c =? 101) || (byte_val c =? 69) then
        let '(sign, s'') := scan_sign s' in
        let '(d, r) := span_digits s'' in
        if String.eqb d "" then None else Some (String c (sign +:+ d), r)
      else Some ("", s)
  | EmptyString => Some ("", s)
  end.

(** [0 | [1-9][0-9]*] *)
Definition scan_integer (s : string) : option (string * string) :=
  match s with
  | String c s' =>
      if byte_val c =? 48 then Some (String c "", s')
      else if is_digit c then Some (span_digits s) else None
  | EmptyString => None
  end.

(** [-? (0 | [1-9][0-9]* ) (. [0-9]+)? ([eE] [+-]? [0-9]+)?] *)
Definition scan_number (s : string) : option (string * string) :=
  let '(sign, s) :=
    match s with
    | String c s' => if byte_val c =? 45 then (String c "", s') else ("", s)
    | EmptyString => ("", s)
    end in
  '(i, s) ← scan_integer s;
  '(f, s) ← scan_fraction s;
  '(e, s) ← scan_exponent s;
  Some (sign +:+ i +:+ f +:+ e, s).

(** *** Strings *)

Definition hex_val (c : ascii) : option Z :=
  let v := byte_val c in
  if byte_in 48 57 c then Some (v - 48)
  else if byte_in 97 102 c then Some (v - 87)
  else if byte_in 65 70 c then Some (v - 55)
  else None.

(** The four hexadecimal digits after [\u]. *)
Definition scan_u4 (s : string) : option (Z * string) :=
  match s with
  | String a (String b (String c (String d r))) =>
      match hex_val a, hex_val b, hex_val c, hex_val d with
      | Some a, Some b, Some c, Some d => Some (((a * 16 + b) * 16 + c) * 16 + d, r)
      | _, _, _, _ => None
      end
  | _ => None
  end.

(** [utf8.AppendRune]: surrogates and values above U+10FFFF become U+FFFD. *)
Definition utf8_encode (r : Z) : string :=
  if (r <? 128) then byte_string [r]
  else if (r <? 2048) then byte_string [192 + r / 64; 128 + r mod 64]
  else if ((55296 <=? r) && (r <? 57344)) || (1114111 <? r) then byte_string [239; 191; 189]
  else if (r <? 65536) then
    byte_string [224 + r / 4096; 128 + r / 64 mod 64; 128 + r mod 64]
  else byte_string [240 + r / 262144; 128 + r / 4096 mod 64; 128 + r / 64 mod 64; 128 + r mod 64].

Definition replacement : string := byte_string [239; 191; 189].

(** The byte denoted by the escape [\c], [\u] apart. *)
Definition escape_char (c : ascii) : option ascii :=
  let v := byte_val c in
  if (v =? 34) || (v =? 92) || (v =? 47) then Some c
  else if v =? 98 then Some (byte_of 8)
  else if v =? 102 then Some (byte_of 12)
  else if v =? 110 then Some (byte_of 10)
  else if v =? 114 then Some (byte_of 13)
  else if v =? 116 then Some (byte_of 9)
  else None.

(** [s[:n]] and [s[n:]] *)
Fixpoint split_at (n : nat) (s : string) : string * string :=
  match n, s with
  | S n, String c s' => let '(a, b) := split_at n s' in (String c a, b)
  | _, _ => ("", s)
  end.

Definition emit (chunk : string) (r : option (string * string)) : option (string * string) :=
  (λ '(t, rest), (chunk +:+ t, rest)) <$> r.

(** A [\u] escape that denotes a surrogate: it takes its second half from a
    directly following [\u] escape, or becomes U+FFFD.  The result is the
    decoded rune and what follows. *)
Definition scan_surrogate (u : Z) (s : string) : string * string :=
  match s with
  | String b (String v r) =>
      if (byte_val b =? 92) && (byte_val v =? 117) then
        match scan_u4 r with
        | Some (u2, r2) =>
            if (u <? 56320) && (56320 <=? u2) && (u2 <? 57344)
            then (utf8_encode (65536 + (u - 55296) * 1024 + (u2 - 56320)), r2)
            else (replacement, s)
        | None => (replacement, s)
        end
      else (replacement, s)
  | _ => (replacement, s)
  end.

(** The rest of a string literal after its opening quote: the unquoted value
    and what follows the closing quote. *)
Fixpoint scan_string (fuel : nat) (s : string) : option (string * string) :=
  match fuel with
  | O => None
  | S fuel =>
      match s with
      | EmptyString => None
      | String c r =>
          let v := byte_val c in
          if v =? 34 then Some ("", r)
          else if v =? 92 then
            match r with
            | EmptyString => None
            | String e r' =>
                if byte_val e =? 117 then
                  match scan_u4 r' with
                  | None => None
                  | Some (u, r2) =>
                      if (55296 <=? u) && (u <? 57344) then
                        let '(chunk, r3) := scan_surrogate u r2 in
                        emit chunk (scan_string fuel r3)
                      else emit (utf8_encode u) (scan_string fuel r2)
                  end
                else
                  match escape_char e with
                  | Some c' => emit (String c' "") (scan_string fuel r')
                  | None => None
                  end
            end
          else if v <? 32 then None
          else
            match rune_size s with
            | None => emit replacement (scan_string fuel r)
            | Some n => let '(chunk, r2) := split_at n s in emit chunk (scan_string fuel r2)
            end
      end
  end.

Definition scan_quoted (s : string) : option (string * string) :=
  match s with
  | String c r => if byte_val c =? 34 then scan_string (S (String.length r)) r else None
  | EmptyString => None
  end.

(** Drop a literal word. *)
Definition expect (word s : string) : option string :=
  if HasPrefix s word then Some (TrimPrefix s word) else None.

(** A value that is neither an array nor an object. *)
Definition scan_scalar (s : string) : option (json * string) :=
  match s with
  | EmptyString => None
  | String c _ =>
      let v := byte_val c in
      if v =? 34 then (λ '(t, r), (JString t, r)) <$> scan_quoted s
      else if v =? 110 then (λ r, (JNull, r)) <$> expect "null" s
      else if v =? 116 then (λ r, (JBool true, r)) <$> expect "true" s
      else if v =? 102 then (λ r, (JBool false, r)) <$> expect "false" s
      else (λ '(t, r), (JNumber t, r)) <$> scan_number s
  end.

(** ** Values *)

(** [maxNestingDepth] of the scanner. *)
Definition max_nesting_depth : Z := 10000.

Definition starts_with (v : Z) (s : string) : option string :=
  match s with
  | String c r => if byte_val c =? v then Some r else None
  | EmptyString => None
  end.

(** A value, the members of an object after its opening brace (at least one),
    the elements of an array after its opening bracket (at least one). *)
Fixpoint parse_value (fuel : nat) (depth : Z) (s : string) : option (json * string) :=
  match fuel with
  | O => None
  | S fuel =>
      let s := skip_space s in
      match starts_with 123 s with
      | Some r =>
          if max_nesting_depth <=? depth then None else
          match starts_with 125 (skip_space r) with
          | Some r' => Some (JObject [], r')
          | None => (λ '(ms, r'), (JObject ms, r')) <$> parse_members fuel (depth + 1) r
          end
      | None =>
          match starts_with 91 s with
          | Some r =>
              if max_nesting_depth <=? depth then None else
              match starts_with 93 (skip_space r) with
              | Some r' => Some (JArray [], r')
              | None => (λ '(vs, r'), (JArray vs, r')) <$> parse_elements fuel (depth + 1) r
              end
          | None => scan_scalar s
          end
      end
  end
with parse_members (fuel : nat) (depth : Z) (s : string)
    : option (list (string * json) * string) :=
  match fuel with
  | O => None
  | S fuel =>
      '(key, s) ← scan_quoted (skip_space s);
      s ← starts_with 58 (skip_space s);
      '(v, s) ← parse_value fuel depth s;
      match starts_with 44 (skip_space s) with
      | Some s => (λ '(ms, s), ((key, v) :: ms, s)) <$> parse_members fuel depth s
      | None => (λ s, ([(key, v)], s)) <$> starts_with 125 (skip_space s)
      end
  end
with parse_elements (fuel : nat) (depth : Z) (s : string)
    : option (list json * string) :=
  match fuel with
  | O => None
  | S fuel =>
      '(v, s) ← parse_value fuel depth s;
      match starts_with 44 (skip_space s) with
      | Some s => (λ '(vs, s), (v :: vs, s)) <$> parse_elements fuel depth s
      | None => (λ s, ([v], s)) <$> starts_with 93 (skip_space s)
      end
  end.

Definition parse_fuel (s : string) : nat := 2 * String.length s + 2.

Definition json_syntax_error : error := Errorf "json: syntax error" [].
Definition json_type_error : error := Errorf "json: cannot unmarshal value" [].

(** [decoder.Decode] on the next value of a stream, and the rest of it. *)
Definition decode_next (s : string) : result (json * string) :=
  if String.eqb (skip_space s) "" then Err ErrEOF
  else match parse_value (parse_fuel s) 0 s with
       | Some r => Ok r
       | None => Err json_syntax_error
       end.

(** [json.Unmarshal] scans the whole input first: one value and spaces. *)
Definition parse_document (s : string) : result json :=
  match parse_value (parse_fuel s) 0 s with
  | Some (j, rest) => if String.eqb (skip_space rest) "" then Ok j else Err json_syntax_error
  | None => Err json_syntax_error
  end.

(** ** Decoding into Go values

    A decoder updates the current value of its target; [None] is an
    [UnmarshalTypeError] or an unknown member, after which [Decode] returns an
    error.  [null] leaves a value unchanged and resets a pointer or a slice. *)

Definition decode_string (j : json) (old : string) : option string :=
  match j with JNull => Some old | JString s => Some s | _ => None end.

Definition decode_bool (j : json) (old : bool) : option bool :=
  match j with JNull => Some old | JBool b => Some b | _ => None end.

Definition decode_uint (bits : Z) (j : json) (old : Z) : option Z :=
  match j with JNull => Some old | JNumber n => ParseUint n bits | _ => None end.

Definition decode_int64 (j : json) (old : Z) : option Z :=
  match j with JNull => Some old | JNumber n => ParseInt n | _ => None end.

Definition decode_pointer {A} (zero : A) (dec : json → A → option A)
    (j : json) (old : option A) : option (option A) :=
  match j with
  | JNull => Some None
  | _ => Some <$> dec j (default zero old)
  end.

(** [foldName]: ASCII letters fold to upper case, and the two runes whose
    simple folding is an ASCII letter, U+017F (s) and U+212A (K), fold too. *)
Fixpoint fold_name (s : string) : string :=
  match s with
  | EmptyString => ""
  | String a s1 =>
      if byte_in 97 122 a then String (byte_of (byte_val a - 32)) (fold_name s1)
      else
        match s1 with
        | String b s2 =>
            if (byte_val a =? 197) && (byte_val b =? 191) then String "S"%char (fold_name s2)
            else
              match s2 with
              | String c s3 =>
                  if (byte_val a =? 226) && (byte_val b =? 132) && (byte_val c =? 170)
                  then String "K"%char (fold_name s3)
                  else String a (fold_name s1)
              | EmptyString => String a (fold_name s1)
              end
        | EmptyString => String a (fold_name s1)
        end
  end.

(** The JSON fields of a struct type [T] in declaration order. *)
Record json_field (T : Type) := JsonField {
  jf_name : string;
  jf_decode : json → T → option T;
}.
Arguments JsonField {T} _ _.
Arguments jf_name {T} _.
Arguments jf_decode {T} _ _ _.

Definition find_field {T} (fields : list (json_field T)) (key : string)
    : option (json_field T) :=
  match list_find (λ f, jf_name f = key) fields with
  | Some (_, f) => Some f
  | None => snd <$> list_find (λ f, fold_name (jf_name f) = fold_name key) fields
  end.

Fixpoint decode_members {T} (disallow_unknown : bool) (fields : list (json_field T))
    (members : list (string * json)) (t : T) : option T :=
  match members with
  | [] => Some t
  | (key, v) :: rest =>
      match find_field fields key with
      | Some f => t' ← jf_decode f v t; decode_members disallow_unknown fields rest t'
      | None => if disallow_unknown then None
                else decode_members disallow_unknown fields rest t
      end
  end.

Definition decode_struct {T} (disallow_unknown : bool) (fields : list (json_field T))
    (j : json) (t : T) : option T :=
  match j with
  | JNull => Some t
  | JObject members => decode_members disallow_unknown fields members t
  | _ => None
  end.

Definition type_checked {A} (o : option A) : result A :=
  match o with Some a => Ok a | None => Err json_type_error end.

(** ** json.Marshal *)

Definition hex_digit (n : Z) : ascii :=
  if n <? 10 then byte_of (48 + n) else byte_of (87 + n).

Definition escape_u00 (v : Z) : string :=
  "\u00" +:+ String (hex_digit (v / 16)) (String (hex_digit (v mod 16)) "").

(** One byte below 0x80 inside a marshalled string. *)
Definition quote_ascii (c : ascii) : string :=
  let v := byte_val c in
  if (v =? 34) || (v =? 92) then String "\"%char (String c "")
  else if v =? 8 then "\b"
  else if v =? 12 then "\f"
  else if v =? 10 then "\n"
  else if v =? 13 then "\r"
  else if v =? 9 then "\t"
  else if (v <? 32) || (v =? 60) || (v =? 62) || (v =? 38) then escape_u00 v
  else String c "".

(** The body of a marshalled string: HTML-safe escapes, U+2028 and U+2029
    escaped, invalid UTF-8 replaced. *)
Fixpoint quote_body (fuel : nat) (s : string) : string :=
  match fuel, s with
  | S fuel, String c r =>
      if byte_in 0 127 c then quote_ascii c +:+ quote_body fuel r
      else
        match rune_size s with
        | None => "\ufffd" +:+ quote_body fuel r
        | Some n =>
            let '(chunk, r2) := split_at n s in
            (if String.eqb chunk (byte_string [226; 128; 168]) then "\u2028"
             else if String.eqb chunk (byte_string [226; 128; 169]) then "\u2029"
             else chunk) +:+ quote_body fuel r2
        end
  | _, _ => ""
  end.

Definition dquote : string := byte_string [34].

Definition quote_string (s : string) : string :=
  dquote +:+ quote_body (String.length s) s +:+ dquote.

(** Items separated by commas. *)
Fixpoint join_comma (items : list string) : string :=
  match items with
  | [] => ""
  | [x] => x
  | x :: rest => x +:+ "," +:+ join_comma rest
  end.

Fixpoint print_json (j : json) : string :=
  match j with
  | JNull => "null"
  | JBool b => if b then "true" else "false"
  | JNumber n => n
  | JString s => quote_string s
  | JArray vs => "[" +:+ join_comma (print_json <$> vs) +:+ "]"
  | JObject ms =>
      "{" +:+ join_comma ((λ '(k, v), quote_string k +:+ ":" +:+ print_json v) <$> ms) +:+ "}"
  end.

(** Members of a marshalled struct; [omitempty] drops a member. *)
Definition jnum (z : Z) : json := JNumber (FormatInt z).
Definition omit_if (cond : bool) (m : string * json) : list (string * json) :=
  if cond then [] else [m].

Close Scope Z_scope.
