(* ===== verification/JsonTermination.v ===== *)
(** * The JSON parser's bound is never reached

    A value that parses consumes a byte, so two rounds for each byte of the
    input and two more are enough: with more of them the parser's result, a
    refusal included, is the same.  What the parser refuses is refused by the
    grammar. *)

From S2P Require Export Json.

Open Scope Z_scope.

(** ** What the scanners leave *)

Lemma skip_space_length s : (String.length (skip_space s) ≤ String.length s)%nat.
Proof. induction s as [|c s IH]; [done|]. simpl. destruct (json_space c); simpl; lia. Qed.

Lemma span_digits_length s : (String.length (span_digits s).2 ≤ String.length s)%nat.
Proof.
  induction s as [|c s IH]; [done|]. simpl. destruct (is_digit c); [|done].
  destruct (span_digits s) as [d r]. simpl in *. lia.
Qed.

Lemma scan_sign_length s : (String.length (scan_sign s).2 ≤ String.length s)%nat.
Proof. destruct s as [|c s]; [done|]. simpl. destruct (_ || _); simpl; lia. Qed.

Lemma scan_integer_length s i r : scan_integer s = Some (i, r) → (String.length r < String.length s)%nat.
Proof.
  destruct s as [|c s]; [done|]. unfold scan_integer. destruct (_ =? 48).
  { intros [= _ <-]. simpl. lia. }
  destruct (is_digit c) eqn:Hc; [|done]. cbn [span_digits]. rewrite Hc.
  pose proof (span_digits_length s). destruct (span_digits s) as [d r']. intros [= _ <-]. simpl in *. lia.
Qed.

Lemma scan_fraction_length s f r : scan_fraction s = Some (f, r) → (String.length r ≤ String.length s)%nat.
Proof.
  destruct s as [|c s]; [by intros [= _ <-]|]. cbn [scan_fraction]. destruct (_ =? 46); [|by intros [= _ <-]].
  pose proof (span_digits_length s). destruct (span_digits s) as [d r']. destruct (String.eqb d ""); [done|].
  intros [= _ <-]. simpl in *. lia.
Qed.

Lemma scan_exponent_length s e r : scan_exponent s = Some (e, r) → (String.length r ≤ String.length s)%nat.
Proof.
  destruct s as [|c s]; [by intros [= _ <-]|]. cbn [scan_exponent]. destruct (_ || _); [|by intros [= _ <-]].
  pose proof (scan_sign_length s). destruct (scan_sign s) as [sg s']. pose proof (span_digits_length s').
  destruct (span_digits s') as [d r']. destruct (String.eqb d ""); [done|]. intros [= _ <-]. simpl in *. lia.
Qed.

Lemma scan_number_length s n r : scan_number s = Some (n, r) → (String.length r < String.length s)%nat.
Proof.
  unfold scan_number. set (q := match s with String c s' => _ | EmptyString => _ end).
  assert (String.length q.2 ≤ String.length s)%nat as Hq.
  { subst q. destruct s as [|c s']; [done|]. destruct (_ =? 45); simpl; lia. }
  destruct q as [sg s1]. destruct (scan_integer s1) as [[i s2]|] eqn:Ei; cbn [mbind option_bind]; [|done].
  destruct (scan_fraction s2) as [[f s3]|] eqn:Ef; cbn [mbind option_bind]; [|done].
  destruct (scan_exponent s3) as [[e s4]|] eqn:Ee; cbn [mbind option_bind]; [|done].
  intros [= _ <-]. apply scan_integer_length in Ei. apply scan_fraction_length in Ef.
  apply scan_exponent_length in Ee. simpl in *. lia.
Qed.

Lemma scan_u4_length s u r : scan_u4 s = Some (u, r) → (String.length r < String.length s)%nat.
Proof.
  destruct s as [|a [|b [|c [|d s]]]]; try done. cbn [scan_u4].
  destruct (hex_val a), (hex_val b), (hex_val c), (hex_val d); try done. intros [= _ <-]. simpl. lia.
Qed.

Lemma scan_surrogate_length u s : (String.length (scan_surrogate u s).2 ≤ String.length s)%nat.
Proof.
  destruct s as [|b [|v r]]; [done|done|]. cbn [scan_surrogate]. destruct (_ && _); [|done].
  destruct (scan_u4 r) as [[u2 r2]|] eqn:E; [|done]. destruct (_ && _); [|done].
  apply scan_u4_length in E. simpl in *. lia.
Qed.

Lemma split_at_rest_length n s : (String.length (split_at n s).2 = String.length s - n)%nat.
Proof.
  revert s. induction n as [|n IH]; intros [|c s]; [done|simpl; lia|done|]. cbn [split_at].
  specialize (IH s). destruct (split_at n s) as [a b]. simpl in *. lia.
Qed.

Lemma rune_size_positive s n : rune_size s = Some n → (1 ≤ n)%nat.
Proof. unfold rune_size. intros Hs. repeat case_match; simplify_eq; lia. Qed.

(** ** Strings *)

(** The value denoted by an escape and what follows it, one round of
    [scan_string]: both results below look at the rounds through it. *)
Definition scan_round (s : string) : option (option string * string) :=
  match s with
  | EmptyString => None
  | String c r =>
      let v := byte_val c in
      if v =? 34 then Some (None, r)
      else if v =? 92 then
        match r with
        | EmptyString => None
        | String e r' =>
            if byte_val e =? 117 then
              '(u, r2) ← scan_u4 r';
              if (55296 <=? u) && (u <? 57344)
              then let '(chunk, r3) := scan_surrogate u r2 in Some (Some chunk, r3)
              else Some (Some (utf8_encode u), r2)
            else (λ c', (Some (String c' ""), r')) <$> escape_char e
        end
      else if v <? 32 then None
      else match rune_size s with
           | None => Some (Some replacement, r)
           | Some n => let '(chunk, r2) := split_at n s in Some (Some chunk, r2)
           end
  end.

Lemma scan_string_round fuel s :
  scan_string (S fuel) s =
  '(chunk, r) ← scan_round s;
  match chunk with None => Some ("", r) | Some chunk => emit chunk (scan_string fuel r) end.
Proof.
  destruct s as [|c r]; [done|]. cbn [scan_string scan_round]. destruct (_ =? 34); [done|].
  destruct (_ =? 92).
  - destruct r as [|e r']; [done|]. destruct (_ =? 117); [|by destruct (escape_char e)].
    destruct (scan_u4 r') as [[u r2]|]; cbn [mbind option_bind]; [|done].
    destruct (_ && _); [|done]. by destruct (scan_surrogate u r2).
  - destruct (_ <? 32); [done|]. destruct (rune_size _) as [n|]; [|done]. by destruct (split_at n _).
Qed.

Lemma scan_round_length s chunk r :
  scan_round s = Some (chunk, r) → (String.length r < String.length s)%nat.
Proof.
  destruct s as [|c s]; [done|]. cbn [scan_round]. destruct (_ =? 34); [intros [= _ <-]; simpl; lia|].
  destruct (_ =? 92).
  - destruct s as [|e s]; [done|]. destruct (_ =? 117).
    + destruct (scan_u4 s) as [[u r2]|] eqn:E; cbn [mbind option_bind]; [|done]. apply scan_u4_length in E.
      destruct (_ && _); [|intros [= _ <-]; simpl; lia].
      pose proof (scan_surrogate_length u r2). destruct (scan_surrogate u r2) as [ch r3].
      intros [= _ <-]. simpl in *. lia.
    + destruct (escape_char e); [|done]. intros [= _ <-]. simpl. lia.
  - destruct (_ <? 32); [done|]. destruct (rune_size _) as [n|] eqn:E; [|intros [= _ <-]; simpl; lia].
    apply rune_size_positive in E. pose proof (split_at_rest_length n (String c s)).
    destruct (split_at n (String c s)) as [ch r2]. intros [= _ <-]. simpl in *. lia.
Qed.

Lemma emit_rest chunk r t rest : emit chunk r = Some (t, rest) → ∃ t', r = Some (t', rest).
Proof. destruct r as [[t' r']|]; [|done]. intros [= _ <-]. eauto. Qed.

Lemma scan_string_length fuel s t r : scan_string fuel s = Some (t, r) → (String.length r < String.length s)%nat.
Proof.
  revert s t. induction fuel as [|fuel IH]; intros s t; [done|]. rewrite scan_string_round.
  destruct (scan_round s) as [[chunk r1]|] eqn:E; cbn [mbind option_bind]; [|done].
  apply scan_round_length in E. destruct chunk as [chunk|]; [|by intros [= _ <-]].
  intros (t' & Ht)%emit_rest. apply IH in Ht. lia.
Qed.

(** The fuel of [scan_quoted] is enough for its string. *)
Lemma scan_string_enough f g s :
  (String.length s < f)%nat → (String.length s < g)%nat → scan_string f s = scan_string g s.
Proof.
  revert g s. induction f as [|f IH]; intros [|g] s Hf Hg; [lia|lia|lia|]. rewrite !scan_string_round.
  destruct (scan_round s) as [[chunk r1]|] eqn:E; cbn [mbind option_bind]; [|done].
  apply scan_round_length in E. destruct chunk; [|done]. f_equal. apply IH; lia.
Qed.

Lemma scan_quoted_length s t r : scan_quoted s = Some (t, r) → (String.length r < String.length s)%nat.
Proof.
  destruct s as [|c s]; [done|]. unfold scan_quoted. destruct (_ =? 34); [|done].
  intros H%scan_string_length. cbn [String.length]. lia.
Qed.

(** ** Values *)

Lemma expect_length word s r :
  word ≠ "" → expect word s = Some r → (String.length r < String.length s)%nat.
Proof.
  unfold expect. intros Hw. destruct (HasPrefix s word) eqn:E; [|done].
  apply HasPrefix_spec in E as [t ->]. rewrite TrimPrefix_app, string_app_length. intros [= <-].
  destruct word; [done|]. simpl. lia.
Qed.

Lemma fmap_rest {A B} (f : A → B) (o : option (A * string)) b r :
  (λ '(a, rest), (f a, rest)) <$> o = Some (b, r) → ∃ a, o = Some (a, r).
Proof. destruct o as [[a r']|]; [|done]. intros [= _ <-]. eauto. Qed.

Lemma scan_scalar_length s j r : scan_scalar s = Some (j, r) → (String.length r < String.length s)%nat.
Proof.
  destruct s as [|c s]; [done|]. cbn [scan_scalar].
  assert (∀ word j', word ≠ "" → (λ r, (j' : json, r)) <$> expect word (String c s) = Some (j, r) →
    (String.length r < String.length (String c s))%nat) as Hword.
  { intros word j' Hw. destruct (expect word (String c s)) eqn:E; [|done]. intros [= _ <-].
    by apply (expect_length word). }
  destruct (_ =? 34); [intros [t Ht]%fmap_rest; by apply scan_quoted_length in Ht|].
  destruct (_ =? 110); [by apply Hword|]. destruct (_ =? 116); [by apply Hword|].
  destruct (_ =? 102); [by apply Hword|]. intros [t Ht]%fmap_rest. by apply scan_number_length in Ht.
Qed.

Lemma starts_with_length v s r :
  starts_with v s = Some r → (String.length r < String.length s)%nat.
Proof. destruct s as [|c s]; [done|]. simpl. destruct (_ =? v); [|done]. intros [= <-]. lia. Qed.

Lemma starts_with_space_length v s r :
  starts_with v (skip_space s) = Some r → (String.length r < String.length s)%nat.
Proof. intros H%starts_with_length. pose proof (skip_space_length s). lia. Qed.

(** The key of a member and its colon. *)
Definition member_key (s : string) : option (string * string) :=
  '(key, s) ← scan_quoted (skip_space s); (λ s, (key, s)) <$> starts_with 58 (skip_space s).

Lemma member_key_length s key r : member_key s = Some (key, r) → (String.length r < String.length s)%nat.
Proof.
  unfold member_key. destruct (scan_quoted _) as [[k s1]|] eqn:E; cbn [mbind option_bind]; [|done].
  destruct (starts_with 58 _) eqn:E2; [|done]. intros [= _ <-].
  apply scan_quoted_length in E. apply starts_with_space_length in E2. pose proof (skip_space_length s). lia.
Qed.

Lemma parse_members_unfold fuel depth s :
  parse_members (S fuel) depth s =
  '(key, s) ← member_key s;
  '(v, s) ← parse_value fuel depth s;
  match starts_with 44 (skip_space s) with
  | Some s => (λ '(ms, s), ((key, v) :: ms, s)) <$> parse_members fuel depth s
  | None => (λ s, ([(key, v)], s)) <$> starts_with 125 (skip_space s)
  end.
Proof.
  cbn [parse_members]. unfold member_key. destruct (scan_quoted _) as [[k s1]|]; cbn [mbind option_bind]; [|done].
  by destruct (starts_with 58 _).
Qed.

Definition shortens {A} (parse : string → option (A * string)) : Prop :=
  ∀ s x r, parse s = Some (x, r) → (String.length r < String.length s)%nat.

Lemma single_length {A} (x y : A) v s r :
  (λ s, (x, s)) <$> starts_with v (skip_space s) = Some (y, r) → (String.length r < String.length s)%nat.
Proof. destruct (starts_with _ _) eqn:E; [|done]. intros [= _ <-]. by apply starts_with_space_length in E. Qed.

Lemma parse_length fuel depth :
  shortens (parse_value fuel depth) ∧ shortens (parse_members fuel depth) ∧ shortens (parse_elements fuel depth).
Proof.
  revert depth. induction fuel as [|fuel IH]; intros depth; [done|]. split_and!; intros s x r.
  - destruct (IH (depth + 1)) as (_ & IHm & IHe). cbn [parse_value]. pose proof (skip_space_length s).
    destruct (starts_with 123 _) as [r1|] eqn:E1.
    { apply starts_with_length in E1. destruct (_ <=? _); [done|].
      destruct (starts_with 125 _) as [r2|] eqn:E2.
      - intros [= _ <-]. apply starts_with_space_length in E2. lia.
      - intros [ms Hms]%fmap_rest. apply IHm in Hms. lia. }
    destruct (starts_with 91 _) as [r1|] eqn:E2; [|intros Hs%scan_scalar_length; lia].
    apply starts_with_length in E2. destruct (_ <=? _); [done|].
    destruct (starts_with 93 _) as [r2|] eqn:E3.
    + intros [= _ <-]. apply starts_with_space_length in E3. lia.
    + intros [vs Hvs]%fmap_rest. apply IHe in Hvs. lia.
  - destruct (IH depth) as (IHv & IHm & _). rewrite parse_members_unfold.
    destruct (member_key s) as [[k s1]|] eqn:Ek; cbn [mbind option_bind]; [|done]. apply member_key_length in Ek.
    destruct (parse_value fuel depth s1) as [[v s2]|] eqn:Ev; cbn [mbind option_bind]; [|done]. apply IHv in Ev.
    destruct (starts_with 44 _) as [s3|] eqn:E3; [|intros Hs%single_length; lia].
    intros [ms Hms]%fmap_rest. apply IHm in Hms. apply starts_with_space_length in E3. lia.
  - destruct (IH depth) as (IHv & _ & IHe). cbn [parse_elements].
    destruct (parse_value fuel depth s) as [[v s2]|] eqn:Ev; cbn [mbind option_bind]; [|done]. apply IHv in Ev.
    destruct (starts_with 44 _) as [s3|] eqn:E3; [|intros Hs%single_length; lia].
    intros [vs Hvs]%fmap_rest. apply IHe in Hvs. apply starts_with_space_length in E3. lia.
Qed.

(** Two parsers that agree on every input for which [n] rounds each byte and
    [k] more are below both their bounds. *)
Definition agree {A} (k f g : nat) (parse : nat → Z → string → option (A * string)) : Prop :=
  ∀ depth s, (2 * String.length s + k ≤ f)%nat → (2 * String.length s + k ≤ g)%nat →
    parse f depth s = parse g depth s.

Lemma parse_value_agree f g :
  agree 2 f g parse_members → agree 2 f g parse_elements → agree 1 (S f) (S g) parse_value.
Proof.
  intros Hm He depth s Hf Hg. cbn [parse_value]. pose proof (skip_space_length s).
  destruct (starts_with 123 _) as [r1|] eqn:E1.
  { apply starts_with_length in E1. destruct (_ <=? _); [done|]. destruct (starts_with 125 _); [done|].
    rewrite (Hm _ r1); [done|lia|lia]. }
  destruct (starts_with 91 _) as [r1|] eqn:E2; [|done]. apply starts_with_length in E2.
  destruct (_ <=? _); [done|]. destruct (starts_with 93 _); [done|]. rewrite (He _ r1); [done|lia|lia].
Qed.

Lemma parse_members_agree f g :
  agree 1 f g parse_value → agree 2 f g parse_members → agree 2 (S f) (S g) parse_members.
Proof.
  intros Hv Hm depth s Hf Hg. rewrite !parse_members_unfold.
  destruct (member_key s) as [[k s1]|] eqn:Ek; cbn [mbind option_bind]; [|done]. apply member_key_length in Ek.
  rewrite (Hv depth s1) by lia.
  destruct (parse_value g depth s1) as [[v s2]|] eqn:Ev; cbn [mbind option_bind]; [|done].
  apply (proj1 (parse_length g depth)) in Ev.
  destruct (starts_with 44 _) as [s3|] eqn:E3; [|done]. apply starts_with_space_length in E3.
  rewrite (Hm depth s3); [done|lia|lia].
Qed.

Lemma parse_elements_agree f g :
  agree 1 f g parse_value → agree 2 f g parse_elements → agree 2 (S f) (S g) parse_elements.
Proof.
  intros Hv He depth s Hf Hg. cbn [parse_elements]. rewrite (Hv depth s) by lia.
  destruct (parse_value g depth s) as [[v s2]|] eqn:Ev; cbn [mbind option_bind]; [|done].
  apply (proj1 (parse_length g depth)) in Ev.
  destruct (starts_with 44 _) as [s3|] eqn:E3; [|done]. apply starts_with_space_length in E3.
  rewrite (He depth s3); [done|lia|lia].
Qed.

Lemma parse_agree f g :
  agree 1 f g parse_value ∧ agree 2 f g parse_members ∧ agree 2 f g parse_elements.
Proof.
  revert g. induction f as [|f IH]; intros g; [by split_and!; intros d s Hf; lia|].
  destruct g as [|g]; [by split_and!; intros d s _ Hg; lia|]. destruct (IH g) as (Hv & Hm & He).
  split_and!; [by apply parse_value_agree|by apply parse_members_agree|by apply parse_elements_agree].
Qed.

(** [parse_fuel] is enough: more changes nothing, and a value that parses
    leaves a shorter rest. *)
Lemma parse_fuel_enough fuel depth s :
  (parse_fuel s ≤ fuel)%nat →
  parse_value fuel depth s = parse_value (parse_fuel s) depth s ∧
  ∀ j rest, parse_value fuel depth s = Some (j, rest) → (String.length rest < String.length s)%nat.
Proof.
  unfold parse_fuel. intros Hf. split.
  - apply parse_agree; lia.
  - intros j rest. apply (proj1 (parse_length fuel depth)).
Qed.

(** ** Documents without a bound *)

Definition succeeds_too {A} (f g : string → option (A * string)) : Prop :=
  ∀ s x, f s = Some x → g s = Some x.

Lemma parse_mono f g depth :
  (f ≤ g)%nat →
  succeeds_too (parse_value f depth) (parse_value g depth) ∧
  succeeds_too (parse_members f depth) (parse_members g depth) ∧
  succeeds_too (parse_elements f depth) (parse_elements g depth).
Proof.
  revert g depth. induction f as [|f IH]; intros g depth Hfg; [done|]. destruct g as [|g]; [lia|].
  destruct (IH g depth ltac:(lia)) as (Hv & Hm & He). destruct (IH g (depth + 1) ltac:(lia)) as (_ & Hm1 & He1).
  split_and!; intros s [x r].
  - cbn [parse_value]. destruct (starts_with 123 _) as [r1|].
    { destruct (_ <=? _); [done|]. destruct (starts_with 125 _); [done|].
      destruct (parse_members f _ _) as [p|] eqn:E; [|done]. by rewrite (Hm1 _ _ E). }
    destruct (starts_with 91 _) as [r1|]; [|done]. destruct (_ <=? _); [done|].
    destruct (starts_with 93 _); [done|]. destruct (parse_elements f _ _) as [p|] eqn:E; [|done].
    by rewrite (He1 _ _ E).
  - rewrite !parse_members_unfold. destruct (member_key s) as [[k s1]|]; cbn [mbind option_bind]; [|done].
    destruct (parse_value f depth s1) as [[v s2]|] eqn:Ev; cbn [mbind option_bind]; [|done].
    rewrite (Hv _ _ Ev). cbn [mbind option_bind]. destruct (starts_with 44 _) as [s3|]; [|done].
    destruct (parse_members f _ _) as [p|] eqn:E; [|done]. by rewrite (Hm _ _ E).
  - cbn [parse_elements]. destruct (parse_value f depth s) as [[v s2]|] eqn:Ev; cbn [mbind option_bind]; [|done].
    rewrite (Hv _ _ Ev). cbn [mbind option_bind]. destruct (starts_with 44 _) as [s3|]; [|done].
    destruct (parse_elements f _ _) as [p|] eqn:E; [|done]. by rewrite (He _ _ E).
Qed.

(** [s] is one JSON value, the tree [j], and spaces. *)
Definition json_document (s : string) (j : json) : Prop :=
  ∃ fuel rest, parse_value fuel 0 s = Some (j, rest) ∧ skip_space rest = "".

Lemma parse_unbounded fuel s x :
  parse_value fuel 0 s = Some x → parse_value (parse_fuel s) 0 s = Some x.
Proof.
  intros H. destruct (parse_mono fuel (fuel + parse_fuel s) 0 ltac:(lia)) as (Hv & _).
  rewrite <-(Hv s x H). symmetry. apply parse_fuel_enough. lia.
Qed.

(** The bounded parser finds exactly the documents. *)
Lemma parse_document_exact s j : parse_document s = Ok j ↔ json_document s j.
Proof.
  unfold parse_document, json_document. split.
  - destruct (parse_value (parse_fuel s) 0 s) as [[j' rest]|] eqn:E; [|done].
    destruct (String.eqb_spec (skip_space rest) ""); [|done]. intros [= ->]. eauto.
  - intros (fuel & rest & H%parse_unbounded & Hrest). by rewrite H, Hrest.
Qed.

Lemma json_document_unique s j1 j2 : json_document s j1 → json_document s j2 → j1 = j2.
Proof. rewrite <-!parse_document_exact. congruence. Qed.

Close Scope Z_scope.
