(* ===== verification/JsonRoundTrip.v ===== *)
(** * json.Marshal and the scanner are inverse

    Parsing what [print_json] wrote gives the document back, for documents
    with valid UTF-8 strings, non-negative integer numbers and bounded
    nesting: the shape of everything the program marshals. *)

From S2P Require Export Json.

Open Scope Z_scope.

(** ** Runes *)

Lemma split_at_app n s a b : split_at n s = (a, b) → s = a +:+ b.
Proof.
  revert s a b. induction n as [|n IH]; intros s a b; simpl.
  { by intros [= <- <-]. }
  destruct s as [|c s]; [by intros [= <- <-]|].
  destruct (split_at n s) as [a' b'] eqn:E. intros [= <- <-]. by rewrite (IH _ _ _ E).
Qed.

(** The head of a non-empty valid string is one rune. *)
Lemma utf8_head a s :
  utf8_Valid (String a s) = true →
  ∃ n chunk r, rune_size (String a s) = Some n ∧ split_at n (String a s) = (chunk, r) ∧
    utf8_Valid r = true ∧ chunk ≠ "" ∧
    (byte_in 0 127 a = true → n = 1%nat ∧ chunk = String a "" ∧ r = s).
Proof.
  unfold utf8_Valid. intros H. cbn [fold_runes] in H.
  destruct (rune_size (String a s)) as [n|] eqn:E; [|discriminate H].
  assert (Hn : (n = 1 ∨ n = 2 ∨ n = 3 ∨ n = 4)%nat ∧ (n ≤ S (String.length s))%nat ∧
               (byte_in 0 127 a = true → n = 1%nat)).
  { unfold rune_size in E. repeat case_match; simplify_eq/=; (split_and!; [lia|lia|try done]). }
  destruct Hn as (Hn & Hlen & Hascii).
  destruct Hn as [-> | [-> | [-> | ->]]]; simpl in Hlen.
  - exists 1%nat, (String a ""), s. split_and!; try done.
  - destruct s as [|b s]; simpl in Hlen; [lia|]. simpl in H.
    exists 2%nat, (String a (String b "")), s. split_and!; try done.
    intros Ha. by discriminate (Hascii Ha).
  - destruct s as [|b [|c s]]; simpl in Hlen; [lia|lia|]. simpl in H.
    exists 3%nat, (String a (String b (String c ""))), s. split_and!; try done.
    intros Ha. by discriminate (Hascii Ha).
  - destruct s as [|b [|c [|d s]]]; simpl in Hlen; [lia|lia|lia|]. simpl in H.
    exists 4%nat, (String a (String b (String c (String d "")))), s. split_and!; try done.
    intros Ha. by discriminate (Hascii Ha).
Qed.

(** A rune is recognised whatever follows it. *)
Lemma rune_size_chunk s n chunk r t :
  rune_size s = Some n → split_at n s = (chunk, r) →
  rune_size (chunk +:+ t) = Some n ∧ split_at n (chunk +:+ t) = (chunk, t).
Proof.
  intros Hsize Hsplit. unfold rune_size in Hsize.
  repeat case_match; simplify_eq/=; split; unfold rune_size; simpl;
    repeat match goal with H : _ = true |- _ => rewrite H | H : _ = false |- _ => rewrite H end;
    simpl; try done.
Qed.

(** ** String literals *)

Lemma scan_quote_ascii fuel c t :
  byte_in 0 127 c = true →
  scan_string (S fuel) (quote_ascii c +:+ t) = emit (String c "") (scan_string fuel t).
Proof. destruct c as [[] [] [] [] [] [] [] []]; intros H; solve [discriminate H|reflexivity]. Qed.

Lemma emit_Some chunk t rest : emit chunk (Some (t, rest)) = Some (chunk +:+ t, rest).
Proof. done. Qed.

Lemma scan_rune fuel s n chunk r t c s' :
  s = String c s' → byte_in 0 127 c = false →
  rune_size s = Some n → split_at n s = (chunk, r) →
  scan_string (S fuel) (chunk +:+ t) = emit chunk (scan_string fuel t).
Proof.
  intros -> Hc Hsize Hsplit.
  destruct (rune_size_chunk _ _ _ _ t Hsize Hsplit) as [H1 H2].
  pose proof (byte_val_range c).
  assert (∃ chunk', chunk = String c chunk') as [chunk' ->].
  { unfold rune_size in Hsize. rewrite Hc in Hsize. destruct n as [|n]; [repeat case_match; done|].
    simpl in Hsplit. destruct (split_at n s') as [x y]. injection Hsplit as <- _. eauto. }
  rewrite string_app_cons in *. cbn [scan_string].
  unfold byte_in in Hc. apply andb_false_iff in Hc as [Hc|Hc]; go_bool; [lia|].
  rewrite !(proj2 (Z.eqb_neq _ _)) by lia. rewrite (proj2 (Z.ltb_ge _ _)) by lia.
  by rewrite H1, H2.
Qed.

Lemma scan_u2028 fuel t :
  scan_string (S fuel) ("\u2028" +:+ t) = emit (byte_string [226; 128; 168]) (scan_string fuel t).
Proof. reflexivity. Qed.
Lemma scan_u2029 fuel t :
  scan_string (S fuel) ("\u2029" +:+ t) = emit (byte_string [226; 128; 169]) (scan_string fuel t).
Proof. reflexivity. Qed.

Lemma quote_ascii_length c : (1 ≤ String.length (quote_ascii c))%nat.
Proof. unfold quote_ascii, escape_u00. repeat case_match; simpl; lia. Qed.

Lemma scan_quote_body n s fuel rest :
  (String.length s ≤ n)%nat → utf8_Valid s = true →
  (String.length (quote_body n s) < fuel)%nat →
  scan_string fuel (quote_body n s +:+ dquote +:+ rest) = Some (s, rest).
Proof.
  revert s fuel. induction n as [|n IH]; intros s fuel Hlen Hv Hfuel.
  { destruct s; simpl in *; [|lia]. destruct fuel; [lia|]. reflexivity. }
  destruct s as [|a s]; [destruct fuel; simpl in *; [lia|]; reflexivity|].
  destruct (utf8_head a s Hv) as (k & chunk & r & Hsize & Hsplit & Hvr & Hne & Hascii).
  destruct fuel as [|fuel]; [lia|].
  cbn [quote_body] in *. destruct (byte_in 0 127 a) eqn:Ha.
  - destruct (Hascii eq_refl) as (-> & -> & ->).
    rewrite string_app_assoc, scan_quote_ascii by done.
    rewrite string_app_length in Hfuel. pose proof (quote_ascii_length a).
    rewrite IH by (simpl in *; auto; lia). done.
  - rewrite Hsize, Hsplit in *. pose proof (split_at_app _ _ _ _ Hsplit) as Happ.
    assert (String.length r ≤ n)%nat as Hr.
    { apply (f_equal String.length) in Happ. rewrite string_app_length in Happ.
      destruct chunk; simpl in *; [done|lia]. }
    rewrite string_app_length in Hfuel. rewrite string_app_assoc.
    destruct (String.eqb chunk _) eqn:E1; [|destruct (String.eqb chunk _) eqn:E2 in Hfuel |- *].
    + apply String.eqb_eq in E1. simpl in Hfuel. rewrite scan_u2028, IH by (auto; lia).
      rewrite emit_Some, <-E1. by rewrite <-Happ.
    + apply String.eqb_eq in E2. simpl in Hfuel. rewrite scan_u2029, IH by (auto; lia).
      rewrite emit_Some, <-E2. by rewrite <-Happ.
    + rewrite (scan_rune fuel (String a s) k chunk r _ a s eq_refl Ha Hsize Hsplit).
      destruct chunk as [|x chunk]; [done|]. simpl in Hfuel.
      rewrite IH by (auto; lia). rewrite emit_Some. by rewrite <-Happ.
Qed.

Lemma scan_quoted_string s rest :
  utf8_Valid s = true → scan_quoted (quote_string s +:+ rest) = Some (s, rest).
Proof.
  intros Hv. unfold quote_string. rewrite !string_app_assoc. unfold scan_quoted.
  change (dquote +:+ ?x) with (String (byte_of 34) x). cbn [byte_val].
  change (byte_val (byte_of 34) =? 34) with true. cbv iota.
  change (String (byte_of 34) rest) with (dquote +:+ rest).
  apply scan_quote_body; [done|done|]. rewrite string_app_length. simpl. lia.
Qed.

(** ** Numbers *)

(** What may follow a number: not another character of the number. *)
Definition ends_number (rest : string) : Prop :=
  match rest with
  | EmptyString => True
  | String c _ => is_digit c = false ∧ byte_val c ≠ 46 ∧ byte_val c ≠ 101 ∧ byte_val c ≠ 69
  end.

Lemma span_digits_app d rest :
  string_forallb is_digit d = true → ends_number rest → span_digits (d +:+ rest) = (d, rest).
Proof.
  intros Hd Hrest. induction d as [|c d IH]; simpl in *.
  - destruct rest as [|c rest]; [done|]. simpl in *. destruct Hrest as (-> & _). done.
  - apply andb_true_iff in Hd as [-> Hd]. by rewrite IH.
Qed.

Lemma scan_fraction_end rest : ends_number rest → scan_fraction rest = Some ("", rest).
Proof.
  destruct rest as [|c rest]; [done|]. intros (_ & H & _). unfold scan_fraction.
  by rewrite (proj2 (Z.eqb_neq _ _) H).
Qed.

Lemma scan_exponent_end rest : ends_number rest → scan_exponent rest = Some ("", rest).
Proof.
  destruct rest as [|c rest]; [done|]. intros (_ & _ & H1 & H2). unfold scan_exponent.
  by rewrite (proj2 (Z.eqb_neq _ _) H1), (proj2 (Z.eqb_neq _ _) H2).
Qed.

Lemma scan_integer_FormatInt z rest :
  0 ≤ z → ends_number rest → scan_integer (FormatInt z +:+ rest) = Some (FormatInt z, rest).
Proof.
  intros Hz Hrest. destruct (FormatInt_spec z Hz) as (Hne & Hdig & _ & Hzero).
  destruct (FormatInt z) as [|c d] eqn:E; [done|]. unfold scan_integer.
  simpl in Hdig. apply andb_true_iff in Hdig as [Hc Hd]. rewrite string_app_cons.
  destruct (byte_val c =? 48) eqn:E0; go_bool.
  - specialize (Hzero c d eq_refl E0). subst z. by injection E as <- <-.
  - rewrite Hc. rewrite <-string_app_cons.
    rewrite span_digits_app; [done| |done]. simpl. by rewrite Hc.
Qed.

Lemma FormatInt_head z c d :
  0 ≤ z → FormatInt z = String c d → 48 ≤ byte_val c ≤ 57.
Proof.
  intros Hz E. destruct (FormatInt_spec z Hz) as (_ & Hdig & _). rewrite E in Hdig.
  simpl in Hdig. apply andb_true_iff in Hdig as [Hc _].
  unfold is_digit, byte_in in Hc. go_bool. lia.
Qed.

Lemma scan_number_FormatInt z rest :
  0 ≤ z → ends_number rest → scan_number (FormatInt z +:+ rest) = Some (FormatInt z, rest).
Proof.
  intros Hz Hrest. pose proof (scan_integer_FormatInt z rest Hz Hrest) as Hi.
  destruct (FormatInt z) as [|c d] eqn:E.
  { by destruct (proj1 (FormatInt_spec z Hz)). }
  pose proof (FormatInt_head z c d Hz E). unfold scan_number. rewrite string_app_cons in *.
  rewrite (proj2 (Z.eqb_neq _ 45)) by lia. rewrite Hi. cbn [mbind option_bind].
  rewrite scan_fraction_end by done. cbn [mbind option_bind].
  rewrite scan_exponent_end by done. cbn [mbind option_bind].
  rewrite !string_app_empty_l. by rewrite !string_app_empty_r.
Qed.

(** ** Documents *)

Lemma json_ind_nested (P : json → Prop) :
  P JNull → (∀ b, P (JBool b)) → (∀ n, P (JNumber n)) → (∀ s, P (JString s)) →
  (∀ vs, Forall P vs → P (JArray vs)) → (∀ ms, Forall (λ m, P m.2) ms → P (JObject ms)) →
  ∀ j, P j.
Proof.
  intros H1 H2 H3 H4 H5 H6. fix IH 1. intros [|b|n|s|vs|ms]; [apply H1|apply H2|apply H3|apply H4| |].
  - apply H5. induction vs as [|v vs IHvs]; constructor; [apply IH|exact IHvs].
  - apply H6. induction ms as [|[k v] ms IHms]; constructor; [apply IH|exact IHms].
Qed.

(** Documents that the program marshals: valid UTF-8, non-negative integers,
    at most [depth] levels of nesting. *)
Inductive json_wf : Z → json → Prop :=
| wf_null d : json_wf d JNull
| wf_bool d b : json_wf d (JBool b)
| wf_number d z : 0 ≤ z → json_wf d (jnum z)
| wf_string d s : utf8_Valid s = true → json_wf d (JString s)
| wf_array d vs : 0 < d → Forall (json_wf (d - 1)) vs → json_wf d (JArray vs)
| wf_object d ms :
    0 < d → Forall (λ m, utf8_Valid m.1 = true ∧ json_wf (d - 1) m.2) ms → json_wf d (JObject ms).

Definition print_member (m : string * json) : string :=
  quote_string m.1 +:+ ":" +:+ print_json m.2.

Lemma print_object ms :
  print_json (JObject ms) = "{" +:+ join_comma (print_member <$> ms) +:+ "}".
Proof.
  simpl. do 2 f_equal. f_equal. apply list_fmap_ext. by intros i [k v] _.
Qed.

(** A first byte at which the parser's tests for structure fail. *)
Definition plain_start (s : string) : Prop :=
  match s with
  | EmptyString => False
  | String c _ => json_space c = false ∧ byte_val c ≠ 123 ∧ byte_val c ≠ 125 ∧
                  byte_val c ≠ 91 ∧ byte_val c ≠ 93
  end.

Lemma starts_with_plain v s : plain_start s → (v = 123 ∨ v = 125 ∨ v = 91 ∨ v = 93) →
  starts_with v s = None ∧ skip_space s = s.
Proof.
  destruct s as [|c s]; [done|]. simpl. intros (-> & H1 & H2 & H3 & H4) Hv. split; [|done].
  rewrite (proj2 (Z.eqb_neq _ _)); [done|]. naive_solver.
Qed.

Lemma prefix_app w rest : HasPrefix (w +:+ rest) w = true.
Proof.
  unfold HasPrefix. induction w as [|c w IH]; [by destruct rest|].
  rewrite string_app_cons. simpl. by destruct (Ascii.ascii_dec c c).
Qed.

Lemma substring_all rest : substring 0 (String.length rest) rest = rest.
Proof. induction rest as [|c rest IH]; simpl; congruence. Qed.

Lemma expect_app w rest : expect w (w +:+ rest) = Some rest.
Proof.
  unfold expect, TrimPrefix. rewrite prefix_app. f_equal.
  rewrite string_app_length. replace (_ + _ - _)%nat with (String.length rest) by lia.
  induction w as [|c w IH]; [apply substring_all|exact IH].
Qed.

(** A scalar as printed: its first byte, and how it is scanned. *)
Lemma scalar_scan d j rest :
  json_wf d j → ends_number rest → (∀ vs, j ≠ JArray vs) → (∀ ms, j ≠ JObject ms) →
  plain_start (print_json j +:+ rest) ∧ scan_scalar (print_json j +:+ rest) = Some (j, rest).
Proof.
  intros Hwf Hrest Ha Ho. inversion Hwf; subst; simpl print_json.
  - split; [done|]. change (scan_scalar ("null" +:+ rest)) with
      ((λ r, (JNull, r)) <$> expect "null" ("null" +:+ rest)). by rewrite expect_app.
  - destruct b; (split; [done|]).
    + change (scan_scalar ("true" +:+ rest)) with
        ((λ r, (JBool true, r)) <$> expect "true" ("true" +:+ rest)). by rewrite expect_app.
    + change (scan_scalar ("false" +:+ rest)) with
        ((λ r, (JBool false, r)) <$> expect "false" ("false" +:+ rest)). by rewrite expect_app.
  - pose proof (scan_number_FormatInt z rest H Hrest) as Hs.
    destruct (FormatInt z) as [|c r] eqn:E; [by destruct (proj1 (FormatInt_spec z H))|].
    pose proof (FormatInt_head z c r H E). rewrite string_app_cons in *. split.
    + simpl. unfold json_space, byte_in. split; [|lia].
      rewrite !(proj2 (Z.leb_gt (byte_val c) _)) by lia. by rewrite !andb_false_r.
    + unfold scan_scalar. rewrite !(proj2 (Z.eqb_neq _ _)) by lia. rewrite Hs. simpl.
      unfold jnum. by rewrite E.
  - pose proof (scan_quoted_string s rest H) as Hs. unfold quote_string in *.
    rewrite !string_app_assoc in *. change (dquote +:+ ?x) with (String (byte_of 34) x) in *.
    split; [done|]. unfold scan_scalar. change (byte_val (byte_of 34) =? 34) with true. cbv iota.
    by rewrite Hs.
  - by destruct (Ha vs).
  - by destruct (Ho ms).
Qed.

(** The first byte of any printed value opens a value. *)
Lemma print_start d j rest :
  json_wf d j → ends_number rest →
  skip_space (print_json j +:+ rest) = print_json j +:+ rest ∧
  starts_with 93 (print_json j +:+ rest) = None.
Proof.
  intros Hwf Hrest. destruct j as [| | | |vs|ms]; try done.
  all: edestruct scalar_scan as [Hp _]; [exact Hwf|exact Hrest|done|done|].
  all: apply and_comm; by apply starts_with_plain; [|auto].
Qed.

Lemma join_comma_cons x y l : join_comma (x :: y :: l) = x +:+ "," +:+ join_comma (y :: l).
Proof. done. Qed.

Lemma print_json_length j d : json_wf d j → (1 ≤ String.length (print_json j))%nat.
Proof.
  intros Hwf. destruct (print_start d j "" Hwf I) as [H1 H2].
  destruct j as [|b|n|s|vs|ms]; simpl; try (destruct b; simpl); try lia.
  inversion Hwf; subst. destruct (FormatInt z) eqn:E; [|simpl; lia].
  by destruct (proj1 (FormatInt_spec z ltac:(done))).
Qed.

(** Parsing what was printed, with any rest that does not extend a number.
    Two units of fuel for each byte are enough. *)
Definition parses_back (j : json) : Prop :=
  ∀ depth fuel rest,
    json_wf (max_nesting_depth - depth) j → ends_number rest →
    (2 * String.length (print_json j) ≤ fuel)%nat →
    parse_value fuel depth (print_json j +:+ rest) = Some (j, rest).

Lemma parse_scalar j :
  (∀ vs, j ≠ JArray vs) → (∀ ms, j ≠ JObject ms) → parses_back j.
Proof.
  intros Ha Ho depth fuel rest Hwf Hrest Hfuel.
  pose proof (print_json_length _ _ Hwf). destruct fuel as [|fuel]; [lia|]. cbn [parse_value].
  destruct (scalar_scan _ _ _ Hwf Hrest Ha Ho) as [Hplain Hscan].
  destruct (starts_with_plain 123 _ Hplain) as [H1 ->]; [auto|].
  destruct (starts_with_plain 91 _ Hplain) as [H2 _]; [auto|]. by rewrite H1, H2.
Qed.

Lemma parse_elements_back vs depth fuel rest :
  vs ≠ [] → Forall parses_back vs → Forall (json_wf (max_nesting_depth - depth)) vs →
  (2 * String.length (join_comma (print_json <$> vs)) + 1 ≤ fuel)%nat →
  parse_elements fuel depth (join_comma (print_json <$> vs) +:+ "]" +:+ rest) = Some (vs, rest).
Proof.
  revert fuel. induction vs as [|v vs IH]; intros fuel Hne Hback Hwf Hfuel; [done|].
  apply Forall_cons in Hback as [Hv Hback]. apply Forall_cons in Hwf as [Hwfv Hwf].
  destruct fuel as [|fuel]; [lia|]. cbn [parse_elements].
  destruct vs as [|v' vs].
  - simpl in Hfuel |- *. rewrite Hv; [done|done|done|lia].
  - rewrite !fmap_cons in *. rewrite join_comma_cons in *. rewrite !string_app_length in Hfuel.
    rewrite !string_app_assoc. rewrite Hv; [|done|done|lia]. cbn [mbind option_bind].
    change (starts_with 44 (skip_space ("," +:+ ?t))) with (Some t). cbv iota.
    rewrite IH; [done|done|done|done|]. simpl in Hfuel |- *. lia.
Qed.

Lemma parse_members_back ms depth fuel rest :
  ms ≠ [] → Forall (λ m, parses_back m.2) ms →
  Forall (λ m, utf8_Valid m.1 = true ∧ json_wf (max_nesting_depth - depth) m.2) ms →
  (2 * String.length (join_comma (print_member <$> ms)) + 1 ≤ fuel)%nat →
  parse_members fuel depth (join_comma (print_member <$> ms) +:+ "}" +:+ rest) = Some (ms, rest).
Proof.
  revert fuel. induction ms as [|[k v] ms IH]; intros fuel Hne Hback Hwf Hfuel; [done|].
  apply Forall_cons in Hback as [Hv Hback]. apply Forall_cons in Hwf as [[Hk Hwfv] Hwf].
  simpl in Hv, Hk, Hwfv. destruct fuel as [|fuel]; [lia|]. cbn [parse_members].
  destruct ms as [|m ms].
  - change (join_comma (print_member <$> [(k, v)])) with (quote_string k +:+ ":" +:+ print_json v) in *.
    rewrite !string_app_length in Hfuel. rewrite !string_app_assoc.
    change (skip_space (quote_string k +:+ ?t)) with (quote_string k +:+ t).
    rewrite scan_quoted_string by done. cbn [mbind option_bind].
    change (starts_with 58 (skip_space (":" +:+ ?t))) with (Some t). cbn [mbind option_bind].
    rewrite Hv; [done|done|done|lia].
  - rewrite !fmap_cons in *. rewrite join_comma_cons in *.
    unfold print_member at 1. unfold print_member at 1 in Hfuel. simpl fst in *. simpl snd in *.
    rewrite !string_app_length in Hfuel. rewrite !string_app_assoc.
    change (skip_space (quote_string k +:+ ?t)) with (quote_string k +:+ t).
    rewrite scan_quoted_string by done. cbn [mbind option_bind].
    change (starts_with 58 (skip_space (":" +:+ ?t))) with (Some t). cbn [mbind option_bind].
    rewrite Hv; [|done|done|lia]. cbn [mbind option_bind].
    change (starts_with 44 (skip_space ("," +:+ ?t))) with (Some t). cbv iota.
    rewrite IH; [done|done|done|done|]. simpl in Hfuel |- *. lia.
Qed.

Lemma parse_array vs : Forall parses_back vs → parses_back (JArray vs).
Proof.
  intros Hback depth fuel rest Hwf Hrest Hfuel. inversion Hwf as [| | | |d' vs' Hd Hvs|]; subst.
  destruct fuel as [|fuel]; [simpl in Hfuel; lia|].
  cbn [print_json] in *. rewrite !string_app_length in Hfuel. rewrite !string_app_assoc.
  cbn [parse_value]. change (skip_space ("[" +:+ ?t)) with ("[" +:+ t).
  change (starts_with 123 ("[" +:+ ?t)) with (@None string). cbv iota.
  change (starts_with 91 ("[" +:+ ?t)) with (Some t). cbv iota.
  rewrite (proj2 (Z.leb_gt _ _)) by lia. destruct vs as [|v vs]; [done|].
  replace (max_nesting_depth - depth - 1) with (max_nesting_depth - (depth + 1)) in Hvs by lia.
  assert (Hstart : starts_with 93 (skip_space
    (join_comma (print_json <$> v :: vs) +:+ "]" +:+ rest)) = None).
  { apply Forall_cons in Hvs as [Hv _]. destruct vs as [|v' vs].
    - simpl. by destruct (print_start _ v ("]" +:+ rest) Hv) as [-> ?].
    - rewrite !fmap_cons, join_comma_cons, !string_app_assoc.
      eapply print_start in Hv as [-> ?]; done. }
  rewrite Hstart. rewrite parse_elements_back; [done|done|done|done|]. simpl in *. lia.
Qed.

Lemma parse_object ms : Forall (λ m, parses_back m.2) ms → parses_back (JObject ms).
Proof.
  intros Hback depth fuel rest Hwf Hrest Hfuel. inversion Hwf as [| | | | |d' ms' Hd Hms]; subst.
  destruct fuel as [|fuel]; [simpl in Hfuel; lia|].
  rewrite print_object in *. rewrite !string_app_length in Hfuel. rewrite !string_app_assoc.
  cbn [parse_value]. change (skip_space ("{" +:+ ?t)) with ("{" +:+ t).
  change (starts_with 123 ("{" +:+ ?t)) with (Some t). cbv iota.
  rewrite (proj2 (Z.leb_gt _ _)) by lia. destruct ms as [|m ms]; [done|].
  replace (max_nesting_depth - depth - 1) with (max_nesting_depth - (depth + 1)) in Hms by lia.
  assert (Hstart : starts_with 125 (skip_space
    (join_comma (print_member <$> m :: ms) +:+ "}" +:+ rest)) = None).
  { destruct ms as [|m' ms]; done. }
  rewrite Hstart. rewrite parse_members_back; [done|done|done|done|]. simpl in *. lia.
Qed.

Lemma print_json_parses_back j : parses_back j.
Proof.
  induction j as [|b|n|s|vs IH|ms IH] using json_ind_nested;
    [by apply parse_scalar..|by apply parse_array|by apply parse_object].
Qed.

(** [decoder.Decode] gives back the marshalled document and what follows it. *)
Lemma decode_next_print j rest :
  json_wf max_nesting_depth j → ends_number rest →
  decode_next (print_json j +:+ rest) = Ok (j, rest).
Proof.
  intros Hwf Hrest. unfold decode_next.
  rewrite (print_json_parses_back j 0); [| by rewrite Z.sub_0_r|done|].
  - destruct (print_start _ j rest Hwf Hrest) as [-> _].
    pose proof (print_json_length _ _ Hwf).
    destruct (print_json j); [simpl in *; lia|done].
  - unfold parse_fuel. rewrite string_app_length. lia.
Qed.

Lemma parse_document_print j :
  json_wf max_nesting_depth j → parse_document (print_json j) = Ok j.
Proof.
  intros Hwf. unfold parse_document. rewrite <-(string_app_empty_r (print_json j)).
  rewrite (print_json_parses_back j 0); [done|by rewrite Z.sub_0_r|done|].
  unfold parse_fuel. rewrite string_app_length. lia.
Qed.

Close Scope Z_scope.
