(* ===== verification/GoTime.v ===== *)
(** * Package time

    An instant is a number of nanoseconds since the Unix epoch; the zero
    [time.Time] is the first instant of year 1.  The program parses RFC 3339
    timestamps to check that their zone offset is zero, truncates instants to
    seconds, and formats UTC instants. *)

From S2P Require Export GoStrings.

Open Scope Z_scope.

Definition Nanosecond : Z := 1.
Definition Second : Z := 1000000000.
Definition Minute : Z := 60 * Second.
Definition Hour : Z := 60 * Minute.

Definition zero_time : Z := -62135596800 * Second.

Definition IsZero (t : Z) : bool := t =? zero_time.
Definition Unix (t : Z) : Z := t / Second.

(** [t.Truncate(time.Second)]: multiples of a second since year 1 are
    multiples of a second since the epoch. *)
Definition TruncateSecond (t : Z) : Z := t - (t - zero_time) mod Second.

(** [t.After(u)] *)
Definition After (t u : Z) : bool := u <? t.

Lemma TruncateSecond_Unix t : TruncateSecond t = Unix t * Second.
Proof.
  unfold TruncateSecond, Unix, zero_time, Second.
  Z.to_euclidean_division_equations. lia.
Qed.

(** ** Parsing RFC 3339, as [time.Parse] does *)

Definition is_leap (year : Z) : bool :=
  (year mod 4 =? 0) && (negb (year mod 100 =? 0) || (year mod 400 =? 0)).

Definition daysIn (month year : Z) : Z :=
  if month =? 2 then (if is_leap year then 29 else 28)
  else if (month =? 4) || (month =? 6) || (month =? 9) || (month =? 11) then 30 else 31.

Definition digit_val (c : ascii) : Z := byte_val c - 48.

(** [getnum(s, fixed)]: one or two digits, two if [fixed]. *)
Definition getnum (s : string) (fixed : bool) : option (Z * string) :=
  match s with
  | String a s1 =>
      if is_digit a then
        match s1 with
        | String b s2 =>
            if is_digit b then Some (digit_val a * 10 + digit_val b, s2)
            else if fixed then None else Some (digit_val a, s1)
        | EmptyString => if fixed then None else Some (digit_val a, s1)
        end
      else None
  | EmptyString => None
  end.

Definition skip_char (c : ascii) (s : string) : option string :=
  match s with
  | String d r => if Ascii.eqb c d then Some r else None
  | EmptyString => None
  end.

Definition parse_year (s : string) : option (Z * string) :=
  match s with
  | String a (String b (String c (String d r))) =>
      if is_digit a && is_digit b && is_digit c && is_digit d then
        Some (((digit_val a * 10 + digit_val b) * 10 + digit_val c) * 10 + digit_val d, r)
      else None
  | _ => None
  end.

Fixpoint skip_digits (s : string) : string :=
  match s with
  | String c r => if is_digit c then skip_digits r else s
  | EmptyString => s
  end.

(** A fractional second after the seconds field, which the layout omits. *)
Definition skip_fraction (s : string) : string :=
  match s with
  | String p (String d r) =>
      if (Ascii.eqb p "."%char || Ascii.eqb p ","%char) && is_digit d then skip_digits r else s
  | _ => s
  end.

(** [Z07:00]: the zone offset in seconds and what follows. *)
Definition parse_zone (s : string) : option (Z * string) :=
  match s with
  | String "Z"%char r => Some (0, r)
  | String sign (String h1 (String h2 (String colon (String m1 (String m2 r))))) =>
      if Ascii.eqb colon ":"%char then
        '(hr, _) ← getnum (String h1 (String h2 "")) true;
        '(mm, _) ← getnum (String m1 (String m2 "")) true;
        if (24 <? hr) || (60 <? mm) then None
        else
          let offset := (hr * 60 + mm) * 60 in
          if Ascii.eqb sign "+"%char then Some (offset, r)
          else if Ascii.eqb sign "-"%char then Some (- offset, r)
          else None
      else None
  | _ => None
  end.

Record civil_time := CivilTime {
  ct_year : Z; ct_month : Z; ct_day : Z;
  ct_hour : Z; ct_minute : Z; ct_second : Z;
  ct_offset : Z;
}.

(** [time.Parse(time.RFC3339, value)]; the nanoseconds are not kept. *)
Definition Parse_RFC3339 (value : string) : option civil_time :=
  '(year, s) ← parse_year value;
  s ← skip_char "-"%char s;
  '(month, s) ← getnum s true;
  if (month <? 1) || (12 <? month) then None else
  s ← skip_char "-"%char s;
  '(day, s) ← getnum s true;
  s ← skip_char "T"%char s;
  '(hour, s) ← getnum s false;
  if 24 <=? hour then None else
  s ← skip_char ":"%char s;
  '(minute, s) ← getnum s true;
  if 60 <=? minute then None else
  s ← skip_char ":"%char s;
  '(second, s) ← getnum s true;
  if 60 <=? second then None else
  '(offset, s) ← parse_zone (skip_fraction s);
  if negb (String.eqb s "") then None else
  if (day <? 1) || (daysIn month year <? day) then None else
  Some (CivilTime year month day hour minute second offset).

(** ** Formatting *)

(** Decimal digits of [z], at least [width] of them. *)
Definition pad_int (width : nat) (z : Z) : string :=
  let d := FormatInt z in
  string_of_list_ascii (replicate (width - String.length d) "0"%char) +:+ d.

(** The proleptic Gregorian date of a day number counted from 1970-01-01. *)
Definition civil_of_days (days : Z) : Z * Z * Z :=
  let z := days + 719468 in
  let era := z / 146097 in
  let doe := z mod 146097 in
  let yoe := (doe - doe / 1460 + doe / 36524 - doe / 146096) / 365 in
  let doy := doe - (365 * yoe + yoe / 4 - yoe / 100) in
  let mp := (5 * doy + 2) / 153 in
  let day := doy - (153 * mp + 2) / 5 + 1 in
  let month := if mp <? 10 then mp + 3 else mp - 9 in
  let year := yoe + era * 400 + (if month <=? 2 then 1 else 0) in
  (year, month, day).

(** [t.UTC().Format(time.RFC3339)] *)
Definition Format_RFC3339 (t : Z) : string :=
  let secs := Unix t in
  let '(year, month, day) := civil_of_days (secs / 86400) in
  let sod := secs mod 86400 in
  pad_int 4 year +:+ "-" +:+ pad_int 2 month +:+ "-" +:+ pad_int 2 day +:+ "T" +:+
  pad_int 2 (sod / 3600) +:+ ":" +:+ pad_int 2 (sod / 60 mod 60) +:+ ":" +:+
  pad_int 2 (sod mod 60) +:+ "Z".

Example format_epoch : Format_RFC3339 0 = "1970-01-01T00:00:00Z".
Proof. vm_compute. reflexivity. Qed.

Example format_leap_day :
  Format_RFC3339 (1709210096 * Second) = "2024-02-29T12:34:56Z".
Proof. vm_compute. reflexivity. Qed.

Example parse_leap_day :
  ct_offset <$> Parse_RFC3339 "2024-02-29T12:34:56.5+09:00" = Some 32400.
Proof. vm_compute. reflexivity. Qed.

Example parse_no_leap_day : Parse_RFC3339 "2023-02-29T12:34:56Z" = None.
Proof. vm_compute. reflexivity. Qed.

Close Scope Z_scope.
