(* ===== verification/Duration.v ===== *)
(** * Package time: durations

    [time.ParseDuration], which reads the reload interval.  A fraction of a
    unit goes through [float64]; the binary64 operations are those of
    [SpecFloat], on integers. *)

From Stdlib Require Import Floats.SpecFloat.
From S2P Require Export GoTime.

Open Scope Z_scope.

(** ** binary64 *)

(** The conversion [float64(z)]. *)
Definition float64_of (z : Z) : spec_float := binary_normalize 53 1024 z 0 false.
Definition float64_mul : spec_float → spec_float → spec_float := SFmul 53 1024.
Definition float64_div : spec_float → spec_float → spec_float := SFdiv 53 1024.

(** The conversion [uint64(x)] of a float that is not negative: towards zero. *)
Definition uint64_of (x : spec_float) : Z :=
  match x with
  | S754_finite false m e => wrap_u64 (Z.shiftl (Z.pos m) e)
  | _ => 0
  end.

(** ** Scanning *)

(** [leadingInt(s)]: the digits that start [s]; [None] when their value
    exceeds 2^63. *)
Fixpoint leadingInt (x : Z) (s : string) : option (Z * string) :=
  match s with
  | String c rest =>
      if negb (is_digit c) then Some (x, s)
      else if 2 ^ 63 / 10 <? x then None
      else
        let x := wrap_u64 (x * 10 + digit_val c) in
        if 2 ^ 63 <? x then None else leadingInt x rest
  | EmptyString => Some (x, s)
  end.

(** [leadingFraction(s)]: the digits read into [x] before an overflow, the
    power of ten they are scaled by, and what follows all the digits. *)
Fixpoint leadingFraction (x : Z) (scale : spec_float) (overflow : bool) (s : string)
    : Z * spec_float * string :=
  match s with
  | String c rest =>
      if negb (is_digit c) then (x, scale, s)
      else if overflow then leadingFraction x scale true rest
      else if (2 ^ 63 - 1) / 10 <? x then leadingFraction x scale true rest
      else
        let y := wrap_u64 (x * 10 + digit_val c) in
        if 2 ^ 63 <? y then leadingFraction x scale true rest
        else leadingFraction y (float64_mul scale (float64_of 10)) false rest
  | EmptyString => (x, scale, s)
  end.

(** What precedes the next dot or digit, and the rest. *)
Fixpoint take_unit (s : string) : string * string :=
  match s with
  | String c rest =>
      if Ascii.eqb c "." || is_digit c then ("", s)
      else let '(u, r) := take_unit rest in (String c u, r)
  | EmptyString => ("", "")
  end.

(** [unitMap]; the two microsecond signs are U+00B5 and U+03BC. *)
Definition unit_value (u : string) : option Z :=
  if String.eqb u "ns" then Some 1
  else if String.eqb u "us" || String.eqb u (byte_string [194; 181] +:+ "s") ||
          String.eqb u (byte_string [206; 188] +:+ "s") then Some 1000
  else if String.eqb u "ms" then Some 1000000
  else if String.eqb u "s" then Some Second
  else if String.eqb u "m" then Some Minute
  else if String.eqb u "h" then Some Hour
  else None.

(** One number with its unit: its nanoseconds and what follows. *)
Definition parse_component (s : string) : option (Z * string) :=
  let starts := match s with String c _ => Ascii.eqb c "." || is_digit c | _ => false end in
  if negb starts then None else
  '(v, s1) ← leadingInt 0 s;
  let pre := negb (len s1 =? len s) in
  let '(f, scale, s2, post) :=
    match skip_char "." s1 with
    | Some s1' => let '(f, scale, r) := leadingFraction 0 (float64_of 1) false s1' in
                  (f, scale, r, negb (len r =? len s1'))
    | None => (0, float64_of 1, s1, false)
    end in
  if negb pre && negb post then None else
  let '(u, s3) := take_unit s2 in
  unit ← unit_value u;
  if 2 ^ 63 / unit <? v then None else
  let v := wrap_u64 (v * unit) in
  if 0 <? f then
    let v := wrap_u64 (v + uint64_of (float64_mul (float64_of f) (float64_div (float64_of unit) scale))) in
    if 2 ^ 63 <? v then None else Some (v, s3)
  else Some (v, s3).

(** The loop over the components; each consumes at least one byte. *)
Fixpoint parse_components (fuel : nat) (d : Z) (s : string) : option Z :=
  match s with
  | EmptyString => Some d
  | _ =>
      match fuel with
      | O => None
      | S fuel =>
          '(v, s') ← parse_component s;
          let d := wrap_u64 (d + v) in
          if 2 ^ 63 <? d then None else parse_components fuel d s'
      end
  end.

(** [time.ParseDuration(s)], in nanoseconds; [None] is any of its errors. *)
Definition ParseDuration (s : string) : option Z :=
  let '(neg, s) :=
    match s with
    | String c r => if Ascii.eqb c "-" then (true, r)
                    else if Ascii.eqb c "+" then (false, r) else (false, s)
    | EmptyString => (false, s)
    end in
  if String.eqb s "0" then Some 0
  else if String.eqb s "" then None
  else
    d ← parse_components (String.length s) 0 s;
    if neg then Some (wrap_i64 (- d))
    else if 2 ^ 63 - 1 <? d then None else Some d.

(** ** Every component consumes input *)

Lemma leadingInt_length x s v r : leadingInt x s = Some (v, r) → (String.length r ≤ String.length s)%nat.
Proof.
  revert x. induction s as [|c s IH]; intros x; cbn [leadingInt]; [by intros [= _ <-]|].
  destruct (negb (is_digit c)); [by intros [= _ <-]|]. destruct (_ <? _); [done|]. cbv zeta.
  destruct (_ <? _); [done|]. intros H%IH. simpl. lia.
Qed.

Lemma leadingFraction_length x scale o s :
  (String.length (leadingFraction x scale o s).2 ≤ String.length s)%nat.
Proof.
  revert x scale o. induction s as [|c s IH]; intros x scale o; cbn [leadingFraction]; [done|].
  destruct (negb (is_digit c)); [done|]. cbv zeta.
  repeat case_match; (etrans; [apply IH|simpl; lia]).
Qed.

Lemma take_unit_length s :
  String.length s = (String.length (take_unit s).1 + String.length (take_unit s).2)%nat.
Proof.
  induction s as [|c s IH]; cbn [take_unit]; [done|]. destruct (_ || _); [done|].
  destruct (take_unit s) as [u r]; simpl in *. lia.
Qed.

Lemma unit_value_nonempty u n : unit_value u = Some n → (0 < String.length u)%nat.
Proof. destruct u; [done|simpl; lia]. Qed.

Lemma parse_component_length s v r :
  parse_component s = Some (v, r) → (String.length r < String.length s)%nat.
Proof.
  unfold parse_component. cbv zeta. destruct (negb _); [done|].
  destruct (leadingInt 0 s) as [[n s1]|] eqn:Ei; cbn [mbind option_bind]; [|done].
  apply leadingInt_length in Ei.
  assert (Hs2 : ∀ f scale s2 post,
    match skip_char "." s1 with
    | Some s1' => let '(f, scale, r) := leadingFraction 0 (float64_of 1) false s1' in
                  (f, scale, r, negb (len r =? len s1'))
    | None => (0, float64_of 1, s1, false)
    end = (f, scale, s2, post) → (String.length s2 ≤ String.length s1)%nat).
  { intros f scale s2 post. destruct (skip_char "." s1) as [s1'|] eqn:Es; [|by intros [= _ _ <- _]].
    pose proof (leadingFraction_length 0 (float64_of 1) false s1') as Hl.
    destruct (leadingFraction _ _ _ _) as [[f' sc'] r']. intros [= _ _ <- _]. simpl in Hl.
    destruct s1 as [|c s1]; [done|]. cbn [skip_char] in Es. destruct (Ascii.eqb _ _); [|done].
    injection Es as <-. simpl. lia. }
  destruct (match skip_char "." s1 with Some _ => _ | None => _ end) as [[[f scale] s2] post].
  specialize (Hs2 _ _ _ _ eq_refl). destruct (negb _ && negb _); [done|].
  pose proof (take_unit_length s2) as Hu. destruct (take_unit s2) as [u s3]; cbn [fst snd] in Hu.
  destruct (unit_value u) as [n'|] eqn:Eu; cbn [mbind option_bind]; [|done]. apply unit_value_nonempty in Eu.
  destruct (_ <? _); [done|]. destruct (0 <? f); [destruct (_ <? _); [done|]|]; intros [= _ <-]; lia.
Qed.

(** The fuel of [ParseDuration] is enough: more changes nothing. *)
Lemma parse_components_fuel n m d s :
  (String.length s ≤ n)%nat → (n ≤ m)%nat → parse_components m d s = parse_components n d s.
Proof.
  revert m d s. induction n as [|n IH]; intros m d s Hs Hm.
  { destruct s; [by destruct m|simpl in Hs; lia]. }
  destruct m as [|m]; [lia|]. destruct s as [|c s]; [done|]. cbn [parse_components].
  destruct (parse_component (String c s)) as [[v r]|] eqn:Ep; cbn [mbind option_bind]; [|done].
  apply parse_component_length in Ep. destruct (_ <? _); [done|]. apply IH; simpl in *; lia.
Qed.

(** A whole number of seconds, as its digits and the letter s. *)
Definition whole_seconds (n : Z) : string := FormatInt n +:+ "s".

Lemma ParseDuration_seconds_60 :
  forallb (λ n, bool_decide (ParseDuration (whole_seconds n) = Some (n * Second))) (seqZ 1 60) = true.
Proof. by vm_compute. Qed.

Lemma ParseDuration_seconds n : 1 ≤ n ≤ 60 → ParseDuration (whole_seconds n) = Some (n * Second).
Proof.
  intros Hn. pose proof ParseDuration_seconds_60 as H. rewrite forallb_forall in H.
  eapply bool_decide_eq_true_1, H, list_elem_of_In, elem_of_seqZ. lia.
Qed.

Example ParseDuration_fraction : ParseDuration "1m0.5s" = Some (60 * Second + 500000000).
Proof. by vm_compute. Qed.
Example ParseDuration_sign : ParseDuration "-1.5h" = Some (- (90 * Minute)).
Proof. by vm_compute. Qed.
Example ParseDuration_small_fraction : ParseDuration "0.333333333333333333h" = Some 1199999999999.
Proof. by vm_compute. Qed.
Example ParseDuration_no_unit : ParseDuration "5" = None.
Proof. by vm_compute. Qed.

Close Scope Z_scope.
