(* ===== verification/Messages.v ===== *)
(** * Private Control Link messages

    The wire types of [private_control.go] and the validators that every
    received or queued message passes.  Fields keep the source's names behind
    a short prefix per type; a pointer field is an [option]; integers are [Z]
    and the JSON decoders bound them to their Go width. *)

From S2P Require Export Base64 Json GoTime.

Open Scope Z_scope.

(** ** Constants *)

Definition privateControlSchemaVersion : string := "private-control-link-v1".
Definition privateControlMaxFrameBytes : Z := 65536.
Definition privateControlTransportMTLSTCP : string := "mtls-tcp".
Definition privateControlTransportUDS : string := "uds".
Definition privateControlMaxPendingCommands : Z := 64.

Definition privateControlLifecycleEventTypes : list string :=
  [ "participant_joined"; "participant_left"; "talk_started"; "talk_ended";
    "relay_health_changed"; "recording_state_changed";
    "service_admission_issued"; "service_admission_revoked" ].

Definition privateControlLifecycleStates : list string :=
  [ "healthy"; "degraded"; "unhealthy"; "starting";
    "recording"; "stopping"; "stopped"; "failed" ].

Definition privateControlErrorCodes : list string :=
  [ "handshake_required"; "identity_mismatch"; "unsupported_message";
    "invalid_revocation_target"; "invalid_revocation_deadline";
    "unauthorized"; "overloaded"; "internal_error" ].

(** [_, ok := set[key]] on a set literal *)
Definition in_set (key : string) (set : list string) : bool := bool_decide (key ∈ set).

(** ** Character classes of the patterns *)

Definition is_upper (c : ascii) : bool := byte_in 65 90 c.
Definition is_lower (c : ascii) : bool := byte_in 97 122 c.
Definition is_alnum (c : ascii) : bool := is_upper c || is_lower c || is_digit c.

(** [._-] *)
Definition is_dot_dash (c : ascii) : bool :=
  byte_in 46 46 c || byte_in 95 95 c || byte_in 45 45 c.

(** [^C{lo,hi}$] *)
Definition match_repeat (class : ascii → bool) (lo hi : Z) (s : string) : bool :=
  (lo <=? len s) && (len s <=? hi) && string_forallb class s.

(** [^C+$] *)
Definition match_plus (class : ascii → bool) (s : string) : bool :=
  (1 <=? len s) && string_forallb class s.

(** [^[A-Za-z0-9][A-Za-z0-9._-]{0,127}$] *)
Definition privateControlServiceIDPattern (s : string) : bool :=
  match s with
  | String c r => is_alnum c && match_repeat (λ c, is_alnum c || is_dot_dash c) 0 127 r
  | EmptyString => false
  end.

(** [^[A-Z0-9_:-]+$] *)
Definition privateControlReasonPattern (s : string) : bool :=
  match_plus (λ c, is_upper c || is_digit c || byte_in 95 95 c || byte_in 58 58 c
                   || byte_in 45 45 c) s.

(** ** Wire types *)

Record privateControlHello := Hello {
  hello_SchemaVersion : string;
  hello_Type : string;
  hello_MessageID : string;
  hello_ManagementServiceID : string;
  hello_WantLifecycleEvents : option bool;
  hello_WantAuditInputs : option bool;
  hello_WantDiagnostics : option bool;
}.

Record privateControlHelloAck := HelloAck {
  hack_SchemaVersion : string;
  hack_Type : string;
  hack_MessageID : string;
  hack_InReplyTo : string;
  hack_SessionID : string;
  hack_RelayID : string;
  hack_LifecycleEventsAccepted : option bool;
  hack_AuditInputsAccepted : option bool;
  hack_DiagnosticsAccepted : option bool;
}.

Record privateControlEnvelope := Envelope {
  env_SchemaVersion : string;
  env_Type : string;
  env_MessageID : string;
}.

Record privateControlGetRelayStateSnapshot := GetRelayStateSnapshot {
  get_SchemaVersion : string;
  get_Type : string;
  get_MessageID : string;
}.

Record privateControlSnapshotParticipant := SnapshotParticipant {
  sp_SenderID : Z;
  sp_State : string;
}.

Record privateControlSnapshotChannel := SnapshotChannel {
  sc_ChannelID : Z;
  sc_Participants : list privateControlSnapshotParticipant;
}.

(** [snap_Channels] is [None] for a nil slice. *)
Record privateControlRelayStateSnapshot := RelayStateSnapshot {
  snap_SchemaVersion : string;
  snap_Type : string;
  snap_MessageID : string;
  snap_InReplyTo : string;
  snap_SnapshotID : string;
  snap_ChunkIndex : Z;
  snap_ChunkCount : Z;
  snap_Channels : option (list privateControlSnapshotChannel);
}.

Record privateControlError := ControlError {
  err_SchemaVersion : string;
  err_Type : string;
  err_MessageID : string;
  err_InReplyTo : string;
  err_Code : string;
}.

Record privateControlRevokeServiceAdmission := RevokeServiceAdmission {
  rev_SchemaVersion : string;
  rev_Type : string;
  rev_MessageID : string;
  rev_ChannelID : Z;
  rev_ServiceID : string;
  rev_GrantIDHash : string;
  rev_Reason : string;
  rev_DenyUntil : Z;
}.

Record privateControlAck := Ack {
  ack_SchemaVersion : string;
  ack_Type : string;
  ack_MessageID : string;
  ack_InReplyTo : string;
  ack_Outcome : string;
  ack_DenyUntil : Z;
  ack_AffectedMembershipCount : Z;
  ack_TalkReleaseCount : Z;
}.

(** [privateControlAck{}] *)
Definition zero_ack : privateControlAck := Ack "" "" "" "" "" 0 0 0.

Record privateControlLifecycleEvent := LifecycleEvent {
  ev_SchemaVersion : string;
  ev_Type : string;
  ev_MessageID : string;
  ev_OccurredAt : string;
  ev_EventType : string;
  ev_ChannelID : option Z;
  ev_SenderID : option Z;
  ev_ServiceID : option string;
  ev_RecordingJobID : option string;
  ev_State : option string;
  ev_Reason : option string;
}.

(** The body of [POST /v1/service-admission-revocations] and the target of a
    queued revocation ([service_admission_api.go]). *)
Record managementServiceAdmissionRevocationRequest := RevocationRequest {
  rr_ChannelID : Z;
  rr_ServiceID : string;
  rr_GrantIDHash : string;
  rr_Reason : string;
  rr_DenyUntil : Z;
}.

#[global] Instance revoke_eq_dec : EqDecision privateControlRevokeServiceAdmission.
Proof. solve_decision. Defined.
#[global] Instance ack_eq_dec : EqDecision privateControlAck.
Proof. solve_decision. Defined.

(** ** Validators *)

Definition validManagementServiceID (value : string) : bool :=
  privateControlServiceIDPattern value.

(** [newPrivateControlID()]: [raw] is what [rand.Read] filled in. *)
Definition newPrivateControlID (raw : string) : string := EncodeToString raw.

Definition validPrivateControlID (value : string) : bool :=
  if negb (len value =? 22) then false
  else match DecodeString value with
       | Some decoded => (len decoded =? 16) && String.eqb (EncodeToString decoded) value
       | None => false
       end.

Definition validPrivateControlStringLength (value : string) (minimum maximum : Z) : bool :=
  let length := RuneCountInString value in
  (minimum <=? length) && (length <=? maximum).

Definition validPrivateControlUTCTimestamp (value : string) : bool :=
  match Parse_RFC3339 value with
  | None => false
  | Some parsed => ct_offset parsed =? 0
  end.

Definition validPrivateControlHelloAck (ack : privateControlHelloAck) (inReplyTo : string) : bool :=
  String.eqb (hack_SchemaVersion ack) privateControlSchemaVersion &&
  String.eqb (hack_Type ack) "hello_ack" &&
  validPrivateControlID (hack_MessageID ack) &&
  String.eqb (hack_InReplyTo ack) inReplyTo &&
  validPrivateControlID (hack_SessionID ack) &&
  negb (String.eqb (TrimSpace (hack_RelayID ack)) "") &&
  (len (hack_RelayID ack) <=? 128) &&
  bool_decide (is_Some (hack_LifecycleEventsAccepted ack)) &&
  bool_decide (is_Some (hack_AuditInputsAccepted ack)) &&
  bool_decide (is_Some (hack_DiagnosticsAccepted ack)).

(** A check on a pointer field that passes on nil. *)
Definition if_present {A} (o : option A) (ok : A → bool) : bool :=
  match o with Some a => ok a | None => true end.

(** [json.Unmarshal(raw, &members)] into a map of raw members: the last
    occurrence of a name wins. *)
Definition raw_members (raw : string) : option (list (string * json)) :=
  match parse_document raw with
  | Ok (JObject ms) => Some ms
  | Ok JNull => Some []
  | _ => None
  end.

Definition lookup_member (key : string) (ms : list (string * json)) : option json :=
  snd <$> last (filter (λ m, m.1 = key) ms).

Definition validPrivateControlLifecycleEvent (raw : string) (event : privateControlLifecycleEvent) : bool :=
  if negb (String.eqb (ev_SchemaVersion event) privateControlSchemaVersion) ||
     negb (String.eqb (ev_Type event) "relay_lifecycle_event") ||
     negb (validPrivateControlID (ev_MessageID event)) ||
     negb (validPrivateControlUTCTimestamp (ev_OccurredAt event)) then false
  else if negb (in_set (ev_EventType event) privateControlLifecycleEventTypes) then false
  else if negb (if_present (ev_SenderID event) (λ id, negb (id =? 0))) then false
  else if negb (if_present (ev_ServiceID event) validManagementServiceID) then false
  else if negb (if_present (ev_RecordingJobID event)
                  (λ v, validPrivateControlStringLength v 1 128)) then false
  else if negb (if_present (ev_State event) (λ v, in_set v privateControlLifecycleStates)) then false
  else if negb (if_present (ev_Reason event)
                  (λ v, validPrivateControlStringLength v 1 128 && privateControlReasonPattern v))
       then false
  else match raw_members raw with
       | None => false
       | Some members =>
           match lookup_member "channel_id" members with
           | None => false
           | Some channelJSON =>
               if String.eqb (ev_EventType event) "relay_health_changed" then
                 match ev_ChannelID event, channelJSON, ev_State event with
                 | None, JNull, Some state => in_set state ["healthy"; "degraded"; "unhealthy"]
                 | _, _, _ => false
                 end
               else bool_decide (is_Some (ev_ChannelID event))
           end
       end.

Definition validPrivateControlError (response : privateControlError) : bool :=
  if negb (String.eqb (err_SchemaVersion response) privateControlSchemaVersion) ||
     negb (String.eqb (err_Type response) "error") ||
     negb (validPrivateControlID (err_MessageID response)) then false
  else if negb (String.eqb (err_InReplyTo response) "") &&
          negb (validPrivateControlID (err_InReplyTo response)) then false
  else in_set (err_Code response) privateControlErrorCodes.

Definition validPrivateControlGrantIDHash (value : string) : bool :=
  match DecodeString value with
  | Some decoded => (len decoded =? 32) && String.eqb (EncodeToString decoded) value
  | None => false
  end.

Definition validServiceAdmissionRevocationReason (value : string) : bool :=
  in_set value ["acl_removed"; "service_disabled"; "grant_revoked"].

Definition validPrivateControlRevocation (message : privateControlRevokeServiceAdmission) : bool :=
  String.eqb (rev_SchemaVersion message) privateControlSchemaVersion &&
  String.eqb (rev_Type message) "revoke_service_admission" &&
  validPrivateControlID (rev_MessageID message) && (1 <=? rev_DenyUntil message) &&
  (String.eqb (rev_ServiceID message) "" || validManagementServiceID (rev_ServiceID message)) &&
  (String.eqb (rev_GrantIDHash message) "" ||
   validPrivateControlGrantIDHash (rev_GrantIDHash message)) &&
  (negb (String.eqb (rev_ServiceID message) "") ||
   negb (String.eqb (rev_GrantIDHash message) "")) &&
  validServiceAdmissionRevocationReason (rev_Reason message).

Definition validPrivateControlAck (response : privateControlAck) : bool :=
  if negb (String.eqb (ack_SchemaVersion response) privateControlSchemaVersion) ||
     negb (String.eqb (ack_Type response) "ack") ||
     negb (validPrivateControlID (ack_MessageID response)) ||
     negb (validPrivateControlID (ack_InReplyTo response)) ||
     (ack_DenyUntil response <? 1) then false
  else if String.eqb (ack_Outcome response) "applied" then true
  else if String.eqb (ack_Outcome response) "already_expired" then
    (ack_AffectedMembershipCount response =? 0) && (ack_TalkReleaseCount response =? 0)
  else false.

Definition valid_snapshot_participant (participant : privateControlSnapshotParticipant) : bool :=
  negb ((sp_SenderID participant =? 0) ||
        (negb (String.eqb (sp_State participant) "joined") &&
         negb (String.eqb (sp_State participant) "talking") &&
         negb (String.eqb (sp_State participant) "idle"))).

Definition validPrivateControlRelayStateSnapshot (snapshot : privateControlRelayStateSnapshot) : bool :=
  if negb (String.eqb (snap_SchemaVersion snapshot) privateControlSchemaVersion) ||
     negb (String.eqb (snap_Type snapshot) "relay_state_snapshot") ||
     negb (validPrivateControlID (snap_MessageID snapshot)) ||
     negb (validPrivateControlID (snap_InReplyTo snapshot)) ||
     negb (validPrivateControlID (snap_SnapshotID snapshot)) ||
     (snap_ChunkCount snapshot =? 0) || (64 <? snap_ChunkCount snapshot) ||
     (snap_ChunkCount snapshot <=? snap_ChunkIndex snapshot) then false
  else match snap_Channels snapshot with
       | None => false
       | Some channels =>
           forallb (λ channel, forallb valid_snapshot_participant (sc_Participants channel)) channels
       end.

(** ** Facts the other components use *)

Lemma in_set_spec key set : in_set key set = true ↔ key ∈ set.
Proof. unfold in_set. apply bool_decide_eq_true. Qed.

Lemma validPrivateControlID_canonical v :
  validPrivateControlID v = canonical_base64 16 v.
Proof.
  unfold validPrivateControlID. destruct (len v =? 22) eqn:E; [done|]. simpl. symmetry.
  apply not_true_is_false. intros (b & Hb & ->)%canonical_base64_spec.
  rewrite EncodeToString_len, Hb in E. discriminate.
Qed.

Lemma validPrivateControlID_spec v :
  validPrivateControlID v = true ↔ ∃ raw, len raw = 16 ∧ v = newPrivateControlID raw.
Proof. rewrite validPrivateControlID_canonical. apply canonical_base64_spec. Qed.

Lemma validPrivateControlGrantIDHash_spec v :
  validPrivateControlGrantIDHash v = true ↔ ∃ raw, len raw = 32 ∧ v = EncodeToString raw.
Proof. apply (canonical_base64_spec 32). Qed.

(** Service identifiers are printable ASCII without separators, which makes
    the composite keys built from them injective. *)
Definition service_id_byte (c : ascii) : bool := is_alnum c || is_dot_dash c.

Lemma validManagementServiceID_bytes v :
  validManagementServiceID v = true →
  v ≠ "" ∧ string_forallb service_id_byte v = true ∧ 1 ≤ len v ≤ 128.
Proof.
  unfold validManagementServiceID, privateControlServiceIDPattern, match_repeat.
  destruct v as [|c r]; [done|]. intros H. go_bool. split_and!; [done| |..].
  - simpl. unfold service_id_byte at 1. by rewrite H.
  - unfold len in *. simpl. lia.
  - unfold len in *. simpl. lia.
Qed.

Close Scope Z_scope.
