(* ===== verification/Snapshot.v ===== *)
(** * Relay state snapshot reassembly

    [privateControlSnapshotReassembly] of [private_control.go]: the chunks of
    a snapshot arrive in any order, and the snapshot is delivered once every
    chunk is there.  The theorems: the delivered channels are the chunks
    concatenated in index order whatever the order of arrival, a delivered
    snapshot names no participant twice, and the "incomplete" error of the
    assembly loop is unreachable for validated chunks. *)

From S2P Require Export Messages.

Open Scope Z_scope.

Record privateControlSnapshotReassembly := Reassembly {
  ra_snapshotID : string;
  ra_chunkCount : Z;
  ra_chunks : gmap Z (list privateControlSnapshotChannel);
}.

(** The literal built on the first chunk in [handleSessionMessage]. *)
Definition newSnapshotReassembly (response : privateControlRelayStateSnapshot)
    : privateControlSnapshotReassembly :=
  Reassembly (snap_SnapshotID response) (snap_ChunkCount response) ∅.

Definition err_inconsistent_snapshot : error := Errorf "inconsistent Relay state snapshot" [].
Definition err_duplicate_chunk : error := Errorf "duplicate Relay state snapshot chunk" [].
Definition err_incomplete_snapshot : error := Errorf "incomplete Relay state snapshot" [].
Definition err_duplicate_participant : error := Errorf "duplicate Relay snapshot participant" [].

(** The participants of one channel are recorded in [ids]. *)
Fixpoint see_participants (ids : gset Z) (ps : list privateControlSnapshotParticipant)
    : result (gset Z) :=
  match ps with
  | [] => Ok ids
  | p :: ps =>
      if bool_decide (sp_SenderID p ∈ ids) then Err err_duplicate_participant
      else see_participants ({[sp_SenderID p]} ∪ ids) ps
  end.

(** The channels of one chunk; [seen] is the source's map of maps. *)
Fixpoint see_channels (seen : gmap Z (gset Z)) (chunk : list privateControlSnapshotChannel)
    : result (gmap Z (gset Z)) :=
  match chunk with
  | [] => Ok seen
  | channel :: chunk =>
      let ids := default ∅ (seen !! sc_ChannelID channel) in
      try ids' <- see_participants ids (sc_Participants channel);
      see_channels (<[sc_ChannelID channel := ids']> seen) chunk
  end.

(** [for index := uint16(0); index < r.chunkCount; index++]; [remaining] counts
    the iterations to go. *)
Fixpoint assemble (chunks : gmap Z (list privateControlSnapshotChannel)) (remaining : nat) (index : Z)
    (seen : gmap Z (gset Z)) (channels : list privateControlSnapshotChannel)
    : result (list privateControlSnapshotChannel) :=
  match remaining with
  | O => Ok channels
  | S remaining =>
      match chunks !! index with
      | None => Err err_incomplete_snapshot
      | Some chunk =>
          try seen' <- see_channels seen chunk;
          assemble chunks remaining (index + 1) seen' (channels ++ chunk)
      end
  end.

(** [r.add(snapshot)]: the updated receiver and [(complete, channels, err)]. *)
Definition reassembly_add (r : privateControlSnapshotReassembly)
    (snapshot : privateControlRelayStateSnapshot)
    : privateControlSnapshotReassembly * result (option (list privateControlSnapshotChannel)) :=
  if negb (String.eqb (snap_SnapshotID snapshot) (ra_snapshotID r)) ||
     negb (snap_ChunkCount snapshot =? ra_chunkCount r)
  then (r, Err err_inconsistent_snapshot)
  else
    match ra_chunks r !! snap_ChunkIndex snapshot with
    | Some _ => (r, Err err_duplicate_chunk)
    | None =>
        let r' := Reassembly (ra_snapshotID r) (ra_chunkCount r)
                    (<[snap_ChunkIndex snapshot := default [] (snap_Channels snapshot)]>
                       (ra_chunks r)) in
        if negb (len_map (ra_chunks r') =? ra_chunkCount r') then (r', Ok None)
        else (r', try channels <- assemble (ra_chunks r') (Z.to_nat (ra_chunkCount r')) 0 ∅ [];
                  Ok (Some channels))
    end.

(** ** Specification of the duplicate check *)

(** Every (channel, sender) pair that a list of channels names, in order. *)
Definition participant_pairs (channels : list privateControlSnapshotChannel) : list (Z * Z) :=
  channels ≫= λ c, (λ p, (sc_ChannelID c, sp_SenderID p)) <$> sc_Participants c.

Arguments participant_pairs : simpl never.

(** The pairs recorded in the source's map of maps. *)
Definition seen_pair (seen : gmap Z (gset Z)) (pair : Z * Z) : Prop :=
  pair.2 ∈ default ∅ (seen !! pair.1).

Lemma see_participants_spec ids ps :
  match see_participants ids ps with
  | Ok ids' => NoDup (sp_SenderID <$> ps) ∧ (∀ p, p ∈ ps → sp_SenderID p ∉ ids) ∧
               ∀ z, z ∈ ids' ↔ z ∈ ids ∨ z ∈ sp_SenderID <$> ps
  | Err e => e = err_duplicate_participant ∧
             ¬ (NoDup (sp_SenderID <$> ps) ∧ (∀ p, p ∈ ps → sp_SenderID p ∉ ids))
  end.
Proof.
  revert ids. induction ps as [|p ps IH]; intros ids; simpl.
  { split_and!; [constructor|set_solver|set_solver]. }
  case_bool_decide as Hp.
  { split; [done|]. intros [_ H]. apply (H p); [set_solver|done]. }
  specialize (IH ({[sp_SenderID p]} ∪ ids)).
  destruct (see_participants _ ps) as [ids'|e].
  - destruct IH as (Hnd & Hnew & Hids). split_and!.
    + apply NoDup_cons. split; [|done]. intros Hin.
      apply list_elem_of_fmap in Hin as (q & Hq & Hqin).
      specialize (Hnew q Hqin). set_solver.
    + intros q Hq. apply elem_of_cons in Hq as [->|Hq]; [done|].
      specialize (Hnew q Hq). set_solver.
    + set_solver.
  - destruct IH as [-> IH]. split; [done|]. intros [Hnd Hnew]. apply IH.
    apply NoDup_cons in Hnd as [Hp' Hnd]. split; [done|]. intros q Hq.
    apply not_elem_of_union. split; [|set_solver].
    apply not_elem_of_singleton. intros Heq. apply Hp'. rewrite <-Heq.
    by apply list_elem_of_fmap_2.
Qed.

Lemma participant_pairs_cons c cs :
  participant_pairs (c :: cs) =
  ((λ p, (sc_ChannelID c, sp_SenderID p)) <$> sc_Participants c) ++ participant_pairs cs.
Proof. done. Qed.

Lemma participant_pairs_app cs1 cs2 :
  participant_pairs (cs1 ++ cs2) = participant_pairs cs1 ++ participant_pairs cs2.
Proof. unfold participant_pairs. apply bind_app. Qed.

Lemma elem_of_channel_pairs c x :
  x ∈ ((λ p, (sc_ChannelID c, sp_SenderID p)) <$> sc_Participants c) ↔
  x.1 = sc_ChannelID c ∧ x.2 ∈ sp_SenderID <$> sc_Participants c.
Proof.
  rewrite !list_elem_of_fmap. destruct x as [a b]; simpl. split.
  - intros (p & [= -> ->] & ?). eauto.
  - intros (-> & p & -> & ?). eauto.
Qed.

Lemma channel_pair_elem c p :
  p ∈ sc_Participants c →
  (sc_ChannelID c, sp_SenderID p) ∈ ((λ p, (sc_ChannelID c, sp_SenderID p)) <$> sc_Participants c).
Proof. apply (list_elem_of_fmap_2 (λ p, (sc_ChannelID c, sp_SenderID p))). Qed.

Lemma NoDup_channel_pairs c :
  NoDup ((λ p, (sc_ChannelID c, sp_SenderID p)) <$> sc_Participants c) ↔
  NoDup (sp_SenderID <$> sc_Participants c).
Proof.
  replace ((λ p, (sc_ChannelID c, sp_SenderID p)) <$> sc_Participants c)
    with (pair (sc_ChannelID c) <$> (sp_SenderID <$> sc_Participants c))
    by (by rewrite <-list_fmap_compose).
  apply (NoDup_fmap _).
Qed.

(** The loop over one chunk accepts it when its pairs are distinct and new. *)
Lemma see_channels_spec seen cs :
  match see_channels seen cs with
  | Ok seen' => NoDup (participant_pairs cs) ∧
                (∀ x, x ∈ participant_pairs cs → ¬ seen_pair seen x) ∧
                ∀ x, seen_pair seen' x ↔ seen_pair seen x ∨ x ∈ participant_pairs cs
  | Err e => e = err_duplicate_participant ∧
             ¬ (NoDup (participant_pairs cs) ∧
                (∀ x, x ∈ participant_pairs cs → ¬ seen_pair seen x))
  end.
Proof.
  revert seen. induction cs as [|c cs IH]; intros seen; simpl.
  { split_and!; [constructor|set_solver|set_solver]. }
  pose proof (see_participants_spec (default ∅ (seen !! sc_ChannelID c)) (sc_Participants c)) as Hp.
  rewrite participant_pairs_cons.
  destruct (see_participants _ _) as [ids|e]; simpl.
  - destruct Hp as (Hnd & Hnew & Hids).
    assert (Hs : ∀ x, seen_pair (<[sc_ChannelID c:=ids]> seen) x ↔ seen_pair seen x ∨
                x ∈ ((λ p, (sc_ChannelID c, sp_SenderID p)) <$> sc_Participants c)).
    { intros [a b]. rewrite elem_of_channel_pairs. unfold seen_pair; simpl.
      destruct (decide (sc_ChannelID c = a)) as [<-|Hne].
      - rewrite lookup_insert_eq; simpl. rewrite Hids. naive_solver.
      - rewrite lookup_insert_ne by done. naive_solver. }
    specialize (IH (<[sc_ChannelID c:=ids]> seen)).
    assert (Hc : ∀ x, x ∈ ((λ p, (sc_ChannelID c, sp_SenderID p)) <$> sc_Participants c) →
                 ¬ seen_pair seen x).
    { intros [a b] [Ha Hb]%elem_of_channel_pairs. simpl in *. subst.
      apply list_elem_of_fmap in Hb as (p & -> & Hp). exact (Hnew p Hp). }
    destruct (see_channels _ cs) as [seen'|e].
    + destruct IH as (IHnd & IHnew & IHs). split_and!.
      * apply NoDup_app. split_and!; [by apply NoDup_channel_pairs| |done].
        intros x Hx Hx'. apply (IHnew x Hx'). apply Hs. by right.
      * intros x [Hx|Hx]%elem_of_app; [by apply Hc|].
        intros Hsx. apply (IHnew x Hx). apply Hs. by left.
      * intros x. rewrite IHs, Hs, elem_of_app. naive_solver.
    + destruct IH as [-> IH]. split; [done|]. intros [Hnd' Hnew']. apply IH.
      apply NoDup_app in Hnd' as (_ & Hdisj & Hnd'). split; [done|].
      intros x Hx [Hsx|Hcx]%Hs.
      * apply (Hnew' x); [apply elem_of_app; by right|done].
      * by apply (Hdisj x).
  - destruct Hp as [-> Hp]. split; [done|]. intros [Hnd Hnew]. apply Hp. split.
    + apply NoDup_app in Hnd as (Hnd & _). by apply NoDup_channel_pairs.
    + intros p Hin Hids. apply (Hnew (sc_ChannelID c, sp_SenderID p)); [|exact Hids].
      apply elem_of_app. left. apply elem_of_channel_pairs. simpl.
      split; [done|]. by apply list_elem_of_fmap_2.
Qed.

(** ** Assembly *)

(** The chunks [index, index + 1, ...] in order. *)
Fixpoint collect_chunks (chunks : gmap Z (list privateControlSnapshotChannel)) (n : nat) (index : Z)
    : option (list privateControlSnapshotChannel) :=
  match n with
  | O => Some []
  | S n => chunk ← chunks !! index;
           rest ← collect_chunks chunks n (index + 1);
           Some (chunk ++ rest)
  end.

(** Channels whose participants are distinct and not recorded yet. *)
Definition fresh_pairs (seen : gmap Z (gset Z)) (cs : list privateControlSnapshotChannel) : Prop :=
  NoDup (participant_pairs cs) ∧ ∀ x, x ∈ participant_pairs cs → ¬ seen_pair seen x.

Lemma assemble_spec chunks n index seen acc cs :
  collect_chunks chunks n index = Some cs →
  match assemble chunks n index seen acc with
  | Ok res => res = acc ++ cs ∧ fresh_pairs seen cs
  | Err e => e = err_duplicate_participant ∧ ¬ fresh_pairs seen cs
  end.
Proof.
  revert index seen acc cs. induction n as [|n IH]; intros index seen acc cs; simpl.
  { intros [= <-]. rewrite app_nil_r. split; [done|]. split; [constructor|set_solver]. }
  destruct (chunks !! index) as [chunk|]; simpl; [|done].
  destruct (collect_chunks chunks n (index + 1)) as [rest|] eqn:Hrest; simpl; [|done].
  intros [= <-]. unfold fresh_pairs. rewrite participant_pairs_app.
  pose proof (see_channels_spec seen chunk) as Hc.
  destruct (see_channels seen chunk) as [seen'|e]; simpl.
  - destruct Hc as (Hnd & Hnew & Hs).
    specialize (IH (index + 1) seen' (acc ++ chunk) rest Hrest).
    destruct (assemble _ _ _ _ _) as [res|e].
    + destruct IH as (-> & Hnd' & Hnew'). rewrite (assoc_L (++)). split; [done|].
      split; [apply NoDup_app; split_and!; try done|].
      * intros x Hx Hx'. apply (Hnew' x Hx'). apply Hs. by right.
      * intros x [Hx|Hx]%elem_of_app; [by apply Hnew|].
        intros Hsx. apply (Hnew' x Hx). apply Hs. by left.
    + destruct IH as [-> IH]. split; [done|].
      intros [(_ & Hdisj & Hnd')%NoDup_app Hnew']. apply IH.
      split; [done|]. intros x Hx [Hsx|Hcx]%Hs.
      * apply (Hnew' x); [|done]. apply elem_of_app. by right.
      * by apply (Hdisj x).
  - destruct Hc as [-> Hc]. split; [done|].
    intros [(Hnd & _ & _)%NoDup_app Hnew]. apply Hc.
    split; [done|]. intros x Hx. apply Hnew. apply elem_of_app. by left.
Qed.

(** ** The receiver's invariant *)

(** Chunk numbers are below the count, as the validator checks. *)
Definition reassembly_ok (r : privateControlSnapshotReassembly) : Prop :=
  1 ≤ ra_chunkCount r ≤ 64 ∧
  ∀ k, is_Some (ra_chunks r !! k) → 0 ≤ k < ra_chunkCount r.

(** [n] chunks with numbers below [n] are all there: the assembly loop finds
    each of them. *)
Lemma all_chunks_present {A} (m : gmap Z A) (n : nat) :
  (∀ k, is_Some (m !! k) → 0 ≤ k < Z.of_nat n) → size m = n →
  ∀ k, 0 ≤ k < Z.of_nat n → is_Some (m !! k).
Proof.
  intros Hk Hsize k Hkn. apply elem_of_dom.
  assert (dom m = list_to_set (seqZ 0 (Z.of_nat n))) as ->.
  { apply set_subseteq_size_eq.
    - intros j [Hj1 Hj2]%elem_of_dom%Hk. apply elem_of_list_to_set, elem_of_seqZ. lia.
    - rewrite size_list_to_set by apply NoDup_seqZ. rewrite length_seqZ, size_dom. lia. }
  apply elem_of_list_to_set, elem_of_seqZ. lia.
Qed.

Lemma collect_chunks_total chunks n index :
  (∀ k, index ≤ k < index + Z.of_nat n → is_Some (chunks !! k)) →
  is_Some (collect_chunks chunks n index).
Proof.
  revert index. induction n as [|n IH]; intros index H; simpl; [by eexists|].
  destruct (H index) as [chunk ->]; [lia|]. simpl.
  destruct (IH (index + 1)) as [rest ->]; [|by eexists].
  intros k Hk. apply H. lia.
Qed.

Lemma reassembly_ok_new response :
  0 ≤ snap_ChunkIndex response →
  validPrivateControlRelayStateSnapshot response = true →
  reassembly_ok (newSnapshotReassembly response).
Proof.
  unfold validPrivateControlRelayStateSnapshot. intros ? H. case_match; [done|]. go_bool.
  split; [simpl; lia|]. intros k [? Hk]. simpl in Hk. by rewrite lookup_empty in Hk.
Qed.

Lemma valid_snapshot_index response :
  0 ≤ snap_ChunkIndex response →
  validPrivateControlRelayStateSnapshot response = true →
  0 ≤ snap_ChunkIndex response < snap_ChunkCount response.
Proof.
  unfold validPrivateControlRelayStateSnapshot. intros ? H. case_match; [done|]. go_bool. lia.
Qed.

Lemma reassembly_add_ok r response :
  reassembly_ok r →
  0 ≤ snap_ChunkIndex response < snap_ChunkCount response →
  reassembly_ok (reassembly_add r response).1.
Proof.
  intros [Hc Hk] Hi. unfold reassembly_add. case_match eqn:E; [done|]. go_bool.
  destruct (ra_chunks r !! snap_ChunkIndex response) eqn:Hl; [done|].
  destruct (negb _); simpl; (split; [done|]); simpl; intros k;
    rewrite lookup_insert; (case_decide; [intros _; lia|apply Hk]).
Qed.

(** [add] when every chunk number is in range: the loop's "incomplete" branch
    is not taken, so only the duplicate check can refuse the last chunk. *)
Lemma reassembly_add_last r response :
  reassembly_ok r →
  snap_SnapshotID response = ra_snapshotID r →
  snap_ChunkCount response = ra_chunkCount r →
  0 ≤ snap_ChunkIndex response < snap_ChunkCount response →
  ra_chunks r !! snap_ChunkIndex response = None →
  len_map (ra_chunks r) + 1 = ra_chunkCount r →
  ∃ cs, collect_chunks (<[snap_ChunkIndex response := default [] (snap_Channels response)]>
                          (ra_chunks r)) (Z.to_nat (ra_chunkCount r)) 0 = Some cs ∧
        match (reassembly_add r response).2 with
        | Ok o => o = Some cs ∧ NoDup (participant_pairs cs)
        | Err e => e = err_duplicate_participant ∧ ¬ NoDup (participant_pairs cs)
        end.
Proof.
  intros [Hc Hk] Hid Hcount Hi Hnone Hlen. unfold len_map in Hlen.
  destruct (collect_chunks_total
    (<[snap_ChunkIndex response := default [] (snap_Channels response)]> (ra_chunks r))
    (Z.to_nat (ra_chunkCount r)) 0) as [cs Hcs].
  { intros k Hkr. apply (all_chunks_present _ (Z.to_nat (ra_chunkCount r))); [| |lia].
    - intros j. rewrite lookup_insert. case_decide; [intros _; lia|]. intros Hj. apply Hk in Hj. lia.
    - rewrite map_size_insert_None by done. lia. }
  exists cs. split; [done|]. unfold reassembly_add.
  rewrite Hid, String.eqb_refl, Hcount, Z.eqb_refl. simpl. rewrite Hnone. simpl.
  unfold len_map. rewrite map_size_insert_None by done.
  replace (Z.of_nat (S (size (ra_chunks r))) =? ra_chunkCount r) with true
    by (symmetry; apply Z.eqb_eq; lia). simpl.
  pose proof (assemble_spec _ _ _ ∅ [] _ Hcs) as Ha.
  destruct (assemble _ _ _ _ _) as [res|e]; simpl.
  - destruct Ha as (-> & Hnd & _). by split.
  - destruct Ha as [-> Ha]. split; [done|]. intros Hnd. apply Ha. split; [done|].
    intros x _. unfold seen_pair. rewrite lookup_empty. simpl. set_solver.
Qed.

(** [add] on a chunk that does not complete the snapshot. *)
Lemma reassembly_add_partial r response :
  snap_SnapshotID response = ra_snapshotID r →
  snap_ChunkCount response = ra_chunkCount r →
  ra_chunks r !! snap_ChunkIndex response = None →
  len_map (ra_chunks r) + 1 ≠ ra_chunkCount r →
  reassembly_add r response =
    (Reassembly (ra_snapshotID r) (ra_chunkCount r)
       (<[snap_ChunkIndex response := default [] (snap_Channels response)]> (ra_chunks r)),
     Ok None).
Proof.
  intros Hid Hcount Hnone Hlen. unfold reassembly_add, len_map in *.
  rewrite Hid, String.eqb_refl, Hcount, Z.eqb_refl. simpl. rewrite Hnone. simpl.
  rewrite map_size_insert_None by done.
  replace (Z.of_nat (S (size (ra_chunks r))) =? ra_chunkCount r) with false; [done|].
  symmetry; apply Z.eqb_neq; lia.
Qed.

(** ** A whole snapshot *)

(** The chunks handed to [add] one after another, with each result. *)
Fixpoint feed (r : privateControlSnapshotReassembly) (msgs : list privateControlRelayStateSnapshot)
    : privateControlSnapshotReassembly *
      list (result (option (list privateControlSnapshotChannel))) :=
  match msgs with
  | [] => (r, [])
  | m :: msgs =>
      let '(r1, res) := reassembly_add r m in
      let '(r2, results) := feed r1 msgs in (r2, res :: results)
  end.

(** The Relay's chunks of one snapshot in index order. *)
Definition chunked_snapshot (id : string) (ordered : list privateControlRelayStateSnapshot) : Prop :=
  1 ≤ Z.of_nat (length ordered) ≤ 64 ∧
  ∀ i m, ordered !! i = Some m →
    snap_SnapshotID m = id ∧ snap_ChunkCount m = Z.of_nat (length ordered) ∧
    snap_ChunkIndex m = Z.of_nat i.

(** What the Relay described: the chunks' channels one after another. *)
Definition snapshot_channels (ordered : list privateControlRelayStateSnapshot)
    : list privateControlSnapshotChannel :=
  ordered ≫= λ m, default [] (snap_Channels m).

Definition chunk_entry (m : privateControlRelayStateSnapshot) : Z * list privateControlSnapshotChannel :=
  (snap_ChunkIndex m, default [] (snap_Channels m)).

Definition chunk_map (msgs : list privateControlRelayStateSnapshot) : gmap Z _ :=
  list_to_map (chunk_entry <$> msgs).

Lemma chunked_snapshot_indices id ordered :
  chunked_snapshot id ordered → NoDup ((chunk_entry <$> ordered).*1).
Proof.
  intros [_ H]. apply NoDup_alt. intros i j k Hi Hj.
  rewrite !list_lookup_fmap in Hi, Hj.
  destruct (ordered !! i) as [mi|] eqn:Ei; simplify_eq/=.
  destruct (ordered !! j) as [mj|] eqn:Ej; simplify_eq/=.
  destruct (H i mi Ei) as (_ & _ & Hmi). destruct (H j mj Ej) as (_ & _ & Hmj). lia.
Qed.

Lemma chunked_snapshot_member id ordered m :
  chunked_snapshot id ordered → m ∈ ordered →
  snap_SnapshotID m = id ∧ snap_ChunkCount m = Z.of_nat (length ordered) ∧
  0 ≤ snap_ChunkIndex m < snap_ChunkCount m.
Proof.
  intros [_ H] [i Hi]%list_elem_of_lookup. destruct (H i m Hi) as (-> & -> & ->).
  apply lookup_lt_Some in Hi. split_and!; [done|done|lia|lia].
Qed.

Lemma collect_chunk_map ordered n pre :
  (∀ i m, ordered !! i = Some m → snap_ChunkIndex m = Z.of_nat (pre + i)) →
  n = length ordered →
  ∀ m : gmap Z _, (∀ x, x ∈ ordered → m !! snap_ChunkIndex x = Some (default [] (snap_Channels x))) →
  collect_chunks m n (Z.of_nat pre) = Some (snapshot_channels ordered).
Proof.
  revert pre n. induction ordered as [|x ordered IH]; intros pre n Hidx -> m Hm; [done|].
  simpl. pose proof (Hidx O x eq_refl) as Hx. rewrite Nat.add_0_r in Hx.
  rewrite <-Hx, Hm by set_solver. simpl.
  replace (snap_ChunkIndex x + 1) with (Z.of_nat (S pre)) by lia.
  rewrite (IH (S pre) _) with (m := m); [done| |done|set_solver].
  intros i y Hy. rewrite (Hidx (S i) y Hy). lia.
Qed.

Lemma collect_chunked id ordered :
  chunked_snapshot id ordered →
  collect_chunks (chunk_map ordered) (length ordered) 0 = Some (snapshot_channels ordered).
Proof.
  intros Hch. apply (collect_chunk_map ordered _ 0); [|done|].
  - intros i m Hi. by destruct (proj2 Hch i m Hi) as (_ & _ & ->).
  - intros x Hx. apply elem_of_list_to_map.
    + by apply (chunked_snapshot_indices id).
    + by apply (list_elem_of_fmap_2 chunk_entry).
Qed.

(** The outcome of the last chunk. *)
Definition snapshot_outcome (ordered : list privateControlRelayStateSnapshot)
    : result (option (list privateControlSnapshotChannel)) :=
  if decide (NoDup (participant_pairs (snapshot_channels ordered)))
  then Ok (Some (snapshot_channels ordered)) else Err err_duplicate_participant.

Lemma chunk_map_perm id ordered msgs :
  chunked_snapshot id ordered → msgs ≡ₚ ordered → chunk_map msgs = chunk_map ordered.
Proof.
  intros Hch Hp. unfold chunk_map. symmetry. apply list_to_map_proper.
  - by apply (chunked_snapshot_indices id).
  - by rewrite Hp.
Qed.

Lemma chunked_reassembly_ok id ordered seen_msgs :
  chunked_snapshot id ordered → (∀ x, x ∈ seen_msgs → x ∈ ordered) →
  reassembly_ok (Reassembly id (Z.of_nat (length ordered)) (chunk_map seen_msgs)).
Proof.
  intros Hch Hsub. split; [exact (proj1 Hch)|]. intros k [v Hk%elem_of_list_to_map_2].
  apply list_elem_of_fmap in Hk as (x & [= -> ->] & Hx).
  destruct (chunked_snapshot_member id ordered x Hch (Hsub x Hx)) as (_ & Hxc & Hxi). simpl. lia.
Qed.

Lemma feed_spec id ordered seen_msgs msgs :
  chunked_snapshot id ordered → seen_msgs ++ msgs ≡ₚ ordered → msgs ≠ [] →
  (feed (Reassembly id (Z.of_nat (length ordered)) (chunk_map seen_msgs)) msgs).2 =
    replicate (length msgs - 1) (Ok None) ++ [snapshot_outcome ordered].
Proof.
  intros Hch. revert seen_msgs. induction msgs as [|m msgs IH]; intros seen_msgs Hp Hne; [done|].
  destruct (chunked_snapshot_member id ordered m Hch) as (Hid & Hcount & Hidx).
  { rewrite <-Hp. set_solver. }
  assert (NoDup ((chunk_entry <$> (m :: seen_msgs)).*1)) as Hnd.
  { pose proof (chunked_snapshot_indices id ordered Hch) as Hnd. rewrite <-Hp in Hnd.
    rewrite !fmap_app in Hnd. apply NoDup_app in Hnd as (Hnd1 & Hnd2 & Hnd3).
    simpl in *. apply NoDup_cons. split; [|done]. intros Hin. apply (Hnd2 _ Hin). set_solver. }
  apply NoDup_cons in Hnd as Hnd'. destruct Hnd' as [Hfresh Hnd'].
  set (r := Reassembly id _ (chunk_map seen_msgs)).
  assert (ra_chunks r !! snap_ChunkIndex m = None) as Hnone.
  { apply not_elem_of_list_to_map. exact Hfresh. }
  assert (Hsize : len_map (ra_chunks r) = Z.of_nat (length seen_msgs)).
  { unfold len_map, r, chunk_map. simpl. rewrite map_size_list_to_map by done.
    by rewrite length_fmap. }
  assert (Hlen : length ordered = (length seen_msgs + S (length msgs))%nat).
  { by rewrite <-Hp, length_app. }
  assert (Hp' : (m :: seen_msgs) ++ msgs ≡ₚ ordered).
  { rewrite <-Hp. simpl. apply Permutation_middle. }
  destruct msgs as [|m' msgs].
  - clear IH. simpl in Hlen. rewrite app_nil_r in Hp'.
    assert (reassembly_ok r) as Hok.
    { apply chunked_reassembly_ok; [done|]. intros x Hx. rewrite <-Hp. set_solver. }
    destruct (reassembly_add_last r m) as (cs & Hcs & Hres); [done..| |].
    { rewrite Hsize. simpl. lia. }
    simpl. destruct (reassembly_add r m) as [r1 res]. simpl in *. f_equal.
    change (<[snap_ChunkIndex m:=default [] (snap_Channels m)]> (chunk_map seen_msgs))
      with (chunk_map (m :: seen_msgs)) in Hcs.
    rewrite (chunk_map_perm id ordered) in Hcs by done.
    rewrite Nat2Z.id, (collect_chunked id ordered Hch) in Hcs. injection Hcs as <-.
    unfold snapshot_outcome. destruct res as [o|e].
    + destruct Hres as [-> Hres]. by rewrite decide_True.
    + destruct Hres as [-> Hres]. by rewrite decide_False.
  - specialize (IH (m :: seen_msgs) Hp'). simpl in Hlen.
    change (feed r (m :: m' :: msgs)) with
      (let '(r1, res) := reassembly_add r m in
       let '(r2, results) := feed r1 (m' :: msgs) in (r2, res :: results)).
    rewrite (reassembly_add_partial r m) by (rewrite ?Hsize; simpl; auto; lia).
    change (Reassembly (ra_snapshotID r) (ra_chunkCount r) _) with
      (Reassembly id (Z.of_nat (length ordered)) (chunk_map (m :: seen_msgs))).
    destruct (feed _ (m' :: msgs)) as [r2 results]. simpl in IH. simpl.
    rewrite IH by done. simpl. by rewrite Nat.sub_0_r.
Qed.

(** ** Properties *)

(** C32: whatever the order in which the chunks of a snapshot arrive, every
    chunk but the last leaves the snapshot incomplete, and the last one
    delivers the channels of all chunks in index order (or the duplicate
    participant error when the Relay's description names one twice). *)
Theorem snapshot_any_arrival_order id ordered first rest :
  chunked_snapshot id ordered → first :: rest ≡ₚ ordered →
  (feed (newSnapshotReassembly first) (first :: rest)).2 =
    replicate (length rest) (Ok None) ++ [snapshot_outcome ordered].
Proof.
  intros Hch Hp.
  destruct (chunked_snapshot_member id ordered first Hch) as (Hid & Hcount & _).
  { rewrite <-Hp. set_solver. }
  unfold newSnapshotReassembly. rewrite Hid, Hcount.
  change ∅ with (chunk_map []). rewrite (feed_spec id ordered [] (first :: rest)); [|done..].
  simpl. by rewrite Nat.sub_0_r.
Qed.

Definition example_chunk (index : Z) (channel sender : Z) : privateControlRelayStateSnapshot :=
  RelayStateSnapshot privateControlSchemaVersion "relay_state_snapshot" "m" "r" "s" index 3
    (Some [SnapshotChannel channel [SnapshotParticipant sender "idle"]]).

Lemma snapshot_any_arrival_order_witness :
  (feed (newSnapshotReassembly (example_chunk 2 7 1))
     [example_chunk 2 7 1; example_chunk 0 7 2; example_chunk 1 8 1]).2 =
    replicate 2 (Ok None) ++
    [snapshot_outcome [example_chunk 0 7 2; example_chunk 1 8 1; example_chunk 2 7 1]].
Proof.
  apply (snapshot_any_arrival_order "s"
    [example_chunk 0 7 2; example_chunk 1 8 1; example_chunk 2 7 1]
    (example_chunk 2 7 1) [example_chunk 0 7 2; example_chunk 1 8 1]).
  - split; [simpl; lia|].
    intros i m Hi. do 3 (destruct i as [|i]; [injection Hi as <-; done|]). discriminate Hi.
  - apply (Permutation_cons_append [example_chunk 0 7 2; example_chunk 1 8 1]).
Defined.

(** On a receiver whose chunk numbers are below the count, [add] of a
    validated chunk keeps that invariant, refuses a foreign or repeated chunk,
    and never reports the snapshot as incomplete: its channels come out only
    when they are the chunks in index order and name no participant twice. *)
Theorem reassembly_add_outcome r snapshot :
  reassembly_ok r → 0 ≤ snap_ChunkIndex snapshot →
  validPrivateControlRelayStateSnapshot snapshot = true →
  let '(r', res) := reassembly_add r snapshot in
  reassembly_ok r' ∧
  match res with
  | Ok None => len_map (ra_chunks r') ≠ ra_chunkCount r'
  | Ok (Some cs) =>
      collect_chunks (ra_chunks r') (Z.to_nat (ra_chunkCount r')) 0 = Some cs ∧
      NoDup (participant_pairs cs)
  | Err e => e = err_inconsistent_snapshot ∧ r' = r ∨
             e = err_duplicate_chunk ∧ is_Some (ra_chunks r !! snap_ChunkIndex snapshot) ∨
             e = err_duplicate_participant
  end.
Proof.
  intros Hok Hidx Hvalid. pose proof (valid_snapshot_index snapshot Hidx Hvalid) as Hi.
  pose proof (reassembly_add_ok r snapshot Hok Hi) as Hok'.
  destruct (reassembly_add r snapshot) as [r' res] eqn:Hadd. split; [done|].
  assert (Hadd' := Hadd). unfold reassembly_add in Hadd.
  case_match eqn:Hc; [simplify_eq; by left|]. go_bool.
  case_match eqn:Hl; [simplify_eq; eauto|].
  destruct (decide (len_map (ra_chunks r) + 1 = ra_chunkCount r)) as [Hlen|Hlen].
  - destruct (reassembly_add_last r snapshot) as (cs & Hcs & Hres); try done.
    rewrite Hadd' in Hres. simpl in Hres, Hadd.
    destruct (negb _) eqn:E in Hadd.
    { go_bool. unfold len_map in *. simpl in *. rewrite map_size_insert_None in * by done. lia. }
    simplify_eq. destruct (try channels <- _; Ok (Some channels)) as [o|e].
    + destruct Hres as [-> Hnd]. simpl in *. by split.
    + destruct Hres as [-> _]. eauto.
  - rewrite (reassembly_add_partial r snapshot) in Hadd' by done. simplify_eq.
    unfold len_map in *. simpl. rewrite map_size_insert_None by done. lia.
Qed.

Lemma reassembly_add_outcome_witness :
  let m := RelayStateSnapshot privateControlSchemaVersion "relay_state_snapshot"
             "AAAAAAAAAAAAAAAAAAAAAA" "AAAAAAAAAAAAAAAAAAAAAA" "AAAAAAAAAAAAAAAAAAAAAA" 0 1
             (Some [SnapshotChannel 7 [SnapshotParticipant 1 "idle"]]) in
  let '(r', res) := reassembly_add (newSnapshotReassembly m) m in
  reassembly_ok r' ∧
  match res with
  | Ok None => len_map (ra_chunks r') ≠ ra_chunkCount r'
  | Ok (Some cs) =>
      collect_chunks (ra_chunks r') (Z.to_nat (ra_chunkCount r')) 0 = Some cs ∧
      NoDup (participant_pairs cs)
  | Err e => e = err_inconsistent_snapshot ∧ r' = newSnapshotReassembly m ∨
             e = err_duplicate_chunk ∧
             is_Some (ra_chunks (newSnapshotReassembly m) !! snap_ChunkIndex m) ∨
             e = err_duplicate_participant
  end.
Proof.
  apply reassembly_add_outcome; [|done|vm_compute; reflexivity].
  apply reassembly_ok_new; [done|vm_compute; reflexivity].
Defined.

Close Scope Z_scope.
