(* ===== verification/Events.v ===== *)
(** * Live event hub

    [managementLiveEventHub] of [management_events.go].  A subscriber's Go
    channel is shared between the hub and the handler that reads it, so
    channels live in a heap and the hub's map holds references to them.
    Closing a closed channel and sending on one panic in Go; here they make
    the operation [None], and the invariant shows that this never happens. *)

From S2P Require Export Messages.

Open Scope Z_scope.

Definition managementLiveEventSubscriberBuffer : Z := 32.
Definition managementLiveEventMaximumSubscribers : Z := 128.

Record managementEvent := ManagementEvent {
  me_SchemaVersion : string;
  me_EventID : string;
  me_OccurredAt : string;
  me_Type : string;
  me_ChannelID : option Z;
  me_SenderID : option Z;
  me_ServiceID : option string;
  me_RecordingJobID : option string;
  me_State : option string;
  me_Reason : option string;
}.

(** ** Buffered channels *)

Record event_chan := EventChan {
  ch_buffer : list managementEvent;
  ch_closed : bool;
}.

(** [make(chan managementEvent, managementLiveEventSubscriberBuffer)] *)
Definition make_chan : event_chan := EventChan [] false.

Inductive send_outcome := Sent (c : event_chan) | WouldBlock | SendPanic.

(** [select { case c <- event: ... default: ... }] *)
Definition try_send (c : event_chan) (event : managementEvent) : send_outcome :=
  if ch_closed c then SendPanic
  else if Z.of_nat (length (ch_buffer c)) <? managementLiveEventSubscriberBuffer
       then Sent (EventChan (ch_buffer c ++ [event]) false)
       else WouldBlock.

(** [close(c)]; [None] is a panic. *)
Definition close_chan (c : event_chan) : option event_chan :=
  if ch_closed c then None else Some (EventChan (ch_buffer c) true).

Inductive recv_outcome := Received (event : managementEvent) (c : event_chan) | Closed | Blocked.

(** [event, open := <-c] *)
Definition recv (c : event_chan) : recv_outcome :=
  match ch_buffer c with
  | event :: rest => Received event (EventChan rest (ch_closed c))
  | [] => if ch_closed c then Closed else Blocked
  end.

(** ** The hub *)

Record managementLiveEventHub := Hub {
  hub_nextEventID : Z;
  hub_nextSubID : Z;
  hub_subscribers : gmap Z Z;
  hub_chans : gmap Z event_chan;
  hub_nextChan : Z;
}.

Definition newManagementLiveEventHub : managementLiveEventHub := Hub 0 0 ∅ ∅ 0.

(** [h.subscribe()]: the channel and the identifier that the returned
    unsubscribe closure captures. *)
Definition hub_subscribe (h : managementLiveEventHub)
    : managementLiveEventHub * option (Z * Z) :=
  if managementLiveEventMaximumSubscribers <=? len_map (hub_subscribers h) then (h, None)
  else
    let id := wrap_u64 (hub_nextSubID h + 1) in
    let c := hub_nextChan h in
    (Hub (hub_nextEventID h) id (<[id := c]> (hub_subscribers h))
       (<[c := make_chan]> (hub_chans h)) (c + 1),
     Some (c, id)).

(** [delete(h.subscribers, id); close(subscriber)] *)
Definition drop_subscriber (id c : Z) (h : managementLiveEventHub) : option managementLiveEventHub :=
  ch ← hub_chans h !! c;
  ch' ← close_chan ch;
  Some (Hub (hub_nextEventID h) (hub_nextSubID h) (delete id (hub_subscribers h))
          (<[c := ch']> (hub_chans h)) (hub_nextChan h)).

Definition hub_unsubscribe (id : Z) (h : managementLiveEventHub) : option managementLiveEventHub :=
  match hub_subscribers h !! id with
  | Some c => drop_subscriber id c h
  | None => Some h
  end.

Definition event_of (id : Z) (input : privateControlLifecycleEvent) : managementEvent :=
  {| me_SchemaVersion := "management-event-v1";
     me_EventID := FormatInt id;
     me_OccurredAt := ev_OccurredAt input;
     me_Type := ev_EventType input;
     me_ChannelID := ev_ChannelID input;
     me_SenderID := ev_SenderID input;
     me_ServiceID := ev_ServiceID input;
     me_RecordingJobID := ev_RecordingJobID input;
     me_State := ev_State input;
     me_Reason := ev_Reason input |}.

(** The body of the loop over the subscribers. *)
Definition publish_one (event : managementEvent) (id c : Z) (h : managementLiveEventHub)
    : option managementLiveEventHub :=
  ch ← hub_chans h !! c;
  match try_send ch event with
  | Sent ch' => Some (Hub (hub_nextEventID h) (hub_nextSubID h) (hub_subscribers h)
                        (<[c := ch']> (hub_chans h)) (hub_nextChan h))
  | WouldBlock => drop_subscriber id c h
  | SendPanic => None
  end.

Fixpoint publish_loop (event : managementEvent) (order : list (Z * Z)) (h : managementLiveEventHub)
    : option managementLiveEventHub :=
  match order with
  | [] => Some h
  | (id, c) :: order => h' ← publish_one event id c h; publish_loop event order h'
  end.

(** [h.publish(input)]; [order] is the iteration order of [h.subscribers]. *)
Definition hub_publish (order : list (Z * Z)) (input : privateControlLifecycleEvent)
    (h : managementLiveEventHub) : option managementLiveEventHub :=
  if hub_nextEventID h =? max_u64 then Some h
  else
    let id := wrap_u64 (hub_nextEventID h + 1) in
    publish_loop (event_of id input) order
      (Hub id (hub_nextSubID h) (hub_subscribers h) (hub_chans h) (hub_nextChan h)).

Definition hub_subscriberCount (h : managementLiveEventHub) : Z := len_map (hub_subscribers h).

(** ** Invariant *)

(** A subscriber's channel exists, is open and within its capacity; no two
    subscribers share a channel; the counters are 64-bit. *)
Record hub_ok (h : managementLiveEventHub) : Prop := HubOk {
  hub_ok_event : is_u64 (hub_nextEventID h);
  hub_ok_count : len_map (hub_subscribers h) ≤ managementLiveEventMaximumSubscribers;
  hub_ok_open : ∀ id c, hub_subscribers h !! id = Some c →
    ∃ buf, hub_chans h !! c = Some (EventChan buf false) ∧ Z.of_nat (length buf) ≤ 32;
  hub_ok_inj : ∀ id1 id2 c, hub_subscribers h !! id1 = Some c →
    hub_subscribers h !! id2 = Some c → id1 = id2;
  hub_ok_alloc : ∀ c, is_Some (hub_chans h !! c) → c < hub_nextChan h;
}.

Lemma hub_ok_new : hub_ok newManagementLiveEventHub.
Proof.
  split; simpl; [by compute; split|by compute|..].
  - intros id c H. by rewrite lookup_empty in H.
  - intros id1 id2 c H. by rewrite lookup_empty in H.
  - intros c [? H]. by rewrite lookup_empty in H.
Qed.

Lemma hub_subscribe_ok h : hub_ok h → hub_ok (hub_subscribe h).1.
Proof.
  intros [Hev Hcount Hopen Hinj Halloc]. unfold hub_subscribe.
  case_match eqn:E; [by split|]. go_bool. simpl.
  split; simpl; [done|..].
  - pose proof (len_map_insert_le (hub_subscribers h) (wrap_u64 (hub_nextSubID h + 1))
      (hub_nextChan h)). unfold managementLiveEventMaximumSubscribers in *. lia.
  - intros id c. rewrite lookup_insert. case_decide as Hid.
    + intros [= <-]. exists []. rewrite lookup_insert_eq. by split.
    + intros Hc. destruct (Hopen id c Hc) as (buf & Hbuf & Hlen).
      exists buf. rewrite lookup_insert_ne; [done|].
      pose proof (Halloc c ltac:(by eexists)). lia.
  - assert (Hnew : ∀ id, hub_subscribers h !! id ≠ Some (hub_nextChan h)).
    { intros id Hid. destruct (Hopen id _ Hid) as (buf & Hbuf & _).
      pose proof (Halloc _ ltac:(by eexists)). lia. }
    intros id1 id2 c. rewrite !lookup_insert. repeat case_decide; naive_solver.
  - intros c. rewrite lookup_insert. case_decide; [intros _; lia|].
    intros Hc. specialize (Halloc c Hc). lia.
Qed.

Lemma drop_subscriber_ok h id c :
  hub_ok h → hub_subscribers h !! id = Some c →
  ∃ h', drop_subscriber id c h = Some h' ∧ hub_ok h'.
Proof.
  intros [Hev Hcount Hopen Hinj Halloc] Hid. unfold drop_subscriber.
  destruct (Hopen id c Hid) as (buf & Hbuf & Hlen). rewrite Hbuf. simpl.
  eexists; split; [done|]. split; simpl; [done|..].
  - pose proof (len_map_delete_le (hub_subscribers h) id). lia.
  - intros id' c'. rewrite lookup_delete. case_decide; [done|]. intros Hid'.
    rewrite lookup_insert_ne; [by eauto|]. intros ->. eauto.
  - intros id1 id2 c'. rewrite !lookup_delete. repeat case_decide; [done..|]. eauto.
  - intros c'. rewrite lookup_insert. case_decide; [|by eauto]. subst. intros _. eauto.
Qed.

(** ** What publishing does to each subscriber *)

Definition has_room (buf : list managementEvent) : bool :=
  Z.of_nat (length buf) <? managementLiveEventSubscriberBuffer.

(** The effect of publishing [event] to the subscribers listed in [l]: one
    with room gets the event appended, a stalled one is dropped and closed,
    and nothing else changes. *)
Record published (event : managementEvent) (l : list (Z * Z)) (h h' : managementLiveEventHub) : Prop := {
  pub_counters : hub_nextEventID h' = hub_nextEventID h ∧ hub_nextSubID h' = hub_nextSubID h ∧
    hub_nextChan h' = hub_nextChan h;
  pub_listed : ∀ id c buf, (id, c) ∈ l → hub_chans h !! c = Some (EventChan buf false) →
    if has_room buf
    then hub_subscribers h' !! id = Some c ∧
         hub_chans h' !! c = Some (EventChan (buf ++ [event]) false)
    else hub_subscribers h' !! id = None ∧ hub_chans h' !! c = Some (EventChan buf true);
  pub_other_sub : ∀ id, id ∉ l.*1 → hub_subscribers h' !! id = hub_subscribers h !! id;
  pub_other_chan : ∀ c, c ∉ l.*2 → hub_chans h' !! c = hub_chans h !! c;
}.

Lemma publish_one_published event h id c :
  hub_ok h → hub_subscribers h !! id = Some c →
  ∃ h', publish_one event id c h = Some h' ∧ hub_ok h' ∧ published event [(id, c)] h h'.
Proof.
  intros Hok Hid. pose proof Hok as [Hev Hcount Hopen Hinj Halloc].
  destruct (Hopen id c Hid) as (buf & Hbuf & Hlen).
  unfold publish_one, try_send. rewrite Hbuf. simpl. fold (has_room buf).
  destruct (has_room buf) eqn:Hroom.
  - eexists; split; [done|]. split.
    + split; simpl; [done..| |done|].
      * intros id' c' Hid'. destruct (decide (c = c')) as [<-|Hne].
        -- eexists. rewrite lookup_insert_eq. split; [done|]. rewrite length_app.
           unfold has_room, managementLiveEventSubscriberBuffer in Hroom. go_bool. simpl. lia.
        -- rewrite lookup_insert_ne by done. eauto.
      * intros c'. rewrite lookup_insert. case_decide; [|by eauto].
        subst. intros _. apply Halloc. by eexists.
    + split; simpl; [done| |done|].
      * intros id' c' buf' [= -> ->]%list_elem_of_singleton Hbuf'.
        rewrite Hbuf in Hbuf'. injection Hbuf' as <-. rewrite Hroom, lookup_insert_eq. done.
      * intros c' Hc'. rewrite lookup_insert_ne by set_solver. done.
  - destruct (drop_subscriber_ok h id c Hok Hid) as (h' & Hdrop & Hok').
    exists h'. split; [done|]. split; [done|].
    unfold drop_subscriber in Hdrop. rewrite Hbuf in Hdrop. simpl in Hdrop. simplify_eq.
    split; simpl; [done|..].
    + intros id' c' buf' [= -> ->]%list_elem_of_singleton Hbuf'.
      rewrite Hbuf in Hbuf'. injection Hbuf' as <-.
      rewrite Hroom, lookup_delete_eq, lookup_insert_eq. done.
    + intros id' Hid'. rewrite lookup_delete_ne by set_solver. done.
    + intros c' Hc'. rewrite lookup_insert_ne by set_solver. done.
Qed.

Lemma publish_loop_published event l h :
  hub_ok h → NoDup l.*1 → (∀ id c, (id, c) ∈ l → hub_subscribers h !! id = Some c) →
  ∃ h', publish_loop event l h = Some h' ∧ hub_ok h' ∧ published event l h h'.
Proof.
  revert h. induction l as [|[id c] l IH]; intros h Hok Hnd Hl; simpl.
  { exists h. split; [done|]. split; [done|]. split; [done| |done|done].
    intros id c buf Hin. set_solver. }
  apply NoDup_cons in Hnd as [Hid Hnd].
  assert (Hidc : hub_subscribers h !! id = Some c) by (apply Hl; set_solver).
  destruct (publish_one_published event h id c Hok Hidc) as (h1 & -> & Hok1 & [Hcnt1 Hl1 Hs1 Hc1]).
  simpl. destruct (IH h1) as (h' & -> & Hok' & [Hcnt' Hl' Hs' Hc']); [done|done| |].
  { intros id' c' Hin. rewrite Hs1; [apply Hl; set_solver|]. simpl.
    apply not_elem_of_cons. split; [|set_solver]. intros ->. apply Hid.
    by apply (list_elem_of_fmap_2 fst _ (id, c')). }
  assert (Hcl : c ∉ l.*2).
  { intros ([id' c'] & Hc2 & Hin)%list_elem_of_fmap. simpl in Hc2. subst c'.
    apply Hid. rewrite (hub_ok_inj h Hok id id' c); [|done|apply Hl; set_solver].
    by apply (list_elem_of_fmap_2 fst _ (id', c)). }
  exists h'. split; [done|]. split; [done|]. split.
  - destruct Hcnt1 as (? & ? & ?), Hcnt' as (? & ? & ?). split_and!; congruence.
  - intros id' c' buf [[= -> ->]|Hin]%elem_of_cons Hbuf.
    + specialize (Hl1 id c buf ltac:(set_solver) Hbuf).
      rewrite Hs', Hc' by done. done.
    + apply (Hl' id' c' buf Hin). rewrite Hc1; [done|]. simpl.
      apply not_elem_of_cons. split; [|set_solver]. intros ->. apply Hcl.
      by apply (list_elem_of_fmap_2 snd _ (id', c)).
  - intros id' Hid'. simpl in Hid'. rewrite Hs', Hs1; set_solver.
  - intros c' Hc2. simpl in Hc2. rewrite Hc', Hc1; set_solver.
Qed.

Lemma published_sub event l h h0 h' id c :
  hub_ok h → (∀ id c, (id, c) ∈ l → hub_subscribers h !! id = Some c) →
  published event l h0 h' → hub_subscribers h0 = hub_subscribers h →
  hub_chans h0 = hub_chans h →
  hub_subscribers h' !! id = Some c → hub_subscribers h !! id = Some c.
Proof.
  intros Hok Hl [_ Hl' Hs' _] Hs Hc Hid.
  destruct (decide (id ∈ l.*1)) as [Hin|Hin].
  - apply list_elem_of_fmap in Hin as ([? c'] & -> & Hin). simpl in *.
    destruct (hub_ok_open h Hok _ _ (Hl _ _ Hin)) as (buf & Hbuf & _). rewrite <-Hc in Hbuf.
    specialize (Hl' _ _ _ Hin Hbuf).
    destruct (has_room buf); destruct Hl' as [Hl' _]; [|congruence].
    rewrite Hl' in Hid. injection Hid as <-. by apply Hl.
  - by rewrite <-Hs, <-Hs'.
Qed.

(** The result of the loop is a function of the set of subscribers, not of
    the iteration order. *)
Lemma published_unique event l1 l2 h h1 h2 :
  hub_ok h → (∀ id c, (id, c) ∈ l1 → hub_subscribers h !! id = Some c) → l1 ≡ₚ l2 →
  published event l1 h h1 → published event l2 h h2 → h1 = h2.
Proof.
  intros Hok Hl Hp [Hcnt1 Hl1 Hs1 Hc1] [Hcnt2 Hl2 Hs2 Hc2].
  assert (Hsub : hub_subscribers h1 = hub_subscribers h2).
  { apply map_eq. intros id. destruct (decide (id ∈ l1.*1)) as [Hin|Hin].
    - apply list_elem_of_fmap in Hin as ([? c] & -> & Hin). simpl.
      destruct (hub_ok_open h Hok _ _ (Hl _ _ Hin)) as (buf & Hbuf & _).
      specialize (Hl1 _ _ _ Hin Hbuf). rewrite Hp in Hin. specialize (Hl2 _ _ _ Hin Hbuf).
      destruct (has_room buf); destruct Hl1, Hl2; congruence.
    - rewrite Hs1 by done. rewrite Hp in Hin. by rewrite Hs2. }
  assert (Hch : hub_chans h1 = hub_chans h2).
  { apply map_eq. intros c. destruct (decide (c ∈ l1.*2)) as [Hin|Hin].
    - apply list_elem_of_fmap in Hin as ([id ?] & -> & Hin). simpl.
      destruct (hub_ok_open h Hok _ _ (Hl _ _ Hin)) as (buf & Hbuf & _).
      specialize (Hl1 _ _ _ Hin Hbuf). rewrite Hp in Hin. specialize (Hl2 _ _ _ Hin Hbuf).
      destruct (has_room buf); destruct Hl1, Hl2; congruence.
    - rewrite Hc1 by done. rewrite Hp in Hin. by rewrite Hc2. }
  destruct h1, h2; simpl in *.
  destruct Hcnt1 as (? & ? & ?), Hcnt2 as (? & ? & ?). congruence.
Qed.

(** ** Streams

    The hub together with its readers.  [st_log] is every event published so
    far, [st_start] the length of the log when a channel was subscribed, and
    [st_received] what the reader of a channel has taken from it. *)

Record stream_state := StreamState {
  st_hub : managementLiveEventHub;
  st_log : list managementEvent;
  st_start : gmap Z nat;
  st_received : gmap Z (list managementEvent);
}.

Definition stream_init : stream_state := StreamState newManagementLiveEventHub [] ∅ ∅.

Definition with_chan (c : Z) (ch : event_chan) (h : managementLiveEventHub) : managementLiveEventHub :=
  Hub (hub_nextEventID h) (hub_nextSubID h) (hub_subscribers h) (<[c := ch]> (hub_chans h))
    (hub_nextChan h).

Inductive stream_step : stream_state → stream_state → Prop :=
| stream_subscribe h h' c id log start received :
    hub_subscribe h = (h', Some (c, id)) →
    stream_step (StreamState h log start received)
      (StreamState h' log (<[c := length log]> start) (<[c := []]> received))
| stream_unsubscribe h h' id log start received :
    hub_unsubscribe id h = Some h' →
    stream_step (StreamState h log start received) (StreamState h' log start received)
| stream_publish h h' order input log start received :
    map_order (hub_subscribers h) order → hub_nextEventID h ≠ max_u64 →
    hub_publish order input h = Some h' →
    stream_step (StreamState h log start received)
      (StreamState h' (log ++ [event_of (hub_nextEventID h + 1) input]) start received)
| stream_receive h c ch ch' event got log start received :
    hub_chans h !! c = Some ch → recv ch = Received event ch' → received !! c = Some got →
    stream_step (StreamState h log start received)
      (StreamState (with_chan c ch' h) log start (<[c := got ++ [event]]> received)).

(** What one reader has seen or will see: exactly the log since its
    subscription while it is subscribed, a prefix of it afterwards. *)
Definition reader_ok (s : stream_state) (c : Z) (n : nat) : Prop :=
  ∃ ch got, hub_chans (st_hub s) !! c = Some ch ∧ st_received s !! c = Some got ∧
    (n ≤ length (st_log s))%nat ∧
    (got ++ ch_buffer ch) `prefix_of` drop n (st_log s) ∧
    ((∃ id, hub_subscribers (st_hub s) !! id = Some c) →
       got ++ ch_buffer ch = drop n (st_log s)).

Record stream_ok (s : stream_state) : Prop := StreamOk {
  so_hub : hub_ok (st_hub s);
  so_next : hub_nextEventID (st_hub s) = Z.of_nat (length (st_log s));
  so_ids : ∀ i event, st_log s !! i = Some event → me_EventID event = FormatInt (Z.of_nat i + 1);
  so_start : ∀ c, is_Some (hub_chans (st_hub s) !! c) ↔ is_Some (st_start s !! c);
  so_reader : ∀ c n, st_start s !! c = Some n → reader_ok s c n;
}.

Lemma stream_ok_init : stream_ok stream_init.
Proof.
  split; simpl; [exact hub_ok_new|done|done|..].
  - intros c. by rewrite !lookup_empty.
  - intros c n H. by rewrite lookup_empty in H.
Qed.

Lemma stream_ok_subscribe h h' c id log start received :
  stream_ok (StreamState h log start received) → hub_subscribe h = (h', Some (c, id)) →
  stream_ok (StreamState h' log (<[c := length log]> start) (<[c := []]> received)).
Proof.
  intros [Hok Hnext Hids Hstart Hreader] Hsub. simpl in *.
  pose proof (hub_subscribe_ok h Hok) as Hok'. rewrite Hsub in Hok'.
  unfold hub_subscribe in Hsub. case_match; [done|]. injection Hsub as <- <- <-. simpl in *.
  split; simpl; [done..| |].
  - intros c. rewrite !lookup_insert. case_decide; [by split|]. apply Hstart.
  - intros c n. rewrite lookup_insert. case_decide as Hc; [subst; intros [= <-]|intros Hn].
    + exists make_chan, []. unfold reader_ok; simpl. rewrite !lookup_insert_eq.
      rewrite drop_all. split_and!; done.
    + destruct (Hreader c n Hn) as (ch & got & Hch & Hgot & Hlen & Hpre & Hall).
      exists ch, got. simpl in *. rewrite !lookup_insert_ne by done. split_and!; try done.
      intros [id Hid]. rewrite lookup_insert in Hid. case_decide; [simplify_eq|]. eauto.
Qed.

Lemma stream_ok_unsubscribe h h' id log start received :
  stream_ok (StreamState h log start received) → hub_unsubscribe id h = Some h' →
  stream_ok (StreamState h' log start received).
Proof.
  intros Hsok Hun. unfold hub_unsubscribe in Hun.
  destruct (hub_subscribers h !! id) as [c|] eqn:Hid; [|by simplify_eq].
  destruct Hsok as [Hok Hnext Hids Hstart Hreader]. simpl in *.
  destruct (drop_subscriber_ok h id c Hok Hid) as (h2 & Hdrop & Hok').
  rewrite Hun in Hdrop. injection Hdrop as <-.
  unfold drop_subscriber in Hun.
  destruct (hub_ok_open h Hok id c Hid) as (buf & Hbuf & _). rewrite Hbuf in Hun.
  simpl in Hun. injection Hun as <-. split; simpl in *; [done..| |].
  - intros c'. rewrite lookup_insert. case_decide; [subst|apply Hstart].
    rewrite <-Hstart, Hbuf. by split; eexists.
  - intros c' n Hn. destruct (Hreader c' n Hn) as (ch & got & Hch & Hgot & Hlen & Hpre & Hall).
    simpl in *. destruct (decide (c = c')) as [<-|Hne].
    + rewrite Hbuf in Hch. injection Hch as <-.
      exists (EventChan buf true), got. simpl. rewrite lookup_insert_eq. split_and!; try done.
      intros _. apply Hall. eauto.
    + exists ch, got. simpl. rewrite lookup_insert_ne by done. split_and!; try done.
      intros [id' Hid']. rewrite lookup_delete in Hid'. case_decide; [done|]. eauto.
Qed.

Lemma hub_publish_published h order input :
  hub_ok h → map_order (hub_subscribers h) order → hub_nextEventID h ≠ max_u64 →
  let h0 := Hub (hub_nextEventID h + 1) (hub_nextSubID h) (hub_subscribers h) (hub_chans h)
              (hub_nextChan h) in
  ∃ h', hub_publish order input h = Some h' ∧ hub_ok h' ∧
        published (event_of (hub_nextEventID h + 1) input) order h0 h'.
Proof.
  intros Hok Horder Hmax h0. unfold hub_publish.
  rewrite (proj2 (Z.eqb_neq _ _) Hmax).
  destruct Hok as [Hev Hcount Hopen Hinj Halloc].
  rewrite wrap_u64_small by (unfold is_u64, max_u64 in *; lia).
  apply publish_loop_published.
  - split; simpl; try done. unfold is_u64, max_u64 in *. lia.
  - by apply (map_order_NoDup (hub_subscribers h)).
  - intros id c Hin. by apply (map_order_elem _ _ _ _ Horder).
Qed.

(** Publishing always returns, also when the identifiers are exhausted. *)
Lemma hub_publish_total h order input :
  hub_ok h → map_order (hub_subscribers h) order →
  ∃ h', hub_publish order input h = Some h' ∧ hub_ok h'.
Proof.
  intros Hok Horder. destruct (decide (hub_nextEventID h = max_u64)) as [Hmax|Hmax].
  - exists h. unfold hub_publish. by rewrite Hmax.
  - destruct (hub_publish_published h order input Hok Horder Hmax) as (h' & ? & ? & _). eauto.
Qed.

Lemma published_chans_domain h h0 order event h' :
  hub_ok h → hub_chans h0 = hub_chans h → map_order (hub_subscribers h) order →
  published event order h0 h' →
  ∀ c, is_Some (hub_chans h' !! c) ↔ is_Some (hub_chans h !! c).
Proof.
  intros Hok H0 Horder [_ Hl _ Hc] c. rewrite H0 in Hl, Hc.
  destruct (decide (c ∈ order.*2)) as [Hin|Hin]; [|by rewrite Hc].
  apply list_elem_of_fmap in Hin as ([id ?] & -> & Hin). simpl.
  destruct (hub_ok_open h Hok id _ (proj1 (map_order_elem _ _ _ _ Horder) Hin)) as (buf & Hbuf & _).
  specialize (Hl _ _ _ Hin Hbuf). rewrite Hbuf.
  destruct (has_room buf); destruct Hl as [_ ->]; by split; eexists.
Qed.

Lemma stream_ok_publish h h' order input log start received :
  stream_ok (StreamState h log start received) →
  map_order (hub_subscribers h) order → hub_nextEventID h ≠ max_u64 →
  hub_publish order input h = Some h' →
  stream_ok (StreamState h' (log ++ [event_of (hub_nextEventID h + 1) input]) start received).
Proof.
  intros [Hok Hnext Hids Hstart Hreader] Horder Hmax Hpub. simpl in *.
  destruct (hub_publish_published h order input Hok Horder Hmax) as (h2 & Hpub2 & Hok' & Hp).
  rewrite Hpub in Hpub2. injection Hpub2 as <-.
  assert (Hmono : ∀ id c, hub_subscribers h' !! id = Some c → hub_subscribers h !! id = Some c).
  { intros id c. eapply published_sub; [exact Hok| |exact Hp|done|done].
    intros id' c' Hin. by apply (map_order_elem _ _ _ _ Horder). }
  pose proof Hp as Hp0. destruct Hp as [(Hc1 & Hc2 & Hc3) Hl Hs Hc]. simpl in *.
  set (event := event_of (hub_nextEventID h + 1) input) in *.
  assert (Hlisted : ∀ c, c ∈ order.*2 ↔ ∃ id, hub_subscribers h !! id = Some c).
  { intros c. rewrite list_elem_of_fmap. split.
    - intros ([id ?] & -> & Hin). exists id. by apply (map_order_elem _ _ _ _ Horder).
    - intros [id Hid]. exists (id, c). split; [done|]. by apply (map_order_elem _ _ _ _ Horder). }
  assert (Hsome := λ E, published_chans_domain h _ order _ h' Hok E Horder Hp0).
  specialize (Hsome eq_refl).
  split; simpl; [done| | | |].
  - rewrite Hc1, Hnext, length_app. simpl. lia.
  - intros i e [Hi|(Hge & Hi)]%lookup_app_Some; [by apply Hids|].
    apply list_lookup_singleton_Some in Hi as [Hi <-]. simpl. f_equal. lia.
  - intros c. by rewrite Hsome.
  - intros c n Hn. destruct (Hreader c n Hn) as (ch & got & Hch & Hgot & Hlen & Hpre & Hall).
    simpl in *. unfold reader_ok. simpl. rewrite drop_app_le by done.
    rewrite length_app. simpl.
    destruct (decide (c ∈ order.*2)) as [Hin|Hin].
    + pose proof (proj1 (Hlisted c) Hin) as Hsubd. specialize (Hall Hsubd).
      apply list_elem_of_fmap in Hin as ([id ?] & -> & Hin). simpl in *.
      pose proof (proj1 (map_order_elem _ _ _ _ Horder) Hin) as Hid.
      destruct (hub_ok_open h Hok id _ Hid) as (buf & Hbuf & _).
      specialize (Hl _ _ _ Hin Hbuf). rewrite Hbuf in Hch. injection Hch as <-. simpl in *.
      destruct (has_room buf); destruct Hl as [Hl1 ->]; eexists _, got; simpl;
        (split_and!; [done|done|lia|..]); simpl.
      * rewrite app_assoc, Hall. done.
      * intros _. by rewrite app_assoc, Hall.
      * rewrite Hall. by apply prefix_app_r.
      * intros [id' Hid']. pose proof (Hmono _ _ Hid') as Hid2.
        rewrite (hub_ok_inj h Hok _ _ _ Hid2 Hid) in Hid'. congruence.
    + rewrite Hc by done. exists ch, got. split_and!; [done|done|lia|by apply prefix_app_r|].
      intros [id Hid%Hmono]. exfalso. apply Hin, Hlisted. eauto.
Qed.

Lemma hub_receive_ok h c ch ch' event :
  hub_ok h → hub_chans h !! c = Some ch → recv ch = Received event ch' → hub_ok (with_chan c ch' h).
Proof.
  intros [Hev Hcount Hopen Hinj Halloc] Hch Hrecv.
  unfold recv in Hrecv. destruct ch as [[|e buf] closed]; simpl in Hrecv; [by case_match|].
  injection Hrecv as -> <-. split; simpl; [done..| |done|].
  - intros id c' Hid. destruct (Hopen id c' Hid) as (buf' & Hbuf' & Hlen').
    rewrite lookup_insert. case_decide; [subst|by eauto].
    rewrite Hch in Hbuf'. injection Hbuf' as <- ->. exists buf. split; [done|].
    simpl in Hlen'. lia.
  - intros c'. rewrite lookup_insert. case_decide; [|by eauto].
    subst. intros _. apply Halloc. by eexists.
Qed.

Lemma hub_unsubscribe_ok h h' id : hub_ok h → hub_unsubscribe id h = Some h' → hub_ok h'.
Proof.
  intros Hok. unfold hub_unsubscribe. destruct (hub_subscribers h !! id) as [c|] eqn:Hid; [|by intros [= <-]].
  destruct (drop_subscriber_ok h id c Hok Hid) as (h1 & -> & Hok'). by intros [= <-].
Qed.

Lemma stream_ok_receive h c ch ch' event got log start received :
  stream_ok (StreamState h log start received) →
  hub_chans h !! c = Some ch → recv ch = Received event ch' → received !! c = Some got →
  stream_ok (StreamState (with_chan c ch' h) log start (<[c := got ++ [event]]> received)).
Proof.
  intros [Hok Hnext Hids Hstart Hreader] Hch Hrecv Hgot. simpl in *.
  pose proof (hub_receive_ok h c ch ch' event Hok Hch Hrecv) as Hok'.
  unfold recv in Hrecv. destruct ch as [[|e buf] closed]; simpl in Hrecv; [by case_match|].
  injection Hrecv as -> <-. split; simpl; [done|done|done|..].
  - intros c'. rewrite lookup_insert. case_decide; [subst|by auto].
    rewrite <-Hstart, Hch. by split; eexists.
  - intros c' n Hn. destruct (Hreader c' n Hn) as (ch & got' & Hch' & Hgot' & Hlen & Hpre & Hall).
    simpl in *. unfold reader_ok. simpl. rewrite !lookup_insert. case_decide; [subst|by eauto 10].
    rewrite Hch in Hch'. injection Hch' as <-. rewrite Hgot in Hgot'. injection Hgot' as <-.
    simpl in *. eexists _, _. split_and!; [done|done|done|..]; simpl.
    + by rewrite <-app_assoc.
    + intros Hid. rewrite <-app_assoc. by apply Hall.
Qed.

Lemma stream_ok_step s s' : stream_ok s → stream_step s s' → stream_ok s'.
Proof.
  intros Hok Hstep. inversion Hstep; subst;
    eauto using stream_ok_subscribe, stream_ok_unsubscribe, stream_ok_publish, stream_ok_receive.
Qed.

Lemma stream_ok_reachable s : rtc stream_step stream_init s → stream_ok s.
Proof.
  apply (rtc_invariant stream_ok); [exact stream_ok_step|exact stream_ok_init].
Qed.

(** ** Properties *)

(** Publishing never panics (no send on and no second close of a closed
    channel) and its effect does not depend on the iteration order of the
    subscriber map: a subscriber with room gets the event at the end of its
    buffer, a stalled one is dropped and its channel closed, and the hub stays
    within its bounds. *)
Theorem hub_publish_effect h input :
  hub_ok h → hub_nextEventID h ≠ max_u64 →
  ∃ h', hub_ok h' ∧ hub_nextEventID h' = hub_nextEventID h + 1 ∧
    (∀ order, map_order (hub_subscribers h) order → hub_publish order input h = Some h') ∧
    ∀ id c buf, hub_subscribers h !! id = Some c →
      hub_chans h !! c = Some (EventChan buf false) →
      if has_room buf
      then hub_subscribers h' !! id = Some c ∧ hub_chans h' !! c =
             Some (EventChan (buf ++ [event_of (hub_nextEventID h + 1) input]) false)
      else hub_subscribers h' !! id = None ∧ hub_chans h' !! c = Some (EventChan buf true).
Proof.
  intros Hok Hmax. pose proof (map_order_default (hub_subscribers h)) as Ho.
  destruct (hub_publish_published h _ input Hok Ho Hmax) as (h' & Hpub & Hok' & Hp).
  exists h'. split; [done|]. split; [by destruct Hp as [(-> & _) _ _ _]|]. split.
  - intros order Horder.
    destruct (hub_publish_published h order input Hok Horder Hmax) as (h2 & -> & _ & Hp2).
    f_equal. eapply (published_unique _ order (map_to_list (hub_subscribers h))
      (Hub (hub_nextEventID h + 1) (hub_nextSubID h) (hub_subscribers h) (hub_chans h)
         (hub_nextChan h))); [| |exact Horder|exact Hp2|exact Hp].
    + destruct Hok as [Hev ? ? ? ?]. split; simpl; try done. unfold is_u64, max_u64 in *. lia.
    + intros id c Hin. by apply (map_order_elem _ _ _ _ Horder).
  - intros id c buf Hid Hbuf. apply (pub_listed _ _ _ _ Hp); [|done].
    by apply (map_order_elem _ _ _ _ Ho).
Qed.

Definition example_event : privateControlLifecycleEvent :=
  LifecycleEvent privateControlSchemaVersion "relay_lifecycle_event" "AAAAAAAAAAAAAAAAAAAAAA"
    "2024-02-29T12:34:56Z" "talk_started" (Some 7) (Some 1) None None None None.

Lemma hub_publish_effect_witness :
  ∃ h', hub_ok h' ∧ hub_nextEventID h' = 1 ∧
    hub_publish [(1, 0)] example_event (hub_subscribe newManagementLiveEventHub).1 = Some h' ∧
    hub_chans h' !! 0 = Some (EventChan [event_of 1 example_event] false).
Proof.
  destruct (hub_publish_effect (hub_subscribe newManagementLiveEventHub).1 example_event)
    as (h' & Hok & Hnext & Horder & Heffect).
  - exact (hub_subscribe_ok _ hub_ok_new).
  - vm_compute. discriminate.
  - exists h'. split; [exact Hok|]. split; [exact Hnext|]. split.
    + apply Horder. unfold map_order. vm_compute. reflexivity.
    + apply (Heffect 1 0 []); reflexivity.
Defined.

(** C33: over any sequence of subscriptions, unsubscriptions, publications and
    reads, a reader sees the published events that follow its subscription in
    order and without a gap: everything so far while it is subscribed, a
    prefix once it was dropped.  Event identifiers number the log from 1. *)
Theorem live_stream_contiguous s c n :
  rtc stream_step stream_init s → st_start s !! c = Some n →
  ∃ ch got, hub_chans (st_hub s) !! c = Some ch ∧ st_received s !! c = Some got ∧
    (got ++ ch_buffer ch) `prefix_of` drop n (st_log s) ∧
    ((∃ id, hub_subscribers (st_hub s) !! id = Some c) →
       got ++ ch_buffer ch = drop n (st_log s)) ∧
    ∀ i event, st_log s !! i = Some event → me_EventID event = FormatInt (Z.of_nat i + 1).
Proof.
  intros Hs Hn. destruct (stream_ok_reachable s Hs) as [_ _ Hids _ Hreader].
  destruct (Hreader c n Hn) as (ch & got & ? & ? & _ & ? & ?). by exists ch, got.
Qed.

Lemma live_stream_contiguous_witness :
  let h1 := (hub_subscribe newManagementLiveEventHub).1 in
  let s := StreamState h1 [] {[0 := O]} {[0 := []]} in
  ∃ ch got, hub_chans (st_hub s) !! 0 = Some ch ∧ st_received s !! 0 = Some got ∧
    (got ++ ch_buffer ch) `prefix_of` drop 0 (st_log s) ∧
    ((∃ id, hub_subscribers (st_hub s) !! id = Some 0) →
       got ++ ch_buffer ch = drop 0 (st_log s)) ∧
    ∀ i event, st_log s !! i = Some event → me_EventID event = FormatInt (Z.of_nat i + 1).
Proof.
  intros h1 s. apply (live_stream_contiguous s 0 0).
  - apply rtc_once. apply (stream_subscribe _ _ 0 1). reflexivity.
  - reflexivity.
Defined.

(** Subscribing and unsubscribing keep the hub's bounds and never panic;
    the 129th concurrent subscription is refused. *)
Theorem hub_subscription_safe h id :
  hub_ok h →
  hub_ok (hub_subscribe h).1 ∧
  ((hub_subscribe h).2 = None ↔ hub_subscriberCount h = managementLiveEventMaximumSubscribers) ∧
  ∃ h', hub_unsubscribe id h = Some h' ∧ hub_ok h' ∧ hub_subscribers h' !! id = None ∧
        hub_unsubscribe id h' = Some h'.
Proof.
  intros Hok. split; [by apply hub_subscribe_ok|]. split.
  { unfold hub_subscribe, hub_subscriberCount. pose proof (hub_ok_count h Hok).
    case_match eqn:E; go_bool; simpl; split; try done; lia. }
  unfold hub_unsubscribe at 1. destruct (hub_subscribers h !! id) as [c|] eqn:Hid.
  - destruct (drop_subscriber_ok h id c Hok Hid) as (h' & Hdrop & Hok').
    exists h'. split; [done|]. split; [done|].
    assert (hub_subscribers h' !! id = None) as Hnone.
    { unfold drop_subscriber in Hdrop. destruct (hub_chans h !! c) as [ch|]; simpl in Hdrop; [|done].
      destruct (close_chan ch); simpl in Hdrop; simplify_eq. simpl. by rewrite lookup_delete_eq. }
    split; [done|]. unfold hub_unsubscribe. by rewrite Hnone.
  - exists h. split_and!; try done. unfold hub_unsubscribe. by rewrite Hid.
Qed.

Lemma hub_subscription_safe_witness :
  let h := (hub_subscribe newManagementLiveEventHub).1 in
  hub_ok (hub_subscribe h).1 ∧
  ((hub_subscribe h).2 = None ↔ hub_subscriberCount h = managementLiveEventMaximumSubscribers) ∧
  ∃ h', hub_unsubscribe 1 h = Some h' ∧ hub_ok h' ∧ hub_subscribers h' !! 1 = None ∧
        hub_unsubscribe 1 h' = Some h'.
Proof.
  intros h. apply hub_subscription_safe. exact (hub_subscribe_ok _ hub_ok_new).
Defined.

Close Scope Z_scope.
