(* ===== verification/RecordingJobs.v ===== *)
(** * Recording jobs

    [managementRecordingJobs] of [recording_jobs.go]: the table of opaque
    recording jobs.  A nil receiver is [None].  Jobs are created by the API,
    stopped by the API, and moved by the Relay's [recording_state_changed]
    events. *)

From S2P Require Export Messages.

Open Scope Z_scope.

Definition managementRecordingJobLimit : Z := 4096.

Definition errManagementRecordingJobLimit : error := Errorf "recording job limit reached" [].

Record managementRecordingJob := RecordingJob {
  job_jobID : string;
  job_channelID : Z;
  job_recorderServiceID : string;
  job_state : string;
}.

Record managementRecordingJobs := Jobs { jobs_map : gmap string managementRecordingJob }.

Definition newManagementRecordingJobs : managementRecordingJobs := Jobs ∅.

(** [j.create(channelID, recorderServiceID)]; [rand] is the outcome of
    [rand.Read]. *)
Definition jobs_create (rand : result string) (channelID : Z) (recorderServiceID : string)
    (j : option managementRecordingJobs)
    : option managementRecordingJobs * result managementRecordingJob :=
  match j with
  | None => (None, Err (Errorf "recording jobs are unavailable" []))
  | Some jobs =>
      match rand with
      | Err e => (j, Err e)
      | Ok raw =>
          let job := RecordingJob (newPrivateControlID raw) channelID recorderServiceID "starting" in
          if managementRecordingJobLimit <=? len_map (jobs_map jobs)
          then (j, Err errManagementRecordingJobLimit)
          else (Some (Jobs (<[job_jobID job := job]> (jobs_map jobs))), Ok job)
      end
  end.

Definition with_job_state (state : string) (job : managementRecordingJob) : managementRecordingJob :=
  RecordingJob (job_jobID job) (job_channelID job) (job_recorderServiceID job) state.

(** [j.stop(jobID)] *)
Definition jobs_stop (jobID : string) (j : option managementRecordingJobs)
    : option managementRecordingJobs * option managementRecordingJob :=
  match j with
  | None => (None, None)
  | Some jobs =>
      match jobs_map jobs !! jobID with
      | None => (j, None)
      | Some job =>
          if negb (String.eqb (job_state job) "stopped") && negb (String.eqb (job_state job) "failed")
          then let job' := with_job_state "stopping" job in
               (Some (Jobs (<[jobID := job']> (jobs_map jobs))), Some job')
          else (j, Some job)
      end
  end.

(** [j.get(jobID)] *)
Definition jobs_get (jobID : string) (j : option managementRecordingJobs)
    : option managementRecordingJob :=
  match j with None => None | Some jobs => jobs_map jobs !! jobID end.

(** [j.applyLifecycleEvent(event)] *)
Definition jobs_applyLifecycleEvent (event : privateControlLifecycleEvent)
    (j : option managementRecordingJobs) : option managementRecordingJobs :=
  match j, String.eqb (ev_EventType event) "recording_state_changed",
        ev_RecordingJobID event, ev_ChannelID event, ev_State event with
  | Some jobs, true, Some id, Some channelID, Some state =>
      match jobs_map jobs !! id with
      | None => j
      | Some job =>
          if negb (job_channelID job =? channelID) then j
          else Some (Jobs (<[job_jobID job := with_job_state state job]> (jobs_map jobs)))
      end
  | _, _, _, _, _ => j
  end.

(** ** Invariant *)

(** The key of a job is its identifier, identifiers are canonical, the table
    is bounded, and a state is one of the lifecycle states. *)
Record jobs_ok (jobs : managementRecordingJobs) : Prop := JobsOk {
  jo_key : ∀ id job, jobs_map jobs !! id = Some job → job_jobID job = id;
  jo_id : ∀ id, is_Some (jobs_map jobs !! id) → validPrivateControlID id = true;
  jo_state : ∀ id job, jobs_map jobs !! id = Some job →
    job_state job ∈ privateControlLifecycleStates;
  jo_limit : len_map (jobs_map jobs) ≤ managementRecordingJobLimit;
}.

(** The operations as one step function. *)
Inductive job_op :=
| JobCreate (rand : result string) (channelID : Z) (recorderServiceID : string)
| JobStop (jobID : string)
| JobEvent (event : privateControlLifecycleEvent).

Definition job_apply (op : job_op) (j : option managementRecordingJobs)
    : option managementRecordingJobs :=
  match op with
  | JobCreate rand channelID svc => (jobs_create rand channelID svc j).1
  | JobStop id => (jobs_stop id j).1
  | JobEvent event => jobs_applyLifecycleEvent event j
  end.

Definition job_run (ops : list job_op) (j : option managementRecordingJobs) :=
  foldl (λ j op, job_apply op j) j ops.

(** What a step may assume about its inputs: random identifiers have 16 bytes
    and an event passed the validator's state check. *)
Definition job_op_ok (op : job_op) : Prop :=
  match op with
  | JobCreate (Ok raw) _ _ => len raw = 16
  | JobCreate (Err _) _ _ => True
  | JobStop _ => True
  | JobEvent event => ∀ s, ev_State event = Some s → s ∈ privateControlLifecycleStates
  end.

Lemma starting_state : "starting" ∈ privateControlLifecycleStates.
Proof. apply in_set_spec. reflexivity. Qed.
Lemma stopping_state : "stopping" ∈ privateControlLifecycleStates.
Proof. apply in_set_spec. reflexivity. Qed.

Lemma newPrivateControlID_valid raw :
  len raw = 16 → validPrivateControlID (newPrivateControlID raw) = true.
Proof. intros. apply validPrivateControlID_spec. eauto. Qed.

Create HintDb jobs discriminated.
#[export] Hint Constants Transparent : jobs.
#[export] Hint Resolve starting_state stopping_state newPrivateControlID_valid : jobs.

(** Updating one job in place keeps the table well formed. *)
Lemma jobs_ok_update jobs id job state :
  jobs_ok jobs → jobs_map jobs !! id = Some job → state ∈ privateControlLifecycleStates →
  jobs_ok (Jobs (<[id := with_job_state state job]> (jobs_map jobs))).
Proof.
  intros [Hkey Hid Hstate Hlim] Hjob Hs. split; simpl.
  - intros id' job'. rewrite lookup_insert. case_decide; [subst|by auto].
    intros [= <-]. simpl. by apply Hkey.
  - intros id'. rewrite lookup_insert. case_decide; [subst|by auto]. intros _. apply Hid. by eexists.
  - intros id' job'. rewrite lookup_insert. case_decide; [|by eauto]. by intros [= <-].
  - unfold len_map in *. rewrite map_size_insert_Some; [done|by eexists].
Qed.

Lemma job_apply_ok op jobs :
  jobs_ok jobs → job_op_ok op →
  ∃ jobs', job_apply op (Some jobs) = Some jobs' ∧ jobs_ok jobs' ∧
    dom (jobs_map jobs) ⊆ dom (jobs_map jobs').
Proof.
  intros Hok Hop. destruct op as [rand channelID svc|id|event]; simpl.
  - destruct rand as [raw|e]; simpl; [|by eauto].
    case_match eqn:E; simpl; [by eauto|]. go_bool. eexists; split; [done|].
    destruct Hok as [Hkey Hid Hstate Hlim]. simpl in Hop.
    split; [split|set_solver]; simpl.
    + intros id' job'. rewrite lookup_insert. case_decide; [subst|by auto]. by intros [= <-].
    + intros id'. rewrite lookup_insert. case_decide; [subst; intros _|by auto]. auto with jobs.
    + intros id' job'. rewrite lookup_insert. case_decide; [|by eauto].
      intros [= <-]. simpl. auto with jobs.
    + pose proof (len_map_insert_le (jobs_map jobs) (newPrivateControlID raw)
        (RecordingJob (newPrivateControlID raw) channelID svc "starting")).
      unfold managementRecordingJobLimit in *. lia.
  - destruct (jobs_map jobs !! id) as [job|] eqn:Hjob; simpl; [|by eauto].
    case_match; simpl; [|by eauto]. eexists; split; [done|]. split; [|set_solver].
    apply jobs_ok_update; auto with jobs.
  - destruct (String.eqb _ _); [|by eauto].
    destruct (ev_RecordingJobID event) as [id|]; [|by eauto].
    destruct (ev_ChannelID event) as [channelID|]; [|by eauto].
    destruct (ev_State event) as [state|] eqn:Hstate; [|by eauto].
    destruct (jobs_map jobs !! id) as [job|] eqn:Hjob; [|by eauto].
    case_match; [by eauto|]. eexists; split; [done|].
    rewrite (jo_key _ Hok id job Hjob). split; [|set_solver].
    apply jobs_ok_update; [done|done|]. by apply Hop.
Qed.

Lemma job_run_ok ops jobs :
  jobs_ok jobs → Forall job_op_ok ops →
  ∃ jobs', job_run ops (Some jobs) = Some jobs' ∧ jobs_ok jobs' ∧
    dom (jobs_map jobs) ⊆ dom (jobs_map jobs').
Proof.
  revert jobs. induction ops as [|op ops IH]; intros jobs Hok Hops; [by eauto|].
  apply Forall_cons in Hops as [Hop Hops].
  destruct (job_apply_ok op jobs Hok Hop) as (j1 & Hj1 & Hok1 & Hdom1).
  destruct (IH j1 Hok1 Hops) as (j2 & Hj2 & Hok2 & Hdom2).
  exists j2. unfold job_run. simpl. rewrite Hj1. split; [done|]. split; [done|]. set_solver.
Qed.

Lemma jobs_ok_new : jobs_ok newManagementRecordingJobs.
Proof.
  split; simpl.
  - intros id job H. by rewrite lookup_empty in H.
  - intros id [? H]. by rewrite lookup_empty in H.
  - intros id job H. by rewrite lookup_empty in H.
  - done.
Qed.

(** ** What one operation does to one job *)

(** [op] is addressed to the job [id]: a stop of it, a matching event, or the
    creation of a job that drew the same identifier. *)
Definition job_op_targets (op : job_op) (id : string) (job : managementRecordingJob) : bool :=
  match op with
  | JobCreate (Ok raw) _ _ => String.eqb (newPrivateControlID raw) id
  | JobCreate (Err _) _ _ => false
  | JobStop id' => String.eqb id' id
  | JobEvent event =>
      String.eqb (ev_EventType event) "recording_state_changed" &&
      bool_decide (ev_RecordingJobID event = Some id) &&
      bool_decide (ev_ChannelID event = Some (job_channelID job))
  end.

Lemma job_apply_frame op jobs jobs' id job :
  jobs_ok jobs → jobs_map jobs !! id = Some job → job_op_targets op id job = false →
  job_apply op (Some jobs) = Some jobs' → jobs_map jobs' !! id = Some job.
Proof.
  intros Hok Hjob Ht Hrun. destruct op as [[raw|e] ch svc|id'|event]; simpl in *.
  - case_match; simpl in *; simplify_eq; [done|]. simpl. go_bool. by rewrite lookup_insert_ne.
  - by simplify_eq.
  - go_bool. destruct (jobs_map jobs !! id') as [job'|]; [|by simplify_eq/=].
    destruct (negb _ && _) in Hrun; simplify_eq/=; [by rewrite lookup_insert_ne|done].
  - destruct (String.eqb _ _); [|by simplify_eq].
    destruct (ev_RecordingJobID event) as [id'|]; [|by simplify_eq].
    destruct (ev_ChannelID event) as [ch|]; [|by simplify_eq].
    destruct (ev_State event) as [state|]; [|by simplify_eq].
    destruct (jobs_map jobs !! id') as [job'|] eqn:Hjob'; [|by simplify_eq].
    destruct (negb _) eqn:Hch in Hrun; simplify_eq/=; [done|].
    rewrite (jo_key _ Hok id' job' Hjob'). rewrite lookup_insert_ne; [done|]. intros ->.
    simplify_eq. go_bool. subst. rewrite !bool_decide_eq_true_2 in Ht by done. discriminate Ht.
Qed.

(** ** Properties *)

(** From the empty table, any sequence of creations, stops and validated
    Relay events keeps the job table well formed: keys are the canonical
    identifiers of their jobs, states are lifecycle states, and at most 4096
    jobs exist. *)
Theorem recording_jobs_well_formed ops :
  Forall job_op_ok ops →
  ∃ jobs, job_run ops (Some newManagementRecordingJobs) = Some jobs ∧ jobs_ok jobs.
Proof.
  intros Hops. destruct (job_run_ok ops _ jobs_ok_new Hops) as (jobs & Hrun & Hok & _). eauto.
Qed.

Definition example_raw_id : string := "0123456789abcdef".
Definition example_job_event : privateControlLifecycleEvent :=
  LifecycleEvent privateControlSchemaVersion "relay_lifecycle_event" (newPrivateControlID example_raw_id)
    "2024-02-29T12:34:56Z" "recording_state_changed" (Some 7) None None
    (Some (newPrivateControlID example_raw_id)) (Some "recording") None.
Definition example_job_ops : list job_op :=
  [JobCreate (Ok example_raw_id) 7 "recorder-01"; JobEvent example_job_event;
   JobStop (newPrivateControlID example_raw_id)].

Lemma example_job_ops_ok : Forall job_op_ok example_job_ops.
Proof.
  unfold example_job_ops. rewrite !Forall_cons. split_and!; [reflexivity| |done|done].
  intros s [= <-]. apply in_set_spec. reflexivity.
Qed.

Lemma recording_jobs_well_formed_witness :
  ∃ jobs, job_run example_job_ops (Some newManagementRecordingJobs) = Some jobs ∧ jobs_ok jobs.
Proof. apply recording_jobs_well_formed. exact example_job_ops_ok. Defined.

(** An operation changes no job but the one it is addressed to; that one
    keeps its identifier, channel and recorder service.  A stop moves it to
    "stopping" unless it already is "stopped" or "failed". *)
Theorem recording_job_stop_effect jobs id job :
  jobs_ok jobs → jobs_map jobs !! id = Some job →
  ∃ jobs' job', jobs_stop id (Some jobs) = (Some jobs', Some job') ∧ jobs_ok jobs' ∧
    jobs_map jobs' !! id = Some job' ∧
    job' = (if in_set (job_state job) ["stopped"; "failed"] then job
            else with_job_state "stopping" job) ∧
    (∀ id2, id2 ≠ id → jobs_map jobs' !! id2 = jobs_map jobs !! id2) ∧
    jobs_stop id (Some jobs') = (Some jobs', Some job').
Proof.
  intros Hok Hjob. unfold jobs_stop at 1. rewrite Hjob.
  replace (in_set (job_state job) ["stopped"; "failed"]) with
    (negb (negb (String.eqb (job_state job) "stopped") &&
           negb (String.eqb (job_state job) "failed"))).
  2:{ rewrite negb_andb, !negb_involutive. unfold in_set. apply eq_true_iff_eq.
      rewrite bool_decide_eq_true, orb_true_iff, !String.eqb_eq. set_solver. }
  destruct (negb (String.eqb (job_state job) "stopped") && _) eqn:E; simpl.
  - eexists _, _. split; [done|]. split; [apply jobs_ok_update; auto with jobs|].
    simpl. rewrite lookup_insert_eq. split; [done|]. split; [done|]. split.
    + intros id2 Hne. by rewrite lookup_insert_ne.
    + simpl. by rewrite insert_insert_eq.
  - exists jobs, job. split_and!; try done. unfold jobs_stop. by rewrite Hjob, E.
Qed.

Definition example_jobs : managementRecordingJobs :=
  default newManagementRecordingJobs (job_run [JobCreate (Ok example_raw_id) 7 "recorder-01"]
                                        (Some newManagementRecordingJobs)).

Lemma example_jobs_ok : jobs_ok example_jobs.
Proof.
  destruct (job_run_ok [JobCreate (Ok example_raw_id) 7 "recorder-01"] _ jobs_ok_new)
    as (jobs & Hrun & Hok & _).
  - apply Forall_singleton. reflexivity.
  - unfold example_jobs. by rewrite Hrun.
Qed.

Lemma recording_job_stop_effect_witness :
  let id := newPrivateControlID example_raw_id in
  let job := RecordingJob id 7 "recorder-01" "starting" in
  ∃ jobs' job', jobs_stop id (Some example_jobs) = (Some jobs', Some job') ∧ jobs_ok jobs' ∧
    jobs_map jobs' !! id = Some job' ∧
    job' = (if in_set (job_state job) ["stopped"; "failed"] then job
            else with_job_state "stopping" job) ∧
    (∀ id2, id2 ≠ id → jobs_map jobs' !! id2 = jobs_map example_jobs !! id2) ∧
    jobs_stop id (Some jobs') = (Some jobs', Some job').
Proof.
  intros id job. apply recording_job_stop_effect; [exact example_jobs_ok|].
  vm_compute. reflexivity.
Defined.

(** A Relay event or a request leaves every job it is not addressed to as
    it was; in particular an event for another channel never moves a job. *)
Theorem recording_job_frame op jobs id job :
  jobs_ok jobs → job_op_ok op → jobs_map jobs !! id = Some job →
  job_op_targets op id job = false →
  ∃ jobs', job_apply op (Some jobs) = Some jobs' ∧ jobs_map jobs' !! id = Some job.
Proof.
  intros Hok Hop Hjob Ht. destruct (job_apply_ok op jobs Hok Hop) as (jobs' & Hrun & _).
  exists jobs'. split; [done|]. by apply (job_apply_frame op jobs).
Qed.

Lemma recording_job_frame_witness :
  let id := newPrivateControlID example_raw_id in
  let job := RecordingJob id 7 "recorder-01" "starting" in
  ∃ jobs', job_apply (JobEvent (LifecycleEvent privateControlSchemaVersion "relay_lifecycle_event"
      id "2024-02-29T12:34:56Z" "recording_state_changed" (Some 8) None None
      (Some id) (Some "failed") None)) (Some example_jobs) = Some jobs' ∧
    jobs_map jobs' !! id = Some job.
Proof.
  intros id job. apply recording_job_frame.
  - exact example_jobs_ok.
  - intros s [= <-]. apply in_set_spec. reflexivity.
  - vm_compute. reflexivity.
  - vm_compute. reflexivity.
Defined.

(** Jobs are never removed: no sequence of operations makes the table
    smaller, and once 4096 jobs were created every further creation is
    refused for the life of the process. *)
Theorem recording_jobs_never_freed ops jobs :
  jobs_ok jobs → Forall job_op_ok ops →
  ∃ jobs', job_run ops (Some jobs) = Some jobs' ∧
    dom (jobs_map jobs) ⊆ dom (jobs_map jobs') ∧
    len_map (jobs_map jobs) ≤ len_map (jobs_map jobs') ∧
    (len_map (jobs_map jobs) = managementRecordingJobLimit → ∀ raw channelID svc,
       jobs_create (Ok raw) channelID svc (Some jobs') =
       (Some jobs', Err errManagementRecordingJobLimit)).
Proof.
  intros Hok Hops. destruct (job_run_ok ops jobs Hok Hops) as (jobs' & Hrun & Hok' & Hdom).
  exists jobs'. split; [done|]. split; [done|].
  assert (len_map (jobs_map jobs) ≤ len_map (jobs_map jobs')) as Hle.
  { unfold len_map. rewrite <-!size_dom. apply subseteq_size in Hdom. lia. }
  split; [done|]. intros Hfull raw channelID svc. unfold jobs_create.
  case_match eqn:E; [done|]. go_bool. lia.
Qed.

Lemma recording_jobs_never_freed_witness :
  ∃ jobs', job_run example_job_ops (Some example_jobs) = Some jobs' ∧
    dom (jobs_map example_jobs) ⊆ dom (jobs_map jobs') ∧
    len_map (jobs_map example_jobs) ≤ len_map (jobs_map jobs') ∧
    (len_map (jobs_map example_jobs) = managementRecordingJobLimit → ∀ raw channelID svc,
       jobs_create (Ok raw) channelID svc (Some jobs') =
       (Some jobs', Err errManagementRecordingJobLimit)).
Proof.
  apply recording_jobs_never_freed; [exact example_jobs_ok|exact example_job_ops_ok].
Defined.

Close Scope Z_scope.
