(* ===== verification/RelayState.v ===== *)
(** * Relay state projection

    [managementState] of [main.go] with its readers of [management_api.go]:
    what the service believes about the Relay, fed by the Private Control Link
    session and served by the API.  The two objects that the state points to,
    the live event hub and the recording job table, are owned here; the API
    reaches the same objects through the state.

    Every operation is one critical section of the state's lock, except that
    [recordLifecycleEvent] updates the job table and the hub after releasing
    it, under their own locks. *)

From S2P Require Export Snapshot Events RecordingJobs.

Open Scope Z_scope.

Record managementState := ManagementState {
  ms_relayID : string;
  ms_connected : bool;
  ms_connectedAt : Z;
  ms_lastEventAt : Z;
  ms_lastEventType : string;
  ms_channels : gmap Z (gmap Z string);
  ms_snapshotAt : Z;
  ms_liveEvents : option managementLiveEventHub;
  ms_recordingJobs : option managementRecordingJobs;
}.

Definition newManagementState : managementState :=
  ManagementState "" false zero_time zero_time "" ∅ zero_time None None.

(** [s.markConnected(relayID)] at the instant [now] *)
Definition markConnected (now : Z) (relayID : string) (s : managementState) : managementState :=
  ManagementState relayID true now (ms_lastEventAt s) (ms_lastEventType s) ∅ zero_time
    (ms_liveEvents s) (ms_recordingJobs s).

Definition markDisconnected (s : managementState) : managementState :=
  ManagementState (ms_relayID s) false (ms_connectedAt s) (ms_lastEventAt s) (ms_lastEventType s)
    (ms_channels s) (ms_snapshotAt s) (ms_liveEvents s) (ms_recordingJobs s).

(** The [switch event.EventType] of [recordLifecycleEvent] on the participants
    of the event's channel; the flag says whether the channel is removed. *)
Definition move_participant (eventType : string) (sender : Z) (participants : gmap Z string)
    : gmap Z string * bool :=
  if String.eqb eventType "participant_joined" then (<[sender := "idle"]> participants, false)
  else if String.eqb eventType "participant_left" then
    let participants := delete sender participants in
    (participants, len_map participants =? 0)
  else if String.eqb eventType "talk_started" then (<[sender := "talking"]> participants, false)
  else if String.eqb eventType "talk_ended" then
    (if bool_decide (is_Some (participants !! sender))
     then <[sender := "idle"]> participants else participants, false)
  else (participants, false).

(** The projection after an event.  A participants map that does not exist
    yet is created in the channel map before the switch. *)
Definition project_event (event : privateControlLifecycleEvent) (channels : gmap Z (gmap Z string))
    : gmap Z (gmap Z string) :=
  match ev_ChannelID event, ev_SenderID event with
  | Some channel, Some sender =>
      let '(participants, removed) :=
        move_participant (ev_EventType event) sender (default ∅ (channels !! channel)) in
      if removed then delete channel channels else <[channel := participants]> channels
  | _, _ => channels
  end.

(** The critical section of [recordLifecycleEvent]. *)
Definition record_event_locked (now : Z) (event : privateControlLifecycleEvent)
    (s : managementState) : managementState :=
  ManagementState (ms_relayID s) (ms_connected s) (ms_connectedAt s) now (ev_EventType event)
    (project_event event (ms_channels s)) (ms_snapshotAt s) (ms_liveEvents s) (ms_recordingJobs s).

Definition with_jobs (jobs : option managementRecordingJobs) (s : managementState) : managementState :=
  ManagementState (ms_relayID s) (ms_connected s) (ms_connectedAt s) (ms_lastEventAt s)
    (ms_lastEventType s) (ms_channels s) (ms_snapshotAt s) (ms_liveEvents s) jobs.

Definition with_hub (hub : option managementLiveEventHub) (s : managementState) : managementState :=
  ManagementState (ms_relayID s) (ms_connected s) (ms_connectedAt s) (ms_lastEventAt s)
    (ms_lastEventType s) (ms_channels s) (ms_snapshotAt s) hub (ms_recordingJobs s).

(** [s.recordLifecycleEvent(event)]: the locked part, then
    [recordingJobs.applyLifecycleEvent] and [liveEvents.publish]; [order] is
    the hub's iteration order and [None] a panic of the hub. *)
Definition recordLifecycleEvent (now : Z) (order : list (Z * Z))
    (event : privateControlLifecycleEvent) (s : managementState) : option managementState :=
  let s1 := record_event_locked now event s in
  let s2 := with_jobs (jobs_applyLifecycleEvent event (ms_recordingJobs s1)) s1 in
  match ms_liveEvents s2 with
  | None => Some s2
  | Some hub => (λ hub', with_hub (Some hub') s2) <$> hub_publish order event hub
  end.

Definition setRecordingJobs (jobs : option managementRecordingJobs) (s : managementState) := with_jobs jobs s.
Definition setLiveEvents (hub : option managementLiveEventHub) (s : managementState) := with_hub hub s.

(** The projection of a snapshot: channels in order, participants in order,
    the last entry wins; a channel without participants is kept. *)
Definition project_participants (participants : gmap Z string)
    (ps : list privateControlSnapshotParticipant) : gmap Z string :=
  foldl (λ m p, <[sp_SenderID p := sp_State p]> m) participants ps.

Definition project_snapshot (channels : list privateControlSnapshotChannel) : gmap Z (gmap Z string) :=
  foldl (λ m c, <[sc_ChannelID c :=
                    project_participants (default ∅ (m !! sc_ChannelID c)) (sc_Participants c)]> m)
    ∅ channels.

(** [s.applyRelayStateSnapshot(channels)] *)
Definition applyRelayStateSnapshot (now : Z) (channels : list privateControlSnapshotChannel)
    (s : managementState) : managementState :=
  ManagementState (ms_relayID s) (ms_connected s) (ms_connectedAt s) (ms_lastEventAt s)
    (ms_lastEventType s) (project_snapshot channels) now (ms_liveEvents s) (ms_recordingJobs s).

(** ** Readers *)

(** [s.snapshot()], the body of /healthz and /readyz.  [json.Marshal] writes
    the members of a map in key order. *)
Definition state_snapshot (s : managementState) : json :=
  JObject
    (omit_if (IsZero (ms_snapshotAt s)) ("channel_count", jnum (len_map (ms_channels s))) ++
     omit_if (IsZero (ms_connectedAt s)) ("connected_at", JString (Format_RFC3339 (ms_connectedAt s))) ++
     omit_if (IsZero (ms_lastEventAt s)) ("last_event_at", JString (Format_RFC3339 (ms_lastEventAt s))) ++
     omit_if (IsZero (ms_lastEventAt s)) ("last_event_type", JString (ms_lastEventType s)) ++
     omit_if (String.eqb (ms_relayID s) "") ("relay_id", JString (ms_relayID s)) ++
     omit_if (IsZero (ms_snapshotAt s)) ("state_snapshot_at", JString (Format_RFC3339 (ms_snapshotAt s))) ++
     [("status", JString (if ms_connected s then "connected" else "disconnected"))]).

Definition managementAPIHealthStatus (s : managementState) : string :=
  if negb (ms_connected s) then "unhealthy"
  else if IsZero (ms_snapshotAt s) then "degraded"
  else "healthy".

(** The channel state handed out is a deep copy, hence a value here. *)
Definition managementAPIChannelState (s : managementState) : option (gmap Z (gmap Z string)) :=
  if negb (ms_connected s) || IsZero (ms_snapshotAt s) then None else Some (ms_channels s).

(** ** The projection, participant by participant *)

(** The state of one participant. *)
Definition participant_state (channels : gmap Z (gmap Z string)) (channel sender : Z)
    : option string :=
  participants ← channels !! channel; participants !! sender.

Lemma participant_state_default channels channel sender :
  participant_state channels channel sender = default ∅ (channels !! channel) !! sender.
Proof.
  unfold participant_state. destruct (channels !! channel); simpl; [done|].
  by rewrite lookup_empty.
Qed.

Lemma participant_state_insert channels channel participants c s :
  participant_state (<[channel := participants]> channels) c s =
  if decide (c = channel) then participants !! s else participant_state channels c s.
Proof.
  unfold participant_state. rewrite lookup_insert.
  destruct (decide (channel = c)) as [->|]; destruct (decide _); by subst.
Qed.

(** What an event makes of the participant it names. *)
Definition moved_state (eventType : string) (old : option string) : option string :=
  if String.eqb eventType "participant_joined" then Some "idle"
  else if String.eqb eventType "participant_left" then None
  else if String.eqb eventType "talk_started" then Some "talking"
  else if String.eqb eventType "talk_ended" then (λ _, "idle") <$> old
  else old.

Lemma move_participant_spec eventType sender participants :
  let '(participants', removed) := move_participant eventType sender participants in
  participants' !! sender = moved_state eventType (participants !! sender) ∧
  (∀ s, s ≠ sender → participants' !! s = participants !! s) ∧
  (removed = true ↔ eventType = "participant_left" ∧ participants' = ∅).
Proof.
  assert (Hremoved : ∀ b : bool, b = false → ∀ m : gmap Z string, eventType ≠ "participant_left" →
    b = true ↔ eventType = "participant_left" ∧ m = ∅).
  { intros b -> m Hne. split; [done|by intros []]. }
  unfold move_participant, moved_state.
  destruct (String.eqb eventType "participant_joined") eqn:E1; go_bool.
  { split_and!; [by rewrite lookup_insert_eq|intros; by rewrite lookup_insert_ne|].
    apply Hremoved; [done|congruence]. }
  destruct (String.eqb eventType "participant_left") eqn:E2; go_bool.
  { split_and!; [by rewrite lookup_delete_eq|intros; by rewrite lookup_delete_ne|].
    unfold len_map. rewrite Z.eqb_eq. split.
    - intros H. split; [done|]. apply map_size_empty_inv. lia.
    - intros [_ ->]. by rewrite map_size_empty. }
  destruct (String.eqb eventType "talk_started") eqn:E3; go_bool.
  { split_and!; [by rewrite lookup_insert_eq|intros; by rewrite lookup_insert_ne|].
    by apply Hremoved. }
  destruct (String.eqb eventType "talk_ended") eqn:E4; go_bool.
  { case_bool_decide as Hs.
    - destruct Hs as [v ->].
      split_and!; [by rewrite lookup_insert_eq|intros; by rewrite lookup_insert_ne|].
      by apply Hremoved.
    - apply eq_None_not_Some in Hs. rewrite Hs. split_and!; [done|done|by apply Hremoved]. }
  split_and!; [done|done|by apply Hremoved].
Qed.

(** The participant state after an event. *)
Lemma project_event_state event channels channel sender c s :
  ev_ChannelID event = Some channel → ev_SenderID event = Some sender →
  participant_state (project_event event channels) c s =
  if decide (c = channel ∧ s = sender)
  then moved_state (ev_EventType event) (participant_state channels c s)
  else participant_state channels c s.
Proof.
  intros Hc Hs. unfold project_event. rewrite Hc, Hs.
  pose proof (move_participant_spec (ev_EventType event) sender
    (default ∅ (channels !! channel))) as Hm.
  destruct (move_participant _ _ _) as [ps removed]. destruct Hm as (Hm & Hother & Hrem).
  assert (Hins : participant_state (<[channel := ps]> channels) c s =
    if decide (c = channel ∧ s = sender)
    then moved_state (ev_EventType event) (participant_state channels c s)
    else participant_state channels c s).
  { rewrite participant_state_insert, participant_state_default.
    destruct (decide (c = channel)) as [->|Hne].
    - destruct (decide (s = sender)) as [->|Hne].
      + rewrite decide_True by done. by rewrite Hm.
      + rewrite decide_False by naive_solver. by rewrite Hother.
    - by rewrite decide_False by naive_solver. }
  destruct removed; [|exact Hins]. destruct (proj1 Hrem eq_refl) as [_ ->].
  rewrite <-Hins, participant_state_insert.
  unfold participant_state. destruct (decide (c = channel)) as [->|Hne].
  - by rewrite lookup_delete_eq, lookup_empty.
  - by rewrite lookup_delete_ne.
Qed.

(** [p] of [cs] is the participant [sender] of [channel] in the state [st]. *)
Definition names_participant (cs : list privateControlSnapshotChannel) (channel sender : Z)
    (st : string) : Prop :=
  ∃ c p, c ∈ cs ∧ sc_ChannelID c = channel ∧ p ∈ sc_Participants c ∧
         sp_SenderID p = sender ∧ sp_State p = st.

Lemma project_participants_lookup m ps s st :
  NoDup (sp_SenderID <$> ps) → (∀ p, p ∈ ps → m !! sp_SenderID p = None) →
  project_participants m ps !! s = Some st ↔
  m !! s = Some st ∨ ∃ p, p ∈ ps ∧ sp_SenderID p = s ∧ sp_State p = st.
Proof.
  unfold project_participants. revert m.
  induction ps as [|p ps IH]; intros m.
  { intros _ _. simpl. split; [by left|]. intros [?|(p & Hp & _)]; [done|set_solver]. }
  rewrite fmap_cons, NoDup_cons. intros [Hp Hnd] Hnew. simpl. rewrite IH; [|done|].
  - rewrite lookup_insert. destruct (decide (sp_SenderID p = s)) as [<-|Hne].
    + rewrite (Hnew p) by set_solver. split.
      * intros [[= <-]|(q & Hq & Hqs & _)]; right; [exists p; set_solver|].
        exfalso. apply Hp. rewrite <-Hqs. by apply list_elem_of_fmap_2.
      * intros [|(q & [->|Hq]%elem_of_cons & Hqs & <-)]; [done|by left|].
        exfalso. apply Hp. rewrite <-Hqs. by apply list_elem_of_fmap_2.
    + split; intros [?|(q & Hq & Hqs & Hqst)]; [by left|right; exists q; set_solver|by left|].
      right. apply elem_of_cons in Hq as [->|Hq]; [done|]. by exists q.
  - intros q Hq. rewrite lookup_insert_ne; [apply Hnew; set_solver|]. intros Heq. apply Hp.
    rewrite Heq. by apply list_elem_of_fmap_2.
Qed.

(** One channel of a snapshot. *)
Definition project_channel (m : gmap Z (gmap Z string)) (c : privateControlSnapshotChannel)
    : gmap Z (gmap Z string) :=
  <[sc_ChannelID c := project_participants (default ∅ (m !! sc_ChannelID c)) (sc_Participants c)]> m.

Lemma project_channel_state m c channel sender st :
  NoDup (sp_SenderID <$> sc_Participants c) →
  (∀ p, p ∈ sc_Participants c → participant_state m (sc_ChannelID c) (sp_SenderID p) = None) →
  participant_state (project_channel m c) channel sender = Some st ↔
  participant_state m channel sender = Some st ∨ names_participant [c] channel sender st.
Proof.
  intros Hnd Hnew. unfold project_channel, names_participant. rewrite participant_state_insert.
  destruct (decide (channel = sc_ChannelID c)) as [->|Hne].
  - rewrite project_participants_lookup; [|done|].
    + rewrite participant_state_default. split.
      * intros [?|(p & ?)]; [by left|right]. exists c, p. set_solver.
      * intros [?|(c' & p & ->%list_elem_of_singleton & ?)]; [by left|right]. exists p. set_solver.
    + intros p Hp. rewrite <-participant_state_default. by apply Hnew.
  - split; [by left|]. intros [?|(c' & p & ->%list_elem_of_singleton & ? & _)]; [done|congruence].
Qed.

Lemma project_channels_state m cs channel sender st :
  NoDup (participant_pairs cs) →
  (∀ x, x ∈ participant_pairs cs → participant_state m x.1 x.2 = None) →
  participant_state (foldl project_channel m cs) channel sender = Some st ↔
  participant_state m channel sender = Some st ∨ names_participant cs channel sender st.
Proof.
  revert m. induction cs as [|c cs IH]; intros m.
  { intros _ _. simpl. split; [by left|]. intros [?|(c & p & Hc & _)]; [done|set_solver]. }
  rewrite participant_pairs_cons, NoDup_app. intros (Hc & Hdisj & Hcs) Hnew. simpl.
  assert (Hcnew : ∀ p, p ∈ sc_Participants c →
                   participant_state m (sc_ChannelID c) (sp_SenderID p) = None).
  { intros p Hp. apply (Hnew (sc_ChannelID c, sp_SenderID p)). apply elem_of_app. left.
    by apply channel_pair_elem. }
  assert (Hcnd : NoDup (sp_SenderID <$> sc_Participants c)) by (by apply NoDup_channel_pairs).
  rewrite IH; [|done|].
  - rewrite project_channel_state by done. unfold names_participant. split.
    + intros [[?|(c' & p & Hc' & ?)]|(c' & p & Hc' & ?)];
        [by left|right; exists c', p; set_solver..].
    + intros [?|(c' & p & [->|Hc']%elem_of_cons & ?)]; [by left; left|left; right|right].
      * exists c, p. set_solver.
      * by exists c', p.
  - intros [a b] Hx. simpl. destruct (participant_state (project_channel m c) a b) eqn:E; [|done].
    exfalso. apply project_channel_state in E as [E|(c' & p & ->%list_elem_of_singleton & ? & ? & ? & ?)];
      [|subst|done|done].
    + specialize (Hnew (a, b)). simpl in Hnew. rewrite Hnew in E; [done|]. apply elem_of_app. by right.
    + apply (Hdisj (sc_ChannelID c, sp_SenderID p)); [|done]. by apply channel_pair_elem.
Qed.

Lemma project_snapshot_foldl cs : project_snapshot cs = foldl project_channel ∅ cs.
Proof. done. Qed.

Lemma project_channels_dom m cs channel :
  is_Some (foldl project_channel m cs !! channel) ↔
  is_Some (m !! channel) ∨ channel ∈ sc_ChannelID <$> cs.
Proof.
  revert m. induction cs as [|c cs IH]; intros m; simpl; [set_solver|].
  rewrite IH. unfold project_channel. rewrite lookup_insert, elem_of_cons.
  case_decide as E; [|naive_solver]. rewrite E. split; [by right; left|]. left. by eexists.
Qed.

(** ** Histories

    The operations the session applies to the state, and the specification of
    what the API may serve after them. *)

Inductive state_op :=
| StConnected (now : Z) (relayID : string)
| StDisconnected
| StEvent (now : Z) (event : privateControlLifecycleEvent)
| StSnapshot (now : Z) (channels : list privateControlSnapshotChannel).

(** One iteration order of the hub's subscribers; by [hub_publish_effect] the
    choice does not matter. *)
Definition default_order (s : managementState) : list (Z * Z) :=
  match ms_liveEvents s with
  | Some hub => map_to_list (hub_subscribers hub)
  | None => []
  end.

Definition state_apply (op : state_op) (s : managementState) : option managementState :=
  match op with
  | StConnected now relayID => Some (markConnected now relayID s)
  | StDisconnected => Some (markDisconnected s)
  | StEvent now event => recordLifecycleEvent now (default_order s) event s
  | StSnapshot now channels => Some (applyRelayStateSnapshot now channels s)
  end.

Fixpoint state_run (ops : list state_op) (s : managementState) : option managementState :=
  match ops with
  | [] => Some s
  | op :: ops => s' ← state_apply op s; state_run ops s'
  end.

(** The latest connection change of a history, newest operation first. *)
Fixpoint connected_after (newest_first : list state_op) : bool :=
  match newest_first with
  | [] => false
  | StConnected _ _ :: _ => true
  | StDisconnected :: _ => false
  | _ :: older => connected_after older
  end.

Definition replay_events (events : list privateControlLifecycleEvent)
    (channels : gmap Z (gmap Z string)) : gmap Z (gmap Z string) :=
  foldl (λ m event, project_event event m) channels events.

(** What the API may serve: the last thing that happened, events apart, must
    be a snapshot of the open connection; the answer is that snapshot with the
    events after it replayed. *)
Fixpoint served (newest_first : list state_op) (later : list privateControlLifecycleEvent)
    : option (gmap Z (gmap Z string)) :=
  match newest_first with
  | StEvent _ event :: older => served older (event :: later)
  | StSnapshot _ channels :: older =>
      if connected_after older then Some (replay_events later (project_snapshot channels)) else None
  | _ => None
  end.

Definition hub_opt_ok (hub : option managementLiveEventHub) : Prop :=
  match hub with Some h => hub_ok h | None => True end.

Lemma recordLifecycleEvent_total now order event s :
  hub_opt_ok (ms_liveEvents s) →
  (∀ hub, ms_liveEvents s = Some hub → map_order (hub_subscribers hub) order) →
  ∃ s', recordLifecycleEvent now order event s = Some s' ∧ hub_opt_ok (ms_liveEvents s') ∧
    ms_connected s' = ms_connected s ∧ ms_snapshotAt s' = ms_snapshotAt s ∧
    ms_channels s' = project_event event (ms_channels s) ∧
    ms_recordingJobs s' = jobs_applyLifecycleEvent event (ms_recordingJobs s).
Proof.
  intros Hok Horder. unfold recordLifecycleEvent. simpl.
  destruct (ms_liveEvents s) as [hub|] eqn:Hhub; simpl.
  - destruct (hub_publish_total hub order event Hok (Horder hub eq_refl)) as (hub' & -> & Hok').
    simpl. by eexists.
  - eexists. split; [done|]. simpl. by rewrite Hhub.
Qed.

Lemma default_order_ok s hub :
  ms_liveEvents s = Some hub → map_order (hub_subscribers hub) (default_order s).
Proof. intros H. unfold default_order. rewrite H. apply map_order_default. Qed.

Lemma state_run_snoc ops op s :
  state_run (ops ++ [op]) s = s' ← state_run ops s; state_apply op s'.
Proof.
  revert s. induction ops as [|o ops IH]; intros s; simpl.
  - destruct (state_apply op s); done.
  - destruct (state_apply o s); simpl; [apply IH|done].
Qed.

Lemma served_later newest later1 later2 :
  served newest (later1 ++ later2) = replay_events later2 <$> served newest later1.
Proof.
  revert later1. induction newest as [|[] newest IH]; intros later1; simpl; try done.
  - by rewrite <-IH.
  - destruct (connected_after newest); [|done]. simpl. unfold replay_events. by rewrite foldl_app.
Qed.

(** The clock is past year 1. *)
Definition op_clock_ok (op : state_op) : Prop :=
  match op with
  | StConnected now _ | StEvent now _ | StSnapshot now _ => now ≠ zero_time
  | StDisconnected => True
  end.

(** The state after [newManagementAPI] attached its two objects, or failed to. *)
Definition attached_state (hub : option managementLiveEventHub) (jobs : option managementRecordingJobs)
    : managementState :=
  setRecordingJobs jobs (setLiveEvents hub newManagementState).

Lemma state_run_served ops hub jobs :
  hub_opt_ok hub → Forall op_clock_ok ops →
  ∃ s, state_run ops (attached_state hub jobs) = Some s ∧ hub_opt_ok (ms_liveEvents s) ∧
    ms_connected s = connected_after (reverse ops) ∧
    managementAPIChannelState s = served (reverse ops) [].
Proof.
  intros Hhub. induction ops as [|op ops IH] using rev_ind; intros Hclock.
  { by eexists. }
  apply Forall_app in Hclock as [Hclock Hop]. apply Forall_cons in Hop as [Hop _].
  destruct (IH Hclock) as (s & Hrun & Hok & Hcon & Hserved). clear IH.
  rewrite state_run_snoc, Hrun, reverse_snoc. simpl.
  destruct op as [now relayID| |now event|now channels]; simpl.
  - eexists. split; [done|]. by split.
  - eexists. split; [done|]. by split.
  - destruct (recordLifecycleEvent_total now (default_order s) event s Hok (default_order_ok s))
      as (s' & -> & Hok' & Hcon' & Hsnap' & Hch' & _).
    exists s'. split; [done|]. split; [done|]. split; [congruence|].
    change [event] with ([] ++ [event]). rewrite served_later, <-Hserved.
    unfold managementAPIChannelState. rewrite Hcon', Hsnap', Hch'.
    by destruct (negb _ || _).
  - eexists. split; [done|]. split; [done|]. split; [done|].
    unfold managementAPIChannelState. simpl. rewrite Hcon.
    unfold IsZero. simpl in Hop. rewrite (proj2 (Z.eqb_neq _ _) Hop).
    by destruct (connected_after _).
Qed.

(** ** Properties *)

(** C17: the API never serves the state of a prior connection.  After any
    history the channel state is available exactly when the last operation
    (lifecycle events apart) is a snapshot applied on the open connection, and
    it is then that snapshot with the later events replayed. *)
Theorem channel_state_is_fresh hub jobs ops :
  hub_opt_ok hub → Forall op_clock_ok ops →
  ∃ s, state_run ops (attached_state hub jobs) = Some s ∧
    managementAPIChannelState s = served (reverse ops) [].
Proof.
  intros Hhub Hclock. destruct (state_run_served ops hub jobs) as (s & ? & _ & _ & ?); eauto.
Qed.

Definition example_history : list state_op :=
  [StConnected 1 "relay-1"; StSnapshot 2 [SnapshotChannel 7 [SnapshotParticipant 1 "idle"]];
   StEvent 3 example_event].

Lemma channel_state_is_fresh_witness :
  ∃ s, state_run example_history
         (attached_state (Some newManagementLiveEventHub) (Some newManagementRecordingJobs)) = Some s ∧
    managementAPIChannelState s = served (reverse example_history) [] ∧
    served (reverse example_history) [] = Some {[7 := {[1 := "talking"]}]}.
Proof.
  destruct (channel_state_is_fresh (Some newManagementLiveEventHub) (Some newManagementRecordingJobs)
    example_history) as (s & Hrun & Hserved).
  - exact hub_ok_new.
  - repeat constructor; discriminate.
  - exists s. split; [exact Hrun|]. split; [exact Hserved|]. vm_compute. reflexivity.
Defined.

(** A lifecycle event moves exactly the participant it names: joined and
    ended talkers become idle, a started talk becomes talking, a left
    participant disappears, an unknown talker's end is ignored; every other
    participant of every channel keeps its state. *)
Theorem lifecycle_event_effect event channels channel sender c s :
  ev_ChannelID event = Some channel → ev_SenderID event = Some sender →
  participant_state (project_event event channels) c s =
  if decide (c = channel ∧ s = sender)
  then moved_state (ev_EventType event) (participant_state channels c s)
  else participant_state channels c s.
Proof. apply project_event_state. Qed.

Lemma lifecycle_event_effect_witness :
  participant_state (project_event example_event {[7 := {[1 := "idle"]}]}) 7 1 =
  moved_state "talk_started" (Some "idle").
Proof. exact (lifecycle_event_effect example_event {[7 := {[1 := "idle"]}]} 7 1 7 1 eq_refl eq_refl). Defined.

(** Applying a snapshot whose participants are distinct yields exactly
    the participants it names with their states, and exactly its channels,
    channels without participants included. *)
Theorem snapshot_projection_exact now cs s channel sender st :
  NoDup (participant_pairs cs) →
  (participant_state (ms_channels (applyRelayStateSnapshot now cs s)) channel sender = Some st ↔
   names_participant cs channel sender st) ∧
  (is_Some (ms_channels (applyRelayStateSnapshot now cs s) !! channel) ↔
   channel ∈ sc_ChannelID <$> cs).
Proof.
  intros Hnd. simpl. rewrite project_snapshot_foldl. split.
  - rewrite project_channels_state; [|done|by intros].
    unfold participant_state. rewrite lookup_empty. simpl.
    split; [intros [?|?]; done|by right].
  - rewrite project_channels_dom, lookup_empty. split; [intros [[? ?]|?]; done|by right].
Qed.

Lemma snapshot_projection_exact_witness :
  let cs := [SnapshotChannel 7 [SnapshotParticipant 1 "idle"]; SnapshotChannel 8 []] in
  (participant_state (ms_channels (applyRelayStateSnapshot 5 cs newManagementState)) 7 1 = Some "idle" ↔
   names_participant cs 7 1 "idle") ∧
  (is_Some (ms_channels (applyRelayStateSnapshot 5 cs newManagementState) !! 7) ↔
   7 ∈ sc_ChannelID <$> cs).
Proof.
  intros cs. apply snapshot_projection_exact. vm_compute.
  apply NoDup_singleton.
Defined.

Close Scope Z_scope.
