(* ===== verification/Wire.v ===== *)
(** * The wire format of the Private Control Link

    Frames ([readPrivateControlFrame], [writePrivateControlFrame]), the
    duplicate-member scan over decoder tokens ([validatePrivateControlJSON]),
    and the JSON decoding and encoding of each message type. *)

From S2P Require Export Messages.

Open Scope Z_scope.

(** ** The token stream of a json.Decoder *)

Inductive token_state :=
| TopValue | ArrayStart | ArrayValue | ArrayComma
| ObjectStart | ObjectKey | ObjectColon | ObjectValue | ObjectComma.

#[global] Instance token_state_eq_dec : EqDecision token_state.
Proof. solve_decision. Defined.

Inductive json_token :=
| TokOpenObject | TokCloseObject | TokOpenArray | TokCloseArray
| TokString (s : string)
| TokOther (scalar : json).

Record json_decoder := Decoder {
  dec_input : string;
  dec_state : token_state;
  dec_stack : list token_state;
}.

Definition newDecoder (input : string) : json_decoder := Decoder input TopValue [].

Definition tokenValueAllowed (st : token_state) : bool :=
  match st with TopValue | ArrayStart | ArrayValue | ObjectValue => true | _ => false end.

Definition tokenValueEnd (st : token_state) : token_state :=
  match st with
  | ArrayStart | ArrayValue => ArrayComma
  | ObjectValue => ObjectComma
  | _ => st
  end.

Definition token_error : error := Errorf "json: invalid character" [].

(** A number token is a float64: its literal must not overflow.  The exponent
    is read the way [strconv] reads it, saturating past 10000. *)
Fixpoint exponent_value (acc : Z) (s : string) : Z :=
  match s with
  | EmptyString => acc
  | String c s' => exponent_value (if acc <? 10000 then acc * 10 + (byte_val c - 48) else acc) s'
  end.

Definition decimal_parts (literal : string) : Z * Z :=
  let body := TrimPrefix literal "-" in
  let '(i, r) := span_digits body in
  let '(f, r) :=
    match r with
    | String c r' => if Ascii.eqb c "."%char then span_digits r' else ("", r)
    | EmptyString => ("", r)
    end in
  let e :=
    match r with
    | String _ (String sg r') =>
        if Ascii.eqb sg "-"%char then - exponent_value 0 r'
        else if Ascii.eqb sg "+"%char then exponent_value 0 r'
        else exponent_value 0 (String sg r')
    | _ => 0
    end in
  (digits_value 0 (i +:+ f), e - len f).

(** The value rounds to a finite float64: it is below 2^1024 - 2^970. *)
Definition float64_in_range (literal : string) : bool :=
  let '(m, e) := decimal_parts literal in
  let bound := 2 ^ 1024 - 2 ^ 970 in
  if m =? 0 then true
  else if 400 <? e then false
  else if 0 <=? e then m * 10 ^ e <? bound
  else m <? bound * 10 ^ (- e).

Definition scalar_token (j : json) : result json_token :=
  match j with
  | JString s => Ok (TokString s)
  | JNumber n => if float64_in_range n then Ok (TokOther j) else Err json_type_error
  | _ => Ok (TokOther j)
  end.

(** [decoder.Token()].  The loop goes round again after a colon or a comma;
    each round consumes a byte, so [fuel] counts the rounds. *)
Fixpoint token_loop (fuel : nat) (d : json_decoder) : result (json_token * json_decoder) :=
  match fuel with
  | O => Err token_error
  | S fuel =>
      let s := skip_space (dec_input d) in
      let st := dec_state d in
      match s with
      | EmptyString => Err ErrEOF
      | String c r =>
          let v := byte_val c in
          if v =? 91 then
            if tokenValueAllowed st
            then Ok (TokOpenArray, Decoder r ArrayStart (st :: dec_stack d)) else Err token_error
          else if v =? 93 then
            match bool_decide (st = ArrayStart ∨ st = ArrayComma), dec_stack d with
            | true, outer :: stack => Ok (TokCloseArray, Decoder r (tokenValueEnd outer) stack)
            | _, _ => Err token_error
            end
          else if v =? 123 then
            if tokenValueAllowed st
            then Ok (TokOpenObject, Decoder r ObjectStart (st :: dec_stack d)) else Err token_error
          else if v =? 125 then
            match bool_decide (st = ObjectStart ∨ st = ObjectComma), dec_stack d with
            | true, outer :: stack => Ok (TokCloseObject, Decoder r (tokenValueEnd outer) stack)
            | _, _ => Err token_error
            end
          else if v =? 58 then
            if bool_decide (st = ObjectColon)
            then token_loop fuel (Decoder r ObjectValue (dec_stack d)) else Err token_error
          else if v =? 44 then
            if bool_decide (st = ArrayComma)
            then token_loop fuel (Decoder r ArrayValue (dec_stack d))
            else if bool_decide (st = ObjectComma)
            then token_loop fuel (Decoder r ObjectKey (dec_stack d)) else Err token_error
          else if (v =? 34) && bool_decide (st = ObjectStart ∨ st = ObjectKey) then
            match scan_quoted s with
            | Some (key, r') => Ok (TokString key, Decoder r' ObjectColon (dec_stack d))
            | None => Err json_syntax_error
            end
          else if tokenValueAllowed st then
            match scan_scalar s with
            | Some (j, r') =>
                try tok <- scalar_token j;
                Ok (tok, Decoder r' (tokenValueEnd st) (dec_stack d))
            | None => Err json_syntax_error
            end
          else Err token_error
      end
  end.

Definition decoder_Token (d : json_decoder) : result (json_token * json_decoder) :=
  token_loop (S (String.length (dec_input d))) d.

(** [decoder.More()] *)
Definition decoder_More (d : json_decoder) : bool :=
  match skip_space (dec_input d) with
  | EmptyString => false
  | String c _ => negb (byte_val c =? 93) && negb (byte_val c =? 125)
  end.

(** ** validatePrivateControlJSON *)

Definition err_fuel : error := Errorf "scan fuel exhausted" [].

(** [scanPrivateControlJSONValue] with its two loops. *)
Fixpoint scanPrivateControlJSONValue (fuel : nat) (d : json_decoder) : result json_decoder :=
  match fuel with
  | O => Err err_fuel
  | S fuel =>
      try (token, d) <- decoder_Token d;
      match token with
      | TokOpenObject => scan_object fuel ∅ d
      | TokOpenArray => scan_array fuel d
      | TokCloseObject | TokCloseArray => Err (Errorf "unexpected JSON delimiter" [])
      | _ => Ok d
      end
  end
with scan_object (fuel : nat) (seen : gset string) (d : json_decoder) : result json_decoder :=
  match fuel with
  | O => Err err_fuel
  | S fuel =>
      if decoder_More d then
        try (token, d1) <- decoder_Token d;
        match token with
        | TokString key =>
            if bool_decide (key ∈ seen)
            then Err (Errorf "duplicate JSON object member %q" [key])
            else try d2 <- scanPrivateControlJSONValue fuel d1;
                 scan_object fuel ({[key]} ∪ seen) d2
        | _ => Err (Errorf "JSON object key is not a string" [])
        end
      else
        try (token, d1) <- decoder_Token d;
        match token with
        | TokCloseObject => Ok d1
        | _ => Err (Errorf "JSON object is not closed" [])
        end
  end
with scan_array (fuel : nat) (d : json_decoder) : result json_decoder :=
  match fuel with
  | O => Err err_fuel
  | S fuel =>
      if decoder_More d then
        try d' <- scanPrivateControlJSONValue fuel d;
        scan_array fuel d'
      else
        try (token, d') <- decoder_Token d;
        match token with
        | TokCloseArray => Ok d'
        | _ => Err (Errorf "JSON array is not closed" [])
        end
  end.

Definition requireJSONEOF (d : json_decoder) : result unit :=
  match decoder_Token d with
  | Err ErrEOF => Ok tt
  | Err e => Err e
  | Ok _ => Err (Errorf "multiple JSON values" [])
  end.

Definition validatePrivateControlJSON (raw : string) : result unit :=
  if negb (utf8_Valid raw) then Err (Errorf "malformed UTF-8" [])
  else try d <- scanPrivateControlJSONValue (S (parse_fuel raw)) (newDecoder raw);
       requireJSONEOF d.

(** [decodePrivateControlJSON(raw, &target)] *)
Definition decodePrivateControlJSON {T} (fields : list (json_field T)) (zero : T) (raw : string)
    : result T :=
  try _ <- validatePrivateControlJSON raw;
  try (j, rest) <- decode_next raw;
  try target <- type_checked (decode_struct true fields j zero);
  try _ <- requireJSONEOF (newDecoder rest);
  Ok target.

(** ** Frames *)

(** [io.ReadFull] of [n] bytes from the bytes a connection will deliver. *)
Definition ReadFull (n : Z) (stream : string) : result (string * string) :=
  if n =? 0 then Ok ("", stream)
  else if String.eqb stream "" then Err ErrEOF
  else if len stream <? n then Err ErrUnexpectedEOF
  else Ok (split_at (Z.to_nat n) stream).

(** [binary.BigEndian] *)
Definition BigEndian_Uint32 (bytes : string) : Z :=
  foldl (λ acc c, acc * 256 + byte_val c) 0 (list_ascii_of_string bytes).

Definition BigEndian_PutUint32 (v : Z) : string :=
  byte_string [v / 2 ^ 24 mod 256; v / 2 ^ 16 mod 256; v / 2 ^ 8 mod 256; v mod 256].

(** [readPrivateControlFrame(reader)]: the payload and the unread stream. *)
Definition readPrivateControlFrame (stream : string) : result (string * string) :=
  try (lengthBytes, stream) <- ReadFull 4 stream;
  let length := BigEndian_Uint32 lengthBytes in
  reject (length <? 2) || (privateControlMaxFrameBytes <? length)
    with Errorf "invalid Private Control Link frame length" [];
  try (payload, stream) <- ReadFull length stream;
  try _ <- map_err (Wrapf "invalid Private Control Link JSON: %w" [])
             (validatePrivateControlJSON payload);
  Ok (payload, stream).

(** An [io.Writer]: one call takes a payload and returns the number of bytes
    written and an error. *)
Section writer.
Context {W : Type} (Write : W → string → W * (Z * option error)).

(** [writePrivateControlBytes(writer, payload)].  [None] is the run-time
    panic of slicing past the payload, when a writer claims more bytes than
    it was given.  Each round consumes a byte, so [String.length payload]
    rounds are enough. *)
Fixpoint write_loop (fuel : nat) (w : W) (payload : string) : option (W * option error) :=
  if String.eqb payload "" then Some (w, None)
  else match fuel with
       | O => Some (w, Some err_fuel)
       | S fuel =>
           let '(w, (written, err)) := Write w payload in
           match err with
           | Some e => Some (w, Some e)
           | None =>
               if written <=? 0 then Some (w, Some ErrShortWrite)
               else if len payload <? written then None
               else write_loop fuel w (split_at (Z.to_nat written) payload).2
           end
       end.

Definition writePrivateControlBytes (w : W) (payload : string) : option (W * option error) :=
  write_loop (String.length payload) w payload.

(** [writePrivateControlFrame(writer, value)] *)
Definition writePrivateControlFrame (w : W) (value : json) : option (W * option error) :=
  let payload := print_json value in
  if (len payload <? 2) || (privateControlMaxFrameBytes <? len payload)
  then Some (w, Some (Errorf "invalid Private Control Link outgoing frame size" []))
  else
    '(w, err) ← writePrivateControlBytes w (BigEndian_PutUint32 (len payload));
    match err with
    | Some e => Some (w, Some e)
    | None => writePrivateControlBytes w payload
    end.
End writer.

(** ** Message types on the wire *)

(** A field of a record: its JSON name, a decoder of its type, and how the
    record is read and rebuilt. *)
Definition field_of {T A} (name : string) (dec : json → A → option A) (get : T → A)
    (set : A → T → T) : json_field T :=
  JsonField name (λ j t, (λ a, set a t) <$> dec j (get t)).

(** [json.Marshal] of an optional (pointer) value. *)
Definition jopt {A} (enc : A → json) (o : option A) : json :=
  match o with Some a => enc a | None => JNull end.

(** *** Outgoing messages *)

Definition hello_json (m : privateControlHello) : json :=
  JObject [("schema_version", JString (hello_SchemaVersion m)); ("type", JString (hello_Type m));
           ("message_id", JString (hello_MessageID m));
           ("management_service_id", JString (hello_ManagementServiceID m));
           ("want_lifecycle_events", jopt JBool (hello_WantLifecycleEvents m));
           ("want_audit_inputs", jopt JBool (hello_WantAuditInputs m));
           ("want_diagnostics", jopt JBool (hello_WantDiagnostics m))].

Definition get_snapshot_json (m : privateControlGetRelayStateSnapshot) : json :=
  JObject [("schema_version", JString (get_SchemaVersion m)); ("type", JString (get_Type m));
           ("message_id", JString (get_MessageID m))].

Definition revoke_json (m : privateControlRevokeServiceAdmission) : json :=
  JObject ([("schema_version", JString (rev_SchemaVersion m)); ("type", JString (rev_Type m));
            ("message_id", JString (rev_MessageID m)); ("channel_id", jnum (rev_ChannelID m))] ++
           omit_if (String.eqb (rev_ServiceID m) "") ("service_id", JString (rev_ServiceID m)) ++
           omit_if (String.eqb (rev_GrantIDHash m) "") ("grant_id_hash", JString (rev_GrantIDHash m)) ++
           [("reason", JString (rev_Reason m)); ("deny_until", jnum (rev_DenyUntil m))]).

(** *** Incoming messages *)

Definition zero_hello_ack : privateControlHelloAck := HelloAck "" "" "" "" "" "" None None None.

Definition hello_ack_fields : list (json_field privateControlHelloAck) :=
  let opt := decode_pointer false decode_bool in
  [ field_of "schema_version" decode_string hack_SchemaVersion
      (λ v m, HelloAck v (hack_Type m) (hack_MessageID m) (hack_InReplyTo m) (hack_SessionID m) (hack_RelayID m) (hack_LifecycleEventsAccepted m) (hack_AuditInputsAccepted m) (hack_DiagnosticsAccepted m));
    field_of "type" decode_string hack_Type
      (λ v m, HelloAck (hack_SchemaVersion m) v (hack_MessageID m) (hack_InReplyTo m) (hack_SessionID m) (hack_RelayID m) (hack_LifecycleEventsAccepted m) (hack_AuditInputsAccepted m) (hack_DiagnosticsAccepted m));
    field_of "message_id" decode_string hack_MessageID
      (λ v m, HelloAck (hack_SchemaVersion m) (hack_Type m) v (hack_InReplyTo m) (hack_SessionID m) (hack_RelayID m) (hack_LifecycleEventsAccepted m) (hack_AuditInputsAccepted m) (hack_DiagnosticsAccepted m));
    field_of "in_reply_to" decode_string hack_InReplyTo
      (λ v m, HelloAck (hack_SchemaVersion m) (hack_Type m) (hack_MessageID m) v (hack_SessionID m) (hack_RelayID m) (hack_LifecycleEventsAccepted m) (hack_AuditInputsAccepted m) (hack_DiagnosticsAccepted m));
    field_of "session_id" decode_string hack_SessionID
      (λ v m, HelloAck (hack_SchemaVersion m) (hack_Type m) (hack_MessageID m) (hack_InReplyTo m) v (hack_RelayID m) (hack_LifecycleEventsAccepted m) (hack_AuditInputsAccepted m) (hack_DiagnosticsAccepted m));
    field_of "relay_id" decode_string hack_RelayID
      (λ v m, HelloAck (hack_SchemaVersion m) (hack_Type m) (hack_MessageID m) (hack_InReplyTo m) (hack_SessionID m) v (hack_LifecycleEventsAccepted m) (hack_AuditInputsAccepted m) (hack_DiagnosticsAccepted m));
    field_of "lifecycle_events_accepted" opt hack_LifecycleEventsAccepted
      (λ v m, HelloAck (hack_SchemaVersion m) (hack_Type m) (hack_MessageID m) (hack_InReplyTo m) (hack_SessionID m) (hack_RelayID m) v (hack_AuditInputsAccepted m) (hack_DiagnosticsAccepted m));
    field_of "audit_inputs_accepted" opt hack_AuditInputsAccepted
      (λ v m, HelloAck (hack_SchemaVersion m) (hack_Type m) (hack_MessageID m) (hack_InReplyTo m) (hack_SessionID m) (hack_RelayID m) (hack_LifecycleEventsAccepted m) v (hack_DiagnosticsAccepted m));
    field_of "diagnostics_accepted" opt hack_DiagnosticsAccepted
      (λ v m, HelloAck (hack_SchemaVersion m) (hack_Type m) (hack_MessageID m) (hack_InReplyTo m) (hack_SessionID m) (hack_RelayID m) (hack_LifecycleEventsAccepted m) (hack_AuditInputsAccepted m) v) ].

Definition zero_envelope : privateControlEnvelope := Envelope "" "" "".

Definition envelope_fields : list (json_field privateControlEnvelope) :=
  [ field_of "schema_version" decode_string env_SchemaVersion
      (λ v m, Envelope v (env_Type m) (env_MessageID m));
    field_of "type" decode_string env_Type
      (λ v m, Envelope (env_SchemaVersion m) v (env_MessageID m));
    field_of "message_id" decode_string env_MessageID
      (λ v m, Envelope (env_SchemaVersion m) (env_Type m) v) ].

Definition ack_fields : list (json_field privateControlAck) :=
  [ field_of "schema_version" decode_string ack_SchemaVersion
      (λ v m, Ack v (ack_Type m) (ack_MessageID m) (ack_InReplyTo m) (ack_Outcome m) (ack_DenyUntil m) (ack_AffectedMembershipCount m) (ack_TalkReleaseCount m));
    field_of "type" decode_string ack_Type
      (λ v m, Ack (ack_SchemaVersion m) v (ack_MessageID m) (ack_InReplyTo m) (ack_Outcome m) (ack_DenyUntil m) (ack_AffectedMembershipCount m) (ack_TalkReleaseCount m));
    field_of "message_id" decode_string ack_MessageID
      (λ v m, Ack (ack_SchemaVersion m) (ack_Type m) v (ack_InReplyTo m) (ack_Outcome m) (ack_DenyUntil m) (ack_AffectedMembershipCount m) (ack_TalkReleaseCount m));
    field_of "in_reply_to" decode_string ack_InReplyTo
      (λ v m, Ack (ack_SchemaVersion m) (ack_Type m) (ack_MessageID m) v (ack_Outcome m) (ack_DenyUntil m) (ack_AffectedMembershipCount m) (ack_TalkReleaseCount m));
    field_of "outcome" decode_string ack_Outcome
      (λ v m, Ack (ack_SchemaVersion m) (ack_Type m) (ack_MessageID m) (ack_InReplyTo m) v (ack_DenyUntil m) (ack_AffectedMembershipCount m) (ack_TalkReleaseCount m));
    field_of "deny_until" decode_int64 ack_DenyUntil
      (λ v m, Ack (ack_SchemaVersion m) (ack_Type m) (ack_MessageID m) (ack_InReplyTo m) (ack_Outcome m) v (ack_AffectedMembershipCount m) (ack_TalkReleaseCount m));
    field_of "affected_membership_count" (decode_uint 32) ack_AffectedMembershipCount
      (λ v m, Ack (ack_SchemaVersion m) (ack_Type m) (ack_MessageID m) (ack_InReplyTo m) (ack_Outcome m) (ack_DenyUntil m) v (ack_TalkReleaseCount m));
    field_of "talk_release_count" (decode_uint 32) ack_TalkReleaseCount
      (λ v m, Ack (ack_SchemaVersion m) (ack_Type m) (ack_MessageID m) (ack_InReplyTo m) (ack_Outcome m) (ack_DenyUntil m) (ack_AffectedMembershipCount m) v) ].

Definition zero_error_message : privateControlError := ControlError "" "" "" "" "".

Definition error_fields : list (json_field privateControlError) :=
  [ field_of "schema_version" decode_string err_SchemaVersion
      (λ v m, ControlError v (err_Type m) (err_MessageID m) (err_InReplyTo m) (err_Code m));
    field_of "type" decode_string err_Type
      (λ v m, ControlError (err_SchemaVersion m) v (err_MessageID m) (err_InReplyTo m) (err_Code m));
    field_of "message_id" decode_string err_MessageID
      (λ v m, ControlError (err_SchemaVersion m) (err_Type m) v (err_InReplyTo m) (err_Code m));
    field_of "in_reply_to" decode_string err_InReplyTo
      (λ v m, ControlError (err_SchemaVersion m) (err_Type m) (err_MessageID m) v (err_Code m));
    field_of "code" decode_string err_Code
      (λ v m, ControlError (err_SchemaVersion m) (err_Type m) (err_MessageID m) (err_InReplyTo m) v) ].

Definition zero_revoke : privateControlRevokeServiceAdmission :=
  RevokeServiceAdmission "" "" "" 0 "" "" "" 0.

Definition revoke_fields : list (json_field privateControlRevokeServiceAdmission) :=
  [ field_of "schema_version" decode_string rev_SchemaVersion
      (λ v m, RevokeServiceAdmission v (rev_Type m) (rev_MessageID m) (rev_ChannelID m) (rev_ServiceID m) (rev_GrantIDHash m) (rev_Reason m) (rev_DenyUntil m));
    field_of "type" decode_string rev_Type
      (λ v m, RevokeServiceAdmission (rev_SchemaVersion m) v (rev_MessageID m) (rev_ChannelID m) (rev_ServiceID m) (rev_GrantIDHash m) (rev_Reason m) (rev_DenyUntil m));
    field_of "message_id" decode_string rev_MessageID
      (λ v m, RevokeServiceAdmission (rev_SchemaVersion m) (rev_Type m) v (rev_ChannelID m) (rev_ServiceID m) (rev_GrantIDHash m) (rev_Reason m) (rev_DenyUntil m));
    field_of "channel_id" (decode_uint 32) rev_ChannelID
      (λ v m, RevokeServiceAdmission (rev_SchemaVersion m) (rev_Type m) (rev_MessageID m) v (rev_ServiceID m) (rev_GrantIDHash m) (rev_Reason m) (rev_DenyUntil m));
    field_of "service_id" decode_string rev_ServiceID
      (λ v m, RevokeServiceAdmission (rev_SchemaVersion m) (rev_Type m) (rev_MessageID m) (rev_ChannelID m) v (rev_GrantIDHash m) (rev_Reason m) (rev_DenyUntil m));
    field_of "grant_id_hash" decode_string rev_GrantIDHash
      (λ v m, RevokeServiceAdmission (rev_SchemaVersion m) (rev_Type m) (rev_MessageID m) (rev_ChannelID m) (rev_ServiceID m) v (rev_Reason m) (rev_DenyUntil m));
    field_of "reason" decode_string rev_Reason
      (λ v m, RevokeServiceAdmission (rev_SchemaVersion m) (rev_Type m) (rev_MessageID m) (rev_ChannelID m) (rev_ServiceID m) (rev_GrantIDHash m) v (rev_DenyUntil m));
    field_of "deny_until" decode_int64 rev_DenyUntil
      (λ v m, RevokeServiceAdmission (rev_SchemaVersion m) (rev_Type m) (rev_MessageID m) (rev_ChannelID m) (rev_ServiceID m) (rev_GrantIDHash m) (rev_Reason m) v) ].

Definition zero_lifecycle_event : privateControlLifecycleEvent :=
  LifecycleEvent "" "" "" "" "" None None None None None None.

Definition lifecycle_event_fields : list (json_field privateControlLifecycleEvent) :=
  let u32 := decode_pointer 0 (decode_uint 32) in
  let str := decode_pointer "" decode_string in
  [ field_of "schema_version" decode_string ev_SchemaVersion
      (λ v m, LifecycleEvent v (ev_Type m) (ev_MessageID m) (ev_OccurredAt m) (ev_EventType m) (ev_ChannelID m) (ev_SenderID m) (ev_ServiceID m) (ev_RecordingJobID m) (ev_State m) (ev_Reason m));
    field_of "type" decode_string ev_Type
      (λ v m, LifecycleEvent (ev_SchemaVersion m) v (ev_MessageID m) (ev_OccurredAt m) (ev_EventType m) (ev_ChannelID m) (ev_SenderID m) (ev_ServiceID m) (ev_RecordingJobID m) (ev_State m) (ev_Reason m));
    field_of "message_id" decode_string ev_MessageID
      (λ v m, LifecycleEvent (ev_SchemaVersion m) (ev_Type m) v (ev_OccurredAt m) (ev_EventType m) (ev_ChannelID m) (ev_SenderID m) (ev_ServiceID m) (ev_RecordingJobID m) (ev_State m) (ev_Reason m));
    field_of "occurred_at" decode_string ev_OccurredAt
      (λ v m, LifecycleEvent (ev_SchemaVersion m) (ev_Type m) (ev_MessageID m) v (ev_EventType m) (ev_ChannelID m) (ev_SenderID m) (ev_ServiceID m) (ev_RecordingJobID m) (ev_State m) (ev_Reason m));
    field_of "event_type" decode_string ev_EventType
      (λ v m, LifecycleEvent (ev_SchemaVersion m) (ev_Type m) (ev_MessageID m) (ev_OccurredAt m) v (ev_ChannelID m) (ev_SenderID m) (ev_ServiceID m) (ev_RecordingJobID m) (ev_State m) (ev_Reason m));
    field_of "channel_id" u32 ev_ChannelID
      (λ v m, LifecycleEvent (ev_SchemaVersion m) (ev_Type m) (ev_MessageID m) (ev_OccurredAt m) (ev_EventType m) v (ev_SenderID m) (ev_ServiceID m) (ev_RecordingJobID m) (ev_State m) (ev_Reason m));
    field_of "sender_id" u32 ev_SenderID
      (λ v m, LifecycleEvent (ev_SchemaVersion m) (ev_Type m) (ev_MessageID m) (ev_OccurredAt m) (ev_EventType m) (ev_ChannelID m) v (ev_ServiceID m) (ev_RecordingJobID m) (ev_State m) (ev_Reason m));
    field_of "service_id" str ev_ServiceID
      (λ v m, LifecycleEvent (ev_SchemaVersion m) (ev_Type m) (ev_MessageID m) (ev_OccurredAt m) (ev_EventType m) (ev_ChannelID m) (ev_SenderID m) v (ev_RecordingJobID m) (ev_State m) (ev_Reason m));
    field_of "recording_job_id" str ev_RecordingJobID
      (λ v m, LifecycleEvent (ev_SchemaVersion m) (ev_Type m) (ev_MessageID m) (ev_OccurredAt m) (ev_EventType m) (ev_ChannelID m) (ev_SenderID m) (ev_ServiceID m) v (ev_State m) (ev_Reason m));
    field_of "state" str ev_State
      (λ v m, LifecycleEvent (ev_SchemaVersion m) (ev_Type m) (ev_MessageID m) (ev_OccurredAt m) (ev_EventType m) (ev_ChannelID m) (ev_SenderID m) (ev_ServiceID m) (ev_RecordingJobID m) v (ev_Reason m));
    field_of "reason" str ev_Reason
      (λ v m, LifecycleEvent (ev_SchemaVersion m) (ev_Type m) (ev_MessageID m) (ev_OccurredAt m) (ev_EventType m) (ev_ChannelID m) (ev_SenderID m) (ev_ServiceID m) (ev_RecordingJobID m) (ev_State m) v) ].

(** *** Snapshots

    Decoding an array into a slice that already holds elements (a second,
    differently cased spelling of a member) decodes into the old elements, so a
    slice under decoding keeps its backing array. *)

Record go_slice (A : Type) := GoSlice { sl_nil : bool; sl_len : nat; sl_backing : list A }.
Arguments GoSlice {A} _ _ _.
Arguments sl_nil {A} _.
Arguments sl_len {A} _.
Arguments sl_backing {A} _.

Definition nil_slice {A} : go_slice A := GoSlice true 0 [].
Definition sl_elements {A} (s : go_slice A) : list A := take (sl_len s) (sl_backing s).

Fixpoint decode_elements {A} (zero : A) (dec : json → A → option A) (vs : list json)
    (backing : list A) : option (list A) :=
  match vs with
  | [] => Some backing
  | v :: vs =>
      a ← dec v (default zero (head backing));
      rest ← decode_elements zero dec vs (tail backing);
      Some (a :: rest)
  end.

Definition decode_slice {A} (zero : A) (dec : json → A → option A) (j : json) (old : go_slice A)
    : option (go_slice A) :=
  match j with
  | JNull => Some nil_slice
  | JArray [] => Some (GoSlice false 0 [])
  | JArray vs => GoSlice false (length vs) <$> decode_elements zero dec vs (sl_backing old)
  | _ => None
  end.

Definition participant_fields : list (json_field privateControlSnapshotParticipant) :=
  [ field_of "sender_id" (decode_uint 32) sp_SenderID (λ v m, SnapshotParticipant v (sp_State m));
    field_of "state" decode_string sp_State (λ v m, SnapshotParticipant (sp_SenderID m) v) ].

(** A channel under decoding. *)
Record channel_target := ChannelTarget {
  ct_ChannelID : Z;
  ct_Participants : go_slice privateControlSnapshotParticipant;
}.

Definition channel_fields : list (json_field channel_target) :=
  [ field_of "channel_id" (decode_uint 32) ct_ChannelID
      (λ v m, ChannelTarget v (ct_Participants m));
    field_of "participants"
      (decode_slice (SnapshotParticipant 0 "") (decode_struct true participant_fields))
      ct_Participants (λ v m, ChannelTarget (ct_ChannelID m) v) ].

(** A snapshot under decoding: the header fields and the channel slice. *)
Record snapshot_target := SnapshotTarget {
  st_header : privateControlRelayStateSnapshot;
  st_Channels : go_slice channel_target;
}.

Definition finish_snapshot (t : snapshot_target) : privateControlRelayStateSnapshot :=
  let h := st_header t in
  RelayStateSnapshot (snap_SchemaVersion h) (snap_Type h) (snap_MessageID h) (snap_InReplyTo h)
    (snap_SnapshotID h) (snap_ChunkIndex h) (snap_ChunkCount h)
    (if sl_nil (st_Channels t) then None
     else Some ((λ c, SnapshotChannel (ct_ChannelID c) (sl_elements (ct_Participants c)))
                  <$> sl_elements (st_Channels t))).

Definition zero_snapshot_target : snapshot_target :=
  SnapshotTarget (RelayStateSnapshot "" "" "" "" "" 0 0 None) nil_slice.

Definition header_field {A} (name : string) (dec : json → A → option A)
    (get : privateControlRelayStateSnapshot → A)
    (set : A → privateControlRelayStateSnapshot → privateControlRelayStateSnapshot)
    : json_field snapshot_target :=
  field_of name dec (λ t, get (st_header t))
    (λ v t, SnapshotTarget (set v (st_header t)) (st_Channels t)).

Definition snapshot_fields : list (json_field snapshot_target) :=
  [ header_field "schema_version" decode_string snap_SchemaVersion
      (λ v m, RelayStateSnapshot v (snap_Type m) (snap_MessageID m) (snap_InReplyTo m) (snap_SnapshotID m) (snap_ChunkIndex m) (snap_ChunkCount m) (snap_Channels m));
    header_field "type" decode_string snap_Type
      (λ v m, RelayStateSnapshot (snap_SchemaVersion m) v (snap_MessageID m) (snap_InReplyTo m) (snap_SnapshotID m) (snap_ChunkIndex m) (snap_ChunkCount m) (snap_Channels m));
    header_field "message_id" decode_string snap_MessageID
      (λ v m, RelayStateSnapshot (snap_SchemaVersion m) (snap_Type m) v (snap_InReplyTo m) (snap_SnapshotID m) (snap_ChunkIndex m) (snap_ChunkCount m) (snap_Channels m));
    header_field "in_reply_to" decode_string snap_InReplyTo
      (λ v m, RelayStateSnapshot (snap_SchemaVersion m) (snap_Type m) (snap_MessageID m) v (snap_SnapshotID m) (snap_ChunkIndex m) (snap_ChunkCount m) (snap_Channels m));
    header_field "snapshot_id" decode_string snap_SnapshotID
      (λ v m, RelayStateSnapshot (snap_SchemaVersion m) (snap_Type m) (snap_MessageID m) (snap_InReplyTo m) v (snap_ChunkIndex m) (snap_ChunkCount m) (snap_Channels m));
    header_field "chunk_index" (decode_uint 16) snap_ChunkIndex
      (λ v m, RelayStateSnapshot (snap_SchemaVersion m) (snap_Type m) (snap_MessageID m) (snap_InReplyTo m) (snap_SnapshotID m) v (snap_ChunkCount m) (snap_Channels m));
    header_field "chunk_count" (decode_uint 16) snap_ChunkCount
      (λ v m, RelayStateSnapshot (snap_SchemaVersion m) (snap_Type m) (snap_MessageID m) (snap_InReplyTo m) (snap_SnapshotID m) (snap_ChunkIndex m) v (snap_Channels m));
    field_of "channels"
      (decode_slice (ChannelTarget 0 nil_slice) (decode_struct true channel_fields))
      st_Channels (λ v t, SnapshotTarget (st_header t) v) ].

(** *** The decoders *)

Definition decode_hello_ack := decodePrivateControlJSON hello_ack_fields zero_hello_ack.
Definition decode_lifecycle_event := decodePrivateControlJSON lifecycle_event_fields zero_lifecycle_event.
Definition decode_ack := decodePrivateControlJSON ack_fields zero_ack.
Definition decode_control_error := decodePrivateControlJSON error_fields zero_error_message.
Definition decode_snapshot (raw : string) : result privateControlRelayStateSnapshot :=
  try t <- decodePrivateControlJSON snapshot_fields zero_snapshot_target raw;
  Ok (finish_snapshot t).

(** [decodePrivateControlEnvelope(raw)]: unknown members are allowed. *)
Definition decodePrivateControlEnvelope (raw : string) : result privateControlEnvelope :=
  try j <- parse_document raw;
  try envelope <- type_checked (decode_struct false envelope_fields j zero_envelope);
  reject negb (String.eqb (env_SchemaVersion envelope) privateControlSchemaVersion) ||
         String.eqb (env_Type envelope) "" || negb (validPrivateControlID (env_MessageID envelope))
    with Errorf "invalid Private Control Link message envelope" [];
  Ok envelope.

Close Scope Z_scope.
