(* ===== verification/Typing.v ===== *)
(** * Decoded values have their Go types

    The decoders take a current value to a new one.  A decoder that keeps a
    property of its target keeps it through pointers, slices and structs, so
    every integer that a message, a store file or a request body can carry
    into the service fits the width of its Go field. *)

From S2P Require Export Wire.

Open Scope Z_scope.

(** Decoding keeps [P]. *)
Definition dec_typed {A} (P : A → Prop) (dec : json → A → option A) : Prop :=
  ∀ j old a, P old → dec j old = Some a → P a.

Definition field_typed {T} (P : T → Prop) (f : json_field T) : Prop := dec_typed P (jf_decode f).

(** ** Scalars *)

Lemma decode_any_typed {A} (dec : json → A → option A) : dec_typed (λ _, True) dec.
Proof. done. Qed.

Lemma decode_uint_typed bits : dec_typed (λ v, 0 ≤ v < 2 ^ bits) (decode_uint bits).
Proof. intros [] old a Hold; simpl; try done; [by intros [= <-]|]. by intros ?%ParseUint_range. Qed.

Lemma ParseInt_range s v : ParseInt s = Some v → is_i64 v.
Proof.
  unfold ParseInt, is_i64. destruct (match s with String _ _ => _ | _ => _ end) as [neg body].
  destruct (ParseUint body 64) as [u|] eqn:E; [|done]. apply ParseUint_range in E.
  destruct neg; (destruct (_ : bool) eqn:Hb; [|done]); intros [= <-]; go_bool; lia.
Qed.

Lemma decode_int64_typed : dec_typed is_i64 decode_int64.
Proof. intros [] old a Hold; simpl; try done; [by intros [= <-]|]. apply ParseInt_range. Qed.

(** ** Pointers, slices, structs *)

Lemma decode_pointer_typed {A} (P : A → Prop) zero dec :
  dec_typed P dec → P zero → dec_typed (λ o, ∀ a, o = Some a → P a) (decode_pointer zero dec).
Proof.
  intros Hdec Hz j old o Hold Ho a ->.
  assert (P (default zero old)) as Hd by (destruct old; simpl; auto).
  destruct j; simpl in Ho; [done|..]; (apply fmap_Some in Ho as (a' & Ha & [= ->]); by eapply Hdec).
Qed.

Lemma decode_elements_typed {A} (P : A → Prop) zero dec vs backing l :
  P zero → dec_typed P dec → Forall P backing → decode_elements zero dec vs backing = Some l → Forall P l.
Proof.
  intros Hz Hdec. revert backing l. induction vs as [|v vs IH]; intros backing l Hb; simpl;
    [by intros [= <-]|].
  intros (a & Ha & (rest & Hrest & [= <-])%bind_Some)%bind_Some.
  constructor; [|eapply IH; [|exact Hrest]]; destruct Hb; simpl in *; eauto.
Qed.

Lemma decode_slice_typed {A} (P : A → Prop) zero dec :
  dec_typed P dec → P zero → dec_typed (λ s, Forall P (sl_backing s)) (decode_slice zero dec).
Proof.
  intros Hdec Hz [| | | |vs|] old sl Hold; try done; [by intros [= <-]|].
  destruct vs as [|v vs]; [by intros [= <-]|]. unfold decode_slice.
  intros (l & Hl & ->)%fmap_Some. by eapply decode_elements_typed.
Qed.

Lemma sl_elements_typed {A} (P : A → Prop) s : Forall P (sl_backing s) → Forall P (sl_elements s).
Proof. apply Forall_take. Qed.

Lemma field_of_typed {T A} (P : T → Prop) (Q : A → Prop) name dec (get : T → A) set :
  dec_typed Q dec → (∀ t, P t → Q (get t)) → (∀ a t, Q a → P t → P (set a t)) →
  field_typed P (field_of name dec get set).
Proof.
  intros Hdec Hget Hset j t t' Ht. intros (a & Ha & ->)%fmap_Some. apply Hset; [|done].
  eapply Hdec; [|exact Ha]. auto.
Qed.

Lemma find_field_elem {T} (fields : list (json_field T)) key f : find_field fields key = Some f → f ∈ fields.
Proof.
  unfold find_field. destruct (list_find _ fields) as [[i g]|] eqn:E.
  - intros [= <-]. apply list_find_Some in E as (? & _). by eapply list_elem_of_lookup_2.
  - intros ([j g] & (? & _)%list_find_Some & ->)%fmap_Some. by eapply list_elem_of_lookup_2.
Qed.

Lemma decode_struct_typed {T} (P : T → Prop) strict fields :
  Forall (field_typed P) fields → dec_typed P (decode_struct strict fields).
Proof.
  intros Hf [| | | | |members] old t Hold; simpl; try done; [by intros [= <-]|].
  rewrite Forall_forall in Hf. revert old Hold. induction members as [|[key v] rest IH]; intros old Hold;
    simpl; [by intros [= <-]|].
  destruct (find_field fields key) as [f|] eqn:E.
  - intros (t' & Ht' & H)%bind_Some. eapply IH; [|exact H]. eapply Hf; [|done|exact Ht'].
    by eapply find_field_elem.
  - destruct strict; [done|]. by apply IH.
Qed.

Lemma decodePrivateControlJSON_typed {T} (P : T → Prop) fields zero raw t :
  Forall (field_typed P) fields → P zero → decodePrivateControlJSON fields zero raw = Ok t → P t.
Proof.
  unfold decodePrivateControlJSON. intros Hf Hz H. apply result_bind_ok in H as (_ & _ & H).
  apply result_bind_ok in H as ([j rest] & _ & H). apply result_bind_ok in H as (t' & Ht & H).
  apply result_bind_ok in H as (_ & _ & H). apply (inj Ok) in H as <-.
  destruct (decode_struct true fields j zero) as [t''|] eqn:E; [|done]. apply (inj Ok) in Ht as ->.
  by eapply decode_struct_typed.
Qed.

(** [decode_typed] finds the type of a field's decoder, and [fields_typed]
    closes [Forall (field_typed P) fields]: each field has its own type, or none
    when [P] says nothing of it, and the others are unchanged. *)
Ltac decode_typed :=
  lazymatch goal with
  | |- dec_typed _ (decode_uint _) => apply decode_uint_typed
  | |- dec_typed _ decode_int64 => apply decode_int64_typed
  | |- dec_typed _ (decode_pointer _ _) => apply decode_pointer_typed; [decode_typed|done]
  | |- dec_typed _ (decode_slice _ _) => apply decode_slice_typed; [decode_typed|done]
  | |- dec_typed _ (decode_struct _ _) => apply decode_struct_typed; eassumption
  | |- _ => apply decode_any_typed
  end.

Ltac fields_typed :=
  repeat first [apply Forall_nil_2
    |apply Forall_cons_2; [eapply field_of_typed; [decode_typed|naive_solver|naive_solver]|]
    |apply Forall_cons_2; [apply (field_of_typed _ (λ _, True)); [done|done|naive_solver]|]].

(** ** Messages *)

Definition event_ints (e : privateControlLifecycleEvent) : Prop :=
  (∀ c, ev_ChannelID e = Some c → is_u32 c) ∧ (∀ s, ev_SenderID e = Some s → is_u32 s).

Definition ack_ints (m : privateControlAck) : Prop :=
  is_i64 (ack_DenyUntil m) ∧ is_u32 (ack_AffectedMembershipCount m) ∧ is_u32 (ack_TalkReleaseCount m).

(** The integer fields of a command are in range. *)
Definition revoke_ints (m : privateControlRevokeServiceAdmission) : Prop :=
  is_u32 (rev_ChannelID m) ∧ is_i64 (rev_DenyUntil m).

Definition participant_ints (p : privateControlSnapshotParticipant) : Prop := is_u32 (sp_SenderID p).
Definition channel_ints (c : privateControlSnapshotChannel) : Prop :=
  is_u32 (sc_ChannelID c) ∧ Forall participant_ints (sc_Participants c).
Definition snapshot_ints (m : privateControlRelayStateSnapshot) : Prop :=
  is_u16 (snap_ChunkIndex m) ∧ is_u16 (snap_ChunkCount m) ∧ Forall channel_ints (default [] (snap_Channels m)).

Definition channel_target_ints (t : channel_target) : Prop :=
  is_u32 (ct_ChannelID t) ∧ Forall participant_ints (sl_backing (ct_Participants t)).
Definition snapshot_target_ints (t : snapshot_target) : Prop :=
  is_u16 (snap_ChunkIndex (st_header t)) ∧ is_u16 (snap_ChunkCount (st_header t)) ∧
  Forall channel_target_ints (sl_backing (st_Channels t)).

Lemma event_fields_typed : Forall (field_typed event_ints) lifecycle_event_fields.
Proof. unfold lifecycle_event_fields, event_ints, is_u32. fields_typed. Qed.

Lemma ack_fields_typed : Forall (field_typed ack_ints) ack_fields.
Proof. unfold ack_ints, revoke_ints, is_u32. fields_typed. Qed.

Lemma revoke_fields_typed : Forall (field_typed revoke_ints) revoke_fields.
Proof. unfold ack_ints, revoke_ints, is_u32. fields_typed. Qed.

Lemma participant_fields_typed : Forall (field_typed participant_ints) participant_fields.
Proof. unfold participant_ints, is_u32. fields_typed. Qed.

Lemma channel_fields_typed : Forall (field_typed channel_target_ints) channel_fields.
Proof.
  pose proof participant_fields_typed. unfold channel_target_ints, is_u32. fields_typed.
Qed.

Lemma zero_snapshot_target_ints : snapshot_target_ints zero_snapshot_target.
Proof. split; [done|split; [done|constructor]]. Qed.

Lemma snapshot_fields_typed : Forall (field_typed snapshot_target_ints) snapshot_fields.
Proof.
  pose proof channel_fields_typed.
  assert (channel_target_ints (ChannelTarget 0 nil_slice)) by (split; [done|constructor]).
  unfold snapshot_fields, header_field, snapshot_target_ints, is_u16. fields_typed.
Qed.

Lemma finish_snapshot_ints t : snapshot_target_ints t → snapshot_ints (finish_snapshot t).
Proof.
  intros (Hi & Hc & Hcs). split; [exact Hi|split; [exact Hc|]]. unfold finish_snapshot. simpl.
  destruct (sl_nil (st_Channels t)); [constructor|]. simpl. apply Forall_fmap.
  apply sl_elements_typed in Hcs. eapply Forall_impl; [exact Hcs|].
  intros c [? ?]. split; [done|]. by apply sl_elements_typed.
Qed.

Lemma decode_snapshot_ints raw m : decode_snapshot raw = Ok m → snapshot_ints m.
Proof.
  unfold decode_snapshot. intros H. apply result_bind_ok in H as (t & Ht & H). apply (inj Ok) in H as <-.
  apply finish_snapshot_ints. eapply decodePrivateControlJSON_typed; [|apply zero_snapshot_target_ints|exact Ht].
  apply snapshot_fields_typed.
Qed.

Lemma decode_lifecycle_event_ints raw e : decode_lifecycle_event raw = Ok e → event_ints e.
Proof. apply decodePrivateControlJSON_typed; [apply event_fields_typed|done]. Qed.

Lemma decode_ack_ints raw m : decode_ack raw = Ok m → ack_ints m.
Proof. apply decodePrivateControlJSON_typed; [apply ack_fields_typed|done]. Qed.

Close Scope Z_scope.
