(* ===== verification/DuplicateCheck.v ===== *)
(** * The duplicate-member check

    [validatePrivateControlJSON] walks the tokens of a payload.  On a payload
    that parses, the walk accepts exactly the documents in which no object
    repeats a member name (and whose numbers fit a float64, the type of a
    number token): the theorems relate the token walk to the parsed tree. *)

From S2P Require Export Wire JsonTermination.

Open Scope Z_scope.

(** ** Specification *)

(** No object of the document repeats a member, and every number is a finite
    float64. *)
Fixpoint json_unique (j : json) : bool :=
  match j with
  | JNumber n => float64_in_range n
  | JArray vs => forallb json_unique vs
  | JObject ms => bool_decide (NoDup ms.*1) && forallb (λ '(_, v), json_unique v) ms
  | _ => true
  end.

(** The names of [ms] are distinct and outside [seen]. *)
Fixpoint keys_fresh (seen : gset string) (ms : list (string * json)) : bool :=
  match ms with
  | [] => true
  | (k, _) :: ms => negb (bool_decide (k ∈ seen)) && keys_fresh ({[k]} ∪ seen) ms
  end.

Lemma keys_fresh_spec seen ms :
  keys_fresh seen ms = true ↔ NoDup ms.*1 ∧ ∀ k, k ∈ ms.*1 → k ∉ seen.
Proof.
  revert seen. induction ms as [|[k v] ms IH]; intros seen; simpl.
  { split; [|done]. split; [constructor|set_solver]. }
  rewrite andb_true_iff, negb_true_iff, bool_decide_eq_false, IH, NoDup_cons. set_solver.
Qed.

Lemma keys_fresh_NoDup ms : keys_fresh ∅ ms = bool_decide (NoDup ms.*1).
Proof.
  apply eq_true_iff_eq. rewrite keys_fresh_spec, bool_decide_eq_true. set_solver.
Qed.

(** A walk that accepts or not. *)
Definition scan_result (accept : bool) (d : json_decoder) (r : result json_decoder) : Prop :=
  if accept then r = Ok d else ∃ e, r = Err e.

(** ** Tokens *)

Lemma starts_with_Some v s r :
  starts_with v s = Some r → ∃ c, s = String c r ∧ byte_val c = v.
Proof.
  destruct s as [|c s]; [done|]. simpl. destruct (byte_val c =? v) eqn:E; [|done].
  intros [= ->]. go_bool. eauto.
Qed.

Lemma starts_with_None v c r : starts_with v (String c r) = None → byte_val c ≠ v.
Proof. simpl. destruct (byte_val c =? v) eqn:E; [done|]. by go_bool. Qed.

(** The first byte of a scalar. *)
Lemma scan_scalar_head c r x :
  scan_scalar (String c r) = Some x →
  byte_val c ≠ 44 ∧ byte_val c ≠ 58 ∧ byte_val c ≠ 93 ∧ byte_val c ≠ 125.
Proof.
  intros H. split_and!; intros E; unfold scan_scalar, scan_number, scan_integer in H;
    repeat (rewrite E in H; simpl in H); unfold is_digit, byte_in in H;
    repeat (rewrite E in H; simpl in H); done.
Qed.

Lemma scan_scalar_kind s j r :
  scan_scalar s = Some (j, r) → (∀ vs, j ≠ JArray vs) ∧ (∀ ms, j ≠ JObject ms).
Proof.
  unfold scan_scalar. destruct s as [|c s]; [done|]. intros H.
  repeat case_match; try (destruct (scan_quoted _) as [[? ?]|]); try (destruct (expect _ _));
    try (destruct (scan_number _) as [[? ?]|]); by simplify_eq/=.
Qed.

Lemma token_open_object n s r st stack :
  starts_with 123 (skip_space s) = Some r → tokenValueAllowed st = true →
  token_loop (S n) (Decoder s st stack) = Ok (TokOpenObject, Decoder r ObjectStart (st :: stack)).
Proof. intros (c & E & Hc)%starts_with_Some Hst. simpl. rewrite E, Hc. simpl. by rewrite Hst. Qed.

Lemma token_open_array n s r st stack :
  starts_with 91 (skip_space s) = Some r → tokenValueAllowed st = true →
  token_loop (S n) (Decoder s st stack) = Ok (TokOpenArray, Decoder r ArrayStart (st :: stack)).
Proof. intros (c & E & Hc)%starts_with_Some Hst. simpl. rewrite E, Hc. simpl. by rewrite Hst. Qed.

Lemma token_close_object n s r st outer stack :
  starts_with 125 (skip_space s) = Some r → st = ObjectStart ∨ st = ObjectComma →
  token_loop (S n) (Decoder s st (outer :: stack)) =
  Ok (TokCloseObject, Decoder r (tokenValueEnd outer) stack).
Proof.
  intros (c & E & Hc)%starts_with_Some Hst. simpl. rewrite E, Hc. simpl.
  by rewrite bool_decide_eq_true_2.
Qed.

Lemma token_close_array n s r st outer stack :
  starts_with 93 (skip_space s) = Some r → st = ArrayStart ∨ st = ArrayComma →
  token_loop (S n) (Decoder s st (outer :: stack)) =
  Ok (TokCloseArray, Decoder r (tokenValueEnd outer) stack).
Proof.
  intros (c & E & Hc)%starts_with_Some Hst. simpl. rewrite E, Hc. simpl.
  by rewrite bool_decide_eq_true_2.
Qed.

Lemma scan_quoted_head s x : scan_quoted s = Some x → ∃ c r, s = String c r ∧ byte_val c = 34.
Proof.
  destruct s as [|c s]; [done|]. simpl. destruct (byte_val c =? 34) eqn:E; [|done].
  go_bool. eauto.
Qed.

#[local] Arguments scan_quoted : simpl never.

Lemma token_key n s k r st stack :
  scan_quoted (skip_space s) = Some (k, r) → st = ObjectStart ∨ st = ObjectKey →
  token_loop (S n) (Decoder s st stack) = Ok (TokString k, Decoder r ObjectColon stack).
Proof.
  intros Hq Hst. destruct (scan_quoted_head _ _ Hq) as (c & t & E & Hc).
  cbn [token_loop dec_input dec_state dec_stack]. rewrite E in *. rewrite Hc. simpl.
  rewrite bool_decide_eq_true_2 by done. simpl. by rewrite Hq.
Qed.

Lemma token_scalar n s j r st stack :
  starts_with 123 (skip_space s) = None → starts_with 91 (skip_space s) = None →
  scan_scalar (skip_space s) = Some (j, r) → tokenValueAllowed st = true →
  token_loop (S n) (Decoder s st stack) =
  result_bind (scalar_token j) (λ tok, Ok (tok, Decoder r (tokenValueEnd st) stack)).
Proof.
  intros H1 H2 Hs Hst. cbn [token_loop dec_input dec_state dec_stack].
  destruct (skip_space s) as [|c t]; [done|].
  apply starts_with_None in H1, H2. destruct (scan_scalar_head _ _ _ Hs) as (? & ? & ? & ?).
  rewrite !(proj2 (Z.eqb_neq (byte_val c) _)) by done.
  rewrite (bool_decide_eq_false_2 (st = ObjectStart ∨ st = ObjectKey)) by (by destruct st; intros []).
  by rewrite andb_false_r, Hst, Hs.
Qed.

(** A separator is consumed together with the token after it. *)
Lemma token_separator d s :
  (starts_with 44 (skip_space (dec_input d)) = Some s ∧
     (dec_state d = ArrayComma ∨ dec_state d = ObjectComma)) ∨
  (starts_with 58 (skip_space (dec_input d)) = Some s ∧ dec_state d = ObjectColon) →
  ∃ n, decoder_Token d =
    token_loop (S n) (Decoder s (match dec_state d with
                                 | ArrayComma => ArrayValue
                                 | ObjectComma => ObjectKey
                                 | _ => ObjectValue
                                 end) (dec_stack d)).
Proof.
  intros H. destruct d as [[|a t] st stack]; [by destruct H as [[? _]|[? _]]|].
  cbn [dec_input dec_state dec_stack] in *.
  exists (String.length t). unfold decoder_Token.
  cbn [token_loop dec_input dec_state dec_stack String.length].
  destruct H as [[H Hst]|[H ->]]; apply starts_with_Some in H as (c & -> & Hc); rewrite Hc; simpl.
  - by destruct Hst as [-> | ->].
  - done.
Qed.

Lemma decoder_More_true d :
  skip_space (dec_input d) ≠ "" →
  starts_with 93 (skip_space (dec_input d)) = None →
  starts_with 125 (skip_space (dec_input d)) = None → decoder_More d = true.
Proof.
  unfold decoder_More. destruct (skip_space (dec_input d)) as [|c r]; [done|].
  intros _ H1%starts_with_None H2%starts_with_None. by rewrite !(proj2 (Z.eqb_neq _ _)).
Qed.

Lemma decoder_More_false d v r :
  starts_with v (skip_space (dec_input d)) = Some r → v = 93 ∨ v = 125 → decoder_More d = false.
Proof.
  unfold decoder_More. intros (c & -> & Hc)%starts_with_Some [-> | ->]; by rewrite Hc.
Qed.

Lemma decoder_More_separator d r :
  starts_with 44 (skip_space (dec_input d)) = Some r → decoder_More d = true.
Proof. unfold decoder_More. intros (c & -> & Hc)%starts_with_Some. by rewrite Hc. Qed.

(** ** The walk follows the parser *)

(** The next token of [d] is the first one of [s] in the state [st]. *)
Definition next_token_of (d : json_decoder) (s : string) (st : token_state)
    (stack : list token_state) : Prop :=
  ∃ n, decoder_Token d = token_loop (S n) (Decoder s st stack).

Definition walk_value (n : nat) : Prop :=
  ∀ depth s j rest f d st stack,
    parse_value n depth s = Some (j, rest) → (n < f)%nat →
    next_token_of d s st stack → tokenValueAllowed st = true →
    scan_result (json_unique j) (Decoder rest (tokenValueEnd st) stack)
      (scanPrivateControlJSONValue f d).

Definition walk_members (n : nat) : Prop :=
  ∀ depth s ms rest f seen d st outer stack,
    parse_members n depth s = Some (ms, rest) → (n < f)%nat →
    next_token_of d s st (outer :: stack) → st = ObjectStart ∨ st = ObjectKey →
    decoder_More d = true →
    scan_result (keys_fresh seen ms && forallb (λ '(_, v), json_unique v) ms)
      (Decoder rest (tokenValueEnd outer) stack) (scan_object f seen d).

Definition walk_elements (n : nat) : Prop :=
  ∀ depth s vs rest f d st outer stack,
    parse_elements n depth s = Some (vs, rest) → (n < f)%nat →
    next_token_of d s st (outer :: stack) → st = ArrayStart ∨ st = ArrayValue →
    decoder_More d = true →
    scan_result (forallb json_unique vs)
      (Decoder rest (tokenValueEnd outer) stack) (scan_array f d).

Lemma scan_result_bind a b d1 d r k :
  scan_result a d1 r → scan_result b d (k d1) → scan_result (a && b) d (result_bind r k).
Proof.
  destruct a; simpl.
  - by intros ->.
  - intros [e ->] _. by exists e.
Qed.

(** Closing an empty container. *)
Lemma walk_close_object f seen s st outer stack rest :
  starts_with 125 (skip_space s) = Some rest → st = ObjectStart ∨ st = ObjectComma → (0 < f)%nat →
  scan_object f seen (Decoder s st (outer :: stack)) = Ok (Decoder rest (tokenValueEnd outer) stack).
Proof.
  intros Hc Hst Hf. destruct f as [|f]; [lia|]. cbn [scan_object].
  rewrite (decoder_More_false _ 125 rest) by auto. unfold decoder_Token.
  by rewrite (token_close_object _ _ rest).
Qed.

Lemma walk_close_array f s st outer stack rest :
  starts_with 93 (skip_space s) = Some rest → st = ArrayStart ∨ st = ArrayComma → (0 < f)%nat →
  scan_array f (Decoder s st (outer :: stack)) = Ok (Decoder rest (tokenValueEnd outer) stack).
Proof.
  intros Hc Hst Hf. destruct f as [|f]; [lia|]. cbn [scan_array].
  rewrite (decoder_More_false _ 93 rest) by auto. unfold decoder_Token.
  by rewrite (token_close_array _ _ rest).
Qed.

Lemma next_token_self s st stack : next_token_of (Decoder s st stack) s st stack.
Proof. by exists (String.length s). Qed.

Lemma walk_elements_step n : walk_value n → walk_elements n → walk_elements (S n).
Proof.
  intros IHv IHe depth s vs rest f d st outer stack Hp Hf Hd Hst Hmore.
  destruct f as [|f]; [lia|]. cbn [parse_elements scan_array] in *. rewrite Hmore.
  destruct (parse_value n depth s) as [[v s1]|] eqn:Ev; [|done]. cbn [mbind option_bind] in Hp.
  assert (Hv := IHv _ _ _ _ f d st (outer :: stack) Ev ltac:(lia) Hd ltac:(by destruct Hst as [-> | ->])).
  assert (tokenValueEnd st = ArrayComma) as Hend by (by destruct Hst as [-> | ->]). rewrite Hend in Hv.
  destruct (starts_with 44 (skip_space s1)) as [s2|] eqn:Ec.
  - destruct (parse_elements n depth s2) as [[vs' r]|] eqn:Ee; simplify_eq/=.
    eapply scan_result_bind; [exact Hv|].
    eapply (IHe _ s2 vs' rest f _ ArrayValue outer stack); [done|lia| |auto|].
    + apply token_separator. left. simpl. auto.
    + by apply (decoder_More_separator _ s2).
  - destruct (starts_with 93 (skip_space s1)) as [s2|] eqn:Eb; simplify_eq/=.
    eapply scan_result_bind; [exact Hv|]. by apply walk_close_array; [|auto|lia].
Qed.

Lemma walk_members_step n : walk_value n → walk_members n → walk_members (S n).
Proof.
  intros IHv IHm depth s ms rest f seen d st outer stack Hp Hf [m Hd] Hst Hmore.
  destruct f as [|f]; [lia|]. cbn [parse_members scan_object] in *. rewrite Hmore.
  destruct (scan_quoted (skip_space s)) as [[k s1]|] eqn:Ek; [|done].
  cbn [mbind option_bind] in Hp.
  destruct (starts_with 58 (skip_space s1)) as [s2|] eqn:Es; [|done].
  cbn [mbind option_bind] in Hp.
  destruct (parse_value n depth s2) as [[v s3]|] eqn:Ev; [|done]. cbn [mbind option_bind] in Hp.
  rewrite Hd, (token_key _ _ k s1) by done. cbn [result_bind].
  assert (∃ ms', ms = (k, v) :: ms') as [ms' ->].
  { destruct (starts_with 44 _); [destruct (parse_members _ _ _) as [[? ?]|]|
      destruct (starts_with 125 _)]; simplify_eq/=; eauto. }
  cbn [keys_fresh forallb]. case_bool_decide as Hseen; [by eexists|]. cbn [negb andb].
  assert (Hv := IHv _ _ _ _ f (Decoder s1 ObjectColon (outer :: stack)) ObjectValue (outer :: stack)
                  Ev ltac:(lia) (token_separator (Decoder s1 ObjectColon (outer :: stack)) s2
                                   (or_intror (conj Es eq_refl))) eq_refl).
  rewrite andb_comm, <-andb_assoc, (andb_comm (forallb _ _)).
  eapply scan_result_bind; [exact Hv|]. simpl tokenValueEnd.
  destruct (starts_with 44 (skip_space s3)) as [s4|] eqn:Ec.
  - destruct (parse_members n depth s4) as [[ms2 r]|] eqn:Ee; simplify_eq/=.
    eapply (IHm _ s4 ms' rest f _ _ ObjectKey outer stack); [done|lia| |auto|].
    + apply (token_separator (Decoder s3 ObjectComma (outer :: stack))). left. simpl. auto.
    + by apply (decoder_More_separator _ s4).
  - destruct (starts_with 125 (skip_space s3)) as [s4|] eqn:Eb; simplify_eq/=.
    by apply walk_close_object; [|auto|lia].
Qed.

Lemma parse_value_head n depth s x :
  parse_value n depth s = Some x →
  skip_space s ≠ "" ∧ starts_with 93 (skip_space s) = None ∧ starts_with 125 (skip_space s) = None.
Proof.
  destruct n as [|n]; [done|]. cbn [parse_value]. intros H.
  destruct (starts_with 123 (skip_space s)) as [r|] eqn:E1.
  { apply starts_with_Some in E1 as (c & -> & Hc). simpl. by rewrite Hc. }
  destruct (starts_with 91 (skip_space s)) as [r|] eqn:E2.
  { apply starts_with_Some in E2 as (c & -> & Hc). simpl. by rewrite Hc. }
  destruct (skip_space s) as [|c r]; [done|]. apply scan_scalar_head in H as (_ & _ & H1 & H2).
  simpl. by rewrite !(proj2 (Z.eqb_neq _ _)).
Qed.

Lemma decoder_More_value n depth s x st stack :
  parse_value n depth s = Some x → decoder_More (Decoder s st stack) = true.
Proof. intros (? & ? & ?)%parse_value_head. by apply decoder_More_true. Qed.

Lemma walk_scalar f d s j rest st stack :
  starts_with 123 (skip_space s) = None → starts_with 91 (skip_space s) = None →
  scan_scalar (skip_space s) = Some (j, rest) → (0 < f)%nat →
  next_token_of d s st stack → tokenValueAllowed st = true →
  scan_result (json_unique j) (Decoder rest (tokenValueEnd st) stack)
    (scanPrivateControlJSONValue f d).
Proof.
  intros H1 H2 Hs Hf [m Hd] Hst. destruct f as [|f]; [lia|].
  destruct (scan_scalar_kind _ _ _ Hs) as [Ha Ho].
  cbn [scanPrivateControlJSONValue]. rewrite Hd, (token_scalar _ _ j rest) by done.
  destruct j as [|b|x|x|vs|ms]; simpl; try done.
  - destruct (float64_in_range x); simpl; [done|by eexists].
  - by destruct (Ha vs).
  - by destruct (Ho ms).
Qed.

Lemma walk_value_step n : walk_members n → walk_elements n → walk_value (S n).
Proof.
  intros IHm IHe depth s j rest f d st stack Hp Hf Hd Hst. cbn [parse_value] in Hp.
  destruct (starts_with 123 (skip_space s)) as [r|] eqn:E1;
    [|destruct (starts_with 91 (skip_space s)) as [r|] eqn:E2; [|by eapply (walk_scalar f d s); eauto with lia]].
  all: destruct f as [|f]; [lia|]; destruct Hd as [m Hd];
    cbn [scanPrivateControlJSONValue]; rewrite Hd; clear Hd;
    destruct (max_nesting_depth <=? depth); [done|].
  - rewrite (token_open_object _ _ r) by done. cbn [result_bind].
    destruct (starts_with 125 (skip_space r)) as [r'|] eqn:Ec.
    + simplify_eq/=. apply walk_close_object; [done|auto|lia].
    + destruct (parse_members n (depth + 1) r) as [[ms r']|] eqn:Em; simplify_eq/=.
      rewrite <-keys_fresh_NoDup.
      eapply (IHm _ r ms rest f ∅ _ ObjectStart st stack); [done|lia|apply next_token_self|auto|].
      destruct n as [|n]; [done|]. cbn [parse_members] in Em. unfold decoder_More. simpl.
      destruct (scan_quoted (skip_space r)) eqn:Eq; [|done].
      destruct (scan_quoted_head _ _ Eq) as (c & t & -> & ->). done.
  - rewrite (token_open_array _ _ r) by done. cbn [result_bind].
    destruct (starts_with 93 (skip_space r)) as [r'|] eqn:Ec.
    + simplify_eq/=. apply walk_close_array; [done|auto|lia].
    + destruct (parse_elements n (depth + 1) r) as [[vs r']|] eqn:Em; simplify_eq/=.
      eapply (IHe _ r vs rest f _ ArrayStart st stack); [done|lia|apply next_token_self|auto|].
      destruct n as [|n]; [done|]. cbn [parse_elements] in Em.
      destruct (parse_value n (depth + 1) r) eqn:Ev; [|done]. by eapply decoder_More_value.
Qed.

Lemma walk_all n : walk_value n ∧ walk_members n ∧ walk_elements n.
Proof.
  induction n as [|n (IHv & IHm & IHe)].
  - split_and!; intros ??; intros; done.
  - split_and!; [by apply walk_value_step|by apply walk_members_step|by apply walk_elements_step].
Qed.

Lemma requireJSONEOF_spec rest stack :
  requireJSONEOF (Decoder rest TopValue stack) = Ok tt ↔ skip_space rest = "".
Proof.
  unfold requireJSONEOF, decoder_Token. cbn [token_loop dec_input dec_state dec_stack].
  destruct (skip_space rest) as [|c r]; [done|]. split; [|done].
  assert (token_error ≠ ErrEOF ∧ json_syntax_error ≠ ErrEOF ∧ json_type_error ≠ ErrEOF) as (? & ? & ?) by done.
  repeat case_match; simplify_eq/=; try done.
  unfold scalar_token in *. repeat case_match; simplify_eq/=; done.
Qed.

(** On a payload whose first value parses, the check is the duplicate test. *)
Lemma validate_parsed raw j rest :
  parse_value (parse_fuel raw) 0 raw = Some (j, rest) →
  validatePrivateControlJSON raw = Ok tt ↔
  utf8_Valid raw = true ∧ json_unique j = true ∧ skip_space rest = "".
Proof.
  intros Hp. unfold validatePrivateControlJSON.
  destruct (utf8_Valid raw); cbn [negb]; [|split; [done|by intros []]].
  pose proof (proj1 (walk_all _) 0 raw j rest (S (parse_fuel raw)) (newDecoder raw) TopValue []
    Hp ltac:(lia) (next_token_self _ _ _) eq_refl) as Hw. unfold scan_result in Hw.
  destruct (json_unique j).
  - rewrite Hw. cbn [result_bind]. rewrite requireJSONEOF_spec. naive_solver.
  - destruct Hw as [e ->]. simpl. split; [done|by intros (_ & ? & _)].
Qed.

Lemma decode_next_Ok raw j rest :
  decode_next raw = Ok (j, rest) ↔ parse_value (parse_fuel raw) 0 raw = Some (j, rest).
Proof.
  unfold decode_next. split.
  - destruct (String.eqb _ _); [done|]. destruct (parse_value _ _ _); by intros [= ->].
  - intros Hp. destruct (parse_value_head _ _ _ _ Hp) as (Hne & _).
    rewrite (proj2 (String.eqb_neq _ _) Hne). by rewrite Hp.
Qed.

Lemma parse_document_Ok raw j :
  parse_document raw = Ok j ↔
  ∃ rest, parse_value (parse_fuel raw) 0 raw = Some (j, rest) ∧ skip_space rest = "".
Proof.
  unfold parse_document. destruct (parse_value _ _ _) as [[j' rest]|].
  - destruct (String.eqb (skip_space rest) "") eqn:E; go_bool; naive_solver.
  - naive_solver.
Qed.

Lemma type_checked_Ok {A} (o : option A) a : type_checked o = Ok a ↔ o = Some a.
Proof. destruct o; naive_solver. Qed.

(** ** Properties *)

(** C20: strict decoding.  [decodePrivateControlJSON] succeeds exactly on valid
    UTF-8 holding one JSON document, in which no object at any depth repeats a
    member name, whose members are all known and of the declared types; the
    target is then that document's. *)
Theorem strict_decoding_exact {T} (fields : list (json_field T)) zero raw t :
  decodePrivateControlJSON fields zero raw = Ok t ↔
  ∃ j, utf8_Valid raw = true ∧ json_document raw j ∧ json_unique j = true ∧
       decode_struct true fields j zero = Some t.
Proof.
  setoid_rewrite <-parse_document_exact. unfold decodePrivateControlJSON. split.
  - intros ([] & Hv & H)%result_bind_ok.
    apply result_bind_ok in H as ([j rest] & Hp & H1). rewrite decode_next_Ok in Hp.
    apply result_bind_ok in H1 as (t' & Ht & H2). rewrite type_checked_Ok in Ht.
    apply result_bind_ok in H2 as (_ & _ & [= ->]).
    destruct (proj1 (validate_parsed _ _ _ Hp) Hv) as (Hu & Hj & Hrest). exists j.
    split_and!; [done| |done|done]. apply parse_document_Ok. eauto.
  - intros (j & Hu & (rest & Hp & Hrest)%parse_document_Ok & Hj & Hd).
    rewrite (proj2 (validate_parsed _ _ _ Hp)) by done. cbn [result_bind].
    rewrite (proj2 (decode_next_Ok _ _ _) Hp). cbn [result_bind]. rewrite Hd. cbn [type_checked result_bind].
    unfold newDecoder. by rewrite (proj2 (requireJSONEOF_spec rest [])) by done.
Qed.

(** A repeated member is refused wherever it is. *)
Example nested_duplicate :
  is_ok (validatePrivateControlJSON
    (print_json (JObject [("a", JArray [JObject [("b", JNull); ("b", JNull)]])]))) = false.
Proof. vm_compute. reflexivity. Qed.

Close Scope Z_scope.
