(* ===== verification/Framing.v ===== *)
(** * Frames

    [writePrivateControlFrame] and [readPrivateControlFrame] are inverse over
    any writer that keeps the [io.Writer] contract, partial writes included,
    and the write loop delivers exactly what it reports. *)

From S2P Require Export DuplicateCheck JsonRoundTrip.

Open Scope Z_scope.

(** ** What the encoder writes is valid UTF-8 *)

Lemma utf8_Valid_chunk s n chunk t :
  rune_size s = Some n → split_at n s = (chunk, t) → utf8_Valid s = utf8_Valid t.
Proof.
  destruct s as [|a s]; [done|]. unfold utf8_Valid. cbn [fold_runes]. intros E Hs. rewrite E.
  assert (Hn : (n = 1 ∨ n = 2 ∨ n = 3 ∨ n = 4)%nat ∧ (n ≤ S (String.length s))%nat).
  { unfold rune_size in E. repeat case_match; simplify_eq/=; (split; lia). }
  destruct Hn as [[-> | [-> | [-> | ->]]] Hlen]; simpl in Hlen.
  - by injection Hs as _ <-.
  - destruct s as [|b s]; simpl in Hlen; [lia|]. by injection Hs as _ <-.
  - destruct s as [|b [|c s]]; simpl in Hlen; [lia|lia|]. by injection Hs as _ <-.
  - destruct s as [|b [|c [|d s]]]; simpl in Hlen; [lia|lia|lia|]. by injection Hs as _ <-.
Qed.

Lemma utf8_Valid_app a b :
  utf8_Valid a = true → utf8_Valid b = true → utf8_Valid (a +:+ b) = true.
Proof.
  intros Ha Hb. remember (String.length a) as n eqn:Hn.
  revert a Ha Hn. induction (lt_wf n) as [n _ IH]. intros [|c a] Ha ->; [done|].
  destruct (utf8_head c a Ha) as (k & chunk & r & Hsize & Hsplit & Hr & Hne & _).
  pose proof (split_at_app _ _ _ _ Hsplit) as Happ. rewrite Happ, string_app_assoc.
  destruct (rune_size_chunk _ _ _ _ (r +:+ b) Hsize Hsplit) as [Hsize' Hsplit'].
  rewrite (utf8_Valid_chunk _ _ _ _ Hsize' Hsplit').
  apply (IH (String.length r)); [|done|done].
  rewrite Happ, string_app_length. destruct chunk; [done|]. simpl. lia.
Qed.

Lemma utf8_Valid_ascii s : string_forallb (byte_in 0 127) s = true → utf8_Valid s = true.
Proof.
  induction s as [|c s IH]; [done|]. simpl. rewrite andb_true_iff. intros [Hc Hs].
  rewrite (utf8_Valid_chunk (String c s) 1 (String c "") s); [by apply IH| |done].
  simpl. by rewrite Hc.
Qed.

Lemma utf8_Valid_quote_ascii c : byte_in 0 127 c = true → utf8_Valid (quote_ascii c) = true.
Proof. destruct c as [[] [] [] [] [] [] [] []]; intros H; solve [discriminate H|reflexivity]. Qed.

Lemma utf8_Valid_single s n chunk t :
  rune_size s = Some n → split_at n s = (chunk, t) → utf8_Valid chunk = true.
Proof.
  intros H1 H2. destruct (rune_size_chunk _ _ _ _ "" H1 H2) as [H3 H4].
  rewrite string_app_empty_r in H3, H4. by rewrite (utf8_Valid_chunk _ _ _ _ H3 H4).
Qed.

Lemma utf8_Valid_quote_body n s : utf8_Valid (quote_body n s) = true.
Proof.
  revert s. induction n as [|n IH]; intros s; [done|]. destruct s as [|a s]; [done|].
  cbn [quote_body]. destruct (byte_in 0 127 a) eqn:Ha.
  { apply utf8_Valid_app; [by apply utf8_Valid_quote_ascii|apply IH]. }
  destruct (rune_size (String a s)) as [k|] eqn:Hk; [|by apply utf8_Valid_app].
  destruct (split_at k (String a s)) as [chunk r] eqn:Hs.
  apply utf8_Valid_app; [|apply IH].
  destruct (String.eqb chunk _); [done|]. destruct (String.eqb chunk _); [done|].
  by eapply utf8_Valid_single.
Qed.

Lemma utf8_Valid_quote_string s : utf8_Valid (quote_string s) = true.
Proof. unfold quote_string. repeat apply utf8_Valid_app; [done|apply utf8_Valid_quote_body|done]. Qed.

Lemma utf8_Valid_join l :
  Forall (λ s, utf8_Valid s = true) l → utf8_Valid (join_comma l) = true.
Proof.
  induction 1 as [|x l Hx Hl IH]; [done|]. destruct l as [|y l]; [done|].
  rewrite join_comma_cons. by repeat apply utf8_Valid_app.
Qed.

Lemma utf8_Valid_print d j : json_wf d j → utf8_Valid (print_json j) = true.
Proof.
  revert d. induction j as [|b|n|s|vs IH|ms IH] using json_ind_nested; intros d Hwf.
  - done.
  - by destruct b.
  - inversion Hwf as [| |d' z Hz| | |]; subst.
    simpl. apply utf8_Valid_ascii. destruct (FormatInt_spec z) as (_ & Hd & _); [done|].
    eapply string_forallb_impl; [|exact Hd]. unfold is_digit, byte_in. intros c Hc. go_bool.
    apply andb_true_iff. rewrite !Z.leb_le. lia.
  - apply utf8_Valid_quote_string.
  - inversion Hwf as [| | | |d' vs' Hd Hvs|]; subst.
    cbn [print_json]. repeat apply utf8_Valid_app; [done| |done]. apply utf8_Valid_join.
    apply Forall_fmap. rewrite Forall_forall in *. unfold compose. eauto.
  - inversion Hwf as [| | | | |d' ms' Hd Hms]; subst.
    rewrite print_object. repeat apply utf8_Valid_app; [done| |done]. apply utf8_Valid_join.
    apply Forall_fmap. rewrite Forall_forall in *. intros [k v] Hm. unfold compose, print_member.
    apply utf8_Valid_app; [apply utf8_Valid_quote_string|]. apply utf8_Valid_app; [done|].
    apply (IH _ Hm (d - 1)), (Hms _ Hm).
Qed.

(** A marshalled document without repeated members passes the check. *)
Lemma validate_print j :
  json_wf max_nesting_depth j → json_unique j = true →
  validatePrivateControlJSON (print_json j) = Ok tt.
Proof.
  intros Hwf Hj. pose proof (parse_document_print j Hwf) as Hp.
  apply parse_document_Ok in Hp as (rest & Hp & Hrest).
  apply (validate_parsed _ _ _ Hp). eauto using utf8_Valid_print.
Qed.

(** ** Length prefixes *)

Lemma BigEndian_len v : len (BigEndian_PutUint32 v) = 4.
Proof. reflexivity. Qed.

Lemma four_bytes b :
  len b = 4 → ∃ b0 b1 b2 b3, b = String b0 (String b1 (String b2 (String b3 ""))).
Proof.
  unfold len. destruct b as [|b0 [|b1 [|b2 [|b3 [|b4 b]]]]]; simpl; intros Hl; try lia. eauto.
Qed.

Lemma BigEndian_value b0 b1 b2 b3 :
  BigEndian_Uint32 (String b0 (String b1 (String b2 (String b3 "")))) =
  ((byte_val b0 * 256 + byte_val b1) * 256 + byte_val b2) * 256 + byte_val b3.
Proof. reflexivity. Qed.

Lemma BigEndian_round_trip v : is_u32 v → BigEndian_Uint32 (BigEndian_PutUint32 v) = v.
Proof.
  unfold is_u32. intros Hv. unfold BigEndian_PutUint32, byte_string. simpl.
  rewrite BigEndian_value, !byte_val_of by (apply Z.mod_pos_bound; lia).
  Z.to_euclidean_division_equations. lia.
Qed.

Lemma split_at_exact s t : split_at (Z.to_nat (len s)) (s +:+ t) = (s, t).
Proof.
  unfold len. rewrite Nat2Z.id. induction s as [|c s IH]; [done|].
  rewrite string_app_cons. simpl. by rewrite IH.
Qed.

Lemma ReadFull_exact s t : s ≠ "" → ReadFull (len s) (s +:+ t) = Ok (s, t).
Proof.
  intros Hs. unfold ReadFull.
  assert (0 < len s) by (destruct s; [done|unfold len; simpl; lia]).
  rewrite (proj2 (Z.eqb_neq _ _)) by lia.
  rewrite (proj2 (String.eqb_neq _ _)) by (destruct s; done).
  rewrite len_app. rewrite (proj2 (Z.ltb_ge _ _)) by (unfold len; lia).
  by rewrite split_at_exact.
Qed.

Lemma split_at_length n s :
  (n ≤ String.length s)%nat →
  s = (split_at n s).1 +:+ (split_at n s).2 ∧ String.length (split_at n s).1 = n.
Proof.
  revert s. induction n as [|n IH]; intros s Hn; [done|].
  destruct s as [|c s]; simpl in *; [lia|].
  destruct (IH s ltac:(lia)) as [Happ Hlen]. destruct (split_at n s) as [a b]; simpl in *.
  split; [by rewrite Happ|lia].
Qed.

Lemma ReadFull_Ok n stream p rest :
  0 ≤ n → ReadFull n stream = Ok (p, rest) → stream = p +:+ rest ∧ len p = n.
Proof.
  intros Hn. unfold ReadFull. destruct (n =? 0) eqn:E0; go_bool.
  { intros [= <- <-]. by rewrite E0. }
  destruct (String.eqb stream ""); [done|]. destruct (len stream <? n) eqn:El; [done|]. go_bool.
  unfold len in El. destruct (split_at_length (Z.to_nat n) stream) as [Happ Hlen]; [lia|].
  intros [= Hs]. rewrite Hs in *. simpl in *. split; [done|]. unfold len. lia.
Qed.

Lemma BigEndian_range b : len b = 4 → is_u32 (BigEndian_Uint32 b).
Proof.
  intros (b0 & b1 & b2 & b3 & ->)%four_bytes. rewrite BigEndian_value. unfold is_u32.
  pose proof (byte_val_range b0). pose proof (byte_val_range b1).
  pose proof (byte_val_range b2). pose proof (byte_val_range b3). lia.
Qed.

Lemma BigEndian_canonical b : len b = 4 → BigEndian_PutUint32 (BigEndian_Uint32 b) = b.
Proof.
  intros (b0 & b1 & b2 & b3 & ->)%four_bytes. rewrite BigEndian_value.
  pose proof (byte_val_range b0). pose proof (byte_val_range b1).
  pose proof (byte_val_range b2). pose proof (byte_val_range b3).
  unfold BigEndian_PutUint32, byte_string. simpl.
  assert (Hb : ∀ x b, x = byte_val b → byte_of x = b) by (intros x b ->; apply byte_of_val).
  repeat f_equal; apply Hb; Z.to_euclidean_division_equations; lia.
Qed.

(** The bytes of a frame. *)
Definition frame_bytes (payload : string) : string :=
  BigEndian_PutUint32 (len payload) +:+ payload.

Definition frame_size_ok (payload : string) : Prop := 2 ≤ len payload ≤ privateControlMaxFrameBytes.

Lemma read_frame_bytes payload rest :
  frame_size_ok payload → validatePrivateControlJSON payload = Ok tt →
  readPrivateControlFrame (frame_bytes payload +:+ rest) = Ok (payload, rest).
Proof.
  unfold frame_size_ok, privateControlMaxFrameBytes. intros Hlen Hv.
  unfold readPrivateControlFrame, frame_bytes. rewrite string_app_assoc.
  rewrite <-(BigEndian_len (len payload)) at 1. rewrite ReadFull_exact by done. cbn [result_bind].
  rewrite BigEndian_round_trip by (unfold is_u32; lia).
  unfold privateControlMaxFrameBytes.
  rewrite (proj2 (Z.ltb_ge _ _)), (proj2 (Z.ltb_ge _ _)) by lia. cbn [reject_if orb].
  rewrite ReadFull_exact by (destruct payload; done). cbn [result_bind]. by rewrite Hv.
Qed.

Lemma read_frame_inversion stream payload rest :
  readPrivateControlFrame stream = Ok (payload, rest) →
  stream = frame_bytes payload +:+ rest ∧ frame_size_ok payload ∧
  validatePrivateControlJSON payload = Ok tt.
Proof.
  unfold readPrivateControlFrame. intros H.
  apply result_bind_ok in H as ([lb s1] & H1 & H). apply reject_if_ok in H as [Hsize H].
  apply result_bind_ok in H as ([p s2] & H2 & H).
  apply result_bind_ok in H as ([] & H3 & [= -> ->]). apply map_err_ok in H3.
  apply ReadFull_Ok in H1 as [-> Hlb]; [|done]. pose proof (BigEndian_range lb Hlb) as Hr.
  apply ReadFull_Ok in H2 as [-> Hp]; [|unfold is_u32 in Hr; lia]. go_bool.
  unfold frame_bytes, frame_size_ok. rewrite Hp, BigEndian_canonical, string_app_assoc by done.
  split_and!; [done|lia|lia|done].
Qed.

(** ** Writers *)

Section writer.
Context {W : Type} (Write : W → string → W * (Z * option error)) (delivered : W → string).

(** [io.Writer]: the count is within the payload, and that prefix went out. *)
Definition writer_contract : Prop :=
  ∀ w p, let '(w', (n, _)) := Write w p in
    0 ≤ n ≤ len p ∧ delivered w' = delivered w +:+ (split_at (Z.to_nat n) p).1.

(** A writer that does not fail and makes progress. *)
Definition writer_steady : Prop :=
  ∀ w p, p ≠ "" → ∃ w' n, Write w p = (w', (n, None)) ∧ 0 < n.

(** What a write of [p] did: a prefix went out, all of it on success. *)
Definition wrote (w w' : W) (p : string) (err : option error) : Prop :=
  ∃ q r, p = q +:+ r ∧ delivered w' = delivered w +:+ q ∧ (err = None → r = "").

Lemma wrote_nothing w p e : wrote w w p (Some e).
Proof. exists "", p. split; [done|]. split; [by rewrite string_app_empty_r|done]. Qed.

Lemma wrote_all w : wrote w w "" None.
Proof. exists "", "". split_and!; [done|by rewrite string_app_empty_r|done]. Qed.

Lemma write_loop_spec fuel w p :
  writer_contract → (String.length p ≤ fuel)%nat →
  ∃ w' err, write_loop Write fuel w p = Some (w', err) ∧ wrote w w' p err ∧
    (writer_steady → err = None).
Proof.
  intros Hc. revert w p. induction fuel as [|fuel IH]; intros w p Hlen;
    cbn [write_loop]; (destruct (String.eqb p "") eqn:Ep; go_bool;
      [exists w, None; split_and!; [done|subst; apply wrote_all|done]|]).
  { destruct p; simpl in *; [done|lia]. }
  pose proof (Hc w p) as Hw. destruct (Write w p) as [w1 [n err]] eqn:EW.
  destruct Hw as [Hn Hd].
  destruct (split_at_length (Z.to_nat n) p) as [Happ Hl]; [unfold len in Hn; lia|].
  destruct (split_at (Z.to_nat n) p) as [a b] eqn:Es; simpl in Happ, Hl, Hd.
  destruct err as [e|].
  { exists w1, (Some e). split_and!; [done|by exists a, b|].
    intros Hst. destruct (Hst w p Ep) as (? & ? & ? & _). congruence. }
  destruct (n <=? 0) eqn:E0; go_bool.
  { exists w1, (Some ErrShortWrite). split_and!; [done|by exists a, b|].
    intros Hst. destruct (Hst w p Ep) as (? & ? & [= <- <-]%(eq_trans (eq_sym EW)) & ?). lia. }
  rewrite (proj2 (Z.ltb_ge _ _)) by lia. simpl.
  destruct (IH w1 b) as (w' & err & Hrun & (q & r & -> & Hq & Herr) & Hst).
  { apply (f_equal String.length) in Happ. rewrite string_app_length in Happ. lia. }
  exists w', err. split_and!; [done| |done]. exists (a +:+ q), r.
  split_and!; [by rewrite string_app_assoc|by rewrite Hq, Hd, string_app_assoc|done].
Qed.

Lemma write_bytes_spec w p :
  writer_contract →
  ∃ w' err, writePrivateControlBytes Write w p = Some (w', err) ∧ wrote w w' p err ∧
    (writer_steady → err = None).
Proof. intros Hc. by apply write_loop_spec. Qed.

Lemma write_frame_spec w value :
  writer_contract →
  ∃ w' err, writePrivateControlFrame Write w value = Some (w', err) ∧
    wrote w w' (frame_bytes (print_json value)) err ∧
    (err = None → frame_size_ok (print_json value)) ∧
    (frame_size_ok (print_json value) → writer_steady → err = None).
Proof.
  intros Hc. unfold writePrivateControlFrame, frame_size_ok, frame_bytes.
  set (payload := print_json value). destruct (_ || _) eqn:Esize.
  { eexists w, _. split_and!; [done|apply wrote_nothing|done|].
    intros. apply orb_true_iff in Esize as [?%Z.ltb_lt|?%Z.ltb_lt]; lia. }
  go_bool. destruct (write_bytes_spec w (BigEndian_PutUint32 (len payload)) Hc)
    as (w1 & err1 & -> & (q1 & r1 & Hp1 & Hd1 & He1) & Hst1). cbn [mbind option_bind].
  destruct err1 as [e|].
  { exists w1, (Some e). split_and!; [done| |done|intros _ Hst; by specialize (Hst1 Hst)].
    exists q1, (r1 +:+ payload). by rewrite Hp1, string_app_assoc. }
  destruct (write_bytes_spec w1 payload Hc) as (w2 & err2 & Hrun & (q2 & r2 & Hp2 & Hd2 & He2) & Hst2).
  exists w2, err2. split_and!; [done| |done|done]. rewrite He1, string_app_empty_r in Hp1 by done.
  exists (q1 +:+ q2), r2.
  split_and!; [by rewrite Hp1, Hp2 at 1; rewrite string_app_assoc| |done].
  by rewrite Hd2, Hd1, string_app_assoc.
Qed.
End writer.

(** ** Properties *)

(** Reading a frame.  A read succeeds exactly when the stream begins with
    a big-endian length from 2 to 65536, that many bytes, and those bytes pass
    the UTF-8 and duplicate-member check; it returns them and leaves exactly
    what follows. *)
Theorem read_frame_exact stream payload rest :
  readPrivateControlFrame stream = Ok (payload, rest) ↔
  stream = frame_bytes payload +:+ rest ∧ frame_size_ok payload ∧
  validatePrivateControlJSON payload = Ok tt.
Proof.
  split; [apply read_frame_inversion|intros (-> & ? & ?); by apply read_frame_bytes].
Qed.

(** C35: frame round trip.  Over a writer that keeps the [io.Writer] contract,
    [writePrivateControlFrame] never panics and puts a prefix of the frame on
    the wire; on success all of it, and the peer's read of the stream returns
    the marshalled message and leaves the rest.  It does succeed when the
    payload has an admissible size and the writer makes progress without
    errors, however it splits the payload. *)
Theorem frame_round_trip {W} (Write : W → string → W * (Z * option error)) (delivered : W → string)
    w value rest :
  writer_contract Write delivered → json_wf max_nesting_depth value → json_unique value = true →
  ∃ w' err, writePrivateControlFrame Write w value = Some (w', err) ∧
    wrote delivered w w' (frame_bytes (print_json value)) err ∧
    (err = None → delivered w' = delivered w +:+ frame_bytes (print_json value) ∧
       readPrivateControlFrame (frame_bytes (print_json value) +:+ rest) =
       Ok (print_json value, rest)) ∧
    (frame_size_ok (print_json value) → writer_steady Write → err = None).
Proof.
  intros Hc Hwf Hu.
  destruct (write_frame_spec Write delivered w value Hc) as (w' & err & Hrun & Hw & Hsize & Hst).
  exists w', err. split_and!; [done|done| |done]. intros ->. destruct Hw as (q & r & Hq & Hd & Hr).
  rewrite Hr, string_app_empty_r in Hq by done. split; [by rewrite Hq|].
  apply read_frame_bytes; [auto|by apply validate_print].
Qed.

(** A writer that takes at most [n] bytes of each payload. *)
Definition chunked_write (n : nat) (w : string) (p : string) : string * (Z * option error) :=
  let k := Nat.min n (String.length p) in (w +:+ (split_at k p).1, (Z.of_nat k, None)).

Lemma chunked_write_contract n : writer_contract (chunked_write n) id.
Proof.
  intros w p. unfold chunked_write. cbv zeta. split; [unfold len; lia|]. by rewrite Nat2Z.id.
Qed.

Lemma chunked_write_steady n : (0 < n)%nat → writer_steady (chunked_write n).
Proof.
  intros Hn w p Hp. eexists _, _. split; [reflexivity|]. destruct p; [done|]. simpl. lia.
Qed.

Definition example_hello : json :=
  get_snapshot_json (GetRelayStateSnapshot privateControlSchemaVersion "get_relay_state_snapshot"
    "AAAAAAAAAAAAAAAAAAAAAA").

Lemma frame_round_trip_witness :
  ∃ w', writePrivateControlFrame (chunked_write 3) "" example_hello = Some (w', None) ∧
    readPrivateControlFrame (frame_bytes (print_json example_hello) +:+ "rest") =
    Ok (print_json example_hello, "rest").
Proof.
  destruct (frame_round_trip (chunked_write 3) id "" example_hello "rest") as (w' & err & H1 & _ & H2 & H3).
  - apply chunked_write_contract.
  - repeat constructor.
  - reflexivity.
  - assert (err = None) as ->.
    { apply H3; [split; apply Z.leb_le; reflexivity|]. apply chunked_write_steady. lia. }
    exists w'. split; [exact H1|]. apply H2. reflexivity.
Defined.

Close Scope Z_scope.
