(* ===== verification/Outbox.v ===== *)
(** * The command store

    [private_control_outbox.go]: the pending revocations on disk.  The file
    system is explicit: every system call of [persist] is a step that may
    fail, and a power loss may happen between any two of them.  A directory
    entry is [live] (what the running process sees) and [durable] (what
    survives once the directory is synced); file data survives once the file
    is synced.  The directory of the store is a file of its parent: one that
    [os.MkdirAll] made is not there for good, since nothing syncs the parent. *)

From S2P Require Export Typing JsonRoundTrip GoTime.

Open Scope Z_scope.

(** ** The file system *)

Record file := File { f_data : string; f_synced : bool }.

(** The directory of the store: none, made since the last start of the machine
    and not known to survive a power loss, or there for good. *)
Inductive directory := DirMissing | DirFresh | DirDurable.

#[global] Instance directory_eq_dec : EqDecision directory.
Proof. solve_decision. Defined.

Record filesystem := Files {
  fs_live : gmap string file;
  fs_durable : gmap string file;
  fs_dir : directory;
}.

(** An empty directory that was there before. *)
Definition no_files : filesystem := Files ∅ ∅ DirDurable.

Inductive fs_call :=
| FsStat | FsReadFile | FsMkdirAll | FsCreateTemp | FsChmod | FsWrite | FsSync | FsClose
| FsRemoveTarget | FsRename | FsOpenDir | FsSyncDir | FsCloseDir | FsRemoveTemp.

#[global] Instance fs_call_eq_dec : EqDecision fs_call.
Proof. solve_decision. Defined.

(** What the operating system decides for one [persist]: which calls fail,
    the name [os.CreateTemp] picks, what a failing write leaves in the file,
    and the platform. *)
Record fs_env := FsEnv {
  fault : fs_call → option error;
  temp_name : string;
  torn : string;
  windows : bool;
}.

Definition no_faults : fs_call → option error := λ _, None.

Definition set_live (name : string) (f : file) (fs : filesystem) : filesystem :=
  Files (<[name := f]> (fs_live fs)) (fs_durable fs) (fs_dir fs).
Definition remove_live (name : string) (fs : filesystem) : filesystem :=
  Files (delete name (fs_live fs)) (fs_durable fs) (fs_dir fs).
Definition sync_file (name : string) (fs : filesystem) : filesystem :=
  Files (alter (λ f, File (f_data f) true) name (fs_live fs)) (fs_durable fs) (fs_dir fs).
Definition rename (old new : string) (fs : filesystem) : filesystem :=
  match fs_live fs !! old with
  | Some f => Files (<[new := f]> (delete old (fs_live fs))) (fs_durable fs) (fs_dir fs)
  | None => fs
  end.
Definition sync_dir (fs : filesystem) : filesystem := Files (fs_live fs) (fs_live fs) (fs_dir fs).
(** [os.MkdirAll(directory, 0o700)] *)
Definition make_dir (fs : filesystem) : filesystem :=
  Files (fs_live fs) (fs_durable fs) (match fs_dir fs with DirMissing => DirFresh | d => d end).

(** What a power loss may leave under [name]: the entry is the live or the
    durable one, data that was not synced is arbitrary, and a directory that
    is not there for good may be gone. *)
Inductive survives (fs : filesystem) (name : string) : option string → Prop :=
| survives_entry (entry : option file) (data : option string) :
    entry = fs_live fs !! name ∨ entry = fs_durable fs !! name →
    (∀ f, entry = Some f → f_synced f = true → data = Some (f_data f)) →
    (entry = None → data = None) → survives fs name data
| survives_gone : fs_dir fs ≠ DirDurable → survives fs name None.

Lemma survives_some fs name : ∃ data, survives fs name data.
Proof.
  exists (f_data <$> fs_live fs !! name). eapply survives_entry; [by left|..].
  - by intros f -> _.
  - by intros ->.
Qed.

(** ** Steps *)

(** A system call: its effect when it succeeds, what is left when it fails,
    the errors that are ignored, and the wrapping of the others. *)
Record fs_step := FsStep {
  step_call : fs_call;
  step_done : filesystem → filesystem;
  step_torn : filesystem → filesystem;
  step_ignores : error → bool;
  step_message : string;
}.

Definition plain_step (call : fs_call) (effect : filesystem → filesystem) (message : string) : fs_step :=
  FsStep call effect id (λ _, false) message.

(** Run steps until one fails.  The first component lists the file systems
    reached, in order. *)
Fixpoint run_steps (faults : fs_call → option error) (steps : list fs_step) (fs : filesystem)
    : list filesystem * (filesystem * option error) :=
  match steps with
  | [] => ([], (fs, None))
  | step :: steps =>
      let '(fs', failed) :=
        match faults (step_call step) with
        | None => (step_done step fs, None)
        | Some e => if step_ignores step e then (fs, None) else (step_torn step fs, Some e)
        end in
      match failed with
      | Some e => ([fs'], (fs', Some (Wrapf (step_message step) [] e)))
      | None => let '(trace, outcome) := run_steps faults steps fs' in (fs' :: trace, outcome)
      end
  end.

(** ** Encoding *)

Definition privateControlCommandStoreVersion : Z := 1.

(** [json.Marshal(privateControlPersistedCommands{...})] *)
Definition store_json (commands : list privateControlRevokeServiceAdmission) : json :=
  JObject [("version", jnum privateControlCommandStoreVersion);
           ("commands", JArray (revoke_json <$> commands))].

Definition newline : string := byte_string [10].

Definition store_bytes (commands : list privateControlRevokeServiceAdmission) : string :=
  print_json (store_json commands) +:+ newline.

Definition sort_commands : list privateControlRevokeServiceAdmission →
    list privateControlRevokeServiceAdmission :=
  sort_by rev_MessageID String.le.

(** ** persist *)

(** The calls before [defer os.Remove(temporaryName)]. *)
Definition persist_open (env : fs_env) : list fs_step :=
  [ plain_step FsMkdirAll make_dir "create Private Control Link command-store directory: %w";
    plain_step FsCreateTemp (set_live (temp_name env) (File "" false))
      "create Private Control Link command-store temp file: %w" ].

(** The calls after it, up to the return. *)
Definition persist_replace (env : fs_env) (filename data : string) : list fs_step :=
  [ plain_step FsChmod id "restrict Private Control Link command-store permissions: %w";
    FsStep FsWrite (set_live (temp_name env) (File data false))
      (set_live (temp_name env) (File (torn env) false)) (λ _, false)
      "write Private Control Link command store: %w";
    plain_step FsSync (sync_file (temp_name env)) "sync Private Control Link command store: %w";
    plain_step FsClose id "close Private Control Link command store: %w" ] ++
  (if windows env then
     [ FsStep FsRemoveTarget (remove_live filename) id (λ e, errors_Is e ErrNotExist)
         "replace Private Control Link command store: %w" ]
   else []) ++
  [ plain_step FsRename (rename (temp_name env) filename)
      "commit Private Control Link command store: %w" ] ++
  (if windows env then []
   else
     [ plain_step FsOpenDir id "open Private Control Link command-store directory: %w";
       plain_step FsSyncDir sync_dir "sync Private Control Link command-store directory: %w";
       plain_step FsCloseDir id "close Private Control Link command-store directory: %w" ]).

(** The deferred removal; its error is dropped. *)
Definition remove_temp (env : fs_env) (fs : filesystem) : filesystem :=
  match fault env FsRemoveTemp with
  | None => remove_live (temp_name env) fs
  | Some _ => fs
  end.

(** [s.persist(pending)] on the sorted messages of [pending] *)
Definition persist (env : fs_env) (filename : string)
    (messages : list privateControlRevokeServiceAdmission) (fs : filesystem)
    : list filesystem * (filesystem * option error) :=
  let data := store_bytes (sort_commands messages) in
  let '(trace1, (fs1, err1)) := run_steps (fault env) (persist_open env) fs in
  match err1 with
  | Some e => (trace1, (fs1, Some e))
  | None =>
      let '(trace2, (fs2, err2)) := run_steps (fault env) (persist_replace env filename data) fs1 in
      let fs3 := remove_temp env fs2 in
      (trace1 ++ trace2 ++ [fs3], (fs3, err2))
  end.

(** ** load *)

Record privateControlPersistedCommands := PersistedCommands {
  pers_Version : Z;
  pers_Commands : go_slice privateControlRevokeServiceAdmission;
}.

(** [int] on a 64-bit platform *)
Definition persisted_fields : list (json_field privateControlPersistedCommands) :=
  [ field_of "version" decode_int64 pers_Version (λ v m, PersistedCommands v (pers_Commands m));
    field_of "commands" (decode_slice zero_revoke (decode_struct true revoke_fields))
      pers_Commands (λ v m, PersistedCommands (pers_Version m) v) ].

Definition zero_persisted : privateControlPersistedCommands := PersistedCommands 0 nil_slice.

Definition privateControlMaxPendingCommands_bytes : Z := privateControlMaxPendingCommands * 1024.

(** [errors.Is(decoder.Decode(&struct{}{}), io.EOF)] *)
Definition at_EOF (rest : string) : bool :=
  match decode_next rest with Err e => errors_Is e ErrEOF | Ok _ => false end.

(** Decode the file's contents. *)
Definition load_data (data : string) : result (list privateControlRevokeServiceAdmission) :=
  try (j, rest) <- map_err (Wrapf "decode Private Control Link command store: %w" []) (decode_next data);
  try stored <- map_err (Wrapf "decode Private Control Link command store: %w" [])
                  (type_checked (decode_struct true persisted_fields j zero_persisted));
  reject negb (at_EOF rest)
    with Errorf "Private Control Link command store must contain one JSON object" [];
  reject negb (pers_Version stored =? privateControlCommandStoreVersion) ||
         sl_nil (pers_Commands stored)
    with Errorf "Private Control Link command store has an unsupported format" [];
  Ok (sl_elements (pers_Commands stored)).

(** [s.load()] *)
Definition load (env : fs_env) (filename : string) (fs : filesystem)
    : result (list privateControlRevokeServiceAdmission) :=
  match fault env FsStat, fs_live fs !! filename with
  | Some e, _ => if errors_Is e ErrNotExist then Ok []
                 else Err (Wrapf "stat Private Control Link command store: %w" [] e)
  | None, None => Ok []
  | None, Some f =>
      if privateControlMaxPendingCommands_bytes <? len (f_data f)
      then Err (Errorf "Private Control Link command store is too large" [])
      else match fault env FsReadFile with
           | Some e => Err (Wrapf "read Private Control Link command store: %w" [] e)
           | None => load_data (f_data f)
           end
  end.

(** ** Encoding round trip *)

(** A command as the program builds it: valid, with the widths of its type. *)
Definition revocation_wf (m : privateControlRevokeServiceAdmission) : Prop :=
  validPrivateControlRevocation m = true ∧ is_u32 (rev_ChannelID m) ∧ is_i64 (rev_DenyUntil m).

Lemma ParseInt_FormatInt z : 0 ≤ z < 2 ^ 63 → ParseInt (FormatInt z) = Some z.
Proof.
  intros Hz. pose proof (ParseUint_FormatInt z 64 ltac:(lia)) as Hp.
  unfold ParseInt. destruct (FormatInt z) as [|c d] eqn:E; [by destruct (proj1 (FormatInt_spec z ltac:(lia)))|].
  pose proof (FormatInt_head z c d ltac:(lia) E) as Hc.
  assert (∀ x, byte_val x < 48 → Ascii.eqb c x = false) as Hne.
  { intros x Hx. apply Ascii.eqb_neq. intros ->. lia. }
  rewrite !Hne by done. rewrite Hp. by rewrite (proj2 (Z.ltb_lt _ _)) by lia.
Qed.

#[local] Arguments ParseUint : simpl never.
#[local] Arguments ParseInt : simpl never.
#[local] Arguments FormatInt : simpl never.

Lemma decode_revoke_json m :
  is_u32 (rev_ChannelID m) → 0 ≤ rev_DenyUntil m < 2 ^ 63 →
  decode_struct true revoke_fields (revoke_json m) zero_revoke = Some m.
Proof.
  intros Hch Hdeny. destruct m as [schema type id ch service hash reason deny]. simpl in Hch, Hdeny.
  unfold revoke_json. simpl.
  destruct (String.eqb service "") eqn:Es, (String.eqb hash "") eqn:Eh; go_bool; subst; simpl;
    rewrite ParseUint_FormatInt by done; simpl; rewrite ParseInt_FormatInt by done; done.
Qed.

(** ** Replacing the file *)

(** A run of steps: every file system reached is good, the end satisfies the
    postcondition. *)
Definition run_spec (faults : fs_call → option error) (steps : list fs_step) (fs : filesystem)
    (Good : filesystem → Prop) (Post : filesystem → option error → Prop) : Prop :=
  let '(trace, (fs', err)) := run_steps faults steps fs in Forall Good trace ∧ Post fs' err.

Lemma run_spec_nil faults fs Good (Post : filesystem → option error → Prop) :
  Post fs None → run_spec faults [] fs Good Post.
Proof. split; [constructor|done]. Qed.

Lemma run_spec_cons faults step steps fs Good (Post : filesystem → option error → Prop) :
  (∀ e, Good (step_torn step fs) ∧ Post (step_torn step fs) (Some e)) →
  Good (step_done step fs) → run_spec faults steps (step_done step fs) Good Post →
  (∀ e, step_ignores step e = true → Good fs ∧ run_spec faults steps fs Good Post) →
  run_spec faults (step :: steps) fs Good Post.
Proof.
  intros Htorn Hgood Hrest Hign. unfold run_spec in *. cbn [run_steps].
  destruct (faults (step_call step)) as [e|].
  - destruct (step_ignores step e) eqn:Ei.
    + destruct (Hign e Ei) as [Hg Hr]. destruct (run_steps faults steps fs) as [tr [fs' err]].
      destruct Hr. split; [by constructor|done].
    + destruct (Htorn e). split; [repeat constructor; done|].
      by destruct (Htorn (Wrapf (step_message step) [] e)).
  - destruct (run_steps faults steps _) as [tr [fs' err]]. destruct Hrest.
    split; [by constructor|done].
Qed.

Lemma run_spec_plain faults call effect message steps fs Good (Post : filesystem → option error → Prop) :
  (∀ e, Good fs ∧ Post fs (Some e)) → Good (effect fs) →
  run_spec faults steps (effect fs) Good Post →
  run_spec faults (plain_step call effect message :: steps) fs Good Post.
Proof. intros. by apply run_spec_cons. Qed.

(** What every effect of the steps keeps, the run keeps. *)
Lemma run_spec_inv (P : filesystem → Prop) faults steps fs :
  P fs → Forall (λ step, ∀ fs, P fs → P (step_done step fs) ∧ P (step_torn step fs)) steps →
  run_spec faults steps fs P (λ fs' _, P fs').
Proof.
  intros HP Hsteps. revert fs HP. induction Hsteps as [|step steps Hstep _ IH]; intros fs HP.
  { by apply run_spec_nil. }
  destruct (Hstep fs HP) as [Hd Ht]. apply run_spec_cons; [done|done|by apply IH|]. intros e _. by split; [|apply IH].
Qed.

Section persist.
Context (env : fs_env) (filename data : string) (fs0 : filesystem).
Context (Htemp : temp_name env ≠ filename).

(** The old entry is still in place, or removed on Windows. *)
Definition staged (fs : filesystem) : Prop :=
  (fs_live fs !! filename = fs_live fs0 !! filename ∨
   windows env = true ∧ fs_live fs !! filename = None) ∧
  fs_durable fs !! filename = fs_durable fs0 !! filename.

(** The new file is in place, with its data synced. *)
Definition committed (fs : filesystem) : Prop :=
  fs_live fs !! filename = Some (File data true) ∧
  (fs_durable fs !! filename = fs_durable fs0 !! filename ∨
   fs_durable fs !! filename = Some (File data true)).

Definition persist_good (fs : filesystem) : Prop := staged fs ∨ committed fs.

Definition persist_post (fs : filesystem) (err : option error) : Prop :=
  match err with
  | None => committed fs ∧ (windows env = false → fs_durable fs !! filename = Some (File data true))
  | Some _ => staged fs ∨ committed fs ∧ windows env = false
  end.

Lemma staged_temp f fs :
  staged fs → staged (set_live (temp_name env) f fs).
Proof. unfold staged. simpl. by rewrite lookup_insert_ne. Qed.

Lemma staged_remove fs :
  windows env = true → staged fs → staged (remove_live filename fs).
Proof. unfold staged. simpl. rewrite lookup_delete_eq. intuition. Qed.

Lemma committed_rename fs :
  staged fs → fs_live fs !! temp_name env = Some (File data true) →
  committed (rename (temp_name env) filename fs).
Proof.
  unfold staged, committed, rename. intros [_ Hd] ->. simpl. rewrite lookup_insert_eq. auto.
Qed.

Lemma persist_finish fs :
  staged fs → fs_live fs !! temp_name env = Some (File data true) →
  run_spec (fault env)
    ([ plain_step FsRename (rename (temp_name env) filename)
         "commit Private Control Link command store: %w" ] ++
     (if windows env then []
      else
        [ plain_step FsOpenDir id "open Private Control Link command-store directory: %w";
          plain_step FsSyncDir sync_dir "sync Private Control Link command-store directory: %w";
          plain_step FsCloseDir id "close Private Control Link command-store directory: %w" ]))
    fs persist_good persist_post.
Proof.
  intros Hs Ht. pose proof (committed_rename fs Hs Ht) as Hc. unfold persist_good, persist_post.
  apply run_spec_plain; [auto|auto|]. destruct (windows env) eqn:Hw; [by apply run_spec_nil|].
  assert (Hsync : committed (sync_dir (rename (temp_name env) filename fs))).
  { unfold committed, sync_dir in *. simpl. destruct Hc. auto. }
  repeat (apply run_spec_plain; [by auto|by auto|]). apply run_spec_nil.
  split; [done|]. intros _. by destruct Hc.
Qed.

Lemma persist_replace_spec fs :
  staged fs → is_Some (fs_live fs !! temp_name env) →
  run_spec (fault env) (persist_replace env filename data) fs persist_good persist_post.
Proof.
  intros Hs Ht. unfold persist_replace, persist_good, persist_post.
  apply run_spec_plain; [auto|by auto|]. simpl app. unfold id at 1.
  apply run_spec_cons; simpl;
    [intros; split; left; by apply staged_temp|left; by apply staged_temp| |done].
  set (fs1 := set_live (temp_name env) (File data false) fs).
  assert (staged fs1) as Hs1 by by apply staged_temp.
  assert (Hsync : staged (sync_file (temp_name env) fs1) ∧
    fs_live (sync_file (temp_name env) fs1) !! temp_name env = Some (File data true)).
  { unfold sync_file, staged in *. simpl. rewrite lookup_alter_eq, lookup_insert_eq.
    by rewrite lookup_alter_ne. }
  destruct Hsync as [Hs2 Ht2]. set (fs2 := sync_file (temp_name env) fs1) in *.
  apply run_spec_plain; [by auto|by auto|]. apply run_spec_plain; [by auto|by auto|].
  unfold id. destruct (windows env) eqn:Hw; simpl app.
  - assert (staged (remove_live filename fs2)) by by apply staged_remove.
    pose proof (persist_finish fs2) as Hf1. pose proof (persist_finish (remove_live filename fs2)) as Hf2.
    rewrite Hw in Hf1, Hf2. unfold persist_good, persist_post in Hf1, Hf2. rewrite Hw in Hf1, Hf2.
    apply run_spec_cons; simpl; [by auto|by auto| |].
    + apply Hf2; [done|]. simpl. by rewrite lookup_delete_ne.
    + intros e _. split; [by auto|]. by apply Hf1.
  - pose proof (persist_finish fs2) as Hf. rewrite Hw in Hf.
    unfold persist_good, persist_post in Hf. rewrite Hw in Hf. by apply Hf.
Qed.
End persist.

Lemma persist_spec env filename messages fs :
  temp_name env ≠ filename →
  let data := store_bytes (sort_commands messages) in
  let '(trace, (fs', err)) := persist env filename messages fs in
  Forall (persist_good env filename data fs) trace ∧ persist_post env filename data fs fs' err.
Proof.
  intros Htemp data. unfold persist. fold data.
  assert (Hstaged : staged env filename fs fs) by (split; auto).
  assert (Hopen : run_spec (fault env) (persist_open env) fs (persist_good env filename data fs)
    (λ fs' err, match err with
                | Some _ => staged env filename fs fs'
                | None => staged env filename fs fs' ∧ is_Some (fs_live fs' !! temp_name env)
                end)).
  { unfold persist_open, persist_good.
    assert (staged env filename fs (make_dir fs)) by done.
    assert (staged env filename fs (set_live (temp_name env) (File "" false) (make_dir fs))) by by apply staged_temp.
    apply run_spec_plain; [by auto|by auto|]. apply run_spec_plain; [by auto|by auto|].
    apply run_spec_nil. split; [done|]. simpl. by rewrite lookup_insert_eq. }
  unfold run_spec in Hopen. destruct (run_steps _ (persist_open env) fs) as [tr1 [fs1 [e|]]].
  { destruct Hopen as [Hg Hp]. split; [done|]. by left. }
  destruct Hopen as [Hg [Hs1 Ht1]].
  pose proof (persist_replace_spec env filename data fs Htemp fs1 Hs1 Ht1) as Hrep.
  unfold run_spec in Hrep. destruct (run_steps _ (persist_replace _ _ _) fs1) as [tr2 [fs2 err]].
  destruct Hrep as [Hg2 Hp2].
  assert (Hlive : fs_live (remove_temp env fs2) !! filename = fs_live fs2 !! filename ∧
                  fs_durable (remove_temp env fs2) !! filename = fs_durable fs2 !! filename).
  { unfold remove_temp. destruct (fault env FsRemoveTemp); [done|]. simpl.
    by rewrite lookup_delete_ne. }
  assert (Hpost : persist_post env filename data fs (remove_temp env fs2) err).
  { unfold persist_post, staged, committed in *. destruct Hlive as [-> ->]. done. }
  split; [|done]. apply Forall_app; split; [done|]. apply Forall_app; split; [done|].
  constructor; [|constructor].
  unfold persist_good, persist_post in *. destruct err; naive_solver.
Qed.

(** A directory that is there for good stays so; none is made so. *)
Lemma persist_dir env filename messages fs :
  let '(trace, (fs', err)) := persist env filename messages fs in
  let kept fs' := fs_dir fs' = DirDurable ↔ fs_dir fs = DirDurable in
  Forall kept trace ∧ kept fs'.
Proof.
  set (kept fs' := fs_dir fs' = DirDurable ↔ fs_dir fs = DirDurable). unfold persist.
  set (data := store_bytes (sort_commands messages)).
  assert (∀ old new fs1, kept fs1 → kept (rename old new fs1)) as Hrename.
  { intros old new fs1 Hk. unfold rename. by destruct (fs_live fs1 !! old). }
  assert (run_spec (fault env) (persist_open env) fs kept (λ fs' _, kept fs')) as Hopen.
  { apply run_spec_inv; [done|]. unfold persist_open. repeat first [apply Forall_nil_2|apply Forall_cons; split];
      intros fs3 Hk3; (split; [|done]); unfold kept in *; simpl; destruct (fs_dir fs3); naive_solver. }
  unfold run_spec in Hopen. destruct (run_steps _ (persist_open env) fs) as [tr1 [fs1 [e|]]]; [done|].
  destruct Hopen as [Ht1 Hk1].
  assert (run_spec (fault env) (persist_replace env filename data) fs1 kept (λ fs' _, kept fs')) as Hrep.
  { apply run_spec_inv; [done|]. unfold persist_replace.
    destruct (windows env); simpl app; repeat first [apply Forall_nil_2|apply Forall_cons; split];
      intros fs3 Hk3; split; simpl; first [done|by apply Hrename]. }
  unfold run_spec in Hrep. destruct (run_steps _ (persist_replace _ _ _) fs1) as [tr2 [fs2 err]].
  destruct Hrep as [Ht2 Hk2].
  assert (kept (remove_temp env fs2)) by (unfold remove_temp; by destruct (fault env FsRemoveTemp)).
  split; [|done]. apply Forall_app; split; [done|]. apply Forall_app; split; [done|]. by constructor.
Qed.

(** What may be under [filename] after a power loss in a good state. *)
Lemma persist_good_survives env filename data fs fs' d :
  persist_good env filename data fs fs' → (fs_dir fs' = DirDurable ↔ fs_dir fs = DirDurable) →
  survives fs' filename d →
  survives fs filename d ∨ d = Some data ∨ windows env = true ∧ d = None.
Proof.
  intros Hgood Hdir [entry d' Hentry Hsynced Hnone|Hgone]; [|left; apply survives_gone; by rewrite <-Hdir].
  destruct Hgood as [[Hl Hd]|[Hl Hd]].
  - destruct Hentry as [-> | ->]; rewrite ?Hd in *.
    + destruct Hl as [Hl|[Hw Hl]]; rewrite Hl in *; [left|naive_solver].
      by apply (survives_entry _ _ (fs_live fs !! filename)); auto.
    + left. by apply (survives_entry _ _ (fs_durable fs !! filename)); auto.
  - destruct Hentry as [-> | ->].
    + right; left. by apply (Hsynced (File data true)).
    + destruct Hd as [Hd|Hd]; rewrite Hd in *.
      * left. by apply (survives_entry _ _ (fs_durable fs !! filename)); auto.
      * right; left. by apply (Hsynced (File data true)).
Qed.

(** What a [persist] that reports an error leaves: the file as it was or the
    new store, or on Windows none, for the process and after a power loss. *)
Record old_or_new (env : fs_env) (filename new : string) (fs fs' : filesystem) : Prop := OldOrNew {
  left_live : fs_live fs' !! filename = fs_live fs !! filename ∨
    fs_live fs' !! filename = Some (File new true) ∨ windows env = true ∧ fs_live fs' !! filename = None;
  left_survives : ∀ data, survives fs' filename data →
    survives fs filename data ∨ data = Some new ∨ windows env = true ∧ data = None;
}.

Lemma persist_failed env filename messages fs fs' e :
  temp_name env ≠ filename → (persist env filename messages fs).2 = (fs', Some e) →
  old_or_new env filename (store_bytes (sort_commands messages)) fs fs'.
Proof.
  intros Htemp. pose proof (persist_spec env filename messages fs Htemp) as Hs. cbv zeta in Hs.
  pose proof (persist_dir env filename messages fs) as Hdir.
  destruct (persist _ _ _ _) as [tr [fs1 err]]. simpl. intros [= -> ->].
  destruct Hs as [_ Hpost], Hdir as [_ Hdir]. simpl in Hpost. constructor.
  - unfold staged, committed in Hpost. naive_solver.
  - intros data. apply persist_good_survives; [|done]. unfold persist_good. naive_solver.
Qed.

(** What a [persist] that succeeds leaves. *)
Lemma persist_succeeded env filename messages fs fs' :
  temp_name env ≠ filename → (persist env filename messages fs).2 = (fs', None) →
  let new := store_bytes (sort_commands messages) in
  fs_live fs' !! filename = Some (File new true) ∧
  (windows env = false → ∀ data, survives fs' filename data →
     data = Some new ∨ fs_dir fs ≠ DirDurable ∧ data = None).
Proof.
  intros Htemp. pose proof (persist_spec env filename messages fs Htemp) as Hs. cbv zeta in Hs.
  pose proof (persist_dir env filename messages fs) as Hdir.
  destruct (persist _ _ _ _) as [tr [fs1 err]]. simpl. intros [= -> ->].
  destruct Hs as [_ [[Hl _] Hw]], Hdir as [_ Hdir]. split; [done|].
  intros Hnw data [entry d Hentry Hsync _|Hgone]; [left|right; by rewrite <-Hdir].
  apply (Hsync (File (store_bytes (sort_commands messages)) true)); [|done].
  rewrite Hl, (Hw Hnw) in Hentry. by destruct Hentry.
Qed.

(** ** Opening *)

(** A pending command and the channel its result goes to. *)
Record privateControlPendingCommand := PendingCommand {
  pc_message : privateControlRevokeServiceAdmission;
  pc_result : Z;
}.

#[global] Instance pending_command_eq_dec : EqDecision privateControlPendingCommand.
Proof. solve_decision. Defined.

(** The messages of the pending map; [persist] sorts them. *)
Definition pending_messages (pending : gmap string privateControlPendingCommand)
    : list privateControlRevokeServiceAdmission :=
  pc_message ∘ snd <$> map_to_list pending.

(** The loop over the loaded commands.  [next] numbers the channels made. *)
Fixpoint open_loop (now : Z) (commands : list privateControlRevokeServiceAdmission) (next : Z)
    (pending : gmap string privateControlPendingCommand) (expired : bool)
    : result (gmap string privateControlPendingCommand * bool * Z) :=
  match commands with
  | [] => Ok (pending, expired, next)
  | command :: commands =>
      if negb (validPrivateControlRevocation command) then
        Err (Errorf "Private Control Link command store contains an invalid command" [])
      else if bool_decide (is_Some (pending !! rev_MessageID command)) then
        Err (Errorf "Private Control Link command store contains a duplicate message ID" [])
      else if rev_DenyUntil command <=? Unix now then open_loop now commands next pending true
      else open_loop now commands (next + 1)
             (<[rev_MessageID command := PendingCommand command next]> pending) expired
  end.

(** [openPrivateControlCommandStore(filename, now)]: the store's filename, the
    pending commands and the next channel number. *)
Definition openPrivateControlCommandStore (env : fs_env) (filename : string) (now next : Z)
    (fs : filesystem)
    : filesystem * result (string * gmap string privateControlPendingCommand * Z) :=
  let filename := TrimSpace filename in
  if String.eqb filename ""
  then (fs, Err (Errorf "Private Control Link command store file is required" []))
  else
    match (try commands <- load env filename fs; open_loop now commands next ∅ false) with
    | Err e => (fs, Err e)
    | Ok (pending, expired, next) =>
        if privateControlMaxPendingCommands <? len_map pending
        then (fs, Err (Errorf "Private Control Link command store exceeds the pending command limit" []))
        else if expired then
          match (persist env filename (pending_messages pending) fs).2 with
          | (fs', Some e) => (fs', Err e)
          | (fs', None) => (fs', Ok (filename, pending, next))
          end
        else (fs, Ok (filename, pending, next))
    end.

(** ** The strings of a valid command *)

Lemma base64url_service_byte c : base64url_byte c = true → service_id_byte c = true.
Proof. destruct c as [[] [] [] [] [] [] [] []]; intros H; solve [discriminate H|reflexivity]. Qed.

Lemma EncodeToString_plain raw : string_forallb service_id_byte (EncodeToString raw) = true.
Proof. eapply string_forallb_impl; [apply base64url_service_byte|apply EncodeToString_bytes]. Qed.

(** A plain string is marshalled between quotes, unchanged. *)
Lemma quote_ascii_plain c :
  service_id_byte c = true → byte_in 0 127 c = true ∧ quote_ascii c = String c "".
Proof. destruct c as [[] [] [] [] [] [] [] []]; intros H; solve [discriminate H|by split]. Qed.

Lemma plain_utf8 s : string_forallb service_id_byte s = true → utf8_Valid s = true.
Proof.
  induction s as [|c s IH]; [done|]. simpl. rewrite andb_true_iff.
  intros [Hc Hs]. destruct (quote_ascii_plain c Hc) as [Ha _].
  unfold utf8_Valid in *. cbn [fold_runes rune_size]. rewrite Ha. by rewrite IH.
Qed.

Lemma quote_body_plain n s :
  (String.length s ≤ n)%nat → string_forallb service_id_byte s = true → quote_body n s = s.
Proof.
  revert s. induction n as [|n IH]; intros [|c s]; simpl; try done; [lia|].
  rewrite andb_true_iff. intros Hlen [Hc Hs]. destruct (quote_ascii_plain c Hc) as [-> ->].
  rewrite IH; [done|lia|done].
Qed.

Lemma quote_string_len s :
  string_forallb service_id_byte s = true → len (quote_string s) = len s + 2.
Proof.
  intros Hs. unfold quote_string. rewrite quote_body_plain by done. rewrite !len_app.
  change (len dquote) with 1. lia.
Qed.

(** What validity says of the strings of a command. *)
Definition plain_within (n : Z) (s : string) : Prop :=
  string_forallb service_id_byte s = true ∧ len s ≤ n.

Lemma revocation_strings m :
  revocation_wf m →
  plain_within 23 (rev_SchemaVersion m) ∧ plain_within 24 (rev_Type m) ∧
  plain_within 22 (rev_MessageID m) ∧ plain_within 128 (rev_ServiceID m) ∧
  plain_within 43 (rev_GrantIDHash m) ∧ plain_within 16 (rev_Reason m).
Proof.
  unfold revocation_wf, validPrivateControlRevocation, plain_within. intros (H & _ & _). go_bool.
  repeat match goal with H : String.eqb _ _ = true |- _ => apply String.eqb_eq in H end.
  split_and!.
  all: try match goal with
  | H : validPrivateControlID ?x = true |- context [?x] =>
      apply validPrivateControlID_spec in H as (raw & Hraw & ->); unfold newPrivateControlID;
      rewrite ?EncodeToString_len, ?Hraw; by first [apply EncodeToString_plain|done]
  | H : rev_SchemaVersion ?x = _ |- context [rev_SchemaVersion ?x] => by rewrite H
  | H : rev_Type ?x = _ |- context [rev_Type ?x] => by rewrite H
  | H : String.eqb ?x _ || validManagementServiceID ?x = true |- context [?x] =>
      apply orb_true_iff in H as [->%String.eqb_eq|H]; [done|];
      apply validManagementServiceID_bytes in H as (_ & ? & ?); first [done|lia]
  | H : String.eqb ?x _ || validPrivateControlGrantIDHash ?x = true |- context [?x] =>
      apply orb_true_iff in H as [->%String.eqb_eq|H]; [done|];
      apply validPrivateControlGrantIDHash_spec in H as (raw & Hraw & ->);
      rewrite ?EncodeToString_len, ?Hraw; by first [apply EncodeToString_plain|done]
  end.
  all: match goal with H : validServiceAdmissionRevocationReason _ = true |- _ =>
    unfold validServiceAdmissionRevocationReason in H; apply in_set_spec in H;
    repeat (apply elem_of_cons in H as [->|H]; [done|]); by apply elem_of_nil in H end.
Qed.

(** ** Lengths *)

Lemma revocation_wf_id m : revocation_wf m → rev_MessageID m ≠ "".
Proof.
  intros (H & _ & _) Heq. unfold validPrivateControlRevocation in H. rewrite Heq in H.
  change (validPrivateControlID "") with false in H. by rewrite andb_false_r in H.
Qed.

Lemma FormatInt_len z k : 0 ≤ z < 10 ^ k → 1 ≤ k → len (FormatInt z) ≤ k.
Proof.
  intros Hz Hk. destruct (FormatInt_spec z ltac:(lia)) as (Hne & Hd & Hv & Hz0).
  destruct (FormatInt z) as [|c r] eqn:E; [done|].
  simpl in Hd. apply andb_true_iff in Hd as [Hc Hr].
  pose proof (FormatInt_head z c r ltac:(lia) E).
  replace (len (String c r)) with (len r + 1) by (unfold len; simpl; lia).
  assert (0 ≤ len r) by (unfold len; lia).
  destruct (decide (byte_val c = 48)) as [H48|H48].
  - specialize (Hz0 c r eq_refl H48). rewrite Hz0 in E.
    change (FormatInt 0) with (String "0"%char "") in E. injection E as <- <-.
    change (len "") with 0. lia.
  - simpl in Hv. pose proof (digits_value_ge (byte_val c - 48) r ltac:(lia) Hr) as Hge. simpl in Hge.
    assert (10 ^ len r < 10 ^ k) as Hlt.
    { assert (0 < 10 ^ len r) by (apply Z.pow_pos_nonneg; lia).
      change (0 * 10 + (byte_val c - 48)) with (byte_val c - 48) in Hv. nia. }
    apply Z.pow_lt_mono_r_iff in Hlt; lia.
Qed.

Lemma join_comma_len n l :
  Forall (λ s, len s ≤ n) l → 0 ≤ n → len (join_comma l) ≤ (n + 1) * Z.of_nat (length l).
Proof.
  intros Hl Hn. induction Hl as [|x l Hx Hl IH]; [simpl; unfold len; simpl; lia|].
  destruct l as [|y l]; [simpl in *; lia|]. rewrite join_comma_cons, !len_app.
  change (len ",") with 1. cbn [length] in *. lia.
Qed.

Lemma revoke_json_wf d m : 0 < d → revocation_wf m → json_wf d (revoke_json m).
Proof.
  intros Hd Hwf. destruct (revocation_strings m Hwf) as ([H1 _] & [H2 _] & [H3 _] & [H4 _] & [H5 _] & [H6 _]).
  destruct Hwf as (Hv & Hch & _). unfold is_u32 in Hch.
  assert (1 ≤ rev_DenyUntil m) by (unfold validPrivateControlRevocation in Hv; go_bool; lia).
  apply wf_object; [done|]. unfold omit_if.
  destruct (String.eqb (rev_ServiceID m) ""), (String.eqb (rev_GrantIDHash m) ""); simpl app;
    repeat (apply Forall_cons; split;
      [split; [done|simpl; constructor; by first [lia|apply plain_utf8]]|]); constructor.
Qed.

Lemma store_json_wf ms : Forall revocation_wf ms → json_wf max_nesting_depth (store_json ms).
Proof.
  intros Hms. unfold store_json. apply wf_object; [done|].
  apply Forall_cons; split; [split; [done|by constructor]|].
  apply Forall_cons; split; [|constructor]. split; [done|]. simpl. apply wf_array; [done|].
  apply Forall_fmap. eapply Forall_impl; [exact Hms|]. intros m Hm. by apply revoke_json_wf.
Qed.

(** The lengths of the string literals of the goal. *)
Ltac len_literals :=
  change (len dquote) with 1; change (len newline) with 1;
  repeat match goal with |- context [len (String ?c ?s)] =>
    let n := eval vm_compute in (len (String c s)) in change (len (String c s)) with n
  end.

(** At most 512 bytes for a command. *)
Lemma revoke_json_len m : revocation_wf m → len (print_json (revoke_json m)) ≤ 512.
Proof.
  intros Hwf. destruct (revocation_strings m Hwf)
    as ([H1 L1] & [H2 L2] & [H3 L3] & [H4 L4] & [H5 L5] & [H6 L6]).
  destruct Hwf as (Hv & Hch & Hdeny). unfold is_u32 in Hch. unfold is_i64 in Hdeny.
  assert (1 ≤ rev_DenyUntil m) by (unfold validPrivateControlRevocation in Hv; go_bool; lia).
  assert (len (FormatInt (rev_ChannelID m)) ≤ 10) by (apply FormatInt_len; lia).
  assert (len (FormatInt (rev_DenyUntil m)) ≤ 19) by (apply FormatInt_len; lia).
  assert (∀ k, string_forallb service_id_byte k = true → quote_string k = dquote +:+ k +:+ dquote) as Hq.
  { intros k Hk. unfold quote_string. by rewrite quote_body_plain. }
  unfold revoke_json, omit_if. rewrite print_object. unfold print_member.
  destruct (String.eqb (rev_ServiceID m) ""), (String.eqb (rev_GrantIDHash m) ""); simpl app;
    rewrite !fmap_cons, ?fmap_nil; cbn [join_comma fst snd print_json jnum];
    rewrite !Hq by done; rewrite !len_app;
    len_literals; lia.
Qed.

(** A store of at most 64 commands is within the size that [load] accepts. *)
Lemma store_bytes_len ms :
  Forall revocation_wf ms → (length ms ≤ 64)%nat →
  len (store_bytes ms) ≤ privateControlMaxPendingCommands_bytes.
Proof.
  intros Hms Hlen. unfold store_bytes, store_json. rewrite print_object. unfold print_member.
  cbn [fmap list_fmap join_comma fst snd print_json jnum]. rewrite !len_app.
  assert (Hj : len (join_comma (print_json <$> (revoke_json <$> ms))) ≤
               (512 + 1) * Z.of_nat (length (print_json <$> (revoke_json <$> ms)))).
  { apply join_comma_len; [|lia]. rewrite !Forall_fmap.
    eapply Forall_impl; [exact Hms|]. intros m Hm. by apply revoke_json_len. }
  rewrite !length_fmap in Hj. unfold privateControlMaxPendingCommands_bytes, privateControlMaxPendingCommands.
  change (len (quote_string "version")) with 9. change (len (quote_string "commands")) with 10.
  change (len (FormatInt _)) with 1. len_literals. lia.
Qed.

Lemma decode_elements_revoke ms :
  Forall revocation_wf ms →
  decode_elements zero_revoke (decode_struct true revoke_fields) (revoke_json <$> ms) [] = Some ms.
Proof.
  induction 1 as [|m ms Hm Hms IH]; [done|]. rewrite fmap_cons. cbn [decode_elements].
  destruct Hm as (Hv & Hch & Hdeny). unfold is_i64 in Hdeny.
  assert (1 ≤ rev_DenyUntil m) by (unfold validPrivateControlRevocation in Hv; go_bool; lia).
  simpl head. cbn [default]. rewrite decode_revoke_json by (done || lia).
  cbn [mbind option_bind]. simpl tail. by rewrite IH.
Qed.

#[local] Arguments decode_elements : simpl never.
#[local] Arguments decode_slice : simpl never.
#[local] Arguments revoke_json : simpl never.

(** What [persist] writes, [load] reads. *)
Lemma load_store_bytes ms : Forall revocation_wf ms → load_data (store_bytes ms) = Ok ms.
Proof.
  intros Hms. unfold load_data, store_bytes.
  rewrite decode_next_print by (done || by apply store_json_wf). cbn [map_err result_bind].
  assert (Hd : decode_struct true persisted_fields (store_json ms) zero_persisted =
          Some (PersistedCommands 1 (GoSlice false (length ms) ms))).
  { unfold store_json. pose proof (decode_elements_revoke ms Hms) as He.
    destruct ms as [|m ms]; [reflexivity|]. rewrite fmap_cons in *.
    simpl. unfold decode_slice. simpl sl_backing. rewrite He. cbn [length]. by rewrite length_fmap. }
  rewrite Hd. cbn [type_checked map_err result_bind]. simpl. unfold sl_elements. simpl.
  by rewrite firstn_all.
Qed.


(** ** The pending map *)

(** Commands are filed under their message IDs, and are valid. *)
Definition pending_wf (pending : gmap string privateControlPendingCommand) : Prop :=
  ∀ id c, pending !! id = Some c → rev_MessageID (pc_message c) = id ∧ revocation_wf (pc_message c).

(** Result channels below [next], each used by one command. *)
Definition channels_ok (next : Z) (pending : gmap string privateControlPendingCommand) : Prop :=
  (∀ id c, pending !! id = Some c → pc_result c < next) ∧
  (∀ id1 c1 id2 c2, pending !! id1 = Some c1 → pending !! id2 = Some c2 →
     pc_result c1 = pc_result c2 → id1 = id2).

Lemma pending_messages_elem pending m :
  m ∈ pending_messages pending ↔ ∃ id c, pending !! id = Some c ∧ pc_message c = m.
Proof.
  unfold pending_messages. rewrite list_elem_of_fmap. split.
  - intros ([id c] & -> & Hin%elem_of_map_to_list). eauto.
  - intros (id & c & Hc & <-). exists (id, c). split; [done|]. by apply elem_of_map_to_list.
Qed.

Lemma pending_messages_NoDup pending :
  pending_wf pending → NoDup (rev_MessageID <$> pending_messages pending).
Proof.
  intros Hwf. unfold pending_messages. rewrite <-list_fmap_compose.
  replace ((rev_MessageID ∘ (pc_message ∘ snd)) <$> map_to_list pending) with (map_to_list pending).*1.
  { apply NoDup_fst_map_to_list. }
  apply list_fmap_ext. intros i [id c] Hin%list_elem_of_lookup_2%elem_of_map_to_list.
  symmetry. apply (Hwf id c Hin).
Qed.

Lemma pending_messages_length pending : length (pending_messages pending) = size pending.
Proof. unfold pending_messages. by rewrite length_fmap, length_map_to_list. Qed.

Lemma pending_messages_wf pending :
  pending_wf pending → Forall revocation_wf (pending_messages pending).
Proof.
  intros Hwf. apply Forall_forall. intros m (id & c & Hc & <-)%pending_messages_elem.
  by destruct (Hwf id c Hc).
Qed.

Lemma channels_ok_insert next pending id c :
  channels_ok next pending → pc_result c = next → channels_ok (next + 1) (<[id := c]> pending).
Proof.
  intros [Hlt Hinj] Hc. split.
  - intros id' c' [[_ <-]|[_ H]]%lookup_insert_Some; [lia|]. specialize (Hlt _ _ H). lia.
  - intros id1 c1 id2 c2 [[<- <-]|[_ H1]]%lookup_insert_Some [[<- <-]|[_ H2]]%lookup_insert_Some;
      [done|specialize (Hlt _ _ H2); lia|specialize (Hlt _ _ H1); lia|by apply (Hinj id1 c1 id2 c2)].
Qed.

Lemma channels_ok_delete next pending id :
  channels_ok next pending → channels_ok next (delete id pending).
Proof.
  intros [Hlt Hinj]. split.
  - intros id' c' [_ H]%lookup_delete_Some. eauto.
  - intros id1 c1 id2 c2 [_ H1]%lookup_delete_Some [_ H2]%lookup_delete_Some. eauto.
Qed.

Lemma channels_ok_empty next : channels_ok next ∅.
Proof. split; intros ??; by rewrite lookup_empty. Qed.

Lemma pending_wf_insert pending c :
  pending_wf pending → revocation_wf (pc_message c) →
  pending_wf (<[rev_MessageID (pc_message c) := c]> pending).
Proof. intros Hwf Hc id c' [[<- <-]|[_ H]]%lookup_insert_Some; eauto. Qed.

Lemma pending_wf_delete pending id : pending_wf pending → pending_wf (delete id pending).
Proof. intros Hwf id' c [_ H]%lookup_delete_Some. eauto. Qed.

(** ** Opening: what the loop computes *)

(** A command that is still in force. *)
Definition unexpired (now : Z) (m : privateControlRevokeServiceAdmission) : Prop :=
  Unix now < rev_DenyUntil m.

Lemma open_loop_total now commands next pending expired :
  Forall (λ m, validPrivateControlRevocation m = true) commands →
  NoDup (rev_MessageID <$> commands) →
  (∀ m, m ∈ commands → pending !! rev_MessageID m = None) →
  ∃ pending' expired' next',
    open_loop now commands next pending expired = Ok (pending', expired', next') ∧
    ∀ id m, pc_message <$> pending' !! id = Some m ↔
            pc_message <$> pending !! id = Some m ∨
            (m ∈ commands ∧ rev_MessageID m = id ∧ unexpired now m).
Proof.
  revert next pending expired. induction commands as [|m ms IH]; intros next pending expired Hv Hnd Hfree.
  { eexists _, _, _. split; [done|]. set_solver. }
  apply Forall_cons in Hv as [Hm Hv]. rewrite fmap_cons, NoDup_cons in Hnd. destruct Hnd as [Hnew Hnd].
  cbn [open_loop]. rewrite Hm. cbn [negb].
  rewrite bool_decide_eq_false_2 by (rewrite Hfree by set_solver; by intros [? ?]).
  assert (Hne : ∀ m', m' ∈ ms → rev_MessageID m ≠ rev_MessageID m').
  { intros m' Hm' Heq. apply Hnew. rewrite Heq. by apply list_elem_of_fmap_2. }
  unfold unexpired. destruct (rev_DenyUntil m <=? Unix now) eqn:Ex; go_bool.
  - destruct (IH next pending true Hv Hnd) as (p' & e' & n' & -> & Hspec); [set_solver|].
    eexists _, _, _. split; [done|]. intros id m'. rewrite Hspec, elem_of_cons. unfold unexpired.
    split; [naive_solver|]. intros [?|([->|?] & ? & ?)]; [by left|lia|by right].
  - destruct (IH (next + 1) (<[rev_MessageID m := PendingCommand m next]> pending) expired Hv Hnd)
      as (p' & e' & n' & -> & Hspec).
    { intros m' Hm'. rewrite lookup_insert_ne by auto. set_solver. }
    eexists _, _, _. split; [done|]. intros id m'. rewrite Hspec, lookup_insert, elem_of_cons.
    unfold unexpired. destruct (decide (rev_MessageID m = id)) as [<-|Hid]; simpl.
    + rewrite Hfree by set_solver. simpl. naive_solver.
    + naive_solver.
Qed.

(** Whatever the list holds, an accepted pending map is well formed. *)
Lemma open_loop_sound now commands next pending expired pending' expired' next' :
  open_loop now commands next pending expired = Ok (pending', expired', next') →
  Forall (λ m, is_u32 (rev_ChannelID m) ∧ is_i64 (rev_DenyUntil m)) commands →
  pending_wf pending → channels_ok next pending →
  (∀ id c, pending !! id = Some c → unexpired now (pc_message c)) →
  pending_wf pending' ∧ channels_ok next' pending' ∧
  (∀ id c, pending' !! id = Some c → unexpired now (pc_message c)).
Proof.
  revert next pending expired. induction commands as [|m ms IH]; intros next pending expired; simpl.
  { intros [= <- <- <-]. auto. }
  destruct (validPrivateControlRevocation m) eqn:Hm; simpl; [|done].
  case_bool_decide; [done|]. intros Hrun [[Hch Hdeny] Hms]%Forall_cons Hwf Hok Hlive.
  destruct (rev_DenyUntil m <=? Unix now) eqn:Ex; go_bool; [by eapply IH|].
  eapply IH; [exact Hrun|done| | |].
  - by apply (pending_wf_insert pending (PendingCommand m next)).
  - by apply channels_ok_insert.
  - intros id c [[_ <-]|[_ H1]]%lookup_insert_Some; [done|eauto].
Qed.

(** ** Decoded integers are within the width of their type *)

Lemma load_data_ints data commands :
  load_data data = Ok commands → Forall revoke_ints commands.
Proof.
  unfold load_data. intros H.
  apply result_bind_ok in H as ([j rest] & _ & H1).
  apply result_bind_ok in H1 as (stored & Hs & H2). apply map_err_ok in Hs.
  apply reject_if_ok in H2 as [_ H2]. apply reject_if_ok in H2 as [_ [= <-]].
  destruct (decode_struct _ _ _ _) as [t|] eqn:Ed; [|done]. injection Hs as <-.
  apply Forall_take.
  eapply (decode_struct_typed (λ t, Forall revoke_ints (sl_backing (pers_Commands t)))) in Ed; [done| |constructor].
  assert (revoke_ints zero_revoke) by (split; done). pose proof revoke_fields_typed.
  unfold persisted_fields. fields_typed.
Qed.

Lemma run_steps_no_faults faults steps fs :
  (∀ call, faults call = None) → (run_steps faults steps fs).2.2 = None.
Proof.
  intros Hf. revert fs. induction steps as [|step steps IH]; intros fs; [done|].
  cbn [run_steps]. rewrite Hf. specialize (IH (step_done step fs)).
  by destruct (run_steps faults steps _) as [tr [fs' err]].
Qed.

Lemma persist_no_faults env filename messages fs :
  (∀ call, fault env call = None) → (persist env filename messages fs).2.2 = None.
Proof.
  intros Hf. unfold persist.
  pose proof (run_steps_no_faults _ (persist_open env) fs Hf) as H1.
  destruct (run_steps _ _ fs) as [tr1 [fs1 err1]]. simpl in H1. subst err1.
  match goal with |- context [run_steps ?f ?s fs1] => pose proof (run_steps_no_faults f s fs1 Hf) as H2;
    by destruct (run_steps f s fs1) as [tr2 [fs2 err2]] end.
Qed.

(** The order in which the map is traversed does not matter. *)
Lemma persist_order env filename pending l fs :
  pending_wf pending → map_order pending l →
  persist env filename (pc_message ∘ snd <$> l) fs =
  persist env filename (pending_messages pending) fs.
Proof.
  intros Hwf Hl. unfold persist, sort_commands.
  rewrite (sort_by_perm_eq rev_MessageID String.le (pending_messages pending) (pc_message ∘ snd <$> l));
    [done|by apply pending_messages_NoDup|]. unfold pending_messages. by rewrite Hl.
Qed.

(** What is read back after a successful [persist]. *)
Lemma load_persisted env env' filename messages fs fs' :
  temp_name env ≠ filename → Forall revocation_wf messages → (length messages ≤ 64)%nat →
  (persist env filename messages fs).2 = (fs', None) →
  fault env' FsStat = None → fault env' FsReadFile = None →
  load env' filename fs' = Ok (sort_commands messages).
Proof.
  intros Htemp Hwf Hlen Hrun Hstat Hread. pose proof (persist_spec env filename messages fs Htemp) as Hs.
  cbv zeta in Hs. destruct (persist _ _ _ _) as [tr [fs1 err1]]. simpl in Hrun. simplify_eq.
  destruct Hs as [_ [[Hlive _] _]]. unfold load. rewrite Hstat, Hlive, Hread.
  assert (sort_commands messages ≡ₚ messages) as Hp by apply sort_by_perm.
  assert (Forall revocation_wf (sort_commands messages)) as Hwf' by by rewrite Hp.
  rewrite (proj2 (Z.ltb_ge _ _)); [by apply load_store_bytes|].
  apply store_bytes_len; [done|by rewrite Hp].
Qed.

Lemma open_store_ok env filename now next fs fs' filename' pending next' :
  openPrivateControlCommandStore env filename now next fs = (fs', Ok (filename', pending, next')) →
  filename' = TrimSpace filename ∧ filename' ≠ "" ∧ pending_wf pending ∧ channels_ok next' pending ∧
  (size pending ≤ 64)%nat ∧ (∀ id c, pending !! id = Some c → unexpired now (pc_message c)).
Proof.
  unfold openPrivateControlCommandStore. destruct (String.eqb (TrimSpace filename) "") eqn:Ef; [done|].
  go_bool. destruct (load env (TrimSpace filename) fs) as [commands|e] eqn:El; simpl; [|done].
  assert (Forall revoke_ints commands) as Hints.
  { unfold load in El. repeat case_match; simplify_eq/=; try constructor. by eapply load_data_ints. }
  destruct (open_loop now commands next ∅ false) as [[[p expired] n]|e] eqn:Eo; [|done].
  apply open_loop_sound in Eo as (Hwf & Hch & Hlive); [|exact Hints|..];
    [|intros ??; by rewrite lookup_empty|apply channels_ok_empty|intros ??; by rewrite lookup_empty].
  unfold len_map, privateControlMaxPendingCommands. destruct (64 <? _) eqn:Elim; [done|]. go_bool.
  intros Hrun. assert (TrimSpace filename = filename' ∧ p = pending ∧ n = next') as (<- & -> & ->).
  { destruct expired; [destruct (persist _ _ _ _) as [? [? [?|]]]|]; by simplify_eq/=. }
  split_and!; [done|done|done|done|lia|done].
Qed.

(** ** Properties *)

(** C1: the command store is replaced atomically.  Whatever system call fails
    and wherever a power loss strikes during [persist], the file afterwards is
    what it could have been before or the complete new store (or, on Windows,
    missing).  When [persist] reports success the new store is in place and
    synced, and outside Windows nothing else can survive, unless the directory
    itself is not known to: [persist] may just have made it, and does not sync
    its parent.  When [persist] reports an error the process sees the old file
    or the new one, never a torn one. *)
Theorem persist_atomic env filename messages fs :
  temp_name env ≠ filename →
  let new := store_bytes (sort_commands messages) in
  let '(trace, (fs', err)) := persist env filename messages fs in
  (∀ reached data, reached ∈ trace → survives reached filename data →
     survives fs filename data ∨ data = Some new ∨ windows env = true ∧ data = None) ∧
  match err with
  | None => fs_live fs' !! filename = Some (File new true) ∧
            (windows env = false → ∀ data, survives fs' filename data →
               data = Some new ∨ fs_dir fs ≠ DirDurable ∧ data = None)
  | Some _ => fs_live fs' !! filename = fs_live fs !! filename ∨
              fs_live fs' !! filename = Some (File new true) ∨
              windows env = true ∧ fs_live fs' !! filename = None
  end.
Proof.
  intros Htemp new. pose proof (persist_spec env filename messages fs Htemp) as Hs. cbv zeta in Hs.
  pose proof (persist_dir env filename messages fs) as Hdir.
  pose proof (λ fs', persist_succeeded env filename messages fs fs' Htemp) as Hsucc.
  destruct (persist _ _ _ _) as [tr [fs' err]]. destruct Hs as [Hgood Hpost], Hdir as [Htr Hdir]. split.
  - intros reached data Hin. rewrite Forall_forall in Hgood, Htr. apply persist_good_survives; auto.
  - destruct err as [e|]; [unfold persist_post, staged, committed in Hpost; naive_solver|exact (Hsucc fs' eq_refl)].
Qed.

Definition example_command : privateControlRevokeServiceAdmission :=
  RevokeServiceAdmission privateControlSchemaVersion "revoke_service_admission"
    "AAAAAAAAAAAAAAAAAAAAAA" 7 "svc" "" "acl_removed" 2000.

Definition no_fault_env : fs_env := FsEnv no_faults "/var/.pcl-revocations-1" "" false.

(** The write fails half way. *)
Definition example_full_disk : fs_env :=
  FsEnv (λ call, if decide (call = FsWrite) then Some (Errorf "no space left on device" []) else None)
    "/var/.pcl-revocations-1" "{" false.

Lemma persist_atomic_witness :
  let '(trace, (fs', err)) := persist example_full_disk "/var/store" [example_command] no_files in
  (∀ reached data, reached ∈ trace → survives reached "/var/store" data →
     survives no_files "/var/store" data ∨ data = Some (store_bytes [example_command]) ∨
     false = true ∧ data = None) ∧
  err ≠ None.
Proof.
  pose proof (persist_atomic example_full_disk "/var/store" [example_command] no_files ltac:(done)) as H.
  cbv zeta in H. destruct H as [H _]. split; [exact H|]. discriminate.
Defined.

(** A store in a directory that [persist] has just made is written and
    synced, and a power loss can still take it away. *)
Example fresh_directory :
  let fs' := (persist no_fault_env "/var/store" [example_command] (Files ∅ ∅ DirMissing)).2 in
  fs'.2 = None ∧ survives fs'.1 "/var/store" None.
Proof. split; [by vm_compute|]. apply survives_gone. by vm_compute. Qed.

(** C24: the outbox survives a restart.  After a successful [persist] of a
    well-formed pending map of at most 64 commands, opening the store at any
    later time yields exactly the commands that have not expired, under their
    own message IDs. *)
Theorem store_restart env env' filename pending fs fs' now next :
  pending_wf pending → (size pending ≤ 64)%nat → temp_name env ≠ filename →
  (persist env filename (pending_messages pending) fs).2 = (fs', None) →
  TrimSpace filename = filename → filename ≠ "" → (∀ call, fault env' call = None) →
  ∃ fs'' pending' next',
    openPrivateControlCommandStore env' filename now next fs' = (fs'', Ok (filename, pending', next')) ∧
    ∀ id m, pc_message <$> pending' !! id = Some m ↔
            pc_message <$> pending !! id = Some m ∧ unexpired now m.
Proof.
  intros Hwf Hsize Htemp Hrun Htrim Hne Hok. unfold openPrivateControlCommandStore.
  rewrite Htrim. rewrite (proj2 (String.eqb_neq _ _) Hne).
  rewrite (load_persisted env env' filename (pending_messages pending) fs fs');
    [|done|by apply pending_messages_wf|by rewrite pending_messages_length|done|done|done].
  cbn [result_bind]. set (cmds := sort_commands (pending_messages pending)).
  assert (cmds ≡ₚ pending_messages pending) as Hp by apply sort_by_perm.
  destruct (open_loop_total now cmds next ∅ false) as (pending' & expired & next' & -> & Hspec).
  { rewrite Hp. eapply Forall_impl; [by apply pending_messages_wf|]. by intros m [? _]. }
  { rewrite Hp. by apply pending_messages_NoDup. }
  { intros. by rewrite lookup_empty. }
  assert (Hexact : ∀ id m, pc_message <$> pending' !! id = Some m ↔
                           pc_message <$> pending !! id = Some m ∧ unexpired now m).
  { intros id m. rewrite Hspec, lookup_empty, Hp, pending_messages_elem. split.
    - intros [?|((id' & c & Hc & <-) & Hid & Hu)]; [done|]. destruct (Hwf _ _ Hc) as [Heq _].
      rewrite Hid in Heq. subst id'. by rewrite Hc.
    - intros [Hm Hu]. right. destruct (pending !! id) as [c|] eqn:Hc; simpl in Hm; simplify_eq.
      split; [eauto|]. by destruct (Hwf _ _ Hc). }
  assert (size pending' ≤ 64)%nat as Hsize'.
  { etrans; [|exact Hsize]. rewrite <-!size_dom. apply subseteq_size. intros id [c Hc]%elem_of_dom.
    apply elem_of_dom. destruct (Hexact id (pc_message c)) as [H _]. rewrite Hc in H.
    destruct H as [H _]; [done|]. by destruct (pending !! id). }
  unfold len_map, privateControlMaxPendingCommands.
  rewrite (proj2 (Z.ltb_ge _ _)) by lia. destruct expired; [|by eexists _, _, _].
  pose proof (persist_no_faults env' filename (pending_messages pending') fs' Hok) as Hnf.
  destruct (persist env' _ _ _) as [tr [fs'' err]]. simpl in Hnf |- *. subst err. by eexists _, _, _.
Qed.

Lemma example_command_wf : revocation_wf example_command.
Proof. split; [vm_compute; reflexivity|split; split; done]. Qed.

Definition example_pending : gmap string privateControlPendingCommand :=
  {[ rev_MessageID example_command := PendingCommand example_command 0 ]}.

Lemma example_pending_wf : pending_wf example_pending.
Proof.
  intros id c H. unfold example_pending in H. apply lookup_singleton_Some in H as [<- <-].
  split; [done|]. exact example_command_wf.
Qed.

Lemma store_restart_witness :
  ∃ fs' fs'' pending' next',
    openPrivateControlCommandStore no_fault_env "/var/store" (1000 * Second) 0 fs' =
      (fs'', Ok ("/var/store", pending', next')) ∧
    pc_message <$> pending' !! rev_MessageID example_command = Some example_command.
Proof.
  set (run := (persist no_fault_env "/var/store" (pending_messages example_pending) no_files).2).
  destruct (store_restart no_fault_env no_fault_env "/var/store" example_pending no_files run.1
    (1000 * Second) 0) as (fs'' & pending' & next' & Hopen & Hspec).
  - exact example_pending_wf.
  - apply Nat.leb_le. reflexivity.
  - discriminate.
  - rewrite (surjective_pairing run). unfold run at 2. by rewrite persist_no_faults.
  - reflexivity.
  - discriminate.
  - reflexivity.
  - exists run.1, fs'', pending', next'. split; [exact Hopen|]. apply Hspec. split; reflexivity.
Defined.

(** What is loaded at start is sound.  Whatever the store file holds,
    when opening it succeeds the filename is not blank and every pending
    command is valid, filed under its own message ID, not expired and within
    the limit of 64, with a result channel of its own. *)
Theorem open_store_sound env filename now next fs fs' filename' pending next' :
  openPrivateControlCommandStore env filename now next fs = (fs', Ok (filename', pending, next')) →
  filename' = TrimSpace filename ∧ filename' ≠ "" ∧ pending_wf pending ∧ channels_ok next' pending ∧
  (size pending ≤ 64)%nat ∧ (∀ id c, pending !! id = Some c → unexpired now (pc_message c)).
Proof. apply open_store_ok. Qed.

Lemma open_store_sound_witness :
  openPrivateControlCommandStore no_fault_env " /var/store" 0 5 no_files =
    (no_files, Ok ("/var/store", ∅, 5)) ∧ pending_wf ∅.
Proof.
  assert (openPrivateControlCommandStore no_fault_env " /var/store" 0 5 no_files =
    (no_files, Ok ("/var/store", ∅, 5))) as H by (vm_compute; reflexivity).
  split; [exact H|]. apply (open_store_sound _ _ _ _ _ _ _ _ _ H).
Defined.

Close Scope Z_scope.
