(* ===== verification/Commands.v ===== *)
(** * The command queue

    The revocation queue of [privateControlClient] ([private_control.go]): the
    pending map with its persistent copy, the notification channel of the
    session loop, the result channel of each command, and the frames sent to
    the Relay.

    Every operation below is one critical section of [commandMu]; what
    follows the unlock (the send on the result channel) is included, since no
    other operation touches the channel of a command that left the map. *)

From S2P Require Export Outbox Framing.

Open Scope Z_scope.

Record privateControlCommandResult := CommandResult {
  res_ack : privateControlAck;
  res_err : option error;
}.

(** The mutable part of [privateControlClient].  [cl_results] holds what is
    buffered in the result channels (capacity one), [cl_notify] whether
    [commandNotify] (capacity one) holds a token, [cl_next] numbers the
    channels made; [cl_store] is the filename of [commandStore]. *)
Record privateControlClient := Client {
  cl_pending : gmap string privateControlPendingCommand;
  cl_store : option string;
  cl_notify : bool;
  cl_results : gmap Z privateControlCommandResult;
  cl_next : Z;
  cl_fs : filesystem;
}.

Definition with_pending (pending : gmap string privateControlPendingCommand) (c : privateControlClient) :=
  Client pending (cl_store c) (cl_notify c) (cl_results c) (cl_next c) (cl_fs c).
Definition with_fs (fs : filesystem) (c : privateControlClient) :=
  Client (cl_pending c) (cl_store c) (cl_notify c) (cl_results c) (cl_next c) fs.
Definition with_notify (b : bool) (c : privateControlClient) :=
  Client (cl_pending c) (cl_store c) b (cl_results c) (cl_next c) (cl_fs c).
Definition with_results (r : gmap Z privateControlCommandResult) (c : privateControlClient) :=
  Client (cl_pending c) (cl_store c) (cl_notify c) r (cl_next c) (cl_fs c).
Definition with_next (n : Z) (c : privateControlClient) :=
  Client (cl_pending c) (cl_store c) (cl_notify c) (cl_results c) n (cl_fs c).

(** [select { case command.result <- result: default: }] *)
Definition send_result (channel : Z) (result : privateControlCommandResult) (c : privateControlClient)
    : privateControlClient :=
  match cl_results c !! channel with
  | Some _ => c
  | None => with_results (<[channel := result]> (cl_results c)) c
  end.

(** [c.persistPendingLocked()] *)
Definition persistPendingLocked (env : fs_env) (c : privateControlClient)
    : privateControlClient * option error :=
  match cl_store c with
  | None => (c, None)
  | Some filename =>
      let '(fs', err) := (persist env filename (pending_messages (cl_pending c)) (cl_fs c)).2 in
      (with_fs fs' c, err)
  end.

(** [c.newPendingRevocation(request)]; [raw] is what [rand.Read] filled in,
    or its error. *)
Definition newPendingRevocation (raw : result string)
    (request : managementServiceAdmissionRevocationRequest) (c : privateControlClient)
    : privateControlClient * result privateControlPendingCommand :=
  match raw with
  | Err e => (c, Err e)
  | Ok raw =>
      let message :=
        RevokeServiceAdmission privateControlSchemaVersion "revoke_service_admission"
          (newPrivateControlID raw) (rr_ChannelID request) (rr_ServiceID request)
          (rr_GrantIDHash request) (rr_Reason request) (rr_DenyUntil request) in
      (with_next (cl_next c + 1) c,
       if validPrivateControlRevocation message then Ok (PendingCommand message (cl_next c))
       else Err (Errorf "invalid Service Admission revocation command" []))
  end.

Definition err_queue_full : error := Errorf "Private Control Link command queue is full" [].
Definition err_invalid_command : error := Errorf "invalid Private Control Link command" [].
Definition err_already_pending : error :=
  Errorf "Private Control Link command message ID is already pending" [].
Definition err_duplicate_in_batch : error :=
  Errorf "Private Control Link command batch contains a duplicate message ID" [].

(** The first loop of [enqueuePendingCommands]; nil pointers are [None]. *)
Fixpoint check_batch (pending : gmap string privateControlPendingCommand) (seen : gset string)
    (commands : list (option privateControlPendingCommand)) : result (list privateControlPendingCommand) :=
  match commands with
  | [] => Ok []
  | None :: _ => Err err_invalid_command
  | Some command :: commands =>
      let id := rev_MessageID (pc_message command) in
      if negb (validPrivateControlRevocation (pc_message command)) then Err err_invalid_command
      else if bool_decide (is_Some (pending !! id)) then Err err_already_pending
      else if bool_decide (id ∈ seen) then Err err_duplicate_in_batch
      else try rest <- check_batch pending ({[id]} ∪ seen) commands; Ok (command :: rest)
  end.

(** The second loop, and the rollback over [added]. *)
Definition add_all (commands : list privateControlPendingCommand)
    (pending : gmap string privateControlPendingCommand) : gmap string privateControlPendingCommand :=
  foldl (λ m command, <[rev_MessageID (pc_message command) := command]> m) pending commands.

Definition delete_all (added : list string) (pending : gmap string privateControlPendingCommand)
    : gmap string privateControlPendingCommand :=
  foldl (λ m id, delete id m) pending added.

(** [c.enqueuePendingCommands(commands)] *)
Definition enqueuePendingCommands (env : fs_env) (commands : list (option privateControlPendingCommand))
    (c : privateControlClient) : privateControlClient * option error :=
  match commands with
  | [] => (c, None)
  | _ =>
      if privateControlMaxPendingCommands <? len_map (cl_pending c) + Z.of_nat (length commands)
      then (c, Some err_queue_full)
      else match check_batch (cl_pending c) ∅ commands with
           | Err e => (c, Some e)
           | Ok commands =>
               let added := (λ command, rev_MessageID (pc_message command)) <$> commands in
               match persistPendingLocked env (with_pending (add_all commands (cl_pending c)) c) with
               | (c', Some e) => (with_pending (delete_all added (cl_pending c')) c', Some e)
               | (c', None) => (with_notify true c', None)
               end
           end
  end.

(** [c.enqueuePendingCommand(command)] *)
Definition enqueuePendingCommand (env : fs_env) (command : option privateControlPendingCommand)
    (c : privateControlClient) : privateControlClient * option error :=
  enqueuePendingCommands env [command] c.

(** [c.pendingCommands()]; [order] is the iteration order of the map. *)
Definition pendingCommands (order : list (string * privateControlPendingCommand))
    : list privateControlPendingCommand := order.*2.

(** [c.completePendingCommand(messageID, result)] *)
Definition completePendingCommand (env : fs_env) (messageID : string)
    (result : privateControlCommandResult) (c : privateControlClient)
    : privateControlClient * (bool * option error) :=
  match cl_pending c !! messageID with
  | None => (c, (false, None))
  | Some command =>
      match persistPendingLocked env (with_pending (delete messageID (cl_pending c)) c) with
      | (c', Some e) => (with_pending (<[messageID := command]> (cl_pending c')) c', (true, Some e))
      | (c', None) => (send_result (pc_result command) result c', (true, None))
      end
  end.

(** [c.completePendingAcknowledgement(response)] *)
Definition completePendingAcknowledgement (env : fs_env) (response : privateControlAck)
    (c : privateControlClient) : privateControlClient * (bool * option error) :=
  match cl_pending c !! ack_InReplyTo response with
  | None => (c, (false, None))
  | Some command =>
      if negb (rev_DenyUntil (pc_message command) =? ack_DenyUntil response) then (c, (false, None))
      else
        match persistPendingLocked env (with_pending (delete (ack_InReplyTo response) (cl_pending c)) c) with
        | (c', Some e) =>
            (with_pending (<[ack_InReplyTo response := command]> (cl_pending c')) c', (true, Some e))
        | (c', None) =>
            (send_result (pc_result command) (CommandResult response None) c', (true, None))
        end
  end.

(** [c.queueServiceAdmissionRevocations(requests)]: one identifier for each
    request. *)
Fixpoint new_batch (raws : list (result string))
    (requests : list managementServiceAdmissionRevocationRequest) (c : privateControlClient)
    : privateControlClient * result (list (option privateControlPendingCommand)) :=
  match requests with
  | [] => (c, Ok [])
  | request :: requests =>
      match newPendingRevocation (default (Ok "") (head raws)) request c with
      | (c', Err e) => (c', Err e)
      | (c', Ok command) =>
          let '(c'', rest) := new_batch (tail raws) requests c' in
          (c'', try rest <- rest; Ok (Some command :: rest))
      end
  end.

Definition queueServiceAdmissionRevocations (env : fs_env) (raws : list (result string))
    (requests : list managementServiceAdmissionRevocationRequest) (c : privateControlClient)
    : privateControlClient * option error :=
  match new_batch raws requests c with
  | (c', Err e) => (c', Some e)
  | (c', Ok commands) => enqueuePendingCommands env commands c'
  end.

(** [c.queueServiceAdmissionRevocation(request)] *)
Definition queueServiceAdmissionRevocation (env : fs_env) (raw : result string)
    (request : managementServiceAdmissionRevocationRequest) (c : privateControlClient)
    : privateControlClient * result string :=
  match newPendingRevocation raw request c with
  | (c', Err e) => (c', Err e)
  | (c', Ok command) =>
      match enqueuePendingCommands env [Some command] c' with
      | (c'', Some e) => (c'', Err e)
      | (c'', None) => (c'', Ok (rev_MessageID (pc_message command)))
      end
  end.

(** ** Sending *)

Definition err_deadline_elapsed : error :=
  Errorf "Service Admission revocation deadline elapsed before Relay acknowledgement" [].

Section send.
Context {W : Type} (Write : W → string → W * (Z * option error)).

(** The loop of [sendPendingCommands] over the commands of the snapshot it
    took; [envs] gives the operating system's behaviour for each completion.
    [None] is a panic of the writer loop. *)
Fixpoint send_loop (now : Z) (envs : string → fs_env) (commands : list privateControlPendingCommand)
    (w : W) (sent : gset string) (c : privateControlClient)
    : option (W * gset string * privateControlClient * option error) :=
  match commands with
  | [] => Some (w, sent, c, None)
  | command :: commands =>
      let id := rev_MessageID (pc_message command) in
      if bool_decide (id ∈ sent) then send_loop now envs commands w sent c
      else if rev_DenyUntil (pc_message command) <=? now then
        match completePendingCommand (envs id) id
                (CommandResult zero_ack (Some err_deadline_elapsed)) c with
        | (c', (_, Some e)) => Some (w, sent, c', Some e)
        | (c', (_, None)) => send_loop now envs commands w sent c'
        end
      else
        '(w', err) ← writePrivateControlFrame Write w (revoke_json (pc_message command));
        match err with
        | Some e => Some (w', sent, c, Some e)
        | None => send_loop now envs commands w' ({[id]} ∪ sent) c
        end
  end.

(** [c.sendPendingCommands(connection, sent)] *)
Definition sendPendingCommands (now : Z) (envs : string → fs_env)
    (order : list (string * privateControlPendingCommand)) (w : W) (sent : gset string)
    (c : privateControlClient) : option (W * gset string * privateControlClient * option error) :=
  send_loop (Unix now) envs (pendingCommands order) w sent c.
End send.

(** ** Specification *)

(** The ID of a command. *)
Definition command_id (command : privateControlPendingCommand) : string :=
  rev_MessageID (pc_message command).

(** A batch that [enqueuePendingCommands] admits. *)
Definition admissible (pending : gmap string privateControlPendingCommand)
    (commands : list privateControlPendingCommand) : Prop :=
  Forall (λ cmd, validPrivateControlRevocation (pc_message cmd) = true ∧
                 pending !! command_id cmd = None) commands ∧
  NoDup (command_id <$> commands).

(** The file holds exactly the pending map. *)
Definition stored (c : privateControlClient) : Prop :=
  match cl_store c with
  | None => True
  | Some filename =>
      fs_live (cl_fs c) !! filename =
      Some (File (store_bytes (sort_commands (pending_messages (cl_pending c)))) true)
  end.

(** The temporary file of a [persist] is not the store file. *)
Definition env_ok (env : fs_env) (c : privateControlClient) : Prop :=
  match cl_store c with None => True | Some filename => temp_name env ≠ filename end.

(** ** Lemmas *)

Lemma check_batch_spec pending seen commands :
  match check_batch pending seen commands with
  | Ok cmds => commands = Some <$> cmds ∧ admissible pending cmds ∧
               (∀ cmd, cmd ∈ cmds → command_id cmd ∉ seen)
  | Err _ => ¬ ∃ cmds, commands = Some <$> cmds ∧ admissible pending cmds ∧
                       (∀ cmd, cmd ∈ cmds → command_id cmd ∉ seen)
  end.
Proof.
  revert seen. induction commands as [|[cmd|] commands IH]; intros seen; cbn [check_batch].
  { split_and!; [done|split; constructor|set_solver]. }
  2: { by intros ([|? ?] & ? & _). }
  assert (Hhead : (∃ cmds, Some cmd :: commands = Some <$> cmds ∧ admissible pending cmds ∧
                           (∀ cmd, cmd ∈ cmds → command_id cmd ∉ seen)) →
    validPrivateControlRevocation (pc_message cmd) = true ∧
    pending !! command_id cmd = None ∧ command_id cmd ∉ seen).
  { intros ([|c0 cmds] & Heq & [Hall _] & Hseen); [done|]. rewrite fmap_cons in Heq.
    simplify_eq. apply Forall_cons in Hall as [[? ?] _]. split_and!; [done|done|]. set_solver. }
  fold (command_id cmd).
  destruct (validPrivateControlRevocation (pc_message cmd)) eqn:Hv; cbn [negb];
    [|by intros (? & _)%Hhead].
  case_bool_decide as Hp; [intros (_ & Hn & _)%Hhead; rewrite Hn in Hp; by destruct Hp|].
  case_bool_decide as Hs; [by intros (_ & _ & ?)%Hhead|].
  apply eq_None_not_Some in Hp. specialize (IH ({[command_id cmd]} ∪ seen)).
  destruct (check_batch _ _ commands) as [cmds|e]; cbn [result_bind].
  - destruct IH as (-> & [Hall Hnd] & Hnew). split_and!; [done| |set_solver]. split.
    + by constructor.
    + rewrite fmap_cons. apply NoDup_cons. split; [|done]. intros (x & Hx & Hin)%list_elem_of_fmap.
      specialize (Hnew x Hin). set_solver.
  - intros ([|c0 cmds] & Heq & [Hall Hnd] & Hseen); [done|]. rewrite fmap_cons in Heq. simplify_eq.
    apply IH. exists cmds. apply Forall_cons in Hall as [_ Hall]. rewrite fmap_cons, NoDup_cons in Hnd.
    destruct Hnd as [Hnew Hnd]. split_and!; [done|by split|]. intros x Hx.
    apply not_elem_of_union. split; [|set_solver]. apply not_elem_of_singleton. intros Heq.
    apply Hnew. rewrite <-Heq. by apply list_elem_of_fmap_2.
Qed.

Lemma add_all_lookup commands pending id cmd :
  NoDup (command_id <$> commands) → (∀ x, x ∈ commands → pending !! command_id x = None) →
  add_all commands pending !! id = Some cmd ↔
  pending !! id = Some cmd ∨ (cmd ∈ commands ∧ command_id cmd = id).
Proof.
  unfold add_all. revert pending. induction commands as [|x commands IH]; intros pending.
  { intros _ _. simpl. set_solver. }
  rewrite fmap_cons, NoDup_cons. intros [Hx Hnd] Hnew. simpl. rewrite IH; [|done|].
  - fold (command_id x). rewrite lookup_insert_Some, elem_of_cons.
    split.
    + intros [[[<- <-]|[_ ?]]|[? ?]]; [right; auto|by left|right; auto].
    + intros [Hp|[[->|Hin] <-]]; [|by left; left|by right].
      left; right. split; [|done]. intros <-. by rewrite (Hnew x) in Hp by set_solver.
  - intros y Hy. fold (command_id x). rewrite lookup_insert_ne; [set_solver|].
    intros Heq. apply Hx. rewrite Heq. by apply list_elem_of_fmap_2.
Qed.

Lemma add_all_size commands pending :
  NoDup (command_id <$> commands) → (∀ x, x ∈ commands → pending !! command_id x = None) →
  size (add_all commands pending) = (size pending + length commands)%nat.
Proof.
  unfold add_all. revert pending. induction commands as [|x commands IH]; intros pending; simpl; [lia|].
  rewrite NoDup_cons. intros [Hx Hnd] Hnew. rewrite IH; [|done|].
  - rewrite map_size_insert_None by (apply Hnew; set_solver). lia.
  - intros y Hy. fold (command_id x). rewrite lookup_insert_ne; [set_solver|].
    intros Heq. apply Hx. rewrite Heq. by apply list_elem_of_fmap_2.
Qed.

Lemma delete_all_lookup added pending id :
  delete_all added pending !! id = if decide (id ∈ added) then None else pending !! id.
Proof.
  unfold delete_all. revert pending. induction added as [|x added IH]; intros pending; cbn [foldl].
  { by rewrite decide_False by set_solver. }
  rewrite IH. destruct (decide (id ∈ added)) as [H|H].
  - by rewrite decide_True by set_solver.
  - destruct (decide (x = id)) as [->|Hne].
    + rewrite lookup_delete_eq. by rewrite decide_True by set_solver.
    + rewrite lookup_delete_ne by done. by rewrite decide_False by set_solver.
Qed.

(** The rollback undoes the additions. *)
Lemma delete_added commands pending :
  admissible pending commands →
  delete_all (command_id <$> commands) (add_all commands pending) = pending.
Proof.
  intros [Hall Hnd]. rewrite Forall_forall in Hall.
  assert (∀ x, x ∈ commands → pending !! command_id x = None) as Hnew by (intros; by apply Hall).
  apply map_eq. intros id. rewrite delete_all_lookup. case_decide as Hid.
  - apply list_elem_of_fmap in Hid as (x & -> & Hx). symmetry. auto.
  - apply option_eq. intros cmd. rewrite add_all_lookup by done. split; [|by left].
    intros [?|[Hin <-]]; [done|]. by destruct Hid; apply list_elem_of_fmap_2.
Qed.

Lemma persistPendingLocked_spec env c c' err :
  env_ok env c → persistPendingLocked env c = (c', err) →
  ∃ fs', c' = with_fs fs' c ∧ (err = None → stored c').
Proof.
  unfold env_ok, persistPendingLocked, stored. intros Henv.
  destruct (cl_store c) as [filename|] eqn:Est.
  - pose proof (persist_spec env filename (pending_messages (cl_pending c)) (cl_fs c) Henv) as Hs.
    cbv zeta in Hs. destruct (persist _ _ _ _) as [tr [fs' e]]. destruct Hs as [_ Hpost].
    intros [= <- <-]. exists fs'. split; [done|]. simpl. rewrite Est. intros ->. apply Hpost.
  - intros [= <- <-]. exists (cl_fs c). split; [by destruct c|]. by rewrite Est.
Qed.

(** What a failing rewrite of the file for [pending] leaves. *)
Definition store_left (env : fs_env) (pending : gmap string privateControlPendingCommand)
    (c c' : privateControlClient) : Prop :=
  match cl_store c with
  | None => cl_fs c' = cl_fs c
  | Some filename =>
      old_or_new env filename (store_bytes (sort_commands (pending_messages pending))) (cl_fs c) (cl_fs c')
  end.

Lemma persistPendingLocked_failed env c c' e :
  env_ok env c → persistPendingLocked env c = (c', Some e) → store_left env (cl_pending c) c c'.
Proof.
  unfold env_ok, persistPendingLocked, store_left. intros Henv.
  destruct (cl_store c) as [filename|]; [|done].
  destruct (persist _ _ _ _).2 as [fs' err] eqn:Ep. intros [= <- ->]. by apply persist_failed in Ep.
Qed.

Lemma with_pending_self c : with_pending (cl_pending c) c = c.
Proof. by destruct c. Qed.

(** The queue without [id] can be stored. *)
Definition removal_stored (env : fs_env) (id : string) (c : privateControlClient) : Prop :=
  (persistPendingLocked env (with_pending (delete id (cl_pending c)) c)).2 = None.

(** ** The invariant of the client *)

(** The queue is well formed and within its limit, every result channel in use
    belongs to one command, and the channel of a pending command is empty. *)
Record client_ok (c : privateControlClient) : Prop := ClientOk {
  ok_pending : pending_wf (cl_pending c);
  ok_size : (size (cl_pending c) ≤ 64)%nat;
  ok_channels : channels_ok (cl_next c) (cl_pending c);
  ok_empty : ∀ id cmd, cl_pending c !! id = Some cmd → cl_results c !! pc_result cmd = None;
  ok_buffered : ∀ ch r, cl_results c !! ch = Some r → ch < cl_next c;
}.

(** Commands made by [newPendingRevocation] and not queued yet. *)
Definition fresh_commands (c : privateControlClient) (commands : list privateControlPendingCommand) : Prop :=
  Forall (λ cmd, revoke_ints (pc_message cmd) ∧ pc_result cmd < cl_next c ∧
                 cl_results c !! pc_result cmd = None ∧
                 ∀ id p, cl_pending c !! id = Some p → pc_result p ≠ pc_result cmd) commands ∧
  NoDup (pc_result <$> commands).

Lemma client_ok_eq c c' :
  cl_pending c' = cl_pending c → cl_results c' = cl_results c → cl_next c' = cl_next c →
  client_ok c → client_ok c'.
Proof. intros Hp Hr Hn [H1 H2 H3 H4 H5]. constructor; by rewrite ?Hp, ?Hr, ?Hn. Qed.

Lemma client_ok_with_next c n : cl_next c ≤ n → client_ok c → client_ok (with_next n c).
Proof.
  intros Hn [H1 H2 [H3 H3'] H4 H5]. constructor; simpl; [done|done| |done|].
  - split; [|done]. intros id cmd Hc. specialize (H3 id cmd Hc). lia.
  - intros ch r Hr. specialize (H5 ch r Hr). lia.
Qed.

Lemma client_ok_add c commands :
  client_ok c → admissible (cl_pending c) commands → fresh_commands c commands →
  (size (cl_pending c) + length commands ≤ 64)%nat →
  client_ok (with_pending (add_all commands (cl_pending c)) c).
Proof.
  intros [H1 H2 [H3 H3'] H4 H5] [Hall Hnd] [Hfresh Hch] Hsize. rewrite Forall_forall in Hall, Hfresh.
  assert (Hnew : ∀ x, x ∈ commands → cl_pending c !! command_id x = None) by (intros; by apply Hall).
  constructor; simpl.
  - intros id cmd. rewrite add_all_lookup by done. intros [?|[Hin <-]]; [eauto|].
    destruct (Hall cmd Hin) as [Hv _]. destruct (Hfresh cmd Hin) as ([] & _). by split.
  - by rewrite add_all_size.
  - split.
    + intros id cmd. rewrite add_all_lookup by done. intros [?|[Hin <-]]; [eauto|].
      by destruct (Hfresh cmd Hin) as (_ & ? & _).
    + intros id1 c1 id2 c2. rewrite !add_all_lookup by done.
      intros [Hc1|[Hin1 <-]] [Hc2|[Hin2 <-]] Heq; [eauto|..].
      * destruct (Hfresh c2 Hin2) as (_ & _ & _ & Hne). by destruct (Hne id1 c1 Hc1).
      * destruct (Hfresh c1 Hin1) as (_ & _ & _ & Hne). by destruct (Hne id2 c2 Hc2).
      * apply list_elem_of_lookup in Hin1 as [i Hi], Hin2 as [j Hj].
        assert (i = j) as ->; [|congruence].
        apply (NoDup_lookup _ i j (pc_result c1) Hch); rewrite list_lookup_fmap; [by rewrite Hi|].
        by rewrite Hj, Heq.
  - intros id cmd. rewrite add_all_lookup by done. intros [?|[Hin <-]]; [eauto|].
    by destruct (Hfresh cmd Hin) as (_ & _ & ? & _).
  - done.
Qed.

(** Taking a command out and answering it. *)
Lemma client_ok_complete c id cmd result :
  client_ok c → cl_pending c !! id = Some cmd →
  let c' := send_result (pc_result cmd) result (with_pending (delete id (cl_pending c)) c) in
  client_ok c' ∧ cl_results c' = <[pc_result cmd := result]> (cl_results c).
Proof.
  intros [H1 H2 H3 H4 H5] Hid. unfold send_result. simpl. rewrite (H4 id cmd Hid). split; [|done].
  constructor; simpl.
  - by apply pending_wf_delete.
  - rewrite map_size_delete. destruct (_ !! _); simpl; lia.
  - by apply channels_ok_delete.
  - intros id' cmd' [Hne H]%lookup_delete_Some. rewrite lookup_insert_ne; [eauto|].
    intros Heq. apply Hne. destruct H3 as [_ Hinj]. by eapply Hinj.
  - intros ch r [[<- _]|[_ Hr]]%lookup_insert_Some; [|eauto]. destruct H3 as [Hlt _]. eauto.
Qed.

(** *** enqueuePendingCommands *)

(** Everything but the queue, its file and the token is unchanged. *)
Definition same_client (c c' : privateControlClient) : Prop :=
  cl_store c' = cl_store c ∧ cl_results c' = cl_results c ∧ cl_next c' = cl_next c.

Lemma enqueue_spec env commands c :
  env_ok env c → commands ≠ [] →
  let '(c', err) := enqueuePendingCommands env commands c in
  same_client c c' ∧
  match err with
  | Some _ => cl_pending c' = cl_pending c ∧ cl_notify c' = cl_notify c
  | None => ∃ cmds, commands = Some <$> cmds ∧ admissible (cl_pending c) cmds ∧
              (size (cl_pending c) + length cmds ≤ 64)%nat ∧
              cl_pending c' = add_all cmds (cl_pending c) ∧ cl_notify c' = true ∧ stored c'
  end.
Proof.
  intros Henv Hne. unfold enqueuePendingCommands. destruct commands as [|x xs]; [done|].
  set (commands := x :: xs). clearbody commands. clear Hne.
  unfold len_map, privateControlMaxPendingCommands. destruct (64 <? _) eqn:Efull; [by split|]. go_bool.
  pose proof (check_batch_spec (cl_pending c) ∅ commands) as Hb.
  destruct (check_batch _ _ _) as [cmds|e]; [|by split]. destruct Hb as (-> & Hadm & _).
  destruct (persistPendingLocked env (with_pending (add_all cmds (cl_pending c)) c)) as [c1 err] eqn:Ep.
  apply persistPendingLocked_spec in Ep as (fs' & -> & Hst); [|done].
  destruct err as [e|]; simpl; (split; [done|]).
  - split; [|done]. by apply (delete_added cmds).
  - exists cmds. rewrite length_fmap in Efull. split_and!; [done|done|lia|done|done|]. by apply Hst.
Qed.

(** A refused batch leaves the file alone, or what its failed write left. *)
Lemma enqueue_refused env commands c c' e :
  env_ok env c → enqueuePendingCommands env commands c = (c', Some e) →
  cl_fs c' = cl_fs c ∨
  ∃ cmds, commands = Some <$> cmds ∧ admissible (cl_pending c) cmds ∧
    (size (cl_pending c) + length cmds ≤ 64)%nat ∧ store_left env (add_all cmds (cl_pending c)) c c'.
Proof.
  intros Henv. unfold enqueuePendingCommands. destruct commands as [|x xs]; [done|].
  set (commands := x :: xs). clearbody commands.
  unfold len_map, privateControlMaxPendingCommands. destruct (64 <? _) eqn:Efull; [intros [= <- _]; by left|].
  pose proof (check_batch_spec (cl_pending c) ∅ commands) as Hb.
  destruct (check_batch _ _ _) as [cmds|e']; [|intros [= <- _]; by left]. destruct Hb as (-> & Hadm & _).
  destruct (persistPendingLocked env (with_pending (add_all cmds (cl_pending c)) c)) as [c1 [e1|]] eqn:Ep; [|done].
  intros [= <- _]. right. exists cmds. go_bool. rewrite length_fmap in Efull.
  apply persistPendingLocked_failed in Ep; [|done]. split_and!; [done|done|lia|]. exact Ep.
Qed.

(** An accepted batch is on the disk with the rest of the queue. *)
Lemma enqueue_durable env commands c c' filename :
  env_ok env c → commands ≠ [] → enqueuePendingCommands env commands c = (c', None) →
  cl_store c = Some filename → fs_dir (cl_fs c) = DirDurable → windows env = false →
  ∀ data, survives (cl_fs c') filename data →
    data = Some (store_bytes (sort_commands (pending_messages (cl_pending c')))).
Proof.
  intros Henv Hne. unfold enqueuePendingCommands. destruct commands as [|x xs]; [done|].
  set (commands := x :: xs). clearbody commands.
  destruct (_ <? _); [done|]. destruct (check_batch _ _ _) as [cmds|e']; [|done].
  unfold persistPendingLocked, env_ok in *. intros Hrun Hstore Hdir Hwin. rewrite Hstore in Henv.
  cbn [cl_store with_pending cl_pending cl_fs] in Hrun. rewrite Hstore in Hrun.
  destruct (persist env filename _ _).2 as [fs' [e|]] eqn:Ep; [done|]. injection Hrun as <-.
  apply persist_succeeded in Ep as [_ Hs]; [|done]. intros data Hd.
  by destruct (Hs Hwin data Hd) as [|[? _]].
Qed.

(** The outcome is an error exactly for an inadmissible batch or a failing
    file system. *)
Lemma enqueue_accepts env cmds c :
  cmds ≠ [] → (size (cl_pending c) + length cmds ≤ 64)%nat → admissible (cl_pending c) cmds →
  (enqueuePendingCommands env (Some <$> cmds) c).2 =
  (persistPendingLocked env (with_pending (add_all cmds (cl_pending c)) c)).2.
Proof.
  intros Hne Hsize Hadm. unfold enqueuePendingCommands.
  destruct (Some <$> cmds) as [|x xs] eqn:E; [by destruct cmds|]. rewrite <-E.
  unfold len_map, privateControlMaxPendingCommands. rewrite length_fmap.
  rewrite (proj2 (Z.ltb_ge _ _)) by lia.
  pose proof (check_batch_spec (cl_pending c) ∅ (Some <$> cmds)) as Hb.
  destruct (check_batch _ _ _) as [cmds'|e].
  - destruct Hb as (Heq & _ & _). apply list_fmap_eq_inj in Heq; [|apply _]. subst cmds'.
    by destruct (persistPendingLocked _ _) as [? [?|]].
  - destruct Hb. exists cmds. split_and!; [done|done|set_solver].
Qed.

(** *** completePendingCommand and completePendingAcknowledgement *)

(** Taking [id] out of the queue with [result]: done with its file rewritten,
    or undone. *)
Definition completes (id : string) (result : privateControlCommandResult)
    (c c' : privateControlClient) (err : option error) : Prop :=
  ∃ cmd, cl_pending c !! id = Some cmd ∧
    cl_store c' = cl_store c ∧ cl_next c' = cl_next c ∧ cl_notify c' = cl_notify c ∧
    match err with
    | Some _ => cl_pending c' = cl_pending c ∧ cl_results c' = cl_results c
    | None => cl_pending c' = delete id (cl_pending c) ∧
              cl_results c' = <[pc_result cmd := result]> (cl_results c) ∧ stored c'
    end.

Lemma persist_then_answer env id cmd result c c1 err :
  client_ok c → env_ok env c → cl_pending c !! id = Some cmd →
  persistPendingLocked env (with_pending (delete id (cl_pending c)) c) = (c1, err) →
  completes id result c
    (match err with
     | Some _ => with_pending (<[id := cmd]> (cl_pending c1)) c1
     | None => send_result (pc_result cmd) result c1
     end) err.
Proof.
  intros Hok Henv Hid Hp. apply persistPendingLocked_spec in Hp as (fs' & -> & Hst); [|done].
  exists cmd. destruct err as [e|]; simpl.
  - split_and!; try done. by rewrite insert_delete_id.
  - unfold send_result. simpl. rewrite (ok_empty c Hok id cmd Hid). specialize (Hst eq_refl).
    by split_and!.
Qed.

Lemma completePendingCommand_spec env id result c :
  client_ok c → env_ok env c →
  let '(c', (found, err)) := completePendingCommand env id result c in
  if found then completes id result c c' err
  else c' = c ∧ err = None ∧ cl_pending c !! id = None.
Proof.
  intros Hok Henv. unfold completePendingCommand.
  destruct (cl_pending c !! id) as [cmd|] eqn:Hid; [|done].
  destruct (persistPendingLocked env _) as [c1 err] eqn:Ep.
  pose proof (persist_then_answer env id cmd result c c1 err Hok Henv Hid Ep) as H.
  by destruct err.
Qed.

Lemma completePendingAcknowledgement_spec env response c :
  client_ok c → env_ok env c →
  let '(c', (found, err)) := completePendingAcknowledgement env response c in
  if found then completes (ack_InReplyTo response) (CommandResult response None) c c' err ∧
                rev_DenyUntil ∘ pc_message <$> cl_pending c !! ack_InReplyTo response =
                Some (ack_DenyUntil response)
  else c' = c ∧ err = None ∧
       rev_DenyUntil ∘ pc_message <$> cl_pending c !! ack_InReplyTo response ≠
       Some (ack_DenyUntil response).
Proof.
  intros Hok Henv. unfold completePendingAcknowledgement.
  destruct (cl_pending c !! ack_InReplyTo response) as [cmd|] eqn:Hid; [|done].
  destruct (rev_DenyUntil (pc_message cmd) =? ack_DenyUntil response) eqn:Ed; go_bool; simpl;
    [|split_and!; [done|done|congruence]].
  destruct (persistPendingLocked env _) as [c1 err] eqn:Ep.
  pose proof (persist_then_answer env (ack_InReplyTo response) cmd (CommandResult response None)
    c c1 err Hok Henv Hid Ep) as H.
  destruct err; split; first [exact H|simpl; congruence].
Qed.

(** When a completion is stored, and what it leaves when it is not. *)
Lemma completePendingCommand_exact env id result c :
  env_ok env c →
  let '(c', (found, err)) := completePendingCommand env id result c in
  (found = true ∧ err = None ↔ is_Some (cl_pending c !! id) ∧ removal_stored env id c) ∧
  (err ≠ None → is_Some (cl_pending c !! id) ∧ store_left env (delete id (cl_pending c)) c c').
Proof.
  intros Henv. unfold completePendingCommand, removal_stored.
  destruct (cl_pending c !! id) as [cmd|] eqn:Hid; [|split; [|done]; split; [by intros [? _]|by intros [[? [=]] _]]].
  destruct (persistPendingLocked env _) as [c1 [e|]] eqn:Ep; simpl.
  - split; [by split; intros [_ ?]|]. intros _. split; [by eexists|].
    by apply persistPendingLocked_failed in Ep.
  - split; [|done]. by split_and!; [intros _; split; [eexists|]|].
Qed.

Lemma completePendingAcknowledgement_exact env response c :
  env_ok env c →
  let '(c', (found, err)) := completePendingAcknowledgement env response c in
  (found = true ∧ err = None ↔
     (∃ cmd, cl_pending c !! ack_InReplyTo response = Some cmd ∧
             rev_DenyUntil (pc_message cmd) = ack_DenyUntil response) ∧
     removal_stored env (ack_InReplyTo response) c) ∧
  (err ≠ None → is_Some (cl_pending c !! ack_InReplyTo response) ∧
     store_left env (delete (ack_InReplyTo response) (cl_pending c)) c c').
Proof.
  intros Henv. unfold completePendingAcknowledgement, removal_stored.
  destruct (cl_pending c !! ack_InReplyTo response) as [cmd|] eqn:Hid;
    [|split; [|done]; split; [by intros [? _]|by intros [(? & [=] & _) _]]].
  destruct (rev_DenyUntil (pc_message cmd) =? ack_DenyUntil response) eqn:Ed; cbn [negb]; go_bool;
    [|split; [|done]; split; [by intros [? _]|by intros [(? & [= <-] & ?) _]]].
  destruct (persistPendingLocked env _) as [c1 [e|]] eqn:Ep; simpl.
  - split; [by split; intros [_ ?]|]. intros _. split; [by eexists|].
    by apply persistPendingLocked_failed in Ep.
  - split; [|done]. by split_and!; [intros _; split; [eexists|]|].
Qed.

Lemma completes_ok id result c c' err : client_ok c → completes id result c c' err → client_ok c'.
Proof.
  intros Hok (cmd & Hid & Hst & Hn & _ & H).
  destruct err as [e|]; destruct H as (Hp & Hr & _) || destruct H as (Hp & Hr).
  - by apply (client_ok_eq c).
  - destruct (client_ok_complete c id cmd result Hok Hid) as [Hok' Hr'].
    eapply client_ok_eq; [| | |exact Hok'].
    + rewrite Hp. unfold send_result. by case_match.
    + by rewrite Hr, Hr'.
    + rewrite Hn. unfold send_result. by case_match.
Qed.

(** *** newPendingRevocation and the queueing operations *)

(** The integers of a request are within the widths of their types. *)
Definition request_ints (r : managementServiceAdmissionRevocationRequest) : Prop :=
  is_u32 (rr_ChannelID r) ∧ is_i64 (rr_DenyUntil r).

Lemma fresh_commands_next c n commands :
  client_ok c → cl_next c ≤ n → fresh_commands c commands → fresh_commands (with_next n c) commands.
Proof.
  intros Hok Hn [Hall Hnd]. split; [|done]. eapply Forall_impl; [exact Hall|].
  intros cmd (? & ? & ? & ?). simpl. split_and!; [done|lia|done|done].
Qed.

(** The messages of a batch, in order: each carries its request and an
    identifier made from random bytes. *)
Definition command_for (cmd : privateControlPendingCommand)
    (r : managementServiceAdmissionRevocationRequest) : Prop :=
  rev_ChannelID (pc_message cmd) = rr_ChannelID r ∧ rev_ServiceID (pc_message cmd) = rr_ServiceID r ∧
  rev_GrantIDHash (pc_message cmd) = rr_GrantIDHash r ∧ rev_Reason (pc_message cmd) = rr_Reason r ∧
  rev_DenyUntil (pc_message cmd) = rr_DenyUntil r.

Lemma new_batch_spec raws requests c :
  client_ok c → Forall request_ints requests →
  let '(c', r) := new_batch raws requests c in
  (∃ n, cl_next c ≤ n ∧ c' = with_next n c) ∧
  match r with
  | Ok commands => ∃ cmds, commands = Some <$> cmds ∧ fresh_commands c' cmds ∧
                     Forall (λ cmd, cl_next c ≤ pc_result cmd) cmds ∧
                     Forall2 command_for cmds requests
  | Err _ => True
  end.
Proof.
  intros Hok Hints. revert raws c Hok. induction Hints as [|request requests Hr Hints IH]; intros raws c Hok.
  { split; [exists (cl_next c); split; [lia|by destruct c]|]. exists [].
    split_and!; [done|split; constructor|constructor|constructor]. }
  cbn [new_batch]. destruct (default (Ok "") (head raws)) as [raw|e]; simpl.
  2: { split; [|done]. exists (cl_next c). split; [lia|by destruct c]. }
  set (message := RevokeServiceAdmission _ _ _ _ _ _ _ _).
  destruct (validPrivateControlRevocation message) eqn:Hv.
  2: { split; [|done]. exists (cl_next c + 1). split; [lia|done]. }
  set (c1 := with_next (cl_next c + 1) c).
  assert (client_ok c1) as Hok1 by (apply client_ok_with_next; [lia|done]).
  specialize (IH (tail raws) c1 Hok1). destruct (new_batch (tail raws) requests c1) as [c' r].
  destruct IH as [(n & Hn & ->) IH]. simpl in Hn. split; [exists n; split; [lia|done]|].
  destruct r as [commands|e]; simpl; [|done].
  destruct IH as (cmds & -> & [Hall Hnd] & Hge & Hfor). simpl in Hge.
  exists (PendingCommand message (cl_next c) :: cmds). split_and!.
  - done.
  - split.
    + constructor; [|done]. simpl. destruct Hok as [_ _ [Hlt _] _ Hbuf]. split_and!; [done|lia| |].
      * destruct (cl_results c !! cl_next c) as [r|] eqn:E; [|done]. specialize (Hbuf _ _ E). lia.
      * intros id p Hp. specialize (Hlt id p Hp). lia.
    + rewrite fmap_cons. apply NoDup_cons. split; [|done]. simpl.
      intros (cmd & Heq & Hin)%list_elem_of_fmap. rewrite Forall_forall in Hge.
      specialize (Hge cmd Hin). lia.
  - constructor; [simpl; lia|]. eapply Forall_impl; [exact Hge|]. simpl. intros. lia.
  - constructor; [|done]. by split_and!.
Qed.

Lemma enqueue_ok env cmds c :
  client_ok c → env_ok env c → fresh_commands c cmds →
  client_ok (enqueuePendingCommands env (Some <$> cmds) c).1.
Proof.
  intros Hok Henv Hfresh. destruct cmds as [|cmd cmds]; [exact Hok|].
  assert (Some <$> (cmd :: cmds) ≠ []) as Hne by done.
  pose proof (enqueue_spec env (Some <$> (cmd :: cmds)) c Henv Hne) as H.
  destruct (enqueuePendingCommands _ _ _) as [c' err]. destruct H as [(Hst & Hr & Hn) H]. simpl.
  destruct err as [e|].
  - by apply (client_ok_eq c); [apply H|..].
  - destruct H as (cmds' & Heq & Hadm & Hsize & Hp & _). apply list_fmap_eq_inj in Heq; [|apply _].
    subst cmds'. eapply client_ok_eq; [| | |by apply (client_ok_add c (cmd :: cmds))]; done.
Qed.

Lemma queue_ok env raws requests c :
  client_ok c → env_ok env c → Forall request_ints requests →
  client_ok (queueServiceAdmissionRevocations env raws requests c).1.
Proof.
  intros Hok Henv Hints. unfold queueServiceAdmissionRevocations.
  pose proof (new_batch_spec raws requests c Hok Hints) as Hb.
  destruct (new_batch raws requests c) as [c' r]. destruct Hb as [(n & Hn & ->) Hb].
  assert (client_ok (with_next n c)) by by apply client_ok_with_next.
  destruct r as [commands|e]; [|done]. destruct Hb as (cmds & -> & Hfresh & _). by apply enqueue_ok.
Qed.

(** *** sendPendingCommands *)

Definition command_frame (cmd : privateControlPendingCommand) : string :=
  frame_bytes (print_json (revoke_json (pc_message cmd))).

Definition command_frames (cmds : list privateControlPendingCommand) : string :=
  foldr (λ cmd rest, command_frame cmd +:+ rest) "" cmds.

(** The commands of a snapshot that go out, and those that have lapsed. *)
Definition to_send (now : Z) (sent : gset string) (cmds : list privateControlPendingCommand) :=
  filter (λ cmd, (command_id cmd ∉ sent) ∧ now < rev_DenyUntil (pc_message cmd)) cmds.

Definition lapsed (now : Z) (sent : gset string) (cmds : list privateControlPendingCommand) :=
  filter (λ cmd, (command_id cmd ∉ sent) ∧ rev_DenyUntil (pc_message cmd) ≤ now) cmds.

Lemma revoke_json_unique m : json_unique (revoke_json m) = true ↔
  float64_in_range (FormatInt (rev_ChannelID m)) = true ∧
  float64_in_range (FormatInt (rev_DenyUntil m)) = true.
Proof.
  unfold revoke_json, omit_if.
  destruct (String.eqb (rev_ServiceID m) ""), (String.eqb (rev_GrantIDHash m) "");
    cbn [app json_unique forallb jnum]; rewrite andb_true_iff;
    rewrite (bool_decide_eq_true_2 (NoDup _)) by (apply (bool_decide_unpack _); reflexivity);
    repeat rewrite andb_true_iff; naive_solver.
Qed.

Lemma span_digits_all d : string_forallb is_digit d = true → span_digits d = (d, "").
Proof.
  intros Hd. rewrite <-(string_app_empty_r d) at 1. by apply span_digits_app.
Qed.

Lemma float64_FormatInt z : 0 ≤ z < 2 ^ 64 → float64_in_range (FormatInt z) = true.
Proof.
  intros Hz. destruct (FormatInt_spec z ltac:(lia)) as (Hne & Hd & Hv & _).
  unfold float64_in_range, decimal_parts.
  assert (TrimPrefix (FormatInt z) "-" = FormatInt z) as ->.
  { unfold TrimPrefix, HasPrefix. destruct (FormatInt z) as [|c r] eqn:E; [done|].
    pose proof (FormatInt_head z c r ltac:(lia) E). cbn [String.prefix].
    destruct (Ascii.ascii_dec "-" c) as [<-|]; [|done]. assert (byte_val "-" = 45) by reflexivity. lia. }
  rewrite span_digits_all by done. rewrite string_app_empty_r, Hv.
  change (0 - len "") with 0. destruct (z =? 0); [done|].
  change (400 <? 0) with false. change (0 <=? 0) with true. cbv iota. apply Z.ltb_lt.
  change (10 ^ 0) with 1. rewrite Z.mul_1_r. etrans; [apply Hz|]. reflexivity.
Qed.

Lemma command_json_ok m :
  revocation_wf m →
  json_wf max_nesting_depth (revoke_json m) ∧ json_unique (revoke_json m) = true ∧
  frame_size_ok (print_json (revoke_json m)).
Proof.
  intros Hm. pose proof Hm as (Hv & Hch & Hdeny). unfold is_u32 in Hch. unfold is_i64 in Hdeny.
  assert (1 ≤ rev_DenyUntil m) by (unfold validPrivateControlRevocation in Hv; go_bool; lia).
  split_and!.
  - by apply revoke_json_wf.
  - apply revoke_json_unique. split; apply float64_FormatInt; lia.
  - split.
    + unfold revoke_json. rewrite print_object, !len_app. unfold len. simpl. lia.
    + pose proof (revoke_json_len m Hm). unfold privateControlMaxFrameBytes. lia.
Qed.

Lemma command_frame_read cmd rest :
  revocation_wf (pc_message cmd) →
  readPrivateControlFrame (command_frame cmd +:+ rest) =
  Ok (print_json (revoke_json (pc_message cmd)), rest).
Proof.
  intros (Hwf & Hu & Hsize)%command_json_ok. apply read_frame_bytes; [done|by apply validate_print].
Qed.

(** Reading [n] frames. *)
Fixpoint read_frames (n : nat) (stream : string) : result (list string * string) :=
  match n with
  | O => Ok ([], stream)
  | S n =>
      try (payload, stream) <- readPrivateControlFrame stream;
      try (payloads, stream) <- read_frames n stream;
      Ok (payload :: payloads, stream)
  end.

Lemma command_frames_read cmds rest :
  Forall (λ cmd, revocation_wf (pc_message cmd)) cmds →
  read_frames (length cmds) (command_frames cmds +:+ rest) =
  Ok ((λ cmd, print_json (revoke_json (pc_message cmd))) <$> cmds, rest).
Proof.
  induction 1 as [|cmd cmds Hcmd Hcmds IH]; [done|].
  unfold command_frames in *. cbn [length read_frames foldr]. rewrite string_app_assoc.
  rewrite command_frame_read by done. cbn [result_bind]. by rewrite IH.
Qed.

Lemma filter_ext_elem {A} (P Q : A → Prop) `{∀ x, Decision (P x), ∀ x, Decision (Q x)} (l : list A) :
  (∀ x, x ∈ l → P x ↔ Q x) → filter P l = filter Q l.
Proof.
  induction l as [|x l IH]; [done|]. intros Hx.
  rewrite !filter_cons. rewrite IH by set_solver.
  destruct (decide (P x)) as [HP|HP], (decide (Q x)) as [HQ|HQ]; try done;
    exfalso; specialize (Hx x ltac:(set_solver)); naive_solver.
Qed.

(** Sending a command does not change the plan for the others. *)
Lemma to_send_sent now id sent cmds :
  id ∉ command_id <$> cmds →
  to_send now ({[id]} ∪ sent) cmds = to_send now sent cmds ∧
  lapsed now ({[id]} ∪ sent) cmds = lapsed now sent cmds.
Proof.
  intros Hid. split; apply filter_ext_elem; intros x Hx;
    (assert (command_id x ≠ id) by (intros <-; by destruct Hid; apply list_elem_of_fmap_2));
    set_solver.
Qed.

Definition lapsed_result : privateControlCommandResult := CommandResult zero_ack (Some err_deadline_elapsed).

(** What a pass over the queue did: [out] went on the wire and [gone] were
    answered, a prefix of the plan or all of it. *)
Record send_outcome {W} (delivered : W → string) (now : Z) (cmds : list privateControlPendingCommand)
    (w w' : W) (sent sent' : gset string) (c c' : privateControlClient) (err : option error)
    (out gone : list privateControlPendingCommand) : Prop := SendOutcome {
  so_out : out `prefix_of` to_send now sent cmds;
  so_gone : gone `prefix_of` lapsed now sent cmds;
  so_delivered : ∃ q, delivered w' = delivered w +:+ command_frames out +:+ q ∧ (err = None → q = "");
  so_sent : ∀ id, id ∈ sent' ↔ id ∈ command_id <$> out ∨ id ∈ sent;
  so_client : client_ok c' ∧ cl_store c' = cl_store c ∧ cl_next c' = cl_next c ∧
              cl_notify c' = cl_notify c;
  so_pending : cl_pending c' = delete_all (command_id <$> gone) (cl_pending c);
  so_answered : ∀ cmd, cmd ∈ gone → cl_results c' !! pc_result cmd = Some lapsed_result;
  so_others : ∀ ch, ch ∉ pc_result <$> gone → cl_results c' !! ch = cl_results c !! ch;
  so_complete : err = None → out = to_send now sent cmds ∧ gone = lapsed now sent cmds;
}.

Lemma delete_all_cons id ids pending : delete_all (id :: ids) pending = delete_all ids (delete id pending).
Proof. done. Qed.

Section send_spec.
Context {W : Type} (Write : W → string → W * (Z * option error)) (delivered : W → string).
Context (Hcontract : writer_contract Write delivered).

Lemma send_stop now cmds w w' sent c c' e q :
  client_ok c' → delivered w' = delivered w +:+ q →
  cl_store c' = cl_store c → cl_next c' = cl_next c → cl_notify c' = cl_notify c →
  cl_pending c' = cl_pending c → cl_results c' = cl_results c →
  send_outcome delivered now cmds w w' sent sent c c' (Some e) [] [].
Proof.
  intros Hok Hd Hst Hn Hno Hp Hr. constructor; try done.
  - apply prefix_nil.
  - apply prefix_nil.
  - exists q. split; [|done]. by rewrite Hd.
  - set_solver.
  - set_solver.
  - intros. by rewrite Hr.
Qed.

(** The plan for one more command. *)
Lemma plan_cons now sent cmd cmds :
  (to_send now sent (cmd :: cmds), lapsed now sent (cmd :: cmds)) =
  if decide (command_id cmd ∈ sent) then (to_send now sent cmds, lapsed now sent cmds)
  else if decide (rev_DenyUntil (pc_message cmd) ≤ now)
       then (to_send now sent cmds, cmd :: lapsed now sent cmds)
       else (cmd :: to_send now sent cmds, lapsed now sent cmds).
Proof.
  unfold to_send, lapsed. rewrite !filter_cons. destruct (decide (command_id cmd ∈ sent)) as [Hs|Hs].
  { by rewrite !decide_False by naive_solver. }
  destruct (decide (rev_DenyUntil (pc_message cmd) ≤ now)).
  - rewrite decide_False by (intros []; lia). by rewrite decide_True by done.
  - rewrite decide_True by (split; [done|lia]). by rewrite decide_False by (intros []; lia).
Qed.

(** The outcome of a pass from that of its first round and of its rest. *)
Lemma outcome_skip now cmd cmds w w' sent sent' c c' err out gone :
  command_id cmd ∈ sent →
  send_outcome delivered now cmds w w' sent sent' c c' err out gone →
  send_outcome delivered now (cmd :: cmds) w w' sent sent' c c' err out gone.
Proof.
  intros Hs []. pose proof (plan_cons now sent cmd cmds) as Hp. rewrite decide_True in Hp by done.
  injection Hp as Ht Hl. constructor; try done; by rewrite ?Ht, ?Hl.
Qed.

Lemma outcome_lapsed now cmd cmds w w' sent sent' c c1 c' err out gone :
  (command_id cmd ∉ sent) → rev_DenyUntil (pc_message cmd) ≤ now →
  cl_pending c !! command_id cmd = Some cmd → completes (command_id cmd) lapsed_result c c1 None →
  send_outcome delivered now cmds w w' sent sent' c1 c' err out gone →
  send_outcome delivered now (cmd :: cmds) w w' sent sent' c c' err out (cmd :: gone).
Proof.
  intros Hs Hd Hcmd (cmd' & Hcmd' & Hst & Hn & Hno & Hp & Hr & _) [H1 H2 H3 H4 (H5 & H5a & H5b & H5c) H6 H7 H8 H9].
  rewrite Hcmd in Hcmd'. injection Hcmd' as <-.
  pose proof (plan_cons now sent cmd cmds) as Hpl. rewrite decide_False, decide_True in Hpl by done.
  injection Hpl as Ht Hl. constructor.
  - by rewrite Ht.
  - rewrite Hl. by apply prefix_cons.
  - done.
  - done.
  - split_and!; congruence.
  - rewrite fmap_cons, delete_all_cons. by rewrite H6, Hp.
  - intros x [->|Hx]%elem_of_cons; [|by apply H7].
    destruct (decide (pc_result cmd ∈ pc_result <$> gone)) as [Hg|Hg].
    + apply list_elem_of_fmap in Hg as (y & Heq & Hy). rewrite Heq. by apply H7.
    + rewrite H8 by done. by rewrite Hr, lookup_insert_eq.
  - intros ch. rewrite fmap_cons, not_elem_of_cons. intros [Hne Hch]. rewrite H8 by done.
    rewrite Hr. by rewrite lookup_insert_ne by done.
  - intros He. destruct (H9 He) as [-> ->]. by rewrite Ht, Hl.
Qed.

Lemma outcome_sent now cmd cmds w w1 w' sent sent' c c' err out gone :
  (command_id cmd ∉ sent) → now < rev_DenyUntil (pc_message cmd) → (command_id cmd ∉ command_id <$> cmds) →
  delivered w1 = delivered w +:+ command_frame cmd →
  send_outcome delivered now cmds w1 w' ({[command_id cmd]} ∪ sent) sent' c c' err out gone →
  send_outcome delivered now (cmd :: cmds) w w' sent sent' c c' err (cmd :: out) gone.
Proof.
  intros Hs Hd Hnew Hw1 [H1 H2 H3 H4 H5 H6 H7 H8 H9].
  destruct (to_send_sent now (command_id cmd) sent cmds Hnew) as [Ht' Hl'].
  pose proof (plan_cons now sent cmd cmds) as Hpl. rewrite !decide_False in Hpl by first [done|lia].
  injection Hpl as Ht Hl. rewrite Ht' in *. rewrite Hl' in *. constructor; try done.
  - rewrite Ht. by apply prefix_cons.
  - by rewrite Hl.
  - destruct H3 as (q & Hq & Hq'). exists q. split; [|done].
    rewrite Hq, Hw1. unfold command_frames. cbn [foldr]. by rewrite !string_app_assoc.
  - intros id. rewrite H4, fmap_cons, elem_of_cons, elem_of_union, elem_of_singleton. tauto.
  - intros He. destruct (H9 He) as [-> ->]. by rewrite Ht, Hl.
Qed.

Lemma send_loop_spec now envs cmds w sent c :
  client_ok c → (∀ id, env_ok (envs id) c) → NoDup (command_id <$> cmds) →
  (∀ cmd, cmd ∈ cmds → cl_pending c !! command_id cmd = Some cmd) →
  ∃ w' sent' c' err out gone,
    send_loop Write now envs cmds w sent c = Some (w', sent', c', err) ∧
    send_outcome delivered now cmds w w' sent sent' c c' err out gone.
Proof.
  revert w sent c. induction cmds as [|cmd cmds IH]; intros w sent c Hok Henv Hnd Hin.
  { exists w, sent, c, None, [], []. split; [done|]. constructor; try done; [|set_solver|set_solver].
    exists "". by rewrite !string_app_empty_r. }
  rewrite fmap_cons, NoDup_cons in Hnd. destruct Hnd as [Hnew Hnd].
  assert (Hcmd := Hin cmd ltac:(set_solver)).
  cbn [send_loop]. fold (command_id cmd). case_bool_decide as Hsent.
  { destruct (IH w sent c Hok Henv Hnd ltac:(set_solver)) as (w' & sent' & c' & err & out & gone & Hrun & Ho).
    exists w', sent', c', err, out, gone. split; [done|by apply outcome_skip]. }
  destruct (rev_DenyUntil (pc_message cmd) <=? now) eqn:Edeny; go_bool.
  - pose proof (completePendingCommand_spec (envs (command_id cmd)) (command_id cmd) lapsed_result c
      Hok (Henv _)) as Hc. fold lapsed_result.
    destruct (completePendingCommand _ _ _ _) as [c1 [found err]].
    destruct found; [|destruct Hc as (_ & _ & ?); congruence].
    pose proof (completes_ok _ _ _ _ _ Hok Hc) as Hok1. destruct err as [e|].
    { destruct Hc as (cmd' & _ & Hst & Hn & Hno & Hp & Hr). exists w, sent, c1, (Some e), [], [].
      split; [done|]. apply (send_stop _ _ _ _ _ _ _ _ ""); try done. by rewrite string_app_empty_r. }
    pose proof Hc as (cmd' & _ & Hst & _ & _ & Hp & _).
    destruct (IH w sent c1) as (w' & sent' & c' & err & out & gone & Hrun & Ho); [done| |done| |].
    { intros id. unfold env_ok. rewrite Hst. apply Henv. }
    { intros x Hx. rewrite Hp, lookup_delete_ne; [set_solver|]. intros Heq. apply Hnew.
      rewrite Heq. by apply list_elem_of_fmap_2. }
    exists w', sent', c', err, out, (cmd :: gone). split; [done|by eapply outcome_lapsed].
  - destruct (write_frame_spec Write delivered w (revoke_json (pc_message cmd)) Hcontract)
      as (w1 & err & -> & (q & r & Hq & Hd & Hr) & _).
    cbn [mbind option_bind]. destruct err as [e|].
    { exists w1, sent, c, (Some e), [], []. split; [done|]. by apply (send_stop _ _ _ _ _ _ _ _ q). }
    rewrite Hr, string_app_empty_r in Hq by done. subst q.
    destruct (IH w1 ({[command_id cmd]} ∪ sent) c Hok Henv Hnd (λ x Hx, Hin x (list_elem_of_further x cmd cmds Hx)))
      as (w' & sent' & c' & err & out & gone & Hrun & Ho).
    exists w', sent', c', err, (cmd :: out), gone. split; [done|by eapply outcome_sent].
Qed.
End send_spec.

(** ** revokeServiceAdmission

    The command is queued, then the caller waits on its result channel or on
    its context. *)

Definition revoke_start (env : fs_env) (raw : result string)
    (request : managementServiceAdmissionRevocationRequest) (c : privateControlClient)
    : privateControlClient * result privateControlPendingCommand :=
  match newPendingRevocation raw request c with
  | (c', Err e) => (c', Err e)
  | (c', Ok command) =>
      match enqueuePendingCommand env (Some command) c' with
      | (c'', Some e) => (c'', Err e)
      | (c'', None) => (c'', Ok command)
      end
  end.

(** [result := <-command.result], when a result is buffered. *)
Definition receive_result (channel : Z) (c : privateControlClient)
    : option (privateControlCommandResult * privateControlClient) :=
  result ← cl_results c !! channel;
  Some (result, with_results (delete channel (cl_results c)) c).

(** The end of the wait: the acknowledgement, the message ID and the error. *)
Inductive revoke_wait (command : privateControlPendingCommand) :
    privateControlClient → privateControlClient → privateControlAck * string * option error → Prop :=
| revoke_wait_result c c' result :
    receive_result (pc_result command) c = Some (result, c') →
    revoke_wait command c c' (res_ack result, command_id command, res_err result)
| revoke_wait_done c e :
    e = ErrContextCanceled ∨ e = ErrContextDeadlineExceeded →
    revoke_wait command c c (zero_ack, command_id command, Some e).

(** ** Histories *)

(** The operations that change the client, as its callers issue them.  A pass
    over the queue is the sequence of its completions. *)
Inductive client_op :=
| OpQueue (env : fs_env) (raws : list (result string))
    (requests : list managementServiceAdmissionRevocationRequest)
| OpRevoke (env : fs_env) (raw : result string) (request : managementServiceAdmissionRevocationRequest)
| OpComplete (env : fs_env) (id : string) (result : privateControlCommandResult)
| OpAcknowledge (env : fs_env) (response : privateControlAck)
| OpNotified
| OpReceive (channel : Z).

Definition client_apply (c : privateControlClient) (op : client_op) : privateControlClient :=
  match op with
  | OpQueue env raws requests => (queueServiceAdmissionRevocations env raws requests c).1
  | OpRevoke env raw request => (revoke_start env raw request c).1
  | OpComplete env id result => (completePendingCommand env id result c).1
  | OpAcknowledge env response => (completePendingAcknowledgement env response c).1
  | OpNotified => with_notify false c
  | OpReceive channel => match receive_result channel c with Some (_, c') => c' | None => c end
  end.

(** The integers of a request fit their types, and a temporary file is new. *)
Definition op_ok (store : option string) (op : client_op) : Prop :=
  let fresh env := match store with None => True | Some filename => temp_name env ≠ filename end in
  match op with
  | OpQueue env _ requests => fresh env ∧ Forall request_ints requests
  | OpRevoke env _ request => fresh env ∧ request_ints request
  | OpComplete env _ _ | OpAcknowledge env _ => fresh env
  | OpNotified | OpReceive _ => True
  end.

#[local] Arguments enqueuePendingCommands : simpl never.

Lemma revoke_start_spec env raw request c :
  client_ok c → env_ok env c → request_ints request →
  let '(c', r) := revoke_start env raw request c in
  client_ok c' ∧ cl_store c' = cl_store c ∧
  match r with
  | Err _ => cl_pending c' = cl_pending c
  | Ok cmd => command_for cmd request ∧ cl_pending c !! command_id cmd = None ∧
              cl_pending c' = <[command_id cmd := cmd]> (cl_pending c) ∧
              cl_notify c' = true ∧ stored c'
  end.
Proof.
  intros Hok Henv Hr. unfold revoke_start, enqueuePendingCommand.
  pose proof (new_batch_spec [raw] [request] c Hok ltac:(by constructor)) as Hb. simpl in Hb.
  destruct (newPendingRevocation raw request c) as [c1 [cmd|e]].
  2: { destruct Hb as [(n & Hn & ->) _]. split_and!; [by apply client_ok_with_next|done|done]. }
  destruct Hb as [(n & Hn & ->) (cmds & Heq & Hfresh & _ & Hfor)].
  destruct cmds as [|x [|y cmds]]; simplify_eq/=.
  assert (client_ok (with_next n c)) as Hok1 by by apply client_ok_with_next.
  pose proof (enqueue_ok env [x] _ Hok1 Henv Hfresh) as Hok2.
  pose proof (enqueue_spec env [Some x] (with_next n c) Henv ltac:(done)) as He.
  change (Some <$> [x]) with [Some x] in Hok2.
  destruct (enqueuePendingCommands env [Some x] (with_next n c)) as [c2 [e|]]; simpl in Hok2.
  - by destruct He as ((? & _) & ? & _).
  - destruct He as ((? & _) & cmds & Heq & [Hall _] & _ & Hp & Hno & Hst).
    destruct cmds as [|x' [|y cmds]]; simplify_eq/=. apply Forall_singleton in Hall as [_ Hnew].
    apply Forall2_cons_1 in Hfor as [Hfor _]. by split_and!.
Qed.

Lemma queue_store env raws requests c :
  client_ok c → env_ok env c → Forall request_ints requests →
  cl_store (queueServiceAdmissionRevocations env raws requests c).1 = cl_store c.
Proof.
  intros Hok Henv Hr. unfold queueServiceAdmissionRevocations.
  pose proof (new_batch_spec raws requests c Hok Hr) as Hb.
  destruct (new_batch raws requests c) as [c1 [commands|e]]; destruct Hb as [(n & Hn & ->) _]; [|done].
  destruct commands as [|x xs]; [done|].
  pose proof (enqueue_spec env (x :: xs) (with_next n c) Henv ltac:(done)) as He.
  destruct (enqueuePendingCommands _ _ _) as [c2 err]. by destruct He as [(? & _) _].
Qed.

(** Queueing leaves the results and what is pending. *)
Definition queue_grows (c c' : privateControlClient) : Prop :=
  cl_results c' = cl_results c ∧ cl_next c ≤ cl_next c' ∧
  ∀ id cmd, cl_pending c !! id = Some cmd → cl_pending c' !! id = Some cmd.

Lemma enqueue_grows env commands n c :
  env_ok env c → cl_next c ≤ n →
  queue_grows c (enqueuePendingCommands env commands (with_next n c)).1.
Proof.
  intros Henv Hn. destruct commands as [|x xs]; [by split_and!|].
  pose proof (enqueue_spec env (x :: xs) (with_next n c) Henv ltac:(done)) as He.
  destruct (enqueuePendingCommands _ _ _) as [c' err]. destruct He as [(_ & Hr & Hx) He].
  split_and!; [done|simpl in *; lia|]. intros id cmd Hid. simpl. destruct err as [e|].
  - by destruct He as [-> _].
  - destruct He as (cmds & _ & [Hall Hnd] & _ & -> & _). rewrite Forall_forall in Hall.
    apply add_all_lookup; [done| |by left]. intros y Hy. by apply Hall.
Qed.

Lemma queueServiceAdmissionRevocations_grows env raws requests c :
  client_ok c → env_ok env c → Forall request_ints requests →
  queue_grows c (queueServiceAdmissionRevocations env raws requests c).1.
Proof.
  intros Hok Henv Hr. unfold queueServiceAdmissionRevocations.
  pose proof (new_batch_spec raws requests c Hok Hr) as Hb.
  destruct (new_batch raws requests c) as [c1 [commands|e]]; destruct Hb as [(n & Hn & ->) _];
    [by apply enqueue_grows|by split_and!].
Qed.

(** The channel of a new command is new. *)
Lemma revoke_start_grows env raw request c :
  client_ok c → env_ok env c → request_ints request →
  let '(c', r) := revoke_start env raw request c in
  queue_grows c c' ∧ ∀ cmd, r = Ok cmd → cl_next c ≤ pc_result cmd < cl_next c'.
Proof.
  intros Hok Henv Hr. unfold revoke_start, enqueuePendingCommand.
  pose proof (new_batch_spec [raw] [request] c Hok ltac:(by constructor)) as Hb. simpl in Hb.
  destruct (newPendingRevocation raw request c) as [c1 [cmd|e]].
  2: { destruct Hb as [(n & Hn & ->) _]. by split_and!. }
  destruct Hb as [(n & Hn & ->) (cmds & Heq & [Hfresh _] & Hge & _)].
  destruct cmds as [|x [|y cmds]]; simplify_eq/=.
  rewrite Forall_singleton in Hfresh, Hge. destruct Hfresh as (_ & Hlt & _). simpl in Hlt.
  pose proof (enqueue_grows env [Some x] n c Henv Hn) as Hg.
  pose proof (enqueue_spec env [Some x] (with_next n c) Henv ltac:(done)) as He.
  destruct (enqueuePendingCommands env [Some x] (with_next n c)) as [c2 [e|]]; simpl in Hg;
    (split; [done|]); [done|]. intros cmd [= <-]. destruct He as [(_ & _ & ->) _]. simpl. lia.
Qed.

Lemma client_apply_ok c op :
  client_ok c → op_ok (cl_store c) op →
  client_ok (client_apply c op) ∧ cl_store (client_apply c op) = cl_store c.
Proof.
  intros Hok Hop. destruct op as [env raws requests|env raw request|env id result|env response| |ch]; simpl.
  - destruct Hop. split; [by apply queue_ok|by apply queue_store].
  - destruct Hop. pose proof (revoke_start_spec env raw request c Hok ltac:(done) ltac:(done)) as H1.
    destruct (revoke_start _ _ _ _) as [c' r]. by destruct H1 as (? & ? & _).
  - pose proof (completePendingCommand_spec env id result c Hok Hop) as H1.
    destruct (completePendingCommand _ _ _ _) as [c' [[] err]].
    + split; [by eapply completes_ok|]. by destruct H1 as (? & ? & ? & _).
    + by destruct H1 as (-> & _).
  - pose proof (completePendingAcknowledgement_spec env response c Hok Hop) as H1.
    destruct (completePendingAcknowledgement _ _ _) as [c' [[] err]].
    + destruct H1 as [H1 _]. split; [by eapply completes_ok|]. by destruct H1 as (? & ? & ? & _).
    + by destruct H1 as (-> & _).
  - split; [|done]. by eapply client_ok_eq; [..|exact Hok].
  - unfold receive_result. destruct (cl_results c !! ch) as [r|] eqn:E; simpl; [|done]. split; [|done].
    destruct Hok as [H1 H2 H3 H4 H5]. constructor; simpl; [done|done|done| |].
    + intros id cmd Hc. apply lookup_delete_None. right. eauto.
    + intros ch' r' [_ H]%lookup_delete_Some. eauto.
Qed.

Lemma acknowledgement_spec env response c :
  client_ok c → env_ok env c →
  let '(c', (found, err)) := completePendingAcknowledgement env response c in
  (found = true ↔ ∃ cmd, cl_pending c !! ack_InReplyTo response = Some cmd ∧
                         rev_DenyUntil (pc_message cmd) = ack_DenyUntil response) ∧
  (found = true → completes (ack_InReplyTo response) (CommandResult response None) c c' err) ∧
  (found = false → c' = c ∧ err = None).
Proof.
  intros Hok Henv. pose proof (completePendingAcknowledgement_spec env response c Hok Henv) as H.
  destruct (completePendingAcknowledgement env response c) as [c' [[] err]].
  - destruct H as [Hc Hd]. split_and!; [|done|done]. split; [|done]. intros _.
    destruct (cl_pending c !! _) as [cmd|]; [|done]. injection Hd as Hd. eauto.
  - destruct H as (Hc & He & Hd). split_and!; [|done|done]. split; [done|].
    intros (cmd & Hcmd & Hdeny). rewrite Hcmd in Hd. simpl in Hd. congruence.
Qed.

(** ** Properties *)

(** The queue's invariant.  From any sound state, whatever operations
    follow in whatever order, with whatever file system failures: the pending
    commands are valid, filed under their IDs, at most 64, each with a result
    channel of its own that is still empty. *)
Theorem client_invariant c ops :
  client_ok c → Forall (op_ok (cl_store c)) ops → client_ok (foldl client_apply c ops).
Proof.
  revert c. induction ops as [|op ops IH]; intros c Hok; [done|].
  intros [Hop Hops]%Forall_cons. destruct (client_apply_ok c op Hok Hop) as [Hok' Hst].
  simpl. apply IH; [done|]. by rewrite Hst.
Qed.

(** A client with an empty queue and no file. *)
Definition empty_client : privateControlClient := Client ∅ None false ∅ 0 no_files.

Lemma empty_client_ok : client_ok empty_client.
Proof.
  constructor; simpl; [intros ??; by rewrite lookup_empty|apply Nat.leb_le; reflexivity|
    apply channels_ok_empty|intros ??; by rewrite lookup_empty|intros ??; by rewrite lookup_empty].
Qed.

Definition example_request : managementServiceAdmissionRevocationRequest :=
  RevocationRequest 7 "svc" "" "acl_removed" 2000.

Lemma example_request_ints : request_ints example_request.
Proof. split; split; done. Qed.

Lemma client_invariant_witness :
  client_ok (foldl client_apply empty_client
    [OpRevoke no_fault_env (Ok "0123456789abcdef") example_request; OpNotified; OpReceive 0]).
Proof.
  apply client_invariant; [exact empty_client_ok|].
  repeat constructor; done.
Defined.

(** C19: a batch is queued as a whole and stored, or not queued.  A non-empty batch is accepted exactly
    when every pointer in it is a valid command, the IDs are new and distinct,
    the queue keeps to 64 commands and the file system stored the new queue;
    then exactly these commands are added, the store file holds the new queue
    and the session loop is notified.  Otherwise the queue, the notification
    and the result channels are as before; so is the file system, unless the
    batch was refused for a failing write, which leaves the old store or, when
    only the sync of the directory failed, the store with the refused batch. *)
Theorem enqueue_all_or_nothing env commands c :
  env_ok env c → commands ≠ [] →
  let '(c', err) := enqueuePendingCommands env commands c in
  cl_results c' = cl_results c ∧
  (err ≠ None → cl_pending c' = cl_pending c ∧ cl_notify c' = cl_notify c ∧
     (cl_fs c' = cl_fs c ∨
      ∃ cmds, commands = Some <$> cmds ∧ admissible (cl_pending c) cmds ∧
        (size (cl_pending c) + length cmds ≤ 64)%nat ∧ store_left env (add_all cmds (cl_pending c)) c c')) ∧
  (err = None → cl_notify c' = true ∧ stored c' ∧
     ∀ id cmd, cl_pending c' !! id = Some cmd ↔
               cl_pending c !! id = Some cmd ∨ (Some cmd ∈ commands ∧ command_id cmd = id)) ∧
  (err = None ↔ ∃ cmds, commands = Some <$> cmds ∧ admissible (cl_pending c) cmds ∧
     (size (cl_pending c) + length cmds ≤ 64)%nat ∧
     (persistPendingLocked env (with_pending (add_all cmds (cl_pending c)) c)).2 = None).
Proof.
  intros Henv Hne. pose proof (enqueue_spec env commands c Henv Hne) as Hs.
  destruct (enqueuePendingCommands env commands c) as [c' err] eqn:E.
  destruct Hs as [(_ & Hr & _) Hs]. split_and!; [done| | |split].
  - destruct err as [e|]; [|done]. intros _. destruct Hs as [? ?]. split_and!; [done|done|].
    by eapply enqueue_refused.
  - intros ->. destruct Hs as (cmds & -> & [Hall Hnd] & _ & Hp & Hno & Hst). split_and!; [done|done|].
    rewrite Forall_forall in Hall. intros id cmd. rewrite Hp, add_all_lookup by (done || naive_solver).
    by rewrite (list_elem_of_fmap_inj Some).
  - intros ->. destruct Hs as (cmds & -> & Hadm & Hsize & _). exists cmds. split_and!; [done|done|done|].
    rewrite <-enqueue_accepts by (done || by intros ->). by rewrite E.
  - intros (cmds & -> & Hadm & Hsize & Hper). rewrite <-enqueue_accepts in Hper by (done || by intros ->).
    by rewrite E in Hper.
Qed.

Definition example_pending_command : privateControlPendingCommand := PendingCommand example_command 0.

(** The file is renamed and the directory cannot be synced. *)
Definition unsynced_env : fs_env :=
  FsEnv (λ call, if decide (call = FsSyncDir) then Some (Errorf "input/output error" []) else None)
    "/var/.pcl-revocations-1" "" false.

Definition stored_client : privateControlClient := Client ∅ (Some "/var/store") false ∅ 1 no_files.

Lemma stored_client_ok : client_ok stored_client.
Proof.
  constructor; simpl; [intros ??; by rewrite lookup_empty|apply Nat.leb_le; reflexivity|
    apply channels_ok_empty|intros ??; by rewrite lookup_empty|intros ??; by rewrite lookup_empty].
Qed.

(** The batch is refused, and a restart finds it. *)
Example refused_batch_stored :
  let '(c', err) := enqueuePendingCommands unsynced_env [Some example_pending_command] stored_client in
  err ≠ None ∧ cl_pending c' = ∅ ∧ load no_fault_env "/var/store" (cl_fs c') = Ok [example_command].
Proof. vm_compute. by split_and!. Qed.

Lemma enqueue_all_or_nothing_witness :
  let '(c', err) := enqueuePendingCommands no_fault_env
                      [Some example_pending_command; Some example_pending_command] empty_client in
  cl_pending c' = ∅ ∧ err = Some err_duplicate_in_batch.
Proof.
  pose proof (enqueue_all_or_nothing no_fault_env
    [Some example_pending_command; Some example_pending_command] empty_client I
    ltac:(discriminate)) as H.
  assert ((enqueuePendingCommands no_fault_env
            [Some example_pending_command; Some example_pending_command] empty_client).2 =
          Some err_duplicate_in_batch) as Herr by (vm_compute; reflexivity).
  destruct (enqueuePendingCommands _ _ _) as [c' err]. simpl in Herr. subst err.
  destruct H as (_ & H & _). split; [|reflexivity]. apply H. discriminate.
Defined.

(** An acknowledgement completes exactly the command it names.  In a
    sound state an acknowledgement is accepted when the command is pending
    with the same deadline.  Then either its removal was stored, it is gone
    and its result channel holds exactly this acknowledgement (never dropped),
    or the removal failed and the queue is as before; otherwise nothing
    changes. *)
Theorem acknowledgement_effect env response c :
  client_ok c → env_ok env c →
  let '(c', (found, err)) := completePendingAcknowledgement env response c in
  (found = true ↔ ∃ cmd, cl_pending c !! ack_InReplyTo response = Some cmd ∧
                         rev_DenyUntil (pc_message cmd) = ack_DenyUntil response) ∧
  (found = true → completes (ack_InReplyTo response) (CommandResult response None) c c' err) ∧
  (found = false → c' = c ∧ err = None).
Proof. apply acknowledgement_spec. Qed.

Definition example_client : privateControlClient := Client example_pending None false ∅ 1 no_files.

Lemma example_client_ok : client_ok example_client.
Proof.
  constructor; simpl.
  - exact example_pending_wf.
  - apply Nat.leb_le. reflexivity.
  - apply (channels_ok_insert 0 ∅ (rev_MessageID example_command)); [apply channels_ok_empty|reflexivity].
  - intros id cmd _. apply lookup_empty.
  - intros ch r. by rewrite lookup_empty.
Qed.

Definition example_ack : privateControlAck :=
  Ack privateControlSchemaVersion "ack" "BBBBBBBBBBBBBBBBBBBBBA" "AAAAAAAAAAAAAAAAAAAAAA" "applied" 2000 1 0.

Lemma acknowledgement_effect_witness :
  ∃ c', completePendingAcknowledgement no_fault_env example_ack example_client = (c', (true, None)) ∧
    completes "AAAAAAAAAAAAAAAAAAAAAA" (CommandResult example_ack None) example_client c' None.
Proof.
  pose proof (acknowledgement_effect no_fault_env example_ack example_client example_client_ok I) as H.
  assert ((completePendingAcknowledgement no_fault_env example_ack example_client).2 = (true, None))
    as Hr by (vm_compute; reflexivity).
  destruct (completePendingAcknowledgement _ _ _) as [c' [found err]]. simpl in Hr.
  injection Hr as -> ->. exists c'. split; [reflexivity|]. apply H. reflexivity.
Defined.

Lemma map_order_pending c order :
  client_ok c → map_order (cl_pending c) order →
  NoDup (command_id <$> order.*2) ∧
  (∀ cmd, cmd ∈ order.*2 → cl_pending c !! command_id cmd = Some cmd).
Proof.
  intros Hok Ho.
  assert (Hin : ∀ id cmd, (id, cmd) ∈ order → cl_pending c !! id = Some cmd ∧ command_id cmd = id).
  { intros id cmd H. apply (map_order_elem _ _ _ _ Ho) in H. split; [done|]. by apply (ok_pending c Hok). }
  split.
  - replace (command_id <$> order.*2) with order.*1; [by apply (map_order_NoDup (cl_pending c))|].
    rewrite <-list_fmap_compose. apply list_fmap_ext. intros i [id cmd] H%list_elem_of_lookup_2.
    simpl. symmetry. by apply (Hin id cmd).
  - intros cmd ([id cmd'] & -> & H)%list_elem_of_fmap. simpl. by destruct (Hin id cmd' H) as [? ->].
Qed.

(** C30: a pass over the queue.  Over a writer that keeps its contract, for
    every iteration order of the map, [sendPendingCommands] never panics; the
    frames it puts on the wire are a prefix of one frame for each command that
    was neither sent in this session nor lapsed (the peer's reads return their
    messages in order), and it records exactly the commands whose frame went
    out.  Without an error every such command has been sent, and every lapsed
    one is out of the queue with its waiter told so. *)
Theorem send_pass_exact {W} (Write : W → string → W * (Z * option error)) (delivered : W → string)
    now envs order w sent c :
  writer_contract Write delivered → client_ok c → (∀ id, env_ok (envs id) c) →
  map_order (cl_pending c) order →
  ∃ w' sent' c' err out gone,
    sendPendingCommands Write now envs order w sent c = Some (w', sent', c', err) ∧
    send_outcome delivered (Unix now) order.*2 w w' sent sent' c c' err out gone ∧
    (∀ rest, read_frames (length out) (command_frames out +:+ rest) =
             Ok ((λ cmd, print_json (revoke_json (pc_message cmd))) <$> out, rest)) ∧
    (err = None → ∀ id cmd, cl_pending c' !! id = Some cmd → id ∈ sent').
Proof.
  intros Hc Hok Henv Ho. destruct (map_order_pending c order Hok Ho) as [Hnd Hin].
  destruct (send_loop_spec Write delivered Hc (Unix now) envs order.*2 w sent c Hok Henv Hnd Hin)
    as (w' & sent' & c' & err & out & gone & Hrun & Hout).
  exists w', sent', c', err, out, gone. split_and!; [done|done| |].
  - intros rest. apply command_frames_read. apply Forall_forall. intros cmd Hcmd.
    pose proof (so_out _ _ _ _ _ _ _ _ _ _ _ _ Hout) as [rest' Hpre].
    assert (cmd ∈ to_send (Unix now) sent order.*2) as Hts by (rewrite Hpre; apply elem_of_app; by left).
    unfold to_send in Hts. apply list_elem_of_filter in Hts as [_ Hts].
    by destruct (ok_pending c Hok _ _ (Hin _ Hts)).
  - intros -> id cmd Hcmd. destruct (so_complete _ _ _ _ _ _ _ _ _ _ _ _ Hout eq_refl) as [-> ->].
    rewrite (so_pending _ _ _ _ _ _ _ _ _ _ _ _ Hout), delete_all_lookup in Hcmd.
    case_decide as Hgone; [done|]. destruct (ok_pending c Hok _ _ Hcmd) as [Hid _].
    apply (so_sent _ _ _ _ _ _ _ _ _ _ _ _ Hout). destruct (decide (id ∈ sent)) as [|Hns]; [by right|left].
    assert (cmd ∈ order.*2) as Hcmd'.
    { apply (map_order_elem _ _ _ _ Ho) in Hcmd. apply list_elem_of_fmap. by exists (id, cmd). }
    destruct (decide (rev_DenyUntil (pc_message cmd) ≤ Unix now)) as [Hle|Hgt].
    + destruct Hgone. rewrite <-Hid. apply list_elem_of_fmap. exists cmd. split; [done|].
      apply list_elem_of_filter. split; [|done]. split; [|done]. unfold command_id. by rewrite Hid.
    + rewrite <-Hid. apply list_elem_of_fmap. exists cmd. split; [done|].
      apply list_elem_of_filter. split; [|done]. unfold command_id. rewrite Hid. split; [done|lia].
Qed.

Lemma send_pass_exact_witness :
  ∃ w' sent' c' err,
    sendPendingCommands (chunked_write 100) (1000 * Second) (λ _, no_fault_env)
      (map_to_list example_pending) "" ∅ example_client = Some (w', sent', c', err) ∧
    (err = None → ∀ id cmd, cl_pending c' !! id = Some cmd → id ∈ sent').
Proof.
  destruct (send_pass_exact (chunked_write 100) id (1000 * Second) (λ _, no_fault_env)
    (map_to_list example_pending) "" ∅ example_client) as (w' & sent' & c' & err & out & gone & H1 & _ & _ & H2).
  - apply chunked_write_contract.
  - exact example_client_ok.
  - intros id. exact I.
  - apply map_order_default.
  - exists w', sent', c', err. split; [exact H1|exact H2].
Defined.

(** A revocation reaches its caller.  When [revokeServiceAdmission] has
    queued its command, the command carries the request under a new ID, the
    session loop is notified and the store file holds it; and when a matching
    acknowledgement is completed, the wait ends with exactly that
    acknowledgement and the command is no longer pending. *)
Theorem revocation_answered env env' raw request c c1 cmd response c2 found err :
  client_ok c → env_ok env c → env_ok env' c → request_ints request →
  revoke_start env raw request c = (c1, Ok cmd) →
  ack_InReplyTo response = command_id cmd → ack_DenyUntil response = rr_DenyUntil request →
  completePendingAcknowledgement env' response c1 = (c2, (found, err)) →
  command_for cmd request ∧ cl_pending c !! command_id cmd = None ∧
  cl_pending c1 !! command_id cmd = Some cmd ∧ cl_notify c1 = true ∧ stored c1 ∧
  found = true ∧
  (err = None → cl_pending c2 !! command_id cmd = None ∧
     ∃ c3, revoke_wait cmd c2 c3 (response, command_id cmd, None)).
Proof.
  intros Hok Henv Henv' Hr Hstart Hreply Hdeny Hack.
  pose proof (revoke_start_spec env raw request c Hok Henv Hr) as Hs. rewrite Hstart in Hs.
  destruct Hs as (Hok1 & Hst1 & Hfor & Hnew & Hp1 & Hno & Hstored).
  assert (cl_pending c1 !! command_id cmd = Some cmd) as Hcmd by (by rewrite Hp1, lookup_insert_eq).
  assert (env_ok env' c1) as Henv1 by (unfold env_ok; by rewrite Hst1).
  pose proof (acknowledgement_spec env' response c1 Hok1 Henv1) as Ha. rewrite Hack in Ha.
  destruct Ha as (Hfound & Hcomp & _).
  assert (found = true) as ->.
  { apply Hfound. exists cmd. rewrite Hreply. split; [done|]. destruct Hfor as (_ & _ & _ & _ & ->). done. }
  destruct (Hcomp eq_refl) as (cmd' & Hcmd' & _ & _ & _ & Herr).
  rewrite Hreply, Hcmd in Hcmd'. injection Hcmd' as <-. split_and!; try done. intros ->.
  destruct Herr as (Hp2 & Hr2 & _). split.
  - by rewrite Hp2, Hreply, lookup_delete_eq.
  - eexists. apply (revoke_wait_result cmd c2 _ (CommandResult response None)).
    unfold receive_result. rewrite Hr2, lookup_insert_eq. reflexivity.
Qed.

Definition example_new_command : privateControlPendingCommand :=
  PendingCommand
    (RevokeServiceAdmission privateControlSchemaVersion "revoke_service_admission"
       (newPrivateControlID "0123456789abcdef") 7 "svc" "" "acl_removed" 2000) 0.

Definition example_new_ack : privateControlAck :=
  Ack privateControlSchemaVersion "ack" "BBBBBBBBBBBBBBBBBBBBBA" (command_id example_new_command)
    "applied" 2000 1 0.

Lemma revocation_answered_witness :
  ∃ c1 c2 c3,
    revoke_start no_fault_env (Ok "0123456789abcdef") example_request empty_client =
      (c1, Ok example_new_command) ∧
    completePendingAcknowledgement no_fault_env example_new_ack c1 = (c2, (true, None)) ∧
    revoke_wait example_new_command c2 c3 (example_new_ack, command_id example_new_command, None).
Proof.
  set (start := revoke_start no_fault_env (Ok "0123456789abcdef") example_request empty_client).
  assert (start.2 = Ok example_new_command) as Hs by (vm_compute; reflexivity).
  set (ack := completePendingAcknowledgement no_fault_env example_new_ack start.1).
  assert (ack.2 = (true, None)) as Ha by (vm_compute; reflexivity).
  assert (start = (start.1, Ok example_new_command)) as Hs' by (rewrite <-Hs; apply surjective_pairing).
  assert (ack = (ack.1, (true, None))) as Ha' by (rewrite <-Ha; apply surjective_pairing).
  destruct (revocation_answered no_fault_env no_fault_env (Ok "0123456789abcdef") example_request
    empty_client start.1 example_new_command example_new_ack ack.1 true None empty_client_ok I I
    example_request_ints Hs' eq_refl eq_refl Ha') as (_ & _ & _ & _ & _ & _ & H).
  destruct (H eq_refl) as [_ [c3 Hwait]].
  exists start.1, ack.1, c3. split; [exact Hs'|]. split; [exact Ha'|exact Hwait].
Defined.

Close Scope Z_scope.
