(* ===== verification/Csv.v ===== *)
(** * encoding/csv

    The [csv.Reader] the program uses (comma separated, no comments, strict
    quotes, leading spaces kept) and [readManagementCSV] on top of it. *)

From S2P Require Export GoStrings.

Open Scope Z_scope.

(** ** Lines *)

(** [strings.IndexByte]: what precedes the first [v] and what follows it. *)
Fixpoint cut_byte (v : Z) (s : string) : option (string * string) :=
  match s with
  | EmptyString => None
  | String c r =>
      if byte_val c =? v then Some ("", r)
      else '(a, b) ← cut_byte v r; Some (String c a, b)
  end.

Definition lf : string := byte_string [10].
Definition cr : string := byte_string [13].

(** [r.readLine()]: the next line with its line feed, a carriage return
    before the line feed or before the end of the input dropped; [None] is
    [io.EOF]. *)
Definition csv_readLine (input : string) : option (string * string) :=
  if String.eqb input "" then None
  else match cut_byte 10 input with
       | Some (line, rest) => Some (TrimSuffix line cr +:+ lf, rest)
       | None => Some (TrimSuffix input cr, "")
       end.

(** [line[:len(line)-lengthNL(line)]] *)
Definition csv_trimNL (line : string) : string := TrimSuffix line lf.

(** ** Records *)

Definition err_bare_quote : error := Errorf "parse error: bare quote in non-quoted field" [].
Definition err_quote : error := Errorf "parse error: extraneous or missing quote in quoted field" [].
Definition err_field_count : error := Errorf "record: wrong number of fields" [].
Definition err_csv_fuel : error := Errorf "csv fuel exhausted" [].

(** The fields of a record that begins with [line], and the unread input: the
    loop [parseField]. *)
Fixpoint csv_fields (fuel : nat) (line input : string) : result (list string * string) :=
  match fuel with
  | O => Err err_csv_fuel
  | S fuel =>
      match line with
      | String c r =>
          if byte_val c =? 34 then csv_quoted fuel "" r input
          else
            match cut_byte 44 line with
            | Some (field, rest) =>
                if ContainsByte field (byte_of 34) then Err err_bare_quote
                else try (fields, input) <- csv_fields fuel rest input; Ok (field :: fields, input)
            | None =>
                let field := csv_trimNL line in
                if ContainsByte field (byte_of 34) then Err err_bare_quote else Ok ([field], input)
            end
      | EmptyString => Ok ([""], input)
      end
  end
(** A quoted field of which [acc] has been read. *)
with csv_quoted (fuel : nat) (acc line input : string) : result (list string * string) :=
  match fuel with
  | O => Err err_csv_fuel
  | S fuel =>
      match cut_byte 34 line with
      | Some (text, rest) =>
          match rest with
          | String c r =>
              if byte_val c =? 34 then csv_quoted fuel (acc +:+ text +:+ byte_string [34]) r input
              else if byte_val c =? 44 then
                try (fields, input) <- csv_fields fuel r input;
                Ok ((acc +:+ text) :: fields, input)
              else if String.eqb rest lf then Ok ([acc +:+ text], input)
              else Err err_quote
          | EmptyString => Ok ([acc +:+ text], input)
          end
      | None =>
          if String.eqb line "" then Err err_quote
          else match csv_readLine input with
               | Some (line', input') => csv_quoted fuel (acc +:+ line) line' input'
               | None => Err err_quote
               end
      end
  end.

(** Each round of the loops consumes a byte of the line or of the input, and
    a line takes at most one byte more than the input it came from. *)
Definition csv_fuel (input : string) : nat := (2 * String.length input + 4)%nat.

(** Skip empty lines. *)
Fixpoint csv_next_line (fuel : nat) (input : string) : option (string * string) :=
  match fuel with
  | O => None
  | S fuel =>
      match csv_readLine input with
      | None => None
      | Some (line, rest) => if String.eqb (csv_trimNL line) "" then csv_next_line fuel rest else Some (line, rest)
      end
  end.

(** [reader.Read()] with [FieldsPerRecord = n]: a record and the unread input. *)
Definition csv_Read (n : nat) (input : string) : result (list string * string) :=
  match csv_next_line (S (String.length input)) input with
  | None => Err ErrEOF
  | Some (line, rest) =>
      try (fields, rest) <- csv_fields (csv_fuel input) line rest;
      reject negb (length fields =? n)%nat with err_field_count;
      Ok (fields, rest)
  end.

(** The read loop of [readManagementCSV]; each record takes a byte. *)
Fixpoint csv_rows (fuel n : nat) (input : string) : result (list (list string)) :=
  match fuel with
  | O => Err err_csv_fuel
  | S fuel =>
      match csv_Read n input with
      | Err e => if errors_Is e ErrEOF then Ok [] else Err e
      | Ok (row, rest) => try rows <- csv_rows fuel n rest; Ok (row :: rows)
      end
  end.

(** [readManagementCSV(filename, expectedHeader)] on the result of opening
    the file. *)
Definition readManagementCSV (opened : result string) (expectedHeader : list string)
    : result (list (list string)) :=
  try input <- opened;
  let n := length expectedHeader in
  try (header, rest) <- csv_Read n input;
  reject negb (bool_decide (header = expectedHeader)) with Errorf "unexpected header" [];
  csv_rows (S (String.length rest)) n rest.

(** Every row has one field for each column: indexing a row is safe. *)
Lemma csv_Read_length n input fields rest :
  csv_Read n input = Ok (fields, rest) → length fields = n.
Proof.
  unfold csv_Read. destruct (csv_next_line _ _) as [[line r]|]; [|done].
  intros ([fs r'] & _ & H)%result_bind_ok. apply reject_if_ok in H as [H [= <- <-]].
  apply negb_false_iff, Nat.eqb_eq in H. done.
Qed.

Lemma csv_rows_length fuel n input rows :
  csv_rows fuel n input = Ok rows → Forall (λ row, length row = n) rows.
Proof.
  revert input rows. induction fuel as [|fuel IH]; intros input rows; [done|]. cbn [csv_rows].
  destruct (csv_Read n input) as [[row rest]|e] eqn:E.
  - intros (rows' & Hr & [= <-])%result_bind_ok. constructor; [by eapply csv_Read_length|by eapply IH].
  - destruct (errors_Is e ErrEOF); [|done]. intros [= <-]. constructor.
Qed.

Lemma readManagementCSV_length opened header rows :
  readManagementCSV opened header = Ok rows → Forall (λ row, length row = length header) rows.
Proof.
  unfold readManagementCSV. intros (input & _ & H)%result_bind_ok.
  apply result_bind_ok in H as ([h rest] & _ & H). apply reject_if_ok in H as [_ H].
  by eapply csv_rows_length.
Qed.

(** ** The fuel is enough *)

Lemma cut_byte_length v s a b :
  cut_byte v s = Some (a, b) → (String.length a + String.length b < String.length s)%nat.
Proof.
  revert a b. induction s as [|c s IH]; intros a b; simpl; [done|].
  destruct (byte_val c =? v); [intros [= <- <-]; simpl; lia|].
  destruct (cut_byte v s) as [[a' b']|]; [|done]. intros [= <- <-]. specialize (IH a' b' eq_refl).
  simpl. lia.
Qed.

Lemma substring_length_le n m s : (String.length (substring n m s) ≤ m)%nat.
Proof.
  revert n m. induction s as [|c s IH]; intros [|n] [|m]; simpl; try lia; [|apply IH..].
  specialize (IH 0%nat m). lia.
Qed.

Lemma TrimSuffix_length s t : (String.length (TrimSuffix s t) ≤ String.length s)%nat.
Proof.
  unfold TrimSuffix. destruct (HasSuffix s t); [|lia].
  etrans; [apply substring_length_le|lia].
Qed.

Lemma csv_readLine_length input line rest :
  csv_readLine input = Some (line, rest) →
  (String.length line + String.length rest ≤ String.length input)%nat ∧
  (String.length rest < String.length input)%nat.
Proof.
  unfold csv_readLine. destruct (String.eqb input "") eqn:E; [done|]. go_bool.
  assert (0 < String.length input)%nat by (destruct input; [done|simpl; lia]).
  destruct (cut_byte 10 input) as [[a b]|] eqn:Ec; intros [= <- <-].
  - apply cut_byte_length in Ec. pose proof (TrimSuffix_length a cr).
    rewrite string_app_length. change (String.length lf) with 1%nat. lia.
  - pose proof (TrimSuffix_length input cr). simpl. lia.
Qed.

Definition not_fuel {A} (r : result A) : Prop := r ≠ Err err_csv_fuel.

Lemma not_fuel_bind {A B} (r : result A) (k : A → result B) :
  not_fuel r → (∀ a, not_fuel (k a)) → not_fuel (result_bind r k).
Proof. unfold not_fuel. destruct r; simpl; [auto|congruence]. Qed.

Lemma csv_fields_enough fuel :
  (∀ line input, (String.length line + String.length input < fuel)%nat →
     not_fuel (csv_fields fuel line input)) ∧
  (∀ acc line input, (String.length line + String.length input < fuel)%nat →
     not_fuel (csv_quoted fuel acc line input)).
Proof.
  induction fuel as [|fuel [IHf IHq]]; [split; intros; lia|]. split.
  - intros [|c r] input Hlen; [done|]. cbn [csv_fields]. simpl in Hlen.
    destruct (byte_val c =? 34); [apply IHq; lia|].
    destruct (cut_byte 44 (String c r)) as [[field rest]|] eqn:Ec.
    + apply cut_byte_length in Ec. simpl in Ec. destruct (ContainsByte _ _); [done|].
      apply not_fuel_bind; [apply IHf; lia|by intros []].
    + by destruct (ContainsByte _ _).
  - intros acc line input Hlen. cbn [csv_quoted].
    destruct (cut_byte 34 line) as [[text rest]|] eqn:Ec.
    + apply cut_byte_length in Ec. destruct rest as [|c r]; [done|]. simpl in Ec.
      destruct (byte_val c =? 34); [apply IHq; lia|].
      destruct (byte_val c =? 44); [apply not_fuel_bind; [apply IHf; lia|by intros []]|].
      by destruct (String.eqb _ _).
    + destruct (String.eqb line "") eqn:El; [done|]. go_bool.
      destruct (csv_readLine input) as [[line' input']|] eqn:Er; [|done].
      apply csv_readLine_length in Er. apply IHq. destruct line; [done|]. simpl in Hlen. lia.
Qed.

Lemma csv_next_line_length fuel input line rest :
  csv_next_line fuel input = Some (line, rest) →
  (String.length line + String.length rest ≤ String.length input)%nat ∧
  (String.length rest < String.length input)%nat.
Proof.
  revert input. induction fuel as [|fuel IH]; intros input; [done|]. cbn [csv_next_line].
  destruct (csv_readLine input) as [[l r]|] eqn:E; [|done]. apply csv_readLine_length in E.
  destruct (String.eqb _ _); [|by intros [= <- <-]]. intros H%IH. lia.
Qed.

(** Reading fields leaves no more input than there was. *)
Lemma csv_fields_rest fuel :
  (∀ line input fields rest, csv_fields fuel line input = Ok (fields, rest) →
     (String.length rest ≤ String.length input)%nat) ∧
  (∀ acc line input fields rest, csv_quoted fuel acc line input = Ok (fields, rest) →
     (String.length rest ≤ String.length input)%nat).
Proof.
  induction fuel as [|fuel [IHf IHq]]; [split; intros; done|]. split.
  - intros [|c r] input fields rest; cbn [csv_fields]; [by intros [= _ <-]|].
    destruct (byte_val c =? 34); [apply IHq|].
    destruct (cut_byte 44 (String c r)) as [[field rest']|]; (destruct (ContainsByte _ _); [done|]).
    + intros ([fs i] & Hf & [= _ <-])%result_bind_ok. by eapply IHf.
    + by intros [= _ <-].
  - intros acc line input fields rest. cbn [csv_quoted].
    destruct (cut_byte 34 line) as [[text [|c r]]|]; [by intros [= _ <-]| |].
    + destruct (byte_val c =? 34); [apply IHq|].
      destruct (byte_val c =? 44); [intros ([fs i] & Hf & [= _ <-])%result_bind_ok; by eapply IHf|].
      destruct (String.eqb _ _); [by intros [= _ <-]|done].
    + destruct (String.eqb line ""); [done|].
      destruct (csv_readLine input) as [[l i]|] eqn:Er; [|done].
      apply csv_readLine_length in Er. intros H%IHq. lia.
Qed.

Lemma csv_Read_progress n input fields rest :
  csv_Read n input = Ok (fields, rest) → (String.length rest < String.length input)%nat.
Proof.
  unfold csv_Read. destruct (csv_next_line _ _) as [[line r]|] eqn:E; [|done].
  apply csv_next_line_length in E as [_ E].
  intros ([fs r'] & Hf & H)%result_bind_ok. apply reject_if_ok in H as [_ [= <- <-]].
  apply csv_fields_rest in Hf. lia.
Qed.

Lemma csv_Read_enough n input : not_fuel (csv_Read n input).
Proof.
  unfold csv_Read. destruct (csv_next_line _ _) as [[line r]|] eqn:E; [|done].
  apply csv_next_line_length in E as [E _].
  apply not_fuel_bind; [apply csv_fields_enough; unfold csv_fuel; lia|].
  intros [fs r']. by destruct (negb _).
Qed.

Lemma csv_rows_enough fuel n input :
  (String.length input < fuel)%nat → not_fuel (csv_rows fuel n input).
Proof.
  revert input. induction fuel as [|fuel IH]; intros input Hlen; [lia|]. cbn [csv_rows].
  pose proof (csv_Read_enough n input) as Hr.
  destruct (csv_Read n input) as [[row rest]|e] eqn:E.
  - apply csv_Read_progress in E. apply not_fuel_bind; [apply IH; lia|done].
  - destruct (errors_Is e ErrEOF); [done|]. unfold not_fuel in *. congruence.
Qed.

Lemma readManagementCSV_enough opened header :
  not_fuel opened → not_fuel (readManagementCSV opened header).
Proof.
  intros Ho. unfold readManagementCSV. apply not_fuel_bind; [done|]. intros input. cbv zeta.
  apply not_fuel_bind; [apply csv_Read_enough|]. intros [h rest].
  unfold reject_if. destruct (negb _); [done|]. apply csv_rows_enough. lia.
Qed.

Example csv_example :
  readManagementCSV
    (Ok ("a,b" +:+ lf +:+ lf +:+ "1,"+:+ byte_string [34] +:+ "x," +:+ byte_string [34;34] +:+ lf +:+ "y"
         +:+ byte_string [34] +:+ cr +:+ lf +:+ "2,z")) ["a"; "b"]
  = Ok [["1"; "x," +:+ byte_string [34] +:+ lf +:+ "y"]; ["2"; "z"]].
Proof. vm_compute. reflexivity. Qed.

Example csv_wrong_count : is_ok (readManagementCSV (Ok ("a,b" +:+ lf +:+ "1")) ["a"; "b"]) = false.
Proof. vm_compute. reflexivity. Qed.

(** ** Written tables *)

Definition dq : string := byte_string [34].
Definition comma : string := byte_string [44].

Definition other_byte (v : Z) (c : ascii) : bool := negb (byte_val c =? v).
Definition plain_byte (c : ascii) : bool :=
  other_byte 34 c && other_byte 44 c && other_byte 10 c && other_byte 13 c.

(** A quoted field doubles its quotes. *)
Fixpoint double_quotes (s : string) : string :=
  match s with
  | EmptyString => ""
  | String c r => if byte_val c =? 34 then dq +:+ dq +:+ double_quotes r else String c (double_quotes r)
  end.

(** The texts of a field: as it is when no byte of it needs quotes, or quoted;
    of the carriage returns in a field the reader drops some. *)
Inductive field_text : string → string → Prop :=
| text_plain f : string_forallb plain_byte f = true → field_text f f
| text_quoted f : string_forallb (other_byte 13) f = true → field_text f (dq +:+ double_quotes f +:+ dq).

Inductive record_text : list string → string → Prop :=
| record_one f t : field_text f t → record_text [f] t
| record_more f t fs ts : field_text f t → record_text fs ts → record_text (f :: fs) (t +:+ comma +:+ ts).

(** What ends a record that [rest] follows. *)
Definition ends_record (e rest : string) : Prop := e = lf ∨ e = cr +:+ lf ∨ e = "" ∧ rest = "".

(** The texts of a table: records of at least a byte, and empty lines. *)
Inductive table_text : list (list string) → string → Prop :=
| table_end : table_text [] ""
| table_blank e rows text : e ≠ "" → ends_record e text → table_text rows text → table_text rows (e +:+ text)
| table_record fs t e rows text :
    record_text fs t → t ≠ "" → ends_record e text → table_text rows text →
    table_text (fs :: rows) (t +:+ e +:+ text).

(** The line that [input] begins with, and the rest. *)
Definition rl (input : string) : string * string := default ("", "") (csv_readLine input).

Lemma rl_readLine c s : csv_readLine (String c s) = Some (rl (String c s)).
Proof. unfold rl, csv_readLine. simpl. by destruct (byte_val c =? 10), (cut_byte 10 s) as [[a b]|]. Qed.

Lemma rl_length s : (String.length (rl s).1 + String.length (rl s).2 ≤ String.length s)%nat.
Proof.
  destruct s as [|c s]; [done|]. pose proof (rl_readLine c s) as H. destruct (rl (String c s)) as [l r].
  by apply csv_readLine_length in H as [? _].
Qed.

Lemma TrimSuffix_cr_cons c s :
  other_byte 13 c = true → TrimSuffix (String c s) cr = String c (TrimSuffix s cr).
Proof.
  intros Hc. destruct (HasSuffix s cr) eqn:E.
  - apply HasSuffix_spec in E as (t & ->). by rewrite <-string_app_cons, !TrimSuffix_app.
  - unfold TrimSuffix at 2. rewrite E. unfold TrimSuffix. destruct (HasSuffix (String c s) cr) eqn:E'; [|done].
    apply HasSuffix_spec in E' as ([|d t] & Ht).
    + injection Ht as -> _. done.
    + rewrite string_app_cons in Ht. injection Ht as _ ->. by rewrite HasSuffix_app in E.
Qed.

Lemma rl_cons c s :
  other_byte 10 c = true → other_byte 13 c = true → rl (String c s) = (String c (rl s).1, (rl s).2).
Proof.
  intros H10 H13. unfold rl, csv_readLine. simpl. unfold other_byte in H10. apply negb_true_iff in H10. rewrite H10.
  destruct s as [|d s]; [simpl; by rewrite (TrimSuffix_cr_cons c "" H13)|]. cbn [String.eqb].
  destruct (cut_byte 10 (String d s)) as [[a b]|]; simpl; by rewrite TrimSuffix_cr_cons, ?string_app_cons.
Qed.

Lemma rl_app f s :
  string_forallb (other_byte 10) f = true → string_forallb (other_byte 13) f = true →
  rl (f +:+ s) = (f +:+ (rl s).1, (rl s).2).
Proof.
  induction f as [|c f IH]; [by rewrite !string_app_empty_l; destruct (rl s)|]. simpl.
  rewrite !andb_true_iff. intros [? ?] [? ?]. rewrite !string_app_cons, rl_cons, IH by done. done.
Qed.

Lemma rl_lf s : rl (lf +:+ s) = (lf, s).
Proof. done. Qed.

Lemma rl_end e rest : ends_record e rest → ∃ l, rl (e +:+ rest) = (l, rest) ∧ (l = lf ∨ l = "").
Proof. intros [->|[->|[-> ->]]]; eexists; (split; [done|]); by auto. Qed.

Lemma plain_bytes f :
  string_forallb plain_byte f = true →
  string_forallb (other_byte 34) f = true ∧ string_forallb (other_byte 44) f = true ∧
  string_forallb (other_byte 10) f = true ∧ string_forallb (other_byte 13) f = true.
Proof.
  intros H. split_and!; (eapply string_forallb_impl; [|exact H]); intros c; unfold plain_byte;
    rewrite !andb_true_iff; naive_solver.
Qed.

Lemma cut_byte_app v f s :
  string_forallb (other_byte v) f = true →
  cut_byte v (f +:+ s) = '(a, b) ← cut_byte v s; Some (f +:+ a, b).
Proof.
  induction f as [|c f IH]; [by rewrite !string_app_empty_l; destruct (cut_byte v s) as [[]|]|]. simpl.
  rewrite andb_true_iff. unfold other_byte at 1. intros [Hc%negb_true_iff Hf].
  rewrite Hc, IH by done. by destruct (cut_byte v s) as [[]|].
Qed.

Lemma no_quote_inside f : string_forallb (other_byte 34) f = true → ContainsByte f (byte_of 34) = false.
Proof.
  intros H. unfold ContainsByte. apply negb_false_iff. eapply string_forallb_impl; [|exact H].
  intros c Hc. apply negb_true_iff, Ascii.eqb_neq. intros <-. done.
Qed.

(** The first byte of a line that begins with a plain field is no quote. *)
Lemma csv_fields_plain fuel f l input :
  string_forallb plain_byte f = true → f +:+ l ≠ "" → (∀ c r, l = String c r → (byte_val c =? 34) = false) →
  csv_fields (S fuel) (f +:+ l) input =
  match cut_byte 44 (f +:+ l) with
  | Some (field, rest) =>
      if ContainsByte field (byte_of 34) then Err err_bare_quote
      else try (fields, input) <- csv_fields fuel rest input; Ok (field :: fields, input)
  | None =>
      let field := csv_trimNL (f +:+ l) in
      if ContainsByte field (byte_of 34) then Err err_bare_quote else Ok ([field], input)
  end.
Proof.
  intros Hf Hne Hl. assert (∀ c r, f +:+ l = String c r → (byte_val c =? 34) = false) as Hc.
  { intros c r Heq. destruct f as [|d f].
    - by apply (Hl c r).
    - rewrite string_app_cons in Heq. injection Heq as -> _. simpl in Hf. unfold plain_byte, other_byte in Hf.
      apply andb_true_iff in Hf as [Hf _]. by destruct (byte_val c =? 34). }
  destruct (f +:+ l) as [|c r]; [done|]. cbn [csv_fields]. by rewrite (Hc c r eq_refl).
Qed.

Lemma csv_fields_plain_more fuel f l input :
  string_forallb plain_byte f = true →
  csv_fields (S fuel) (f +:+ comma +:+ l) input =
  (try (fields, input) <- csv_fields fuel l input; Ok (f :: fields, input)).
Proof.
  intros Hf. pose proof (plain_bytes f Hf) as (H34 & H44 & _). rewrite csv_fields_plain; [|done|by destruct f|by intros c r [= <- _]].
  rewrite cut_byte_app by done. simpl. by rewrite string_app_empty_r, no_quote_inside.
Qed.

Lemma csv_fields_plain_last fuel f l input :
  string_forallb plain_byte f = true → l = lf ∨ l = "" → csv_fields (S fuel) (f +:+ l) input = Ok ([f], input).
Proof.
  intros Hf Hl. pose proof (plain_bytes f Hf) as (H34 & H44 & H10 & _).
  destruct (decide (f +:+ l = "")) as [He|Hne].
  { destruct f; [|done]. destruct Hl as [->| ->]; [done|]. done. }
  rewrite csv_fields_plain; [|done|done|by destruct Hl as [->| ->]; [intros c r [= <- _]|]]. rewrite cut_byte_app by done.
  assert (csv_trimNL (f +:+ l) = f) as ->.
  { destruct Hl as [->| ->]; [apply TrimSuffix_app|]. rewrite string_app_empty_r. unfold csv_trimNL, TrimSuffix.
    destruct (HasSuffix f lf) eqn:E; [|done]. apply HasSuffix_spec in E as (t & ->).
    rewrite string_forallb_app in H10. apply andb_true_iff in H10 as [_ [=]]. }
  destruct Hl as [->| ->]; simpl; by rewrite no_quote_inside.
Qed.

(** A byte of a quoted field that is not a quote, nor the last of its line. *)
Lemma csv_quoted_byte fuel acc c l input :
  other_byte 34 c = true → l ≠ "" →
  csv_quoted fuel acc (String c l) input = csv_quoted fuel (acc +:+ String c "") l input.
Proof.
  unfold other_byte. intros Hc%negb_true_iff Hl. destruct fuel as [|fuel]; [done|]. cbn [csv_quoted cut_byte]. rewrite Hc.
  rewrite (proj2 (String.eqb_neq l "")) by done. cbn [String.eqb].
  destruct (cut_byte 34 l) as [[text rest]|]; simpl.
  - by rewrite !string_app_assoc.
  - destruct (csv_readLine input) as [[l' i']|]; [|done]. by rewrite string_app_assoc.
Qed.

Lemma csv_quoted_two fuel acc l input :
  csv_quoted (S fuel) acc (String (byte_of 34) (String (byte_of 34) l)) input = csv_quoted fuel (acc +:+ dq) l input.
Proof. done. Qed.

Lemma double_quotes_ne f rest : double_quotes f +:+ dq +:+ rest ≠ "".
Proof. destruct f as [|c f]; [done|]. simpl. by destruct (byte_val c =? 34). Qed.

(** The text of a quoted field is read up to its closing quote. *)
Lemma csv_quoted_text f acc fuel rest :
  string_forallb (other_byte 13) f = true →
  (String.length (double_quotes f +:+ dq +:+ rest) < fuel)%nat →
  ∃ fuel', (String.length (dq +:+ rest) < fuel')%nat ∧
    csv_quoted fuel acc (rl (double_quotes f +:+ dq +:+ rest)).1 (rl (double_quotes f +:+ dq +:+ rest)).2 =
    csv_quoted fuel' (acc +:+ f) (rl (dq +:+ rest)).1 (rl (dq +:+ rest)).2.
Proof.
  intros Hf. revert acc fuel. induction f as [|c f IH]; intros acc fuel Hlen.
  { exists fuel. split; [exact Hlen|]. by rewrite string_app_empty_r. }
  simpl in Hf. apply andb_true_iff in Hf as [H13 Hf]. specialize (IH Hf).
  cbn [double_quotes] in *. destruct (byte_val c =? 34) eqn:H34.
  - rewrite !string_app_assoc in *. assert (c = byte_of 34) as ->.
    { apply Z.eqb_eq in H34. by rewrite <-H34, byte_of_val. }
    destruct fuel as [|fuel]; [lia|]. destruct (IH (acc +:+ dq) fuel) as (fuel' & Hlen' & Heq).
    { change (dq +:+ dq +:+ ?s) with (String (byte_of 34) (String (byte_of 34) s)) in Hlen. simpl in Hlen. lia. }
    exists fuel'. split; [exact Hlen'|].
    change (dq +:+ dq +:+ ?s) with (String (byte_of 34) (String (byte_of 34) s)).
    rewrite !rl_cons by done. cbn [fst snd]. rewrite csv_quoted_two, Heq. by rewrite string_app_assoc.
  - rewrite string_app_cons in *. cbn [String.length] in Hlen.
    destruct (byte_val c =? 10) eqn:H10.
    + assert (c = byte_of 10) as ->. { apply Z.eqb_eq in H10. by rewrite <-H10, byte_of_val. }
      destruct fuel as [|fuel]; [lia|]. destruct (IH (acc +:+ lf) fuel) as (fuel' & Hlen' & Heq); [lia|].
      exists fuel'. split; [exact Hlen'|].
      change (String (byte_of 10) ?s) with (lf +:+ s). rewrite rl_lf. cbn [fst snd].
      pose proof (double_quotes_ne f rest) as Hne.
      destruct (double_quotes f +:+ dq +:+ rest) as [|d s] eqn:Es; [done|].
      change (csv_quoted (S fuel) acc lf (String d s)) with
        (match csv_readLine (String d s) with
         | Some (line', input') => csv_quoted fuel (acc +:+ lf) line' input' | None => Err err_quote end).
      rewrite rl_readLine. destruct (rl (String d s)) as [l i]. cbn [fst snd] in Heq. rewrite Heq.
      by rewrite string_app_assoc.
    + destruct (IH (acc +:+ String c "") fuel) as (fuel' & Hlen' & Heq); [lia|].
      exists fuel'. split; [exact Hlen'|]. rewrite rl_cons by (unfold other_byte; by rewrite ?H10). cbn [fst snd].
      rewrite csv_quoted_byte; [rewrite Heq; by rewrite string_app_assoc|unfold other_byte; by rewrite H34|].
      pose proof (double_quotes_ne f rest) as Hne. destruct f as [|d f].
      * change (double_quotes "" +:+ dq +:+ rest) with (String (byte_of 34) rest). by rewrite rl_cons.
      * simpl in *. apply andb_true_iff in Hf as [Hd13 _]. destruct (byte_val d =? 34).
        -- change ((dq +:+ dq +:+ ?a) +:+ ?b) with (String (byte_of 34) (String (byte_of 34) (a +:+ b))). by rewrite rl_cons.
        -- rewrite string_app_cons. destruct (byte_val d =? 10) eqn:Hd10.
           ++ assert (d = byte_of 10) as ->. { apply Z.eqb_eq in Hd10. by rewrite <-Hd10, byte_of_val. } done.
           ++ rewrite rl_cons; [done|unfold other_byte; by rewrite Hd10|done].
Qed.

(** What closes a quoted field. *)
Lemma csv_quoted_comma fuel acc l input :
  csv_quoted (S fuel) acc (String (byte_of 34) (String (byte_of 44) l)) input =
  (try (fields, input) <- csv_fields fuel l input; Ok (acc :: fields, input)).
Proof.
  change (csv_quoted (S fuel) acc (String (byte_of 34) (String (byte_of 44) l)) input) with
    (try (fields, input) <- csv_fields fuel l input; Ok ((acc +:+ "") :: fields, input)).
  by rewrite string_app_empty_r.
Qed.

Lemma csv_quoted_last fuel acc l input :
  l = lf ∨ l = "" → csv_quoted (S fuel) acc (String (byte_of 34) l) input = Ok ([acc], input).
Proof.
  intros Hl. assert (csv_quoted (S fuel) acc (String (byte_of 34) l) input = Ok ([acc +:+ ""], input)) as ->
    by by destruct Hl as [-> | ->].
  by rewrite string_app_empty_r.
Qed.

Lemma csv_fields_quoted fuel f rest :
  string_forallb (other_byte 13) f = true →
  (String.length (dq +:+ double_quotes f +:+ dq +:+ rest) < fuel)%nat →
  ∃ fuel', (String.length rest < fuel')%nat ∧
    csv_fields fuel (rl (dq +:+ double_quotes f +:+ dq +:+ rest)).1 (rl (dq +:+ double_quotes f +:+ dq +:+ rest)).2 =
    csv_quoted (S fuel') f (String (byte_of 34) (rl rest).1) (rl rest).2.
Proof.
  intros Hf. change (dq +:+ double_quotes f +:+ ?s) with (String (byte_of 34) (double_quotes f +:+ s)).
  intros Hlen. cbn [String.length] in Hlen. destruct fuel as [|fuel]; [lia|].
  destruct (csv_quoted_text f "" fuel rest Hf) as (fuel' & Hlen' & Heq); [lia|].
  change (dq +:+ rest) with (String (byte_of 34) rest) in Hlen', Heq. cbn [String.length] in Hlen'.
  destruct fuel' as [|fuel']; [lia|]. exists fuel'. split; [lia|].
  rewrite rl_cons by done. cbn [fst snd].
  change (csv_fields (S fuel) (String (byte_of 34) ?l) ?i) with (csv_quoted fuel "" l i).
  change (dq +:+ rest) with (String (byte_of 34) rest). rewrite Heq, rl_cons by done. done.
Qed.

(** A record is read from its text. *)
Lemma csv_fields_record fs t fuel e rest :
  record_text fs t → ends_record e rest → (String.length (t +:+ e +:+ rest) < fuel)%nat →
  csv_fields fuel (rl (t +:+ e +:+ rest)).1 (rl (t +:+ e +:+ rest)).2 = Ok (fs, rest).
Proof.
  intros Ht He. revert fuel. induction Ht as [f t Hft|f t fs ts Hft Hts IH]; intros fuel Hlen.
  - destruct (rl_end e rest He) as (l & Hrl & Hl). destruct Hft as [f Hf|f Hf].
    + destruct fuel as [|fuel]; [lia|]. pose proof (plain_bytes f Hf) as (_ & _ & ? & ?).
      rewrite rl_app, Hrl by done. by apply csv_fields_plain_last.
    + rewrite !string_app_assoc in *. destruct (csv_fields_quoted fuel f (e +:+ rest) Hf Hlen) as (fuel' & _ & ->).
      rewrite Hrl. by apply csv_quoted_last.
  - rewrite !string_app_assoc in *. destruct Hft as [f Hf|f Hf].
    + destruct fuel as [|fuel]; [lia|]. pose proof (plain_bytes f Hf) as (_ & _ & ? & ?).
      rewrite string_app_length in Hlen. change (comma +:+ ?s) with (String (byte_of 44) s) in Hlen.
      cbn [String.length] in Hlen.
      rewrite rl_app by done. change (comma +:+ ts +:+ e +:+ rest) with (String (byte_of 44) (ts +:+ e +:+ rest)).
      rewrite rl_cons by done. cbn [fst snd].
      change (String (byte_of 44) ?s) with (comma +:+ s). rewrite csv_fields_plain_more by done.
      rewrite IH by lia. done.
    + rewrite !string_app_assoc in *.
      destruct (csv_fields_quoted fuel f (comma +:+ ts +:+ e +:+ rest) Hf Hlen) as (fuel' & Hlen' & ->).
      change (comma +:+ ts +:+ e +:+ rest) with (String (byte_of 44) (ts +:+ e +:+ rest)) in *.
      cbn [String.length] in Hlen'. rewrite rl_cons by done. cbn [fst snd].
      rewrite csv_quoted_comma, IH by lia. done.
Qed.

(** Its first line is not empty. *)
Lemma field_text_head f t rest :
  field_text f t → t ≠ "" → csv_trimNL (rl (t +:+ rest)).1 ≠ "".
Proof.
  assert (∀ c s, other_byte 10 c = true → csv_trimNL (String c s) ≠ "") as Hcons.
  { intros c s Hc. unfold csv_trimNL, TrimSuffix. destruct (HasSuffix (String c s) lf) eqn:E; [|done].
    apply HasSuffix_spec in E as ([|d x] & Heq); [by injection Heq as -> _|].
    rewrite Heq, string_app_length. replace (_ + _ - _)%nat with (String.length (String d x)) by lia.
    by rewrite substring_0_app. }
  intros [f' Hf|f' Hf] Hne.
  - destruct f' as [|c f']; [done|]. pose proof (plain_bytes _ Hf) as (_ & _ & H10 & H13).
    rewrite rl_app by done. simpl in H10 |- *. apply andb_true_iff in H10 as [? _]. by apply Hcons.
  - rewrite !string_app_assoc. change (dq +:+ ?s) with (String (byte_of 34) s) at 1.
    rewrite rl_cons by done. by apply Hcons.
Qed.

Lemma record_text_head fs t rest :
  record_text fs t → t ≠ "" → csv_trimNL (rl (t +:+ rest)).1 ≠ "" ∧ t +:+ rest ≠ "".
Proof.
  intros Ht Hne. split; [|by destruct t]. destruct Ht as [f t Hft|f t fs ts Hft Hts]; [by eapply field_text_head|].
  rewrite string_app_assoc. destruct (decide (t = "")) as [->|Ht]; [|by eapply field_text_head].
  rewrite string_app_empty_l. change (comma +:+ ?s) with (String (byte_of 44) s) at 1.
  rewrite string_app_cons, rl_cons by done. cbn [fst]. generalize (rl (ts +:+ rest)).1. intros l Hl.
  unfold csv_trimNL, TrimSuffix in Hl. destruct (HasSuffix _ lf) eqn:E; [|done].
  apply HasSuffix_spec in E as ([|d x] & Heq); [done|]. rewrite Heq, string_app_length in Hl.
  replace (_ + _ - _)%nat with (String.length (String d x)) in Hl by lia. by rewrite substring_0_app in Hl.
Qed.

(** The next record of a table is read, whatever the fuel, if it is enough;
    empty lines are skipped. *)
Lemma csv_next_line_table rows text :
  table_text rows text →
  match rows with
  | [] => ∀ fuel, csv_next_line fuel text = None
  | row :: rows => ∃ t e text', record_text row t ∧ ends_record e text' ∧ table_text rows text' ∧
      (String.length (t +:+ e +:+ text') ≤ String.length text)%nat ∧
      ∀ fuel, (String.length text < fuel)%nat → csv_next_line fuel text = Some (rl (t +:+ e +:+ text'))
  end.
Proof.
  induction 1 as [|e rows text Hne He Ht IH|fs t e rows text Hfs Hne He Ht _]; [by intros []|..].
  - assert (∀ fuel, csv_next_line (S fuel) (e +:+ text) = csv_next_line fuel text) as Hskip
      by by intros fuel; destruct He as [-> |[-> |[? _]]].
    assert (String.length text < String.length (e +:+ text))%nat as Hlen
      by (rewrite string_app_length; destruct e; [done|simpl; lia]).
    destruct rows as [|row rows]; [intros [|fuel]; [done|by rewrite Hskip]|].
    destruct IH as (t & e' & text' & H1 & H2 & H3 & H4 & H5). exists t, e', text'.
    split_and!; [done|done|done|lia|]. intros [|fuel] Hfuel; [lia|]. rewrite Hskip. apply H5. lia.
  - exists t, e, text. split_and!; [done|done|done|done|]. intros [|fuel] Hfuel; [lia|].
    destruct (record_text_head fs t (e +:+ text) Hfs Hne) as [Hhead Hinput]. cbn [csv_next_line].
    destruct (t +:+ e +:+ text) as [|c s]; [done|]. rewrite rl_readLine.
    destruct (rl (String c s)) as [line input]. cbn [fst] in Hhead. by rewrite (proj2 (String.eqb_neq _ _)).
Qed.

Lemma csv_Read_table n rows text :
  table_text rows text →
  match rows with
  | [] => csv_Read n text = Err ErrEOF
  | row :: rows => ∃ text', table_text rows text' ∧
      csv_Read n text = if (length row =? n)%nat then Ok (row, text') else Err err_field_count
  end.
Proof.
  intros Ht. pose proof (csv_next_line_table rows text Ht) as Hnext. unfold csv_Read.
  destruct rows as [|row rows]; [by rewrite Hnext|].
  destruct Hnext as (t & e & text' & Hrow & He & Ht' & Hlen & Hnext). exists text'. split; [done|].
  rewrite Hnext by lia. pose proof (csv_fields_record row t (csv_fuel text) e text' Hrow He) as Hfields.
  unfold csv_fuel in Hfields at 1. specialize (Hfields ltac:(lia)).
  destruct (rl (t +:+ e +:+ text')) as [line input]. cbn [fst snd] in Hfields. rewrite Hfields. cbn [result_bind].
  unfold reject_if. by destruct (length row =? n)%nat.
Qed.

Lemma csv_rows_table n rows text :
  Forall (λ row, length row = n) rows → table_text rows text →
  csv_rows (S (String.length text)) n text = Ok rows.
Proof.
  intros Hn. assert (∀ fuel text, (String.length text < fuel)%nat → table_text rows text →
    csv_rows fuel n text = Ok rows) as H; [|intros; by apply H; [lia|]].
  induction Hn as [|row rows Hrow _ IH]; intros [|fuel] text' Hlen Ht; [lia| |lia|]; cbn [csv_rows].
  - by rewrite (csv_Read_table n [] text' Ht).
  - destruct (csv_Read_table n (row :: rows) text' Ht) as (text2 & Ht2 & Hread).
    rewrite (proj2 (Nat.eqb_eq _ _) Hrow) in Hread. rewrite Hread.
    apply csv_Read_progress in Hread. by rewrite IH by (done || lia).
Qed.

(** A row of another length ends the reading. *)
Lemma csv_rows_ragged n rows text fuel :
  ¬ Forall (λ row, length row = n) rows → (String.length text < fuel)%nat →
  table_text rows text → csv_rows fuel n text = Err err_field_count.
Proof.
  revert text fuel. induction rows as [|row rows IH]; intros text [|fuel] Hn Hlen Ht; [|by destruct Hn|lia|]; [lia|].
  cbn [csv_rows]. destruct (csv_Read_table n (row :: rows) text Ht) as (text2 & Ht2 & Hread).
  destruct (decide (length row = n)) as [Hr|Hr].
  - rewrite (proj2 (Nat.eqb_eq _ _) Hr) in Hread. rewrite Hread. apply csv_Read_progress in Hread.
    rewrite IH; [done|by intros ?; apply Hn; constructor|lia|done].
  - rewrite (proj2 (Nat.eqb_neq _ _) Hr) in Hread. by rewrite Hread.
Qed.

(** ** Properties *)

(** C26: an ACL file is read as it was written.  However the fields of a table
    were quoted - with separators, line feeds and doubled quotes inside -
    whatever ends the lines, with empty lines between them and with or without
    a last line feed: a file whose first record is the expected header gives
    exactly the other records if they all have its length, and an error if one
    has not; any other header is refused.  And on every file, written or not,
    the records that come back all have the header's length, so that the
    loaders never index out of a row. *)
Theorem csv_table_read header rows text opened expectedHeader :
  table_text (header :: rows) text →
  (Forall (λ row, length row = length header) rows → readManagementCSV (Ok text) header = Ok rows) ∧
  (¬ Forall (λ row, length row = length header) rows →
     readManagementCSV (Ok text) header = Err err_field_count) ∧
  (header ≠ expectedHeader → is_ok (readManagementCSV (Ok text) expectedHeader) = false) ∧
  ∀ rows', readManagementCSV opened expectedHeader = Ok rows' →
    Forall (λ row, length row = length expectedHeader) rows'.
Proof.
  intros Ht. split_and!.
  - intros Hn. unfold readManagementCSV. cbn [result_bind].
    destruct (csv_Read_table (length header) (header :: rows) text Ht) as (text' & Ht' & ->).
    rewrite Nat.eqb_refl. cbn [result_bind]. rewrite bool_decide_true by done. by apply csv_rows_table.
  - intros Hn. unfold readManagementCSV. cbn [result_bind].
    destruct (csv_Read_table (length header) (header :: rows) text Ht) as (text' & Ht' & ->).
    rewrite Nat.eqb_refl. cbn [result_bind]. rewrite bool_decide_true by done.
    apply (csv_rows_ragged _ rows); [done|lia|done].
  - intros Hne. unfold readManagementCSV. cbn [result_bind].
    destruct (csv_Read_table (length expectedHeader) (header :: rows) text Ht) as (text' & Ht' & ->).
    destruct (_ =? _)%nat; [|done]. cbn [result_bind]. by rewrite bool_decide_false.
  - intros rows'. apply readManagementCSV_length.
Qed.

(** [a,b] with an empty line, a quoted field of two lines and a last line
    without a line feed. *)
Definition example_table : string :=
  ("a" +:+ comma +:+ "b") +:+ lf +:+ (lf +:+
    ((dq +:+ double_quotes ("x," +:+ dq +:+ lf +:+ "y") +:+ dq) +:+ comma +:+ "") +:+ (cr +:+ lf) +:+
      ("2" +:+ comma +:+ "z") +:+ "" +:+ "").

Lemma csv_table_read_witness :
  readManagementCSV (Ok example_table) ["a"; "b"] = Ok [["x," +:+ dq +:+ lf +:+ "y"; ""]; ["2"; "z"]].
Proof.
  apply (csv_table_read ["a"; "b"] [["x," +:+ dq +:+ lf +:+ "y"; ""]; ["2"; "z"]] example_table (Ok "") []);
    [|repeat constructor].
  apply table_record.
  - apply record_more; [by apply text_plain|]. apply record_one. by apply text_plain.
  - done.
  - by left.
  - apply table_blank; [done|by left|]. apply table_record.
    + apply record_more; [by apply text_quoted|]. apply record_one. by apply text_plain.
    + done.
    + by right; left.
    + apply table_record; [|done|by right; right|apply table_end].
      apply record_more; [by apply text_plain|]. apply record_one. by apply text_plain.
Defined.

Close Scope Z_scope.
