(* ===== verification/Authorizer.v ===== *)
(** * Authorization

    [managementAPIAuthorizer] of [management_api.go]: the services, their
    channel ACLs and global permissions, loaded from three CSV files, and the
    predicates the API asks.

    The two indexes of an authorizer hold pointers to the same service
    objects, which the loader keeps changing through one of them: services
    live in a heap, and the indexes map to references into it. *)

From S2P Require Export Csv Messages.

Open Scope Z_scope.

Definition managementAPIHealthPermission : string := "health.read".
Definition managementAPIRevokePermission : string := "service_admission.revoke".
Definition managementAPIKnownGlobalPermissions : list string :=
  [managementAPIHealthPermission; managementAPIRevokePermission].

(** [^[0-9a-f]{64}$] *)
Definition managementAPIFingerprintPattern (s : string) : bool :=
  match_repeat (λ c, is_digit c || byte_in 97 102 c) 64 64 s.
(** [^[0-9]+$] *)
Definition managementAPIDecimalPattern (s : string) : bool := match_plus is_digit s.
(** [^[a-z][a-z0-9._-]{0,63}$] *)
Definition managementAPIPermissionPattern (s : string) : bool :=
  match s with
  | String c r => is_lower c && match_repeat (λ c, is_lower c || is_digit c || is_dot_dash c) 0 63 r
  | EmptyString => false
  end.

(** [managementAdmissionKey]: channel and sender. *)
Definition managementAdmissionKey : Type := Z * Z.

Record managementAdmissionACL := AdmissionACL {
  acl_role : string;
  acl_allowListen : bool;
  acl_allowTalk : bool;
  acl_allowInterrupt : bool;
  acl_interruptPriority : Z;
  acl_enabled : bool;
}.

#[global] Instance acl_eq_dec : EqDecision managementAdmissionACL.
Proof. solve_decision. Defined.

Record managementAPIService := Service {
  svc_serviceID : string;
  svc_apiRole : string;
  svc_enabled : bool;
  svc_channels : gset Z;
  svc_admissions : gmap managementAdmissionKey managementAdmissionACL;
  svc_globalPermissions : gset string;
}.

Record managementAPIAuthorizer := Authorizer {
  az_heap : list managementAPIService;
  az_byFingerprint : gmap string nat;
  az_byService : gmap string nat;
}.

(** [managementAPIAuthorizer{}] *)
Definition zero_authorizer : managementAPIAuthorizer := Authorizer [] ∅ ∅.

(** Dereferencing the entry of an index. *)
Definition service_by_id (a : managementAPIAuthorizer) (id : string) : option managementAPIService :=
  r ← az_byService a !! id; az_heap a !! r.
Definition service_by_fingerprint (a : managementAPIAuthorizer) (fp : string) : option managementAPIService :=
  r ← az_byFingerprint a !! fp; az_heap a !! r.

(** ** Parsing fields *)

Definition parseManagementBool (value label : string) : result bool :=
  if String.eqb value "true" then Ok true
  else if String.eqb value "false" then Ok false
  else Err (Errorf "%s must be true or false" [label]).

Definition parseManagementU32 (value label : string) (nonzero : bool) : result Z :=
  reject negb (managementAPIDecimalPattern value) with Errorf "%s must be decimal u32" [label];
  match ParseUint value 32 with
  | None => Err (Errorf "%s must be decimal u32" [label])
  | Some parsed =>
      reject nonzero && (parsed =? 0) with Errorf "%s must be non-zero" [label];
      Ok parsed
  end.

Definition validManagementAPIRole (role : string) : bool :=
  in_set role ["viewer"; "recorder"; "operator"; "auditor"; "admin"].

(** [row[i]]: the reader guarantees the number of fields. *)
Definition field (row : list string) (i : nat) : string := default "" (row !! i).

(** The row number of error messages: [rowNumber+2]. *)
Definition row_label (rowNumber : Z) : string := FormatInt (rowNumber + 2).

(** ** management-services.csv *)

Definition services_header : list string := ["service_id"; "certificate_sha256"; "api_role"; "enabled"].

Definition services_error (rowNumber : Z) (what : string) : error :=
  Errorf "management-services.csv row %d: %s" [row_label rowNumber; what].

(** One round of the first loop. *)
Definition load_service (rowNumber : Z) (row : list string) (a : managementAPIAuthorizer)
    : result managementAPIAuthorizer :=
  let serviceID := field row 0 in
  let fingerprint := field row 1 in
  let role := field row 2 in
  try enabled <- map_err (Wrapf "management-services.csv row %d: %w" [row_label rowNumber])
                   (parseManagementBool (field row 3) "management-services.csv enabled");
  reject negb (validManagementServiceID serviceID)
    with services_error rowNumber "invalid service_id";
  reject negb (managementAPIFingerprintPattern fingerprint)
    with services_error rowNumber "certificate_sha256 must be lowercase SHA-256 hex";
  reject negb (validManagementAPIRole role) with services_error rowNumber "invalid api_role";
  reject bool_decide (is_Some (az_byService a !! serviceID))
    with services_error rowNumber "duplicate service_id";
  reject bool_decide (is_Some (az_byFingerprint a !! fingerprint))
    with services_error rowNumber "duplicate certificate_sha256";
  let service := Service serviceID role enabled ∅ ∅ ∅ in
  let r := length (az_heap a) in
  Ok (Authorizer (az_heap a ++ [service]) (<[fingerprint := r]> (az_byFingerprint a))
        (<[serviceID := r]> (az_byService a))).

Fixpoint load_services (rowNumber : Z) (rows : list (list string)) (a : managementAPIAuthorizer)
    : result managementAPIAuthorizer :=
  match rows with
  | [] => Ok a
  | row :: rows =>
      try a' <- load_service rowNumber row a; load_services (rowNumber + 1) rows a'
  end.

(** A write through a service pointer. *)
Definition update_service (r : nat) (f : managementAPIService → managementAPIService)
    (a : managementAPIAuthorizer) : managementAPIAuthorizer :=
  Authorizer (alter f r (az_heap a)) (az_byFingerprint a) (az_byService a).

(** ** management-channel-acl.csv *)

Definition acl_header : list string :=
  ["service_id"; "channel_id"; "sender_id"; "admission_role"; "allow_listen"; "allow_talk";
   "allow_interrupt"; "interrupt_priority"; "enabled"].

Definition acl_error (rowNumber : Z) (what : string) : error :=
  Errorf "management-channel-acl.csv row %d: %s" [row_label rowNumber; what].
Definition acl_wrap (rowNumber : Z) : error → error :=
  Wrapf "management-channel-acl.csv row %d: %w" [row_label rowNumber].

(** The pointer of an enabled service. *)
Definition enabled_service (serviceID : string) (a : managementAPIAuthorizer)
    : option (nat * managementAPIService) :=
  r ← az_byService a !! serviceID;
  service ← az_heap a !! r;
  if svc_enabled service then Some (r, service) else None.

(** [fmt.Sprintf("%s/%d/%d", ...)] *)
Definition acl_tuple (serviceID : string) (channelID senderID : Z) : string :=
  serviceID +:+ "/" +:+ FormatInt channelID +:+ "/" +:+ FormatInt senderID.

(** The checked contents of a row. *)
Record acl_row := AclRow {
  row_service : string;
  row_key : managementAdmissionKey;
  row_acl : managementAdmissionACL;
  row_enabled : bool;
}.

(** The checks of a row that do not look at other rows, in their order. *)
Definition parse_acl_row (rowNumber : Z) (row : list string) : result acl_row :=
  let wrap {A} : result A → result A := map_err (acl_wrap rowNumber) in
  try channelID <- wrap (parseManagementU32 (field row 1) "channel_id" false);
  try senderID <- wrap (parseManagementU32 (field row 2) "sender_id" true);
  let role := field row 3 in
  reject negb (in_set role ["recorder"; "observer"; "automation"])
    with acl_error rowNumber "invalid admission_role";
  try allowListen <- wrap (parseManagementBool (field row 4) "allow_listen");
  try allowTalk <- wrap (parseManagementBool (field row 5) "allow_talk");
  try allowInterrupt <- wrap (parseManagementBool (field row 6) "allow_interrupt");
  try priority <- wrap (try priority <- parseManagementU32 (field row 7) "interrupt_priority" false;
                        reject 255 <? priority with Errorf "interrupt_priority must be in 0..255" [];
                        Ok priority);
  try enabled <- wrap (parseManagementBool (field row 8) "enabled");
  reject in_set role ["recorder"; "observer"] &&
         (negb allowListen || allowTalk || allowInterrupt || negb (priority =? 0))
    with acl_error rowNumber (role +:+ " requires receive-only permissions");
  reject allowInterrupt && (negb allowTalk || (priority =? 0))
    with acl_error rowNumber "interrupt requires talk and non-zero priority";
  reject negb allowInterrupt && negb (priority =? 0)
    with acl_error rowNumber "interrupt_priority requires allow_interrupt";
  Ok (AclRow (field row 0) (channelID, senderID)
        (AdmissionACL role allowListen allowTalk allowInterrupt priority true) enabled).

(** [service.channels[...] = ...; service.admissions[...] = ...] *)
Definition grant_acl (key : managementAdmissionKey) (acl : managementAdmissionACL)
    (service : managementAPIService) : managementAPIService :=
  Service (svc_serviceID service) (svc_apiRole service) (svc_enabled service)
    ({[key.1]} ∪ svc_channels service) (<[key := acl]> (svc_admissions service))
    (svc_globalPermissions service).

(** One round of the second loop. *)
Definition load_acl (rowNumber : Z) (row : list string) (seen : gset string) (a : managementAPIAuthorizer)
    : result (gset string * managementAPIAuthorizer) :=
  match enabled_service (field row 0) a with
  | None => Err (acl_error rowNumber "service_id is unknown or disabled")
  | Some (r, service) =>
      try parsed <- parse_acl_row rowNumber row;
      let tuple := acl_tuple (svc_serviceID service) (row_key parsed).1 (row_key parsed).2 in
      reject bool_decide (tuple ∈ seen)
        with acl_error rowNumber "duplicate service_id/channel_id/sender_id";
      Ok ({[tuple]} ∪ seen,
          if row_enabled parsed
          then update_service r (grant_acl (row_key parsed) (row_acl parsed)) a else a)
  end.

Fixpoint load_acls (rowNumber : Z) (rows : list (list string)) (seen : gset string)
    (a : managementAPIAuthorizer) : result managementAPIAuthorizer :=
  match rows with
  | [] => Ok a
  | row :: rows =>
      try (seen', a') <- load_acl rowNumber row seen a; load_acls (rowNumber + 1) rows seen' a'
  end.

(** ** management-global-permissions.csv *)

Definition permissions_header : list string := ["service_id"; "permission"; "enabled"].

Definition permissions_error (rowNumber : Z) (what : string) : error :=
  Errorf "management-global-permissions.csv row %d: %s" [row_label rowNumber; what].

(** [service.serviceID + "\x00" + permission] *)
Definition permission_key (serviceID permission : string) : string :=
  serviceID +:+ byte_string [0] +:+ permission.

Definition grant_permission (permission : string) (service : managementAPIService) : managementAPIService :=
  Service (svc_serviceID service) (svc_apiRole service) (svc_enabled service) (svc_channels service)
    (svc_admissions service) ({[permission]} ∪ svc_globalPermissions service).

(** One round of the third loop. *)
Definition load_permission (rowNumber : Z) (row : list string) (seen : gset string)
    (a : managementAPIAuthorizer) : result (gset string * managementAPIAuthorizer) :=
  match enabled_service (field row 0) a with
  | None => Err (permissions_error rowNumber "service_id is unknown or disabled")
  | Some (r, service) =>
      reject negb (managementAPIPermissionPattern (field row 1))
        with permissions_error rowNumber "invalid permission";
      reject negb (in_set (field row 1) managementAPIKnownGlobalPermissions)
        with permissions_error rowNumber "unsupported permission";
      try enabled <- map_err (Wrapf "management-global-permissions.csv row %d: %w" [row_label rowNumber])
                       (parseManagementBool (field row 2) "enabled");
      let key := permission_key (svc_serviceID service) (field row 1) in
      reject bool_decide (key ∈ seen)
        with permissions_error rowNumber "duplicate service_id/permission";
      Ok ({[key]} ∪ seen,
          if enabled then update_service r (grant_permission (field row 1)) a else a)
  end.

Fixpoint load_permissions (rowNumber : Z) (rows : list (list string)) (seen : gset string)
    (a : managementAPIAuthorizer) : result managementAPIAuthorizer :=
  match rows with
  | [] => Ok a
  | row :: rows =>
      try (seen', a') <- load_permission rowNumber row seen a;
      load_permissions (rowNumber + 1) rows seen' a'
  end.

(** ** loadManagementAPIAuthorizer

    [os_open] is the result of opening and reading a file. *)
Definition loadManagementAPIAuthorizer (os_open : string → result string)
    (servicesFile channelACLFile globalPermissionsFile : string) : result managementAPIAuthorizer :=
  try serviceRows <- map_err (Wrapf "read management services ACL: %w" [])
                       (readManagementCSV (os_open servicesFile) services_header);
  try a <- load_services 0 serviceRows zero_authorizer;
  try aclRows <- map_err (Wrapf "read management channel ACL: %w" [])
                   (readManagementCSV (os_open channelACLFile) acl_header);
  try a <- load_acls 0 aclRows ∅ a;
  try globalRows <- map_err (Wrapf "read Management API global permissions: %w" [])
                      (readManagementCSV (os_open globalPermissionsFile) permissions_header);
  load_permissions 0 globalRows ∅ a.

(** ** Predicates *)

(** [a.serviceForRequest(request)]; [fingerprint] is the hexadecimal SHA-256
    of the first peer certificate, if the request has one. *)
Definition serviceForRequest (a : managementAPIAuthorizer) (fingerprint : option string)
    : option managementAPIService :=
  fp ← fingerprint;
  service ← service_by_fingerprint a fp;
  if svc_enabled service then Some service else None.

Definition hasGlobalPermission (s : managementAPIService) (permission : string) : bool :=
  bool_decide (permission ∈ svc_globalPermissions s).

Definition canReadChannels (s : managementAPIService) : bool :=
  in_set (svc_apiRole s) ["viewer"; "recorder"; "operator"] && (0 <? Z.of_nat (size (svc_channels s))).

Definition canReadChannel (s : managementAPIService) (channelID : Z) : bool :=
  if negb (canReadChannels s) then false else bool_decide (channelID ∈ svc_channels s).

Definition event_roles : list string := ["viewer"; "recorder"; "operator"; "auditor"].

(** The receiver of the next four may be nil. *)
Definition canReadEventChannel (s : option managementAPIService) (channelID : Z) : bool :=
  match s with
  | None => false
  | Some s => if negb (in_set (svc_apiRole s) event_roles) then false
              else bool_decide (channelID ∈ svc_channels s)
  end.

Definition canOpenEventStream (s : option managementAPIService) : bool :=
  match s with
  | None => false
  | Some s =>
      if hasGlobalPermission s managementAPIHealthPermission then true
      else if negb (in_set (svc_apiRole s) event_roles) then false
      else 0 <? Z.of_nat (size (svc_channels s))
  end.

Definition admissionACL (s : option managementAPIService) (channelID senderID : Z)
    : option managementAdmissionACL :=
  s ← s;
  acl ← svc_admissions s !! (channelID, senderID);
  if acl_enabled acl then Some acl else None.

(** ** Well-formedness *)

(** A right that an ACL row can grant. *)
Record acl_ok (key : managementAdmissionKey) (acl : managementAdmissionACL) : Prop := AclOk {
  acl_channel : is_u32 key.1;
  acl_sender : 0 < key.2 < 2 ^ 32;
  acl_known_role : acl_role acl ∈ ["recorder"; "observer"; "automation"];
  acl_receive_only : acl_role acl = "recorder" ∨ acl_role acl = "observer" →
    acl_allowListen acl = true ∧ acl_allowTalk acl = false ∧
    acl_allowInterrupt acl = false ∧ acl_interruptPriority acl = 0;
  acl_interrupt : acl_allowInterrupt acl = true →
    acl_allowTalk acl = true ∧ 1 ≤ acl_interruptPriority acl ≤ 255;
  acl_no_interrupt : acl_allowInterrupt acl = false → acl_interruptPriority acl = 0;
  acl_is_enabled : acl_enabled acl = true;
}.

Record service_ok (s : managementAPIService) : Prop := ServiceOk {
  service_id_valid : validManagementServiceID (svc_serviceID s) = true;
  service_role_valid : validManagementAPIRole (svc_apiRole s) = true;
  service_acls : ∀ key acl, svc_admissions s !! key = Some acl → acl_ok key acl;
  service_channels : ∀ c, c ∈ svc_channels s ↔ ∃ sender, is_Some (svc_admissions s !! (c, sender));
  service_permissions : ∀ p, p ∈ svc_globalPermissions s → p ∈ managementAPIKnownGlobalPermissions;
  service_disabled : svc_enabled s = false →
    svc_admissions s = ∅ ∧ svc_globalPermissions s = ∅;
}.

(** The indexes lead to the same objects: each service has one ID and one
    fingerprint. *)
Record az_ok (a : managementAPIAuthorizer) : Prop := AzOk {
  az_services : ∀ r s, az_heap a !! r = Some s → service_ok s;
  az_id_index : ∀ id r, az_byService a !! id = Some r ↔
    ∃ s, az_heap a !! r = Some s ∧ svc_serviceID s = id;
  az_fp_index : ∀ fp r, az_byFingerprint a !! fp = Some r →
    is_Some (az_heap a !! r) ∧ managementAPIFingerprintPattern fp = true;
  az_fp_inj : ∀ fp1 fp2 r, az_byFingerprint a !! fp1 = Some r → az_byFingerprint a !! fp2 = Some r →
    fp1 = fp2;
  az_fp_all : ∀ r, is_Some (az_heap a !! r) → ∃ fp, az_byFingerprint a !! fp = Some r;
}.

Lemma zero_authorizer_ok : az_ok zero_authorizer.
Proof.
  constructor; simpl.
  - intros r s. by rewrite lookup_nil.
  - intros id r. rewrite lookup_empty. split; [done|]. intros (s & Hs & _). by rewrite lookup_nil in Hs.
  - intros fp r. by rewrite lookup_empty.
  - intros fp1 fp2 r. by rewrite lookup_empty.
  - intros r [s Hs]. by rewrite lookup_nil in Hs.
Qed.

Lemma az_ok_service a id s : az_ok a → service_by_id a id = Some s → service_ok s ∧ svc_serviceID s = id.
Proof.
  intros Hok. unfold service_by_id. destruct (az_byService a !! id) as [r|] eqn:Er; [|done].
  cbn [mbind option_bind]. intros Hs. split; [by eapply az_services|].
  apply (az_id_index a Hok) in Er as (s' & Hs' & <-). congruence.
Qed.

Lemma load_service_ok n row a a' : az_ok a → load_service n row a = Ok a' → az_ok a'.
Proof.
  intros Hok H. unfold load_service in H. go_ok. go_bool. subst a'.
  match goal with H : ¬ is_Some (az_byService a !! _) |- _ => apply eq_None_not_Some in H end.
  match goal with H : ¬ is_Some (az_byFingerprint a !! _) |- _ => apply eq_None_not_Some in H end.
  set (id := field row 0) in *. set (fp := field row 1) in *.
  set (s := Service id (field row 2) x ∅ ∅ ∅) in *.
  assert (Hnew : ∀ r s', (az_heap a ++ [s]) !! r = Some s' ↔
                 az_heap a !! r = Some s' ∨ (r = length (az_heap a) ∧ s' = s)).
  { intros r s'. rewrite lookup_app_Some, list_lookup_singleton_Some. split; [|].
    - intros [?|(? & Hr & <-)]; [by left|right]. split; [lia|done].
    - intros [?|[-> ->]]; [by left|right]. split_and!; [lia|lia|done]. }
  assert (Hfresh : ∀ r s', az_heap a !! r = Some s' → r ≠ length (az_heap a)).
  { intros r s' Hr ->. apply lookup_lt_Some in Hr. lia. }
  destruct Hok as [K1 K2 K3 K4 K5]. constructor; simpl.
  - intros r s' [?|[-> ->]]%Hnew; [eauto|]. constructor; simpl; try done.
    + intros c. rewrite elem_of_empty. split; [done|]. intros [sender [acl Hacl]].
      by rewrite lookup_empty in Hacl.
  - intros id' r. rewrite lookup_insert_Some. setoid_rewrite Hnew. split.
    + intros [[<- <-]|[Hne Hr]]; [by exists s; auto|].
      apply K2 in Hr as (s' & Hs' & ?). eauto.
    + intros (s' & [Hs'|[-> ->]] & <-); [right|by left]. split; [|apply K2; eauto].
      intros Heq. assert (az_byService a !! svc_serviceID s' = Some r) by (apply K2; eauto). congruence.
  - intros fp' r [[<- <-]|[Hne Hr]]%lookup_insert_Some.
    + split; [|done]. exists s. apply Hnew. auto.
    + destruct (K3 _ _ Hr) as [[s' Hs'] ?]. split; [|done]. exists s'. apply Hnew. auto.
  - intros fp1 fp2 r [[<- <-]|[Hne1 Hr1]]%lookup_insert_Some [[<- Heq]|[Hne2 Hr2]]%lookup_insert_Some.
    + done.
    + destruct (K3 _ _ Hr2) as [[s' Hs'] _]. by destruct (Hfresh _ _ Hs').
    + destruct (K3 _ _ Hr1) as [[s' Hs'] _]. by destruct (Hfresh _ _ Hs').
    + eauto.
  - intros r [s' [Hs'|[-> ->]]%Hnew].
    + destruct (K5 r) as [fp' Hfp']; [eauto|]. exists fp'. rewrite lookup_insert_ne; [done|].
      intros <-. congruence.
    + exists fp. apply lookup_insert_eq.
Qed.

(** Writing through a pointer keeps the indexes. *)
Lemma update_service_ok a r f :
  az_ok a → (∀ s, az_heap a !! r = Some s → service_ok (f s) ∧ svc_serviceID (f s) = svc_serviceID s) →
  az_ok (update_service r f a).
Proof.
  intros [H1 H2 H3 H4 H5] Hf.
  assert (Hlk : ∀ r' s', alter f r (az_heap a) !! r' = Some s' ↔
     ∃ s, az_heap a !! r' = Some s ∧ s' = if decide (r = r') then f s else s).
  { intros r' s'. destruct (decide (r = r')) as [<-|Hne].
    - rewrite list_lookup_alter_eq, fmap_Some. naive_solver.
    - rewrite list_lookup_alter_ne by done. naive_solver. }
  assert (His : ∀ r', is_Some (alter f r (az_heap a) !! r') ↔ is_Some (az_heap a !! r')).
  { intros r'. split; intros [s Hs].
    - apply Hlk in Hs as (s' & ? & _). eauto.
    - eexists. apply Hlk. eauto. }
  constructor; simpl.
  - intros r' s' (s & Hs & ->)%Hlk. case_decide; subst; [by apply Hf|eauto].
  - intros id r'. rewrite H2. setoid_rewrite Hlk. split.
    + intros (s & Hs & <-). eexists. split; [eauto|]. case_decide; subst; [by apply Hf|done].
    + intros (s' & (s & Hs & ->) & <-). exists s. split; [done|].
      case_decide; subst; [symmetry; by apply Hf|done].
  - intros fp r' Hr. rewrite His. eauto.
  - done.
  - intros r' Hr. apply H5. by apply His.
Qed.

Lemma update_service_by_id a r f id :
  az_ok a →
  service_by_id (update_service r f a) id =
  if decide (az_byService a !! id = Some r) then f <$> service_by_id a id else service_by_id a id.
Proof.
  intros Hok. unfold service_by_id. cbn [az_byService az_heap update_service].
  destruct (az_byService a !! id) as [r'|]; cbn [mbind option_bind].
  - case_decide as Hr; simplify_eq; [by rewrite list_lookup_alter_eq|].
    rewrite list_lookup_alter_ne; [done|congruence].
  - by case_decide.
Qed.

(** ** What a row says *)

Lemma parseManagementU32_ok value label nonzero z :
  parseManagementU32 value label nonzero = Ok z ↔
  managementAPIDecimalPattern value = true ∧ ParseUint value 32 = Some z ∧
  (nonzero = true → z ≠ 0).
Proof.
  unfold parseManagementU32. rewrite reject_if_ok, negb_false_iff.
  destruct (ParseUint value 32) as [v|]; [|naive_solver].
  rewrite reject_if_ok, andb_false_iff, Z.eqb_neq. destruct nonzero; naive_solver.
Qed.

Lemma parse_acl_row_ok n row p :
  parse_acl_row n row = Ok p → row_service p = field row 0 ∧ acl_ok (row_key p) (row_acl p).
Proof.
  unfold parse_acl_row. intros H. go_ok. subst p. split; [done|].
  repeat match goal with
  | H : parseManagementU32 _ _ _ = Ok _ |- _ =>
      apply parseManagementU32_ok in H as (_ & ?%ParseUint_range & ?)
  end.
  go_bool. constructor; simpl.
  - unfold is_u32. lia.
  - lia.
  - by apply in_set_spec.
  - intros Hrole.
    assert (in_set (field row 3) ["recorder"; "observer"] = true) as Hin by (apply in_set_spec; set_solver).
    rewrite Hin in *. simpl in *. go_bool. done.
  - intros ->. simpl in *. go_bool. split; [done|]. lia.
  - intros ->. simpl in *. go_bool. done.
  - done.
Qed.

Lemma map_err_irrel {A} f g (r : result A) a : map_err f r = Ok a → map_err g r = Ok a.
Proof. by rewrite !map_err_ok. Qed.

(** The row number only shows in error messages. *)
Lemma parse_acl_row_number n m row p : parse_acl_row n row = Ok p → parse_acl_row m row = Ok p.
Proof.
  unfold parse_acl_row. intros H.
  repeat match goal with
  | H : result_bind (map_err (acl_wrap n) _) _ = Ok _ |- _ =>
      let x := fresh "x" in let Hx := fresh "Hx" in
      apply result_bind_ok in H as (x & Hx & H);
      rewrite (map_err_irrel _ (acl_wrap m) _ _ Hx); cbn [result_bind]
  | H : reject_if _ _ _ = Ok _ |- _ =>
      let Hc := fresh "Hc" in apply reject_if_ok in H as [Hc H]; rewrite Hc; cbn [reject_if]
  end.
  done.
Qed.

Definition slash : ascii := "/"%char.

(** The composite key of the duplicate check is injective on valid IDs. *)
Lemma acl_tuple_inj id1 c1 s1 id2 c2 s2 :
  validManagementServiceID id1 = true → validManagementServiceID id2 = true →
  0 ≤ c1 → 0 ≤ c2 → 0 ≤ s1 → 0 ≤ s2 →
  acl_tuple id1 c1 s1 = acl_tuple id2 c2 s2 → id1 = id2 ∧ c1 = c2 ∧ s1 = s2.
Proof.
  intros (_ & Hb1 & _)%validManagementServiceID_bytes (_ & Hb2 & _)%validManagementServiceID_bytes.
  intros Hc1 Hc2 Hs1 Hs2 H. unfold acl_tuple in H.
  apply (string_app_sep_inj slash service_id_byte) in H as [-> H]; [|done|done|done].
  destruct (FormatInt_spec c1 Hc1) as (_ & Hd1 & _). destruct (FormatInt_spec c2 Hc2) as (_ & Hd2 & _).
  apply (string_app_sep_inj slash is_digit) in H as [H1 H2]; [|done|done|done].
  apply FormatInt_inj in H1, H2; auto.
Qed.

Lemma permission_key_inj id1 p1 id2 p2 :
  validManagementServiceID id1 = true → validManagementServiceID id2 = true →
  permission_key id1 p1 = permission_key id2 p2 → id1 = id2 ∧ p1 = p2.
Proof.
  intros (_ & Hb1 & _)%validManagementServiceID_bytes (_ & Hb2 & _)%validManagementServiceID_bytes H.
  by apply (string_app_sep_inj (byte_of 0) service_id_byte) in H.
Qed.

Lemma enabled_service_spec id a r s :
  enabled_service id a = Some (r, s) ↔
  az_byService a !! id = Some r ∧ service_by_id a id = Some s ∧ svc_enabled s = true.
Proof.
  unfold enabled_service, service_by_id. destruct (az_byService a !! id) as [r'|]; simpl; [|naive_solver].
  destruct (az_heap a !! r') as [s'|]; simpl; [|naive_solver].
  destruct (svc_enabled s') eqn:E; split.
  - by intros [= <- <-].
  - by intros ([= <-] & [= <-] & _).
  - done.
  - intros ([= <-] & [= <-] & ?). congruence.
Qed.

Lemma grant_acl_ok key acl s :
  service_ok s → svc_enabled s = true → acl_ok key acl → service_ok (grant_acl key acl s).
Proof.
  intros [H1 H2 H3 H4 H5 H6] Hen Hacl. constructor; simpl; try done.
  - intros key' acl' [[<- <-]|[_ H]]%lookup_insert_Some; eauto.
  - intros c. rewrite elem_of_union, elem_of_singleton, H4. destruct key as [ch sn]; simpl. split.
    + intros [->|[sender Hs]].
      * exists sn. by rewrite lookup_insert_eq.
      * exists sender. apply lookup_insert_is_Some'. by right.
    + intros [sender Hs]. apply lookup_insert_is_Some' in Hs as [[= -> ->]|Hs]; [by left|right; eauto].
  - by rewrite Hen.
Qed.

Lemma grant_permission_ok p s :
  service_ok s → svc_enabled s = true → p ∈ managementAPIKnownGlobalPermissions →
  service_ok (grant_permission p s).
Proof.
  intros [H1 H2 H3 H4 H5 H6] Hen Hp. constructor; simpl; try done.
  - intros p' [->%elem_of_singleton|H]%elem_of_union; auto.
  - by rewrite Hen.
Qed.

(** Looking up an ID after a write through the pointer of another. *)
Lemma update_by_id a id r f id' :
  az_ok a → az_byService a !! id = Some r →
  service_by_id (update_service r f a) id' =
  if decide (id' = id) then f <$> service_by_id a id else service_by_id a id'.
Proof.
  intros Hok Hr. rewrite (update_service_by_id a r f id' Hok).
  destruct (decide (id' = id)) as [->|Hne]; [by rewrite decide_True|].
  rewrite decide_False; [done|]. intros Hr'. apply Hne.
  apply (az_id_index a Hok) in Hr as (s & Hs & <-).
  apply (az_id_index a Hok) in Hr' as (s' & Hs' & <-). congruence.
Qed.

Lemma load_acl_step n row seen a seen' a' :
  az_ok a → load_acl n row seen a = Ok (seen', a') →
  az_ok a' ∧ ∃ p s, parse_acl_row n row = Ok p ∧
    service_by_id a (row_service p) = Some s ∧ svc_enabled s = true ∧
    (acl_tuple (row_service p) (row_key p).1 (row_key p).2 ∉ seen) ∧
    seen' = {[acl_tuple (row_service p) (row_key p).1 (row_key p).2]} ∪ seen ∧
    ∀ id, service_by_id a' id =
      if decide (id = row_service p ∧ row_enabled p = true)
      then grant_acl (row_key p) (row_acl p) <$> service_by_id a id else service_by_id a id.
Proof.
  intros Hok. unfold load_acl. destruct (enabled_service (field row 0) a) as [[r s]|] eqn:Es; [|done].
  apply enabled_service_spec in Es as (Hr & Hs & Hen).
  destruct (az_ok_service a _ _ Hok Hs) as [Hsok Hid].
  intros (p & Hp & H)%result_bind_ok. apply reject_if_ok in H as [Hseen [= <- <-]].
  destruct (parse_acl_row_ok _ _ _ Hp) as [Hrow Hacl]. rewrite Hid, <-Hrow in *. go_bool.
  assert (Hup : az_ok (update_service r (grant_acl (row_key p) (row_acl p)) a)).
  { apply update_service_ok; [done|]. intros s' Hs'. split; [|done].
    unfold service_by_id in Hs. rewrite Hr in Hs. cbn [mbind option_bind] in Hs.
    assert (s' = s) as -> by congruence. by apply grant_acl_ok. }
  split; [by destruct (row_enabled p)|]. exists p, s. split_and!; try done.
  intros id. destruct (row_enabled p) eqn:Een.
  - rewrite (update_by_id _ _ _ _ _ Hok Hr). destruct (decide (id = row_service p)) as [->|Hne].
    + by rewrite decide_True.
    + by rewrite decide_False by naive_solver.
  - by rewrite decide_False by naive_solver.
Qed.

(** ** What the files grant *)

(** A row of the ACL file grants [acl] for [key] to the service [id]. *)
Definition acl_granted (rows : list (list string)) (id : string) (key : managementAdmissionKey)
    (acl : managementAdmissionACL) : Prop :=
  ∃ row n, row ∈ rows ∧ parse_acl_row n row = Ok (AclRow id key acl true).

(** A row of the permissions file grants [permission] to the service [id]. *)
Definition permission_granted (rows : list (list string)) (id permission : string) : Prop :=
  ∃ row, row ∈ rows ∧ field row 0 = id ∧ field row 1 = permission ∧ field row 2 = "true".

(** The identity of a service, which the second and third loops keep. *)
Definition same_identity (s s' : managementAPIService) : Prop :=
  svc_serviceID s' = svc_serviceID s ∧ svc_apiRole s' = svc_apiRole s ∧ svc_enabled s' = svc_enabled s.

(** Only the heap changes. *)
Definition same_indexes (a a' : managementAPIAuthorizer) : Prop :=
  az_byFingerprint a' = az_byFingerprint a ∧ az_byService a' = az_byService a.

Lemma same_indexes_trans a b c : same_indexes a b → same_indexes b c → same_indexes a c.
Proof. unfold same_indexes. intuition congruence. Qed.

Lemma acl_granted_cons n row rows p :
  parse_acl_row n row = Ok p → ∀ id key acl,
  acl_granted (row :: rows) id key acl ↔
    (row_service p = id ∧ row_key p = key ∧ row_acl p = acl ∧ row_enabled p = true) ∨
    acl_granted rows id key acl.
Proof.
  intros Hp id key acl. unfold acl_granted. setoid_rewrite elem_of_cons. split.
  - intros (r & m & [->|Hr] & Hm); [left|right; eauto].
    apply (parse_acl_row_number _ n) in Hm. rewrite Hp in Hm. by injection Hm as ->.
  - intros [(<- & <- & <- & Ht)|(r & m & Hr & Hm)]; [|eauto 6].
    exists row, n. split; [by left|]. rewrite Hp, <-Ht. by destruct p.
Qed.

Lemma load_acls_spec n rows seen a a' :
  az_ok a → load_acls n rows seen a = Ok a' →
  (∀ id s key acl, service_by_id a id = Some s → svc_admissions s !! key = Some acl →
     acl_tuple id key.1 key.2 ∈ seen) →
  az_ok a' ∧ same_indexes a a' ∧
  (∀ id, service_by_id a id = None → service_by_id a' id = None) ∧
  ∀ id s, service_by_id a id = Some s →
    ∃ s', service_by_id a' id = Some s' ∧ same_identity s s' ∧
      svc_globalPermissions s' = svc_globalPermissions s ∧
      ∀ key acl, svc_admissions s' !! key = Some acl ↔
                 svc_admissions s !! key = Some acl ∨ acl_granted rows id key acl.
Proof.
  revert n seen a. induction rows as [|row rows IH]; intros n seen a Hok H Hseen; cbn [load_acls] in H.
  { injection H as ->. split_and!; [done|done|done|]. intros id s Hs. exists s. split_and!; [done|done|done|].
    intros key acl. split; [by left|]. intros [?|(r & m & Hr & _)]; [done|set_solver]. }
  apply result_bind_ok in H as ([seen1 a1] & Hstep & H).
  assert (same_indexes a a1) as Hfp.
  { unfold load_acl in Hstep. destruct (enabled_service _ _) as [[r s]|]; [|done].
    apply result_bind_ok in Hstep as (p & _ & Hstep). apply reject_if_ok in Hstep as [_ [= _ <-]].
    by destruct (row_enabled p). }
  apply load_acl_step in Hstep as (Hok1 & p & sv & Hp & Hsv & Hen & Hnew & -> & Hby); [|done].
  destruct (parse_acl_row_ok _ _ _ Hp) as [_ Hacl].
  pose proof (acl_granted_cons _ _ rows _ Hp) as Hgrant.
  assert (Hunique : ∀ s key acl, service_by_id a (row_service p) = Some s → key = row_key p →
    svc_admissions s !! key = Some acl → False).
  { intros s key acl Hs -> Hk. by apply Hnew, (Hseen _ s _ acl). }
  apply (IH (n + 1)) in H as (Hok' & Hfp' & Hnone & Hsome); [|done|].
  2: { intros id s key acl. rewrite Hby, elem_of_union, elem_of_singleton.
       destruct (decide (id = row_service p ∧ row_enabled p = true)) as [Hd|Hd].
       - destruct Hd as [-> _]. rewrite Hsv. cbn [fmap option_fmap option_map]. intros [= <-]. simpl.
         intros [[<- _]|[_ Hk]]%lookup_insert_Some; [by left|right; eauto].
       - intros Hs Hk. right. eauto. }
  split_and!; [done|by eapply same_indexes_trans| |].
  - intros id Hid. apply Hnone. rewrite Hby, Hid. by destruct (decide _).
  - intros id s Hs. destruct (decide (id = row_service p ∧ row_enabled p = true)) as [[-> Ht]|Hd].
    + destruct (Hsome (row_service p) (grant_acl (row_key p) (row_acl p) s)) as (s' & Hs' & Hid & Hperm & Hadm).
      { rewrite Hby, decide_True by done. by rewrite Hs. }
      exists s'. split_and!; [done|done|done|]. intros key acl. rewrite Hadm, Hgrant. simpl.
      rewrite lookup_insert_Some. split.
      * intros [[[<- <-]|[_ ?]]|?]; [by right; left|by left|by right; right].
      * intros [Hk|[(_ & <- & <- & _)|?]]; [left; right|by left; left|by right].
        split; [|done]. intros <-. by eapply Hunique.
    + destruct (Hsome id s) as (s' & Hs' & Hid & Hperm & Hadm).
      { by rewrite Hby, decide_False. }
      exists s'. split_and!; [done|done|done|]. intros key acl. rewrite Hadm, Hgrant.
      split; [intros [?|?]; [by left|by right; right]|].
      intros [?|[(<- & _ & _ & Ht)|?]]; [by left| |by right]. by destruct Hd.
Qed.

Lemma parseManagementBool_true value label : parseManagementBool value label = Ok true ↔ value = "true".
Proof.
  unfold parseManagementBool. destruct (String.eqb value "true") eqn:E1; go_bool; [done|].
  destruct (String.eqb value "false"); naive_solver.
Qed.

Lemma load_permission_step n row seen a seen' a' :
  az_ok a → load_permission n row seen a = Ok (seen', a') →
  az_ok a' ∧ same_indexes a a' ∧
  ∀ id, service_by_id a' id =
    if decide (id = field row 0 ∧ field row 2 = "true")
    then grant_permission (field row 1) <$> service_by_id a id else service_by_id a id.
Proof.
  intros Hok. unfold load_permission. destruct (enabled_service (field row 0) a) as [[r s]|] eqn:Es; [|done].
  apply enabled_service_spec in Es as (Hr & Hs & Hen).
  destruct (az_ok_service a _ _ Hok Hs) as [Hsok Hid]. intros H.
  apply reject_if_ok in H as [_ H]. apply reject_if_ok in H as [Hknown H].
  apply result_bind_ok in H as (enabled & Hb & H). apply map_err_ok in Hb.
  apply reject_if_ok in H as [_ [= <- <-]]. apply negb_false_iff, in_set_spec in Hknown.
  assert (Hup : az_ok (update_service r (grant_permission (field row 1)) a)).
  { apply update_service_ok; [done|]. intros s' Hs'. split; [|done].
    unfold service_by_id in Hs. rewrite Hr in Hs. cbn [mbind option_bind] in Hs.
    assert (s' = s) as -> by congruence. by apply grant_permission_ok. }
  split_and!; [by destruct enabled|by destruct enabled|].
  intros id. destruct enabled.
  - apply parseManagementBool_true in Hb. rewrite (update_by_id _ _ _ _ _ Hok Hr).
    destruct (decide (id = field row 0)) as [->|Hne]; [by rewrite decide_True|].
    by rewrite decide_False by naive_solver.
  - rewrite decide_False; [done|]. intros [_ Ht]. rewrite Ht in Hb. discriminate Hb.
Qed.

Lemma load_permissions_spec n rows seen a a' :
  az_ok a → load_permissions n rows seen a = Ok a' →
  az_ok a' ∧ same_indexes a a' ∧
  (∀ id, service_by_id a id = None → service_by_id a' id = None) ∧
  ∀ id s, service_by_id a id = Some s →
    ∃ s', service_by_id a' id = Some s' ∧ same_identity s s' ∧
      svc_admissions s' = svc_admissions s ∧
      ∀ p, p ∈ svc_globalPermissions s' ↔ p ∈ svc_globalPermissions s ∨ permission_granted rows id p.
Proof.
  revert n seen a. induction rows as [|row rows IH]; intros n seen a Hok H; cbn [load_permissions] in H.
  { injection H as ->. split_and!; [done|done|done|]. intros id s Hs. exists s. split_and!; [done|done|done|].
    intros p. split; [by left|]. intros [?|(r & Hr & _)]; [done|set_solver]. }
  apply result_bind_ok in H as ([seen1 a1] & Hstep & H).
  apply load_permission_step in Hstep as (Hok1 & Hfp & Hby); [|done].
  apply (IH (n + 1)) in H as (Hok' & Hfp' & Hnone & Hsome); [|done].
  assert (Hgrant : ∀ id p, permission_granted (row :: rows) id p ↔
    (field row 0 = id ∧ field row 1 = p ∧ field row 2 = "true") ∨ permission_granted rows id p).
  { intros id p. unfold permission_granted. setoid_rewrite elem_of_cons. split.
    - intros (r & [->|Hr] & Hm); [by left|right; eauto].
    - intros [Hm|(r & Hr & Hm)]; eauto. }
  split_and!; [done|by eapply same_indexes_trans| |].
  - intros id Hid. apply Hnone. rewrite Hby, Hid. by destruct (decide _).
  - intros id s Hs. destruct (decide (id = field row 0 ∧ field row 2 = "true")) as [[-> Ht]|Hd].
    + destruct (Hsome (field row 0) (grant_permission (field row 1) s)) as (s' & Hs' & Hid & Hadm & Hp).
      { rewrite Hby, decide_True by done. by rewrite Hs. }
      exists s'. split_and!; [done|done|done|]. intros p. rewrite Hp, Hgrant. simpl.
      rewrite elem_of_union, elem_of_singleton. naive_solver.
    + destruct (Hsome id s) as (s' & Hs' & Hid & Hadm & Hp).
      { by rewrite Hby, decide_False. }
      exists s'. split_and!; [done|done|done|]. intros p. rewrite Hp, Hgrant. naive_solver.
Qed.

(** A row of the services file declares a service. *)
Definition service_declared (rows : list (list string)) (id fingerprint role : string) (enabled : bool) : Prop :=
  ∃ row, row ∈ rows ∧ field row 0 = id ∧ field row 1 = fingerprint ∧ field row 2 = role ∧
         field row 3 = if enabled then "true" else "false".

Lemma load_services_ok n rows a a' : az_ok a → load_services n rows a = Ok a' → az_ok a'.
Proof.
  revert n a. induction rows as [|row rows IH]; intros n a Hok; cbn [load_services]; [by intros [= <-]|].
  intros (a1 & H1 & H2)%result_bind_ok. eapply IH; [|exact H2]. by eapply load_service_ok.
Qed.

Lemma service_by_fingerprint_index a fp s :
  az_ok a → service_by_fingerprint a fp = Some s → is_Some (az_byService a !! svc_serviceID s).
Proof.
  intros Hok. unfold service_by_fingerprint. destruct (az_byFingerprint a !! fp) as [r|]; [|done].
  cbn [mbind option_bind]. intros Hs. exists r. apply (az_id_index a Hok). eauto.
Qed.

(** One row adds one service to both indexes. *)
Lemma load_service_step n row a a1 :
  az_ok a → load_service n row a = Ok a1 →
  ∃ enabled, parseManagementBool (field row 3) "management-services.csv enabled" = Ok enabled ∧
  let s := Service (field row 0) (field row 2) enabled ∅ ∅ ∅ in
  az_byService a !! field row 0 = None ∧ az_byFingerprint a !! field row 1 = None ∧
  (∀ id, service_by_id a1 id = if decide (id = field row 0) then Some s else service_by_id a id) ∧
  (∀ fp, service_by_fingerprint a1 fp =
         if decide (fp = field row 1) then Some s else service_by_fingerprint a fp).
Proof.
  intros Hok H. unfold load_service in H.
  apply result_bind_ok in H as (enabled & Hb & H). apply map_err_ok in Hb.
  exists enabled. split; [done|]. go_ok. go_bool. subst a1. cbv zeta.
  match goal with H : ¬ is_Some (az_byService a !! _) |- _ => apply eq_None_not_Some in H end.
  match goal with H : ¬ is_Some (az_byFingerprint a !! _) |- _ => apply eq_None_not_Some in H end.
  set (s := Service _ _ _ _ _ _). split; [done|]. split; [done|].
  assert (Hold : ∀ r, is_Some (az_heap a !! r) → (az_heap a ++ [s]) !! r = az_heap a !! r).
  { intros r Hr. apply lookup_app_l. by apply lookup_lt_is_Some. }
  assert (Hlast : (az_heap a ++ [s]) !! length (az_heap a) = Some s).
  { by rewrite lookup_app_r, Nat.sub_diag. }
  split.
  - intros id. unfold service_by_id. simpl. rewrite lookup_insert.
    destruct (decide (field row 0 = id)) as [->|Hne].
    + rewrite decide_True by done. exact Hlast.
    + rewrite decide_False by congruence. destruct (az_byService a !! id) as [r|] eqn:Er; [|done].
      cbn [mbind option_bind]. apply Hold. apply (az_id_index a Hok) in Er as (s' & Hs' & _). eauto.
  - intros fp. unfold service_by_fingerprint. simpl. rewrite lookup_insert.
    destruct (decide (field row 1 = fp)) as [->|Hne].
    + rewrite decide_True by done. exact Hlast.
    + rewrite decide_False by congruence. destruct (az_byFingerprint a !! fp) as [r|] eqn:Er; [|done].
      cbn [mbind option_bind]. apply Hold. by apply (az_fp_index a Hok) in Er as [? _].
Qed.

Lemma parseManagementBool_ok value label b :
  parseManagementBool value label = Ok b ↔ value = if b then "true" else "false".
Proof.
  unfold parseManagementBool.
  destruct (String.eqb value "true") eqn:E1; [|destruct (String.eqb value "false") eqn:E2];
    go_bool; subst; destruct b; naive_solver.
Qed.

(** The entries of a loaded services file: a service per row, without rights,
    under its ID and its fingerprint. *)
Lemma load_services_spec n rows a a' :
  az_ok a → load_services n rows a = Ok a' →
  ∀ id fp s, (service_by_id a' id = Some s ∧ service_by_fingerprint a' fp = Some s) ↔
    (service_by_id a id = Some s ∧ service_by_fingerprint a fp = Some s) ∨
    (service_declared rows id fp (svc_apiRole s) (svc_enabled s) ∧
      s = Service id (svc_apiRole s) (svc_enabled s) ∅ ∅ ∅).
Proof.
  revert n a. induction rows as [|row rows IH]; intros n a Hok; cbn [load_services].
  { intros [= <-] id fp s. split; [by left|]. intros [?|[(r & Hr & _) _]]; [done|set_solver]. }
  intros (a1 & H1 & H2)%result_bind_ok id fp s.
  rewrite (IH _ _ (load_service_ok _ _ _ _ Hok H1) H2 id fp s). clear IH H2.
  assert (Hdecl : service_declared (row :: rows) id fp (svc_apiRole s) (svc_enabled s) ↔
    (field row 0 = id ∧ field row 1 = fp ∧ field row 2 = svc_apiRole s ∧
       field row 3 = if svc_enabled s then "true" else "false") ∨
    service_declared rows id fp (svc_apiRole s) (svc_enabled s)).
  { unfold service_declared. setoid_rewrite elem_of_cons. naive_solver. }
  rewrite Hdecl. clear Hdecl.
  destruct (load_service_step _ _ _ _ Hok H1) as (enabled & Hb & Hnew & Hnewfp & Hid & Hfp).
  apply parseManagementBool_ok in Hb.
  cut ((service_by_id a1 id = Some s ∧ service_by_fingerprint a1 fp = Some s) ↔
    (service_by_id a id = Some s ∧ service_by_fingerprint a fp = Some s) ∨
    ((field row 0 = id ∧ field row 1 = fp ∧ field row 2 = svc_apiRole s ∧
       field row 3 = if svc_enabled s then "true" else "false") ∧
      s = Service id (svc_apiRole s) (svc_enabled s) ∅ ∅ ∅)); [tauto|].
  rewrite Hid, Hfp. assert (Hnone : service_by_id a (field row 0) = None).
  { unfold service_by_id. by rewrite Hnew. }
  destruct (decide (id = field row 0)) as [->|Hne1], (decide (fp = field row 1)) as [->|Hne2].
  - split; [intros [[= <-] _]; right; by split_and!|].
    intros [[? _]|[(_ & _ & Hr & He) ->]]; [congruence|]. simpl in *. rewrite Hr.
    assert (enabled = svc_enabled s) as -> by (rewrite Hb in He; by destruct enabled, (svc_enabled s)).
    done.
  - split; [|intros [[? _]|[(_ & ? & _) _]]; congruence]. intros [[= <-] Hf].
    apply service_by_fingerprint_index in Hf; [|done]. simpl in Hf. rewrite Hnew in Hf. by destruct Hf.
  - split; [|intros [[_ Hf]|[(? & _) _]]; [|congruence]].
    + intros [Hs [= <-]]. apply az_ok_service in Hs as [_ Hs]; [|done]. simpl in Hs. congruence.
    + unfold service_by_fingerprint in Hf. by rewrite Hnewfp in Hf.
  - split; [by left|]. intros [?|[(? & _) _]]; [done|congruence].
Qed.

Lemma load_services_empty n rows a' :
  load_services n rows zero_authorizer = Ok a' →
  ∀ id s, service_by_id a' id = Some s → svc_admissions s = ∅ ∧ svc_globalPermissions s = ∅.
Proof.
  intros H id s Hs. pose proof (load_services_ok _ _ _ _ zero_authorizer_ok H) as Hok.
  pose proof Hs as Hs'. unfold service_by_id in Hs'. destruct (az_byService a' !! id) as [r|] eqn:Er; [|done].
  cbn [mbind option_bind] in Hs'. destruct (az_fp_all a' Hok r ltac:(eauto)) as [fp Hfp].
  assert (service_by_fingerprint a' fp = Some s) as Hf by (unfold service_by_fingerprint; by rewrite Hfp).
  destruct (proj1 (load_services_spec _ _ _ _ zero_authorizer_ok H id fp s) (conj Hs Hf))
    as [[Hz _]|[_ ->]]; [|done].
  unfold service_by_id in Hz. simpl in Hz. by rewrite lookup_empty in Hz.
Qed.

(** A service found by its fingerprint is the one found by its ID. *)
Lemma service_by_fingerprint_by_id a fp s :
  az_ok a → service_by_fingerprint a fp = Some s → service_by_id a (svc_serviceID s) = Some s.
Proof.
  intros Hok. unfold service_by_fingerprint, service_by_id.
  destruct (az_byFingerprint a !! fp) as [r|]; [|done]. cbn [mbind option_bind]. intros Hs.
  assert (az_byService a !! svc_serviceID s = Some r) as -> by (apply (az_id_index a Hok); eauto). done.
Qed.

(** The object behind a fingerprint keeps its identity when only the heap changes. *)
Lemma same_indexes_fingerprint a a' fp s :
  az_ok a → az_ok a' → same_indexes a a' → service_by_fingerprint a' fp = Some s →
  (∀ id s0, service_by_id a id = Some s0 → ∃ s', service_by_id a' id = Some s' ∧ same_identity s0 s') →
  ∃ s0, service_by_fingerprint a fp = Some s0 ∧ same_identity s0 s.
Proof.
  intros Hok Hok' [Hfp Hid] Hs Hkeep. pose proof (service_by_fingerprint_by_id _ _ _ Hok' Hs) as Hs'.
  unfold service_by_fingerprint in Hs. rewrite Hfp in Hs.
  destruct (az_byFingerprint a !! fp) as [r|] eqn:Er; [|done]. cbn [mbind option_bind] in Hs.
  destruct (az_fp_index a Hok _ _ Er) as [[s0 Hs0] _]. exists s0.
  split; [unfold service_by_fingerprint; by rewrite Er|].
  assert (service_by_id a (svc_serviceID s0) = Some s0) as Hby.
  { apply (service_by_fingerprint_by_id a fp); [done|]. unfold service_by_fingerprint. by rewrite Er. }
  destruct (Hkeep _ _ Hby) as (s' & Hs1 & Hident).
  unfold service_by_id in Hs1. rewrite Hid in Hs1.
  assert (az_byService a !! svc_serviceID s0 = Some r) as Hr by (apply (az_id_index a Hok); eauto).
  rewrite Hr in Hs1. cbn [mbind option_bind] in Hs1. congruence.
Qed.

Lemma loadManagementAPIAuthorizer_ok os_open servicesFile channelACLFile globalPermissionsFile a :
  loadManagementAPIAuthorizer os_open servicesFile channelACLFile globalPermissionsFile = Ok a → az_ok a.
Proof.
  unfold loadManagementAPIAuthorizer. intros (srows & _ & H)%result_bind_ok.
  apply result_bind_ok in H as (a1 & H1 & H). apply result_bind_ok in H as (arows & _ & H).
  apply result_bind_ok in H as (a2 & H2 & H). apply result_bind_ok in H as (prows & _ & H).
  pose proof (load_services_ok _ _ _ _ zero_authorizer_ok H1) as Hok1.
  assert (Hempty : ∀ id s, service_by_id a1 id = Some s → svc_admissions s = ∅).
  { intros id s Hs. by apply (load_services_empty _ _ _ H1) in Hs as [? _]. }
  apply load_acls_spec in H2 as (Hok2 & _); [|done|].
  - by apply load_permissions_spec in H as (Hok3 & _).
  - intros id s key acl Hs. rewrite (Hempty _ _ Hs). by rewrite lookup_empty.
Qed.

(** ** Properties *)

(** C22: a loaded authorizer is well formed.  Whatever the three files hold,
    when they load: every service has a valid ID, role and exactly one
    fingerprint, both indexes lead to the same objects, every ACL is within
    its role (recorders and observers only receive, interrupting needs talking
    and a priority from 1 to 255), the channel set is that of the ACLs, the
    permissions are known ones, and a disabled service has no right. *)
Theorem authorizer_well_formed os_open servicesFile channelACLFile globalPermissionsFile a :
  loadManagementAPIAuthorizer os_open servicesFile channelACLFile globalPermissionsFile = Ok a → az_ok a.
Proof. apply loadManagementAPIAuthorizer_ok. Qed.

Lemma same_indexes_fingerprint_back a a' fp s0 s' :
  az_ok a → same_indexes a a' → service_by_fingerprint a fp = Some s0 →
  service_by_id a' (svc_serviceID s0) = Some s' → service_by_fingerprint a' fp = Some s'.
Proof.
  intros Hok [Hfp Hid] Hs Hs'. unfold service_by_fingerprint, service_by_id in *.
  rewrite Hid in Hs'. rewrite Hfp. destruct (az_byFingerprint a !! fp) as [r|]; [|done].
  cbn [mbind option_bind] in *.
  assert (az_byService a !! svc_serviceID s0 = Some r) as Hr by (apply (az_id_index a Hok); eauto).
  rewrite Hr in Hs'. exact Hs'.
Qed.

(** The three loaders together: what each authenticated service is entitled to. *)
Lemma load_rights_spec srows arows prows a1 a2 a :
  load_services 0 srows zero_authorizer = Ok a1 → load_acls 0 arows ∅ a1 = Ok a2 →
  load_permissions 0 prows ∅ a2 = Ok a →
  az_ok a1 ∧ az_ok a ∧ same_indexes a1 a ∧
  ∀ id s0, service_by_id a1 id = Some s0 → ∃ s, service_by_id a id = Some s ∧
    same_identity s0 s ∧
    (∀ key acl, svc_admissions s !! key = Some acl ↔ acl_granted arows id key acl) ∧
    (∀ p, p ∈ svc_globalPermissions s ↔ permission_granted prows id p).
Proof.
  intros H1 H2 H3. pose proof (load_services_ok _ _ _ _ zero_authorizer_ok H1) as Hok1.
  pose proof (load_services_empty _ _ _ H1) as Hempty.
  apply load_acls_spec in H2 as (Hok2 & Hidx2 & _ & Hsome2); [|done|].
  2: { intros id s key acl Hsv. destruct (Hempty _ _ Hsv) as [-> _]. by rewrite lookup_empty. }
  apply load_permissions_spec in H3 as (Hok3 & Hidx3 & _ & Hsome3); [|done].
  split_and!; [done|done|by eapply same_indexes_trans|].
  intros id s0 Hs0. destruct (Hempty _ _ Hs0) as [He1 He2].
  destruct (Hsome2 _ _ Hs0) as (s1 & Hs1 & (I1 & I2 & I3) & Hp1 & Ha1).
  destruct (Hsome3 _ _ Hs1) as (s & Hs' & (J1 & J2 & J3) & Ha2 & Hp2).
  exists s. split_and!; [done|by split_and!; congruence| |].
  - intros key acl. rewrite Ha2, Ha1, He1, lookup_empty. naive_solver.
  - intros p. rewrite Hp2, Hp1, He2. set_solver.
Qed.

Lemma authorizer_rights os_open servicesFile channelACLFile globalPermissionsFile a :
  loadManagementAPIAuthorizer os_open servicesFile channelACLFile globalPermissionsFile = Ok a →
  ∃ srows arows prows,
    readManagementCSV (os_open servicesFile) services_header = Ok srows ∧
    readManagementCSV (os_open channelACLFile) acl_header = Ok arows ∧
    readManagementCSV (os_open globalPermissionsFile) permissions_header = Ok prows ∧
    (∀ fp id role, service_declared srows id fp role true ↔
       ∃ s, serviceForRequest a (Some fp) = Some s ∧ svc_serviceID s = id ∧ svc_apiRole s = role) ∧
    (∀ fp s, serviceForRequest a (Some fp) = Some s →
       (∀ key acl, svc_admissions s !! key = Some acl ↔ acl_granted arows (svc_serviceID s) key acl) ∧
       (∀ p, p ∈ svc_globalPermissions s ↔ permission_granted prows (svc_serviceID s) p)).
Proof.
  unfold loadManagementAPIAuthorizer. intros (srows & Hs & H)%result_bind_ok.
  apply result_bind_ok in H as (a1 & H1 & H). apply result_bind_ok in H as (arows & Ha & H).
  apply result_bind_ok in H as (a2 & H2 & H). apply result_bind_ok in H as (prows & Hp & H3).
  apply map_err_ok in Hs, Ha, Hp.
  destruct (load_rights_spec _ _ _ _ _ _ H1 H2 H3) as (Hok1 & Hok3 & Hidx & Hsome).
  exists srows, arows, prows. split_and!; [done|done|done| |].
  - intros fp id role. unfold serviceForRequest. cbn [mbind option_bind]. split.
    + intros Hd. set (s0 := Service id role true ∅ ∅ ∅).
      destruct (proj2 (load_services_spec _ _ _ _ zero_authorizer_ok H1 id fp s0)) as [Hid Hfp]; [by right|].
      destruct (Hsome _ _ Hid) as (s & Hsid & (I1 & I2 & I3) & _).
      exists s. rewrite (same_indexes_fingerprint_back a1 a fp s0 s) by done. cbn [mbind option_bind].
      rewrite I3. by rewrite I1, I2.
    + intros (s & Hsv & <- & <-). destruct (service_by_fingerprint a fp) as [s'|] eqn:Efp; [|done].
      cbn [mbind option_bind] in Hsv. destruct (svc_enabled s') eqn:Een; [|done]. injection Hsv as ->.
      destruct (same_indexes_fingerprint a1 a fp s Hok1 Hok3 Hidx Efp) as (s0 & Hs0 & I1 & I2 & I3).
      { intros id s0 Hs0. destruct (Hsome _ _ Hs0) as (s' & ? & ? & _). eauto. }
      pose proof (service_by_fingerprint_by_id _ _ _ Hok1 Hs0) as Hid0.
      destruct (proj1 (load_services_spec _ _ _ _ zero_authorizer_ok H1 _ fp s0) (conj Hid0 Hs0))
        as [[Hz _]|[Hd _]].
      { unfold service_by_id in Hz. simpl in Hz. by rewrite lookup_empty in Hz. }
      by rewrite <-I3, Een, <-I1, <-I2 in Hd.
  - intros fp s. unfold serviceForRequest. cbn [mbind option_bind].
    destruct (service_by_fingerprint a fp) as [s'|] eqn:Efp; [|done]. cbn [mbind option_bind].
    destruct (svc_enabled s'); [|done]. intros [= ->].
    destruct (same_indexes_fingerprint a1 a fp s Hok1 Hok3 Hidx Efp) as (s0 & Hs0 & I1 & I2 & I3).
    { intros id s0 Hs0. destruct (Hsome _ _ Hs0) as (s' & ? & ? & _). eauto. }
    destruct (Hsome _ _ (service_by_fingerprint_by_id _ _ _ Hok1 Hs0)) as (s1 & Hs1 & _ & Hacl & Hperm).
    pose proof (service_by_fingerprint_by_id _ _ _ Hok3 Efp) as Hs2. rewrite I1 in Hs2.
    assert (s1 = s) as -> by congruence. by rewrite I1.
Qed.

(** C21: rights come from the files and from nothing else.  A certificate
    authenticates exactly the enabled service whose row names its fingerprint;
    that service's admission ACLs are exactly the enabled rows of the ACL file
    that name it, and its global permissions exactly the enabled rows of the
    permissions file that name it. *)
Theorem rights_exact os_open servicesFile channelACLFile globalPermissionsFile a :
  loadManagementAPIAuthorizer os_open servicesFile channelACLFile globalPermissionsFile = Ok a →
  ∃ srows arows prows,
    readManagementCSV (os_open servicesFile) services_header = Ok srows ∧
    readManagementCSV (os_open channelACLFile) acl_header = Ok arows ∧
    readManagementCSV (os_open globalPermissionsFile) permissions_header = Ok prows ∧
    (∀ fp id role, service_declared srows id fp role true ↔
       ∃ s, serviceForRequest a (Some fp) = Some s ∧ svc_serviceID s = id ∧ svc_apiRole s = role) ∧
    (∀ fp s, serviceForRequest a (Some fp) = Some s →
       (∀ key acl, svc_admissions s !! key = Some acl ↔ acl_granted arows (svc_serviceID s) key acl) ∧
       (∀ p, p ∈ svc_globalPermissions s ↔ permission_granted prows (svc_serviceID s) p)).
Proof. apply authorizer_rights. Qed.

Definition example_fingerprint : string :=
  "0123456789abcdef0123456789abcdef0123456789abcdef0123456789abcdef".

Definition example_files (name : string) : result string :=
  if String.eqb name "services"
  then Ok ("service_id,certificate_sha256,api_role,enabled" +:+ lf +:+
           "svc," +:+ example_fingerprint +:+ ",operator,true" +:+ lf)
  else if String.eqb name "acl"
  then Ok ("service_id,channel_id,sender_id,admission_role,allow_listen,allow_talk,allow_interrupt,interrupt_priority,enabled"
           +:+ lf +:+ "svc,7,1,recorder,true,false,false,0,true" +:+ lf)
  else if String.eqb name "permissions"
  then Ok ("service_id,permission,enabled" +:+ lf +:+ "svc,health.read,true" +:+ lf)
  else Err ErrNotExist.

Definition example_load : result managementAPIAuthorizer :=
  loadManagementAPIAuthorizer example_files "services" "acl" "permissions".

Definition example_authorizer : managementAPIAuthorizer :=
  match example_load with Ok a => a | Err _ => zero_authorizer end.

Lemma example_load_ok : example_load = Ok example_authorizer.
Proof. vm_compute. reflexivity. Qed.

Lemma authorizer_well_formed_witness : example_load = Ok example_authorizer ∧ az_ok example_authorizer.
Proof.
  split; [exact example_load_ok|].
  exact (authorizer_well_formed example_files "services" "acl" "permissions" _ example_load_ok).
Defined.

Lemma rights_exact_witness :
  ∃ arows, ∀ s, serviceForRequest example_authorizer (Some example_fingerprint) = Some s →
    ∀ key acl, svc_admissions s !! key = Some acl ↔ acl_granted arows (svc_serviceID s) key acl.
Proof.
  destruct (rights_exact example_files "services" "acl" "permissions" _ example_load_ok)
    as (srows & arows & prows & _ & _ & _ & _ & H).
  exists arows. intros s Hs. apply (H _ _ Hs).
Defined.

Example example_rights :
  (λ s, (svc_serviceID s, canReadChannel s 7, canReadChannel s 8, hasGlobalPermission s "health.read"))
    <$> serviceForRequest example_authorizer (Some example_fingerprint)
  = Some ("svc", true, false, true).
Proof. vm_compute. reflexivity. Qed.

Close Scope Z_scope.
