(* ===== verification/Reload.v ===== *)
(** * ACL reload

    [management_acl_reload.go]: the files are loaded again, the rights that
    were lost are turned into revocations, these are queued durably, and only
    then the new authorizer is put in force.

    The queue is known here by its contract ([DurableQueue]): what is pending,
    and what a restart after a power loss may find.  The reload is verified
    against the interface, and the command queue of the Private Control Link
    client, with its store file, is shown to implement it. *)

From S2P Require Export Authorizer Commands.

Open Scope Z_scope.

Definition managementAPIAutomaticRevocationDenyWindow : Z := 90 * Minute.

Record managementAutomaticRevocationTarget := RevocationTarget {
  tg_channelID : Z;
  tg_serviceID : string;
  tg_reason : string;
}.

#[global] Instance target_eq_dec : EqDecision managementAutomaticRevocationTarget.
Proof. solve_decision. Defined.

Definition managementAdmissionACLEquivalent (left right : managementAdmissionACL) : bool :=
  String.eqb (acl_role left) (acl_role right) &&
  Bool.eqb (acl_allowListen left) (acl_allowListen right) &&
  Bool.eqb (acl_allowTalk left) (acl_allowTalk right) &&
  Bool.eqb (acl_allowInterrupt left) (acl_allowInterrupt right) &&
  (acl_interruptPriority left =? acl_interruptPriority right) &&
  Bool.eqb (acl_enabled left) (acl_enabled right).

(** [fmt.Sprintf("%s/%d", ...)] *)
Definition target_key (serviceID : string) (channelID : Z) : string :=
  serviceID +:+ "/" +:+ FormatInt channelID.

(** The service in the replacement, if it is there and enabled. *)
Definition remaining_service (replacement : managementAPIAuthorizer) (serviceID : string)
    : option managementAPIService :=
  snd <$> enabled_service serviceID replacement.

(** Why an old ACL is revoked; [None] is the empty reason. *)
Definition revocation_reason (newService : option managementAPIService) (key : managementAdmissionKey)
    (oldACL : managementAdmissionACL) : option string :=
  match newService with
  | None => Some "service_disabled"
  | Some newService =>
      match svc_admissions newService !! key with
      | None => Some "acl_removed"
      | Some newACL =>
          if managementAdmissionACLEquivalent oldACL newACL then None else Some "acl_removed"
      end
  end.

(** One round of the inner loop. *)
Definition collect_acl (serviceID : string) (newService : option managementAPIService)
    (targets : gmap string managementAutomaticRevocationTarget)
    (entry : managementAdmissionKey * managementAdmissionACL)
    : gmap string managementAutomaticRevocationTarget :=
  let '(key, oldACL) := entry in
  if negb (acl_enabled oldACL) then targets
  else match revocation_reason newService key oldACL with
       | None => targets
       | Some reason =>
           let mapKey := target_key serviceID key.1 in
           if bool_decide (targets !! mapKey = None) || String.eqb reason "service_disabled"
           then <[mapKey := RevocationTarget key.1 serviceID reason]> targets else targets
       end.

(** One round of the outer loop; [acl_order] is the iteration order of the
    service's admissions. *)
Definition collect_service (previous replacement : managementAPIAuthorizer)
    (acl_order : string → list (managementAdmissionKey * managementAdmissionACL))
    (targets : gmap string managementAutomaticRevocationTarget) (entry : string * nat)
    : gmap string managementAutomaticRevocationTarget :=
  let '(serviceID, r) := entry in
  match az_heap previous !! r with
  | None => targets
  | Some oldService =>
      if negb (svc_enabled oldService) then targets
      else foldl (collect_acl serviceID (remaining_service replacement serviceID)) targets
             (acl_order serviceID)
  end.

(** The order of the result: by service, then by channel. *)
Definition target_sort_key (t : managementAutomaticRevocationTarget) : string * Z :=
  (tg_serviceID t, tg_channelID t).

Definition pair_le (x y : string * Z) : Prop :=
  (x.1 ≠ y.1 ∧ String.le x.1 y.1) ∨ (x.1 = y.1 ∧ x.2 ≤ y.2).

#[global] Instance pair_le_dec : RelDecision pair_le.
Proof. intros x y. unfold pair_le. apply _. Defined.

#[global] Instance pair_le_po : PartialOrder pair_le.
Proof.
  split; [split|].
  - intros [a b]. right. simpl. split; [done|lia].
  - intros [a1 b1] [a2 b2] [a3 b3]. unfold pair_le. simpl. intros [[H1 H2]|[-> H2]] [[H3 H4]|[-> H4]].
    + left. split; [|by etrans]. intros <-. apply H1. by apply (anti_symm String.le).
    + by left.
    + by left.
    + right. split; [done|lia].
  - intros [a1 b1] [a2 b2]. unfold pair_le. simpl. intros [[H1 H2]|[-> H2]] [[H3 H4]|[H3 H4]];
      try congruence.
    + destruct H1. by apply (anti_symm String.le).
    + f_equal. lia.
Qed.

#[global] Instance pair_le_total : Total pair_le.
Proof.
  intros [a1 b1] [a2 b2]. unfold pair_le. simpl. destruct (decide (a1 = a2)) as [->|Hne].
  - destruct (decide (b1 ≤ b2)); [left|right]; right; (split; [done|lia]).
  - destruct (total String.le a1 a2); [left|right]; left; split; auto.
Qed.

Definition sort_targets : list managementAutomaticRevocationTarget → list managementAutomaticRevocationTarget :=
  sort_by target_sort_key pair_le.

(** [managementAutomaticRevocations(previous, replacement)] *)
Definition managementAutomaticRevocations
    (service_order : list (string * nat))
    (acl_order : string → list (managementAdmissionKey * managementAdmissionACL))
    (previous replacement : managementAPIAuthorizer) : list managementAutomaticRevocationTarget :=
  let targets := foldl (collect_service previous replacement acl_order) ∅ service_order in
  sort_targets (map_to_list targets).*2.

(** The orders are iteration orders of the maps of [previous]. *)
Definition orders_ok (service_order : list (string * nat))
    (acl_order : string → list (managementAdmissionKey * managementAdmissionACL))
    (previous : managementAPIAuthorizer) : Prop :=
  map_order (az_byService previous) service_order ∧
  ∀ id s, service_by_id previous id = Some s → map_order (svc_admissions s) (acl_order id).

(** ** What is revoked *)

(** [key] was granted to the service [id], and is not any more, or not with
    the same rights. *)
Definition right_lost (previous replacement : managementAPIAuthorizer) (id : string)
    (key : managementAdmissionKey) : Prop :=
  ∃ s acl, service_by_id previous id = Some s ∧ svc_enabled s = true ∧
    svc_admissions s !! key = Some acl ∧
    ∀ s', remaining_service replacement id = Some s' → svc_admissions s' !! key ≠ Some acl.

(** The reason given for a lost right. *)
Definition lost_reason (replacement : managementAPIAuthorizer) (id : string) : string :=
  match remaining_service replacement id with None => "service_disabled" | Some _ => "acl_removed" end.

Lemma managementAdmissionACLEquivalent_spec left right :
  managementAdmissionACLEquivalent left right = true ↔ left = right.
Proof.
  unfold managementAdmissionACLEquivalent. split.
  - intros H. repeat match goal with
    | H : _ && _ = true |- _ => apply andb_true_iff in H as [H ?]
    | H : Bool.eqb _ _ = true |- _ => apply Bool.eqb_prop in H
    end. go_bool. destruct left, right; simpl in *. congruence.
  - intros ->. by rewrite !String.eqb_refl, !Bool.eqb_reflx, Z.eqb_refl.
Qed.

Lemma target_key_inj id1 c1 id2 c2 :
  validManagementServiceID id1 = true → validManagementServiceID id2 = true → 0 ≤ c1 → 0 ≤ c2 →
  target_key id1 c1 = target_key id2 c2 → id1 = id2 ∧ c1 = c2.
Proof.
  intros (_ & Hb1 & _)%validManagementServiceID_bytes (_ & Hb2 & _)%validManagementServiceID_bytes.
  intros Hc1 Hc2 H. apply (string_app_sep_inj slash service_id_byte) in H as [-> H]; [|done|done|done].
  by apply FormatInt_inj in H.
Qed.

Lemma revocation_reason_spec replacement id key acl :
  match revocation_reason (remaining_service replacement id) key acl with
  | None => ∃ s', remaining_service replacement id = Some s' ∧ svc_admissions s' !! key = Some acl
  | Some reason => reason = lost_reason replacement id ∧
      ∀ s', remaining_service replacement id = Some s' → svc_admissions s' !! key ≠ Some acl
  end.
Proof.
  unfold revocation_reason, lost_reason. destruct (remaining_service replacement id) as [s'|]; [|done].
  destruct (svc_admissions s' !! key) as [acl'|] eqn:E.
  - destruct (managementAdmissionACLEquivalent acl acl') eqn:Eq.
    + apply managementAdmissionACLEquivalent_spec in Eq as ->. eauto.
    + split; [done|]. intros s'' [= <-]. rewrite E. intros [= ->].
      rewrite (proj2 (managementAdmissionACLEquivalent_spec _ _) eq_refl) in Eq. done.
  - split; [done|]. intros s'' [= <-]. by rewrite E.
Qed.

Section targets.
Context (previous replacement : managementAPIAuthorizer).
Context (Hprevious : az_ok previous).

(** The target for a channel of a service. *)
Definition target_for (id : string) (channel : Z) : managementAutomaticRevocationTarget :=
  RevocationTarget channel id (lost_reason replacement id).

(** Every entry of the map under construction is the target of its key. *)
Definition targets_good (targets : gmap string managementAutomaticRevocationTarget) : Prop :=
  ∀ k t, targets !! k = Some t →
    ∃ id c, validManagementServiceID id = true ∧ 0 ≤ c ∧ k = target_key id c ∧ t = target_for id c.

Lemma targets_good_key targets id c t :
  targets_good targets → validManagementServiceID id = true → 0 ≤ c →
  targets !! target_key id c = Some t → t = target_for id c.
Proof.
  intros Hgood Hid Hc Ht. destruct (Hgood _ _ Ht) as (id' & c' & Hid' & Hc' & Hk & ->).
  by apply target_key_inj in Hk as [<- <-].
Qed.

Lemma collect_acl_spec id targets key acl :
  targets_good targets → validManagementServiceID id = true → 0 ≤ key.1 → acl_enabled acl = true →
  let targets' := collect_acl id (remaining_service replacement id) targets (key, acl) in
  targets_good targets' ∧
  ∀ k t, targets' !! k = Some t ↔ targets !! k = Some t ∨
    (is_Some (revocation_reason (remaining_service replacement id) key acl) ∧
     k = target_key id key.1 ∧ t = target_for id key.1).
Proof.
  intros Hgood Hid Hc Hen. unfold collect_acl. rewrite Hen. cbn [negb].
  pose proof (revocation_reason_spec replacement id key acl) as Hr.
  destruct (revocation_reason _ _ _) as [reason|].
  2: { split; [done|]. intros k t. split; [by left|]. intros [?|([? ?] & _)]; done. }
  destruct Hr as [-> _]. fold (target_for id key.1).
  assert (Hins : targets_good (<[target_key id key.1 := target_for id key.1]> targets)).
  { intros k t [[<- <-]|[_ H]]%lookup_insert_Some; [|eauto]. by eexists _, _. }
  assert (Hins' : ∀ k t, <[target_key id key.1 := target_for id key.1]> targets !! k = Some t ↔
    targets !! k = Some t ∨ (is_Some (Some (lost_reason replacement id)) ∧
     k = target_key id key.1 ∧ t = target_for id key.1)).
  { intros k t. rewrite lookup_insert_Some. split; [naive_solver|].
    intros [Ht|(_ & -> & ->)]; [|by left].
    destruct (decide (target_key id key.1 = k)) as [<-|Hne]; [left|by right].
    split; [done|]. symmetry. exact (targets_good_key targets id key.1 t Hgood Hid Hc Ht). }
  destruct (bool_decide (targets !! target_key id key.1 = None) || _) eqn:E; [done|].
  apply orb_false_iff in E as [E _]. apply bool_decide_eq_false in E.
  split; [done|]. intros k t. rewrite <-Hins'. rewrite insert_id; [done|].
  destruct (targets !! target_key id key.1) as [t'|] eqn:Et; [|done].
  f_equal. exact (targets_good_key targets id key.1 t' Hgood Hid Hc Et).
Qed.

Lemma collect_acls_spec id entries targets :
  targets_good targets → validManagementServiceID id = true →
  (∀ key acl, (key, acl) ∈ entries → 0 ≤ key.1 ∧ acl_enabled acl = true) →
  let targets' := foldl (collect_acl id (remaining_service replacement id)) targets entries in
  targets_good targets' ∧
  ∀ k t, targets' !! k = Some t ↔ targets !! k = Some t ∨
    ∃ key acl, (key, acl) ∈ entries ∧
      is_Some (revocation_reason (remaining_service replacement id) key acl) ∧
      k = target_key id key.1 ∧ t = target_for id key.1.
Proof.
  intros Hgood Hid. revert targets Hgood. induction entries as [|[key acl] entries IH];
    intros targets Hgood Hent; cbn [foldl].
  { split; [done|]. set_solver. }
  destruct (Hent key acl) as [Hc Hen]; [by left|].
  destruct (collect_acl_spec id targets key acl Hgood Hid Hc Hen) as [Hgood1 H1].
  destruct (IH _ Hgood1) as [Hgood2 H2]; [intros; apply Hent; by right|].
  split; [done|]. intros k t. rewrite H2, H1. setoid_rewrite elem_of_cons. split.
  - intros [[?|?]|(key' & acl' & ? & ?)]; [by left|right; naive_solver|right; naive_solver].
  - intros [?|(key' & acl' & [[= <- <-]|?] & ?)]; [by left; left|by left; right|right; naive_solver].
Qed.

Lemma collect_service_spec acl_order targets id r :
  targets_good targets → az_byService previous !! id = Some r →
  (∀ s, service_by_id previous id = Some s → map_order (svc_admissions s) (acl_order id)) →
  let targets' := collect_service previous replacement acl_order targets (id, r) in
  targets_good targets' ∧
  ∀ k t, targets' !! k = Some t ↔ targets !! k = Some t ∨
    ∃ key, right_lost previous replacement id key ∧ k = target_key id key.1 ∧ t = target_for id key.1.
Proof.
  intros Hgood Hr Horder. unfold collect_service.
  destruct (proj1 (az_id_index previous Hprevious id r) Hr) as (s & Hs & Hid). rewrite Hs.
  assert (service_by_id previous id = Some s) as Hby.
  { unfold service_by_id. by rewrite Hr. }
  destruct (az_ok_service previous id s Hprevious Hby) as [Hok _].
  destruct (svc_enabled s) eqn:Hen; cbn [negb].
  2: { split; [done|]. intros k t. split; [by left|].
       intros [?|(key & (s' & acl & Hs' & Hen' & _) & _)]; [done|congruence]. }
  specialize (Horder s Hby).
  destruct (collect_acls_spec id (acl_order id) targets Hgood) as [Hg Hspec].
  - rewrite <-Hid. apply Hok.
  - intros key acl Hin. apply (map_order_elem _ _ _ _ Horder) in Hin.
    destruct (service_acls s Hok _ _ Hin) as [Hch _ _ _ _ _ Hen']. unfold is_u32 in Hch.
    split; [lia|done].
  - split; [done|]. intros k t. rewrite Hspec. apply or_iff_compat_l. split.
    + intros (key & acl & Hin & [reason Hreason] & Hk & Ht). exists key. split; [|done].
      exists s, acl. apply (map_order_elem _ _ _ _ Horder) in Hin. split_and!; [done|done|done|].
      pose proof (revocation_reason_spec replacement id key acl) as Hrr. rewrite Hreason in Hrr.
      apply Hrr.
    + intros (key & (s' & acl & Hs' & _ & Hacl & Hlost) & Hk & Ht).
      assert (s' = s) as -> by congruence. exists key, acl.
      split_and!; [by apply (map_order_elem _ _ _ _ Horder)| |done|done].
      pose proof (revocation_reason_spec replacement id key acl) as Hrr.
      destruct (revocation_reason _ _ _); [eauto|]. destruct Hrr as (s' & Hs'' & Hacl').
      by destruct (Hlost s' Hs'').
Qed.

Lemma collect_services_spec acl_order entries targets :
  targets_good targets → (∀ id r, (id, r) ∈ entries → az_byService previous !! id = Some r) →
  (∀ id s, service_by_id previous id = Some s → map_order (svc_admissions s) (acl_order id)) →
  let targets' := foldl (collect_service previous replacement acl_order) targets entries in
  targets_good targets' ∧
  ∀ k t, targets' !! k = Some t ↔ targets !! k = Some t ∨
    ∃ id key, id ∈ entries.*1 ∧ right_lost previous replacement id key ∧
              k = target_key id key.1 ∧ t = target_for id key.1.
Proof.
  intros Hgood Hent Horder. revert targets Hgood Hent. induction entries as [|[id r] entries IH];
    intros targets Hgood Hent; cbn [foldl].
  { split; [done|]. set_solver. }
  destruct (collect_service_spec acl_order targets id r Hgood) as [Hg1 H1]; [apply Hent; by left|auto|].
  destruct (IH _ Hg1) as [Hg2 H2]; [intros; apply Hent; by right|].
  split; [done|]. intros k t. rewrite H2, H1. rewrite fmap_cons. setoid_rewrite elem_of_cons. split.
  - intros [[?|(key & ?)]|(id' & key & ? & ?)]; [by left|right; exists id, key; auto|right; eauto 6].
  - intros [?|(id' & key & [->|?] & ?)]; [by left; left|left; right; eauto|right; eauto].
Qed.
End targets.

Lemma right_lost_service previous replacement id key :
  right_lost previous replacement id key → is_Some (az_byService previous !! id).
Proof.
  intros (s & acl & Hs & _). unfold service_by_id in Hs.
  by destruct (az_byService previous !! id).
Qed.

(** The map of targets. *)
Lemma targets_exact service_order acl_order previous replacement :
  az_ok previous → orders_ok service_order acl_order previous →
  ∀ k t, foldl (collect_service previous replacement acl_order) ∅ service_order !! k = Some t ↔
    ∃ id key, right_lost previous replacement id key ∧ k = target_key id key.1 ∧
              t = target_for replacement id key.1.
Proof.
  intros Hok [Hso Hao] k t.
  destruct (collect_services_spec previous replacement Hok acl_order service_order ∅) as [_ H].
  - intros k' t'. by rewrite lookup_empty.
  - intros id r. apply (map_order_elem _ _ _ _ Hso).
  - done.
  - rewrite H, lookup_empty. split.
    + intros [?|(id & key & _ & ?)]; [done|eauto].
    + intros (id & key & Hlost & ?). right. exists id, key. split; [|done].
      destruct (right_lost_service _ _ _ _ Hlost) as [r Hr].
      apply list_elem_of_fmap. exists (id, r). split; [done|]. by apply (map_order_elem _ _ _ _ Hso).
Qed.

(** The list of targets: one for each channel of a service that lost a right. *)
Lemma revocations_exact service_order acl_order previous replacement :
  az_ok previous → orders_ok service_order acl_order previous →
  let result := managementAutomaticRevocations service_order acl_order previous replacement in
  (∀ t, t ∈ result ↔ ∃ id key, right_lost previous replacement id key ∧
                               t = target_for replacement id key.1) ∧
  NoDup (target_sort_key <$> result) ∧ StronglySorted (key_le target_sort_key pair_le) result.
Proof.
  intros Hok Hord. unfold managementAutomaticRevocations. cbv zeta.
  pose proof (targets_exact service_order acl_order previous replacement Hok Hord) as Ht.
  set (targets := foldl _ ∅ service_order) in *.
  assert (Hin : ∀ t, t ∈ (map_to_list targets).*2 ↔ ∃ k, targets !! k = Some t).
  { intros t. rewrite list_elem_of_fmap. split.
    - intros ([k t'] & -> & H%elem_of_map_to_list). eauto.
    - intros [k H]. exists (k, t). split; [done|]. by apply elem_of_map_to_list. }
  unfold sort_targets. split_and!; [|rewrite sort_by_perm|apply (sort_by_sorted target_sort_key pair_le)].
  - intros t. rewrite sort_by_perm, Hin. setoid_rewrite Ht. naive_solver.
  - rewrite <-list_fmap_compose.
    apply (NoDup_fmap_1 (λ p, target_key p.1 p.2)). rewrite <-list_fmap_compose.
    replace (_ <$> map_to_list targets) with (map_to_list targets).*1; [apply NoDup_fst_map_to_list|].
    apply list_fmap_ext. intros i [k t] H%list_elem_of_lookup_2%elem_of_map_to_list.
    apply Ht in H as (id & key & _ & -> & ->). done.
Qed.

(** ** The queue's contract *)

(** A durable queue of revocations, used with what the environment decides
    ([O]).  [dq_pending q r] says that a revocation with the contents [r] is
    pending, [dq_restart q l] that a restart after a power loss may find
    exactly the revocations [l]; [dq_keeps o q] is what the store needs to keep
    what was synced.  A batch is added as a whole or not at all to what is
    pending; an accepted batch is what every restart finds, and a refused one
    may be. *)
Class DurableQueue (O Q : Type) := {
  dq_queue : O → list managementServiceAdmissionRevocationRequest → Q → Q * option error;
  dq_ok : Q → Prop;
  dq_environment : O → Q → Prop;
  dq_pending : Q → managementServiceAdmissionRevocationRequest → Prop;
  dq_restart : Q → list managementServiceAdmissionRevocationRequest → Prop;
  dq_keeps : O → Q → Prop;
  dq_preserves o rs q : dq_ok q → dq_environment o q → Forall request_ints rs → dq_ok (dq_queue o rs q).1;
  dq_queued o rs q : dq_ok q → dq_environment o q → Forall request_ints rs →
    (dq_queue o rs q).2 = None → ∀ r, dq_pending (dq_queue o rs q).1 r ↔ dq_pending q r ∨ r ∈ rs;
  dq_refused o rs q e : dq_ok q → dq_environment o q → Forall request_ints rs →
    (dq_queue o rs q).2 = Some e → ∀ r, dq_pending (dq_queue o rs q).1 r ↔ dq_pending q r;
  dq_stored o rs q : dq_ok q → dq_environment o q → dq_keeps o q → Forall request_ints rs → rs ≠ [] →
    (dq_queue o rs q).2 = None →
    (∃ l, dq_restart (dq_queue o rs q).1 l) ∧
    ∀ l, dq_restart (dq_queue o rs q).1 l → ∀ r, r ∈ l ↔ dq_pending (dq_queue o rs q).1 r;
  dq_left o rs q e : dq_ok q → dq_environment o q → dq_keeps o q → Forall request_ints rs →
    (dq_queue o rs q).2 = Some e →
    ∀ l, dq_restart (dq_queue o rs q).1 l →
      dq_restart q l ∨ ∀ r, r ∈ l ↔ dq_pending q r ∨ r ∈ rs;
}.

(** ** reloadAuthorizer *)

Definition revocation_requests (denyUntil : Z) (targets : list managementAutomaticRevocationTarget)
    : list managementServiceAdmissionRevocationRequest :=
  (λ t, RevocationRequest (tg_channelID t) (tg_serviceID t) "" (tg_reason t) denyUntil) <$> targets.

(** The names of the three files. *)
Record acl_files := AclFiles {
  servicesFile : string;
  channelACLFile : string;
  globalPermissionsFile : string;
}.

Section reload.
Context {O Q : Type} `{!DurableQueue O Q}.

(** [a.reloadAuthorizer()] on a non-nil receiver, up to the swap: the queue
    afterwards, and the authorizer to put in force with the number of targets.
    [queuer] is [None] when [a.revoker] does not implement the queue. *)
Definition reload_queue (os_open : string → result string) (now : Z) (o : O)
    (service_order : list (string * nat))
    (acl_order : string → list (managementAdmissionKey * managementAdmissionACL))
    (files : acl_files) (previous : managementAPIAuthorizer) (queuer : option Q)
    : option Q * result (managementAPIAuthorizer * Z) :=
  match loadManagementAPIAuthorizer os_open (servicesFile files) (channelACLFile files)
          (globalPermissionsFile files) with
  | Err e => (queuer, Err e)
  | Ok replacement =>
      let targets := managementAutomaticRevocations service_order acl_order previous replacement in
      match targets with
      | [] => (queuer, Ok (replacement, 0))
      | _ =>
          match queuer with
          | None => (queuer, Err (Errorf "ACL reload requires a durable PCL revocation queue" []))
          | Some q =>
              let denyUntil := Unix (now + managementAPIAutomaticRevocationDenyWindow) in
              match dq_queue o (revocation_requests denyUntil targets) q with
              | (q', Some e) =>
                  (Some q', Err (Wrapf "durably queue ACL-triggered Service Admission revocations: %w" [] e))
              | (q', None) => (Some q', Ok (replacement, Z.of_nat (length targets)))
              end
          end
      end
  end.

(** The whole of it: the authorizer in force and the queue afterwards, with
    the result. *)
Definition reloadAuthorizer (os_open : string → result string) (now : Z) (o : O)
    (service_order : list (string * nat))
    (acl_order : string → list (managementAdmissionKey * managementAdmissionACL))
    (files : acl_files) (authorizer : managementAPIAuthorizer) (queuer : option Q)
    : managementAPIAuthorizer * option Q * result Z :=
  match reload_queue os_open now o service_order acl_order files authorizer queuer with
  | (queuer', Err e) => (authorizer, queuer', Err e)
  | (queuer', Ok (replacement, queued)) => (replacement, queuer', Ok queued)
  end.
End reload.

(** What is pending in a queue, what a restart finds of it and what it needs
    to keep it, when there is one. *)
Definition pending_in {O Q} `{!DurableQueue O Q} (queuer : option Q)
    (r : managementServiceAdmissionRevocationRequest) : Prop :=
  match queuer with Some q => dq_pending q r | None => False end.

Definition restart_finds {O Q} `{!DurableQueue O Q} (queuer : option Q)
    (l : list managementServiceAdmissionRevocationRequest) : Prop :=
  match queuer with Some q => dq_restart q l | None => False end.

Definition store_keeps {O Q} `{!DurableQueue O Q} (o : O) (queuer : option Q) : Prop :=
  match queuer with Some q => dq_keeps o q | None => False end.

(** The revocations a reload makes of the rights that [replacement] lacks. *)
Definition lost_revocation (now : Z) (previous replacement : managementAPIAuthorizer)
    (r : managementServiceAdmissionRevocationRequest) : Prop :=
  ∃ id key, right_lost previous replacement id key ∧
    r = RevocationRequest key.1 id "" (lost_reason replacement id)
          (Unix (now + managementAPIAutomaticRevocationDenyWindow)).

(** A deadline that fits an int64: years -290 billion to 290 billion. *)
Definition reload_clock_ok (now : Z) : Prop :=
  is_i64 (Unix (now + managementAPIAutomaticRevocationDenyWindow)).

Lemma revocation_requests_ints previous replacement service_order acl_order now :
  az_ok previous → orders_ok service_order acl_order previous → reload_clock_ok now →
  Forall request_ints
    (revocation_requests (Unix (now + managementAPIAutomaticRevocationDenyWindow))
       (managementAutomaticRevocations service_order acl_order previous replacement)).
Proof.
  intros Hok Hord Hclock. apply Forall_fmap, Forall_forall. intros t Ht.
  destruct (revocations_exact service_order acl_order previous replacement Hok Hord) as [Hex _].
  apply Hex in Ht as (id & key & (s & acl & Hs & _ & Hacl & _) & ->).
  destruct (az_ok_service _ _ _ Hok Hs) as [Hsok _].
  split; simpl; [apply (acl_channel _ _ (service_acls s Hsok _ _ Hacl))|done].
Qed.

(** The revocations of a reload are those of the rights it takes away. *)
Lemma lost_requests service_order acl_order previous replacement now r :
  az_ok previous → orders_ok service_order acl_order previous →
  r ∈ revocation_requests (Unix (now + managementAPIAutomaticRevocationDenyWindow))
        (managementAutomaticRevocations service_order acl_order previous replacement) ↔
  lost_revocation now previous replacement r.
Proof.
  intros Hok Hord.
  destruct (revocations_exact service_order acl_order previous replacement Hok Hord) as [Hex _].
  unfold revocation_requests, lost_revocation. rewrite list_elem_of_fmap. setoid_rewrite Hex. split.
  - intros (t & -> & id & key & Hl & ->). eauto.
  - intros (id & key & Hl & ->). exists (target_for replacement id key.1). eauto.
Qed.

(** What a reload did: the queue before and after, and the authorizer that
    replaces [previous], if it succeeded.  A failure leaves what is pending;
    the store may hold the batch that was refused. *)
Definition reload_outcome {O Q} `{!DurableQueue O Q} (os_open : string → result string) (now : Z) (o : O)
    (files : acl_files) (previous : managementAPIAuthorizer) (queuer queuer' : option Q)
    (replaced : option managementAPIAuthorizer) : Prop :=
  let load := loadManagementAPIAuthorizer os_open (servicesFile files) (channelACLFile files)
                (globalPermissionsFile files) in
  match replaced with
  | None =>
      (∀ r, pending_in queuer' r ↔ pending_in queuer r) ∧
      (∀ e, load = Err e → queuer' = queuer) ∧
      (store_keeps o queuer → ∀ l, restart_finds queuer' l → restart_finds queuer l ∨
         ∃ replacement, load = Ok replacement ∧
           ∀ r, r ∈ l ↔ pending_in queuer r ∨ lost_revocation now previous replacement r)
  | Some replacement =>
      load = Ok replacement ∧ az_ok replacement ∧
      (∀ r, pending_in queuer' r ↔ pending_in queuer r ∨ lost_revocation now previous replacement r) ∧
      ((∀ r, ¬ lost_revocation now previous replacement r) → queuer' = queuer) ∧
      (store_keeps o queuer → (∃ r, lost_revocation now previous replacement r) →
         (∃ l, restart_finds queuer' l) ∧
         ∀ l, restart_finds queuer' l → ∀ r, r ∈ l ↔ pending_in queuer' r)
  end.

Lemma reload_queue_spec {O Q} `{!DurableQueue O Q} os_open now (o : O) service_order acl_order
    files previous (queuer : option Q) :
  az_ok previous → orders_ok service_order acl_order previous → reload_clock_ok now →
  (∀ q, queuer = Some q → dq_ok q ∧ dq_environment o q) →
  let '(queuer', result) := reload_queue os_open now o service_order acl_order files previous queuer in
  reload_outcome os_open now o files previous queuer queuer'
    (match result with Ok (replacement, _) => Some replacement | Err _ => None end).
Proof.
  intros Hok Hord Hclock Hq. unfold reload_queue, reload_outcome.
  destruct (loadManagementAPIAuthorizer _ _ _ _) as [replacement|e] eqn:El; [|by split_and!; auto].
  pose proof (loadManagementAPIAuthorizer_ok _ _ _ _ _ El) as Hrep.
  pose proof (revocation_requests_ints previous replacement service_order acl_order now Hok Hord Hclock)
    as Hints.
  pose proof (λ r, lost_requests service_order acl_order previous replacement now r Hok Hord) as Hlost.
  set (targets := managementAutomaticRevocations _ _ _ _) in *.
  set (deny := Unix (now + managementAPIAutomaticRevocationDenyWindow)) in *.
  destruct targets as [|t0 ts] eqn:Et.
  { split_and!; [done|done| |done|]; setoid_rewrite <-Hlost; simpl; [set_solver|].
    intros _ [r Hr]. by apply elem_of_nil in Hr. }
  rewrite <-Et in *. assert (revocation_requests deny targets ≠ []) as Hne by by rewrite Et.
  clear Et. set (requests := revocation_requests deny targets) in *. clearbody requests.
  assert (∃ r, lost_revocation now previous replacement r) as Hsome.
  { destruct requests as [|r rs]; [done|]. exists r. apply Hlost. by left. }
  destruct queuer as [q|]; [|split_and!; [done|done|done]]. destruct (Hq q eq_refl) as [Hqok Hqenv].
  destruct (dq_queue o requests q) as [q' err] eqn:Er. destruct err as [e|].
  - pose proof (dq_refused o requests q e Hqok Hqenv Hints) as Hr.
    pose proof (dq_left o requests q e Hqok Hqenv) as Hl. rewrite Er in Hr, Hl. simpl in *.
    split_and!; [by apply Hr|done|]. intros Hkeep l Hfound. specialize (Hl Hkeep Hints eq_refl l Hfound).
    setoid_rewrite Hlost in Hl. destruct Hl; [by left|right; eauto].
  - pose proof (dq_queued o requests q Hqok Hqenv Hints) as Hr.
    pose proof (dq_stored o requests q Hqok Hqenv) as Hs. rewrite Er in Hr, Hs. simpl in *.
    setoid_rewrite Hlost in Hr. split_and!; [done|done|by apply Hr| |by intros; apply Hs].
    intros Hno. destruct Hsome as [r Hr']. by destruct (Hno r).
Qed.

Lemma reloadAuthorizer_spec {O Q} `{!DurableQueue O Q} os_open now (o : O) service_order acl_order
    files authorizer (queuer : option Q) :
  az_ok authorizer → orders_ok service_order acl_order authorizer → reload_clock_ok now →
  (∀ q, queuer = Some q → dq_ok q ∧ dq_environment o q) →
  let '(authorizer', queuer', result) :=
    reloadAuthorizer os_open now o service_order acl_order files authorizer queuer in
  match result with
  | Err _ => authorizer' = authorizer ∧ reload_outcome os_open now o files authorizer queuer queuer' None
  | Ok _ => reload_outcome os_open now o files authorizer queuer queuer' (Some authorizer')
  end.
Proof.
  intros Hok Hord Hclock Hq. unfold reloadAuthorizer.
  pose proof (reload_queue_spec os_open now o service_order acl_order files authorizer queuer
    Hok Hord Hclock Hq) as H.
  by destruct (reload_queue _ _ _ _ _ _ _ _) as [queuer' [[replacement n]|e]].
Qed.

(** ** The command queue implements the contract *)

Definition request_pending (pending : gmap string privateControlPendingCommand)
    (r : managementServiceAdmissionRevocationRequest) : Prop :=
  ∃ id cmd, pending !! id = Some cmd ∧ command_for cmd r.

Definition command_pending (c : privateControlClient) : managementServiceAdmissionRevocationRequest → Prop :=
  request_pending (cl_pending c).

(** The request a command carries. *)
Definition request_of (m : privateControlRevokeServiceAdmission) : managementServiceAdmissionRevocationRequest :=
  RevocationRequest (rev_ChannelID m) (rev_ServiceID m) (rev_GrantIDHash m) (rev_Reason m)
    (rev_DenyUntil m).

Lemma command_for_request cmd r : command_for cmd r ↔ r = request_of (pc_message cmd).
Proof.
  unfold command_for, request_of. split; [|by intros ->].
  destruct r; simpl. by intros (-> & -> & -> & -> & ->).
Qed.

(** Adding the commands of a batch adds its requests. *)
Lemma batch_pending cmds requests pending r :
  admissible pending cmds → Forall2 command_for cmds requests →
  request_pending (add_all cmds pending) r ↔ request_pending pending r ∨ r ∈ requests.
Proof.
  intros [Hall Hnd] Hfor. rewrite Forall_forall in Hall. unfold request_pending.
  setoid_rewrite add_all_lookup; [|done|naive_solver]. split.
  - intros (id & x & [?|[Hx _]] & Hr); [left; eauto|right].
    apply list_elem_of_lookup in Hx as [i Hi].
    destruct (Forall2_lookup_l _ _ _ _ _ Hfor Hi) as (r' & Hr' & Hfor').
    rewrite command_for_request in Hr, Hfor'. rewrite Hr, <-Hfor'. by apply list_elem_of_lookup_2 in Hr'.
  - intros [(id & x & ? & ?)|Hr]; [eauto 6|].
    apply list_elem_of_lookup in Hr as [i Hi].
    destruct (Forall2_lookup_r _ _ _ _ _ Hfor Hi) as (x & Hx & Hfor').
    exists (command_id x), x. split; [right|done]. split; [by apply list_elem_of_lookup_2 in Hx|done].
Qed.

Lemma queue_revocations_spec env raws requests c :
  client_ok c → env_ok env c → Forall request_ints requests →
  let '(c', err) := queueServiceAdmissionRevocations env raws requests c in
  match err with
  | None => ∀ r, command_pending c' r ↔ command_pending c r ∨ r ∈ requests
  | Some _ => cl_pending c' = cl_pending c
  end.
Proof.
  intros Hok Henv Hints. unfold queueServiceAdmissionRevocations.
  pose proof (new_batch_spec raws requests c Hok Hints) as Hb.
  destruct (new_batch raws requests c) as [c1 [commands|e]]; destruct Hb as [(n & Hn & ->) Hb]; [|done].
  destruct Hb as (cmds & -> & _ & _ & Hfor).
  destruct cmds as [|cmd cmds].
  { apply Forall2_nil_inv_l in Hfor as ->. intros r. unfold command_pending. simpl. set_solver. }
  set (batch := cmd :: cmds) in *. assert (Some <$> batch ≠ []) as Hne by done. clearbody batch.
  pose proof (enqueue_spec env (Some <$> batch) (with_next n c) Henv Hne) as He.
  destruct (enqueuePendingCommands _ _ _) as [c2 [e|]]; [by destruct He as (_ & ? & _)|].
  destruct He as (_ & cmds' & Heq & Hadm & _ & Hp & _).
  apply list_fmap_eq_inj in Heq; [|apply _]. subst cmds'.
  intros r. unfold command_pending. rewrite Hp. by apply batch_pending.
Qed.

(** A batch that was accepted is in the store file. *)
Lemma queue_revocations_stored env raws requests c c' :
  client_ok c → env_ok env c → Forall request_ints requests → requests ≠ [] →
  queueServiceAdmissionRevocations env raws requests c = (c', None) → stored c'.
Proof.
  intros Hok Henv Hints Hne. unfold queueServiceAdmissionRevocations.
  pose proof (new_batch_spec raws requests c Hok Hints) as Hb.
  destruct (new_batch raws requests c) as [c1 [commands|e]]; destruct Hb as [(n & Hn & ->) Hb]; [|done].
  destruct Hb as (cmds & -> & _ & _ & Hfor).
  assert (Some <$> cmds ≠ []) as Hcmds.
  { destruct cmds; [|done]. apply Forall2_nil_inv_l in Hfor. done. }
  intros He. pose proof (enqueue_spec env (Some <$> cmds) (with_next n c) Henv Hcmds) as Hs.
  rewrite He in Hs. by destruct Hs as (_ & ? & _ & _ & _ & _ & _ & ?).
Qed.

(** The file that a power loss leaves, and what a restart reads from it. *)
Definition restarted (filename : string) (data : option string) : filesystem :=
  Files (match data with None => ∅ | Some d => {[filename := File d true]} end) ∅ DirDurable.

Definition readable : fs_env := FsEnv no_faults "" "" false.

Definition command_restart (c : privateControlClient)
    (l : list managementServiceAdmissionRevocationRequest) : Prop :=
  match cl_store c with
  | None => l = []
  | Some filename => ∃ data ms, survives (cl_fs c) filename data ∧
      load readable filename (restarted filename data) = Ok ms ∧ l = request_of <$> ms
  end.

(** A store file, in a directory that is there for good, on a system where a
    rename replaces it. *)
Definition command_keeps (env : fs_env) (c : privateControlClient) : Prop :=
  is_Some (cl_store c) ∧ fs_dir (cl_fs c) = DirDurable ∧ windows env = false.

(** The stored queue is read back. *)
Lemma load_restarted filename pending :
  pending_wf pending → (size pending ≤ 64)%nat →
  let ms := sort_commands (pending_messages pending) in
  load readable filename (restarted filename (Some (store_bytes ms))) = Ok ms ∧
  ∀ r, r ∈ request_of <$> ms ↔ request_pending pending r.
Proof.
  intros Hwf Hsize ms.
  assert (∀ m, m ∈ ms ↔ m ∈ pending_messages pending) as Hperm
    by (intros m; unfold ms, sort_commands; by rewrite sort_by_perm).
  split.
  - unfold load. cbn [fault fs_live restarted readable]. unfold no_faults.
    rewrite lookup_singleton_eq. cbn [f_data].
    assert (ms ≡ₚ pending_messages pending) as Hp by apply sort_by_perm.
    assert (Forall revocation_wf ms) as Hms by by rewrite Hp; apply pending_messages_wf.
    rewrite (proj2 (Z.ltb_ge _ _)); [by apply load_store_bytes|].
    apply store_bytes_len; [done|]. by rewrite Hp, pending_messages_length.
  - intros r. rewrite list_elem_of_fmap. unfold request_pending. setoid_rewrite command_for_request. split.
    + intros (m & -> & (id & cmd & Hid & <-)%Hperm%pending_messages_elem). eauto.
    + intros (id & cmd & Hid & ->). exists (pc_message cmd). split; [done|].
      apply Hperm, pending_messages_elem. eauto.
Qed.

(** What a queueing leaves for a restart. *)
Lemma queue_revocations_restart env raws requests c :
  client_ok c → env_ok env c → command_keeps env c → Forall request_ints requests →
  let '(c', err) := queueServiceAdmissionRevocations env raws requests c in
  match err with
  | None => requests ≠ [] → (∃ l, command_restart c' l) ∧
              ∀ l, command_restart c' l → ∀ r, r ∈ l ↔ command_pending c' r
  | Some _ => ∀ l, command_restart c' l →
                command_restart c l ∨ ∀ r, r ∈ l ↔ command_pending c r ∨ r ∈ requests
  end.
Proof.
  intros Hok Henv ([filename Hstore] & Hdir & Hwin) Hints.
  pose proof (queue_ok env raws requests c Hok Henv Hints) as Hok'. revert Hok'.
  unfold queueServiceAdmissionRevocations. pose proof (new_batch_spec raws requests c Hok Hints) as Hb.
  destruct (new_batch raws requests c) as [c1 [commands|e]]; destruct Hb as [(n & Hn & ->) Hb].
  2: { intros _ l Hl. by left. }
  destruct Hb as (cmds & -> & Hfresh & _ & Hfor).
  destruct cmds as [|x xs].
  { apply Forall2_nil_inv_l in Hfor as ->. by intros _ ?. }
  assert (Some <$> x :: xs ≠ []) as Hne by done. set (cmds := x :: xs) in *. clearbody cmds.
  assert (client_ok (with_next n c)) as Hokn by by apply client_ok_with_next.
  pose proof (enqueue_spec env (Some <$> cmds) (with_next n c) Henv Hne) as Hs.
  destruct (enqueuePendingCommands env (Some <$> cmds) (with_next n c)) as [c2 [e|]] eqn:He; intros Hok'.
  - destruct Hs as [(Hst & _) _]. apply enqueue_refused in He as Hleft; [|done]. simpl in Hst.
    intros l Hl. unfold command_restart in *. rewrite Hst, Hstore in *.
    destruct Hleft as [Hfs|(cmds' & Heq & Hadm & Hsize & Hleft)]; [left; by rewrite Hfs in Hl|].
    apply list_fmap_eq_inj in Heq; [|apply _]. subst cmds'. unfold store_left in Hleft. simpl in Hleft.
    rewrite Hstore in Hleft. destruct Hl as (data & ms & Hdata & Hms & ->).
    destruct (left_survives _ _ _ _ _ Hleft data Hdata) as [Hold|[->|[Hw _]]];
      [left; eauto 6| |by rewrite Hwin in Hw].
    right. intros r. change (command_pending c r) with (request_pending (cl_pending c) r).
    rewrite <-(batch_pending cmds requests) by done.
    destruct (client_ok_add _ _ Hokn Hadm Hfresh Hsize) as [Hwf Hsize' _ _ _].
    destruct (load_restarted filename (add_all cmds (cl_pending c)) Hwf Hsize') as [Hload Hreq].
    rewrite Hload in Hms. injection Hms as <-. apply Hreq.
  - intros _. destruct Hs as [(Hst & _) _]. simpl in Hst.
    pose proof (enqueue_durable env _ _ _ filename (Henv : env_ok env (with_next n c)) Hne He Hstore Hdir Hwin) as Hd.
    destruct Hok' as [Hwf Hsize' _ _ _]. destruct (load_restarted filename (cl_pending c2) Hwf Hsize') as [Hload Hreq].
    unfold command_restart. rewrite Hst. simpl. rewrite Hstore. split.
    + assert (∃ data, survives (cl_fs c2) filename data) as [data Hdata] by apply survives_some.
      rewrite (Hd data Hdata) in Hdata. eauto 6.
    + intros l (data & ms & Hdata & Hms & ->). rewrite (Hd data Hdata), Hload in Hms.
      injection Hms as <-. exact Hreq.
Qed.

#[global] Instance client_queue : DurableQueue (fs_env * list (result string)) privateControlClient.
Proof.
  refine {|
    dq_queue := λ o rs c, queueServiceAdmissionRevocations o.1 o.2 rs c;
    dq_ok := client_ok;
    dq_environment := λ o c, env_ok o.1 c;
    dq_pending := command_pending;
    dq_restart := command_restart;
    dq_keeps := λ o c, command_keeps o.1 c |}.
  - intros [env raws] rs c Hok Henv Hints. by apply queue_ok.
  - intros [env raws] rs c Hok Henv Hints. simpl.
    pose proof (queue_revocations_spec env raws rs c Hok Henv Hints) as H.
    destruct (queueServiceAdmissionRevocations env raws rs c) as [c' err]. simpl. by intros ->.
  - intros [env raws] rs c e Hok Henv Hints. simpl.
    pose proof (queue_revocations_spec env raws rs c Hok Henv Hints) as H.
    destruct (queueServiceAdmissionRevocations env raws rs c) as [c' err]. simpl. intros -> r.
    unfold command_pending. by rewrite H.
  - intros [env raws] rs c Hok Henv Hkeep Hints Hne. simpl.
    pose proof (queue_revocations_restart env raws rs c Hok Henv Hkeep Hints) as H.
    destruct (queueServiceAdmissionRevocations env raws rs c) as [c' err]. simpl. intros ->. by apply H.
  - intros [env raws] rs c e Hok Henv Hkeep Hints. simpl.
    pose proof (queue_revocations_restart env raws rs c Hok Henv Hkeep Hints) as H.
    destruct (queueServiceAdmissionRevocations env raws rs c) as [c' err]. simpl. by intros ->.
Defined.

Lemma new_batch_length raws requests c :
  let '(c', batch) := new_batch raws requests c in
  cl_pending c' = cl_pending c ∧ cl_fs c' = cl_fs c ∧
  ∀ commands, batch = Ok commands → length commands = length requests.
Proof.
  revert raws c. induction requests as [|request requests IH]; intros raws c.
  { split_and!; [done|done|]. by intros commands [= <-]. }
  cbn [new_batch]. unfold newPendingRevocation. destruct (default _ _) as [raw|e]; [|done].
  destruct (validPrivateControlRevocation _); [|done].
  specialize (IH (tail raws) (with_next (cl_next c + 1) c)).
  destruct (new_batch (tail raws) requests _) as [c' [commands|e]]; destruct IH as (-> & -> & Hlen); simpl; [|done].
  split_and!; [done|done|]. intros ? [= <-]. simpl. by rewrite (Hlen _ eq_refl).
Qed.

(** ** Properties *)

(** C31: the automatic revocations are exact and deterministic.  For a
    well-formed authorizer in force, whatever order Go's maps are traversed
    in, the result holds one target for each channel of each service on which
    some right was lost or changed, with the reason [service_disabled] when
    the service is gone and [acl_removed] otherwise, and nothing else, sorted
    by service and channel without repetition. *)
Theorem automatic_revocations_exact service_order acl_order service_order' acl_order' previous replacement :
  az_ok previous → orders_ok service_order acl_order previous →
  orders_ok service_order' acl_order' previous →
  let result := managementAutomaticRevocations service_order acl_order previous replacement in
  (∀ t, t ∈ result ↔ ∃ id key, right_lost previous replacement id key ∧
                               t = target_for replacement id key.1) ∧
  NoDup (target_sort_key <$> result) ∧ StronglySorted (key_le target_sort_key pair_le) result ∧
  managementAutomaticRevocations service_order' acl_order' previous replacement = result.
Proof.
  intros Hok Hord Hord'. cbv zeta.
  destruct (revocations_exact service_order acl_order previous replacement Hok Hord) as (H1 & H2 & H3).
  split_and!; [done|done|done|]. unfold managementAutomaticRevocations. cbv zeta. do 3 f_equal.
  apply map_eq. intros k. apply option_eq. intros t. by rewrite !targets_exact.
Qed.

(** The default orders. *)
Definition default_acl_order (a : managementAPIAuthorizer) (id : string)
    : list (managementAdmissionKey * managementAdmissionACL) :=
  default [] ((λ s, map_to_list (svc_admissions s)) <$> service_by_id a id).

Lemma default_orders_ok a : orders_ok (map_to_list (az_byService a)) (default_acl_order a) a.
Proof.
  split; [apply map_order_default|]. intros id s Hs. unfold default_acl_order. rewrite Hs.
  apply map_order_default.
Qed.

Lemma example_authorizer_ok : az_ok example_authorizer.
Proof.
  exact (loadManagementAPIAuthorizer_ok example_files "services" "acl" "permissions" _ example_load_ok).
Qed.

Lemma automatic_revocations_exact_witness :
  ∃ result, managementAutomaticRevocations (map_to_list (az_byService example_authorizer))
              (default_acl_order example_authorizer) example_authorizer zero_authorizer = result ∧
    result = [RevocationTarget 7 "svc" "service_disabled"] ∧ NoDup (target_sort_key <$> result).
Proof.
  destruct (automatic_revocations_exact _ _ _ _ example_authorizer zero_authorizer example_authorizer_ok
    (default_orders_ok example_authorizer) (default_orders_ok example_authorizer)) as (_ & H & _).
  eexists. split; [reflexivity|]. split; [vm_compute; reflexivity|exact H].
Defined.

(** C6: revocations are stored before the rights change.  Over any durable
    queue, a reload either fails: then the authorizer in force and the pending
    revocations are as before, nothing at all changed if the files did not
    load, and a restart finds what it found before, or that together with the
    batch that was refused.  Or it puts the loaded authorizer in force: then
    the pending revocations are those of before and one for each channel of a
    service on which it took away or changed a right, with a deadline 90
    minutes from now; and if there are any and the queue has a store that keeps
    what is synced, every restart, also after a power loss, finds exactly what
    is pending. *)
Theorem reload_queues_before_swap {O Q} `{!DurableQueue O Q} os_open now (o : O) service_order acl_order
    files authorizer (queuer : option Q) :
  az_ok authorizer → orders_ok service_order acl_order authorizer → reload_clock_ok now →
  (∀ q, queuer = Some q → dq_ok q ∧ dq_environment o q) →
  let '(authorizer', queuer', result) :=
    reloadAuthorizer os_open now o service_order acl_order files authorizer queuer in
  match result with
  | Err _ => authorizer' = authorizer ∧ reload_outcome os_open now o files authorizer queuer queuer' None
  | Ok _ => reload_outcome os_open now o files authorizer queuer queuer' (Some authorizer')
  end.
Proof. apply reloadAuthorizer_spec. Qed.

Definition empty_files (name : string) : result string :=
  if String.eqb name "services" then Ok ("service_id,certificate_sha256,api_role,enabled" +:+ lf)
  else if String.eqb name "acl"
  then Ok "service_id,channel_id,sender_id,admission_role,allow_listen,allow_talk,allow_interrupt,interrupt_priority,enabled"
  else Ok "service_id,permission,enabled".

(** The right of [example_authorizer] that the empty files take away. *)
Lemma example_right_lost : right_lost example_authorizer zero_authorizer "svc" (7, 1).
Proof.
  exists (default (Service "" "" false ∅ ∅ ∅) (service_by_id example_authorizer "svc")).
  eexists. split; [vm_compute; reflexivity|]. split; [vm_compute; reflexivity|].
  split; [vm_compute; reflexivity|]. intros s' Hs'. vm_compute in Hs'. discriminate Hs'.
Qed.

Lemma example_clock_ok : reload_clock_ok (1000 * Second).
Proof. split; [apply Z.leb_le|apply Z.ltb_lt]; vm_compute; reflexivity. Qed.

(** The only right is withdrawn: the revocation is pending, and a restart
    finds it and nothing else. *)
Lemma reload_queues_before_swap_witness :
  let '(authorizer', queuer', result) :=
    reloadAuthorizer empty_files (1000 * Second) (no_fault_env, [Ok "0123456789abcdef"])
      (map_to_list (az_byService example_authorizer)) (default_acl_order example_authorizer)
      (AclFiles "services" "acl" "permissions") example_authorizer (Some stored_client) in
  let revocation := RevocationRequest 7 "svc" "" "service_disabled" 6400 in
  result = Ok 1 ∧ pending_in queuer' revocation ∧
  ∀ l, restart_finds queuer' l → revocation ∈ l.
Proof.
  pose proof (reload_queues_before_swap empty_files (1000 * Second) (no_fault_env, [Ok "0123456789abcdef"])
    (map_to_list (az_byService example_authorizer)) (default_acl_order example_authorizer)
    (AclFiles "services" "acl" "permissions") example_authorizer (Some stored_client)
    example_authorizer_ok (default_orders_ok _) example_clock_ok) as H.
  assert ((reloadAuthorizer empty_files (1000 * Second) (no_fault_env, [Ok "0123456789abcdef"])
      (map_to_list (az_byService example_authorizer)) (default_acl_order example_authorizer)
      (AclFiles "services" "acl" "permissions") example_authorizer (Some stored_client)).2 = Ok 1) as Hr
    by (vm_compute; reflexivity).
  destruct (reloadAuthorizer _ _ _ _ _ _ _ _) as [[authorizer' queuer'] result]. simpl in Hr. subst result.
  destruct H as (Hload & _ & Hpending & _ & Hstored).
  { intros q [= <-]. split; [exact stored_client_ok|discriminate]. }
  assert (authorizer' = zero_authorizer) as ->.
  { injection Hload. intros <-. vm_compute. reflexivity. }
  assert (lost_revocation (1000 * Second) example_authorizer zero_authorizer
    (RevocationRequest 7 "svc" "" "service_disabled" 6400)) as Hlost.
  { exists "svc", (7, 1). split; [exact example_right_lost|vm_compute; reflexivity]. }
  split; [reflexivity|]. split; [apply Hpending; by right|].
  destruct Hstored as [_ Hstored]; [split_and!; [eexists|..]; reflexivity|by eexists|].
  intros l Hl. apply (Hstored l Hl), Hpending. by right.
Defined.

(** C39: a reload that takes away rights on too many channels never succeeds.
    The batch must fit in the command queue, so when the lost rights and the
    pending commands exceed 64 together the reload is refused and the old
    authorizer, with the rights that the files no longer grant, stays in
    force, with the queue and its file as they were; with more than 64 targets this holds whatever the queue holds. *)
Theorem reload_bounded_by_queue os_open now env raws service_order acl_order files authorizer c replacement :
  loadManagementAPIAuthorizer os_open (servicesFile files) (channelACLFile files)
    (globalPermissionsFile files) = Ok replacement →
  64 < Z.of_nat (size (cl_pending c)) +
       Z.of_nat (length (managementAutomaticRevocations service_order acl_order authorizer replacement)) →
  (0 < length (managementAutomaticRevocations service_order acl_order authorizer replacement))%nat →
  ∃ c' e, reloadAuthorizer os_open now (env, raws) service_order acl_order files authorizer (Some c) =
          (authorizer, Some c', Err e) ∧ cl_pending c' = cl_pending c ∧ cl_fs c' = cl_fs c.
Proof.
  intros Hload Hlen Hpos. unfold reloadAuthorizer, reload_queue. rewrite Hload.
  set (targets := managementAutomaticRevocations _ _ _ _) in *.
  set (requests := revocation_requests _ targets).
  assert (length requests = length targets) as Hreq by apply length_fmap.
  destruct targets as [|t0 ts] eqn:Et; [simpl in Hpos; lia|]. rewrite <-Et in *. clear Et.
  assert (∃ c' e, queueServiceAdmissionRevocations env raws requests c = (c', Some e) ∧
    cl_pending c' = cl_pending c ∧ cl_fs c' = cl_fs c) as (c' & e & He & Hsame).
  { unfold queueServiceAdmissionRevocations. pose proof (new_batch_length raws requests c) as Hb.
    destruct (new_batch raws requests c) as [c1 [commands|e]]; destruct Hb as (Hp & Hf & Hb); [|by eauto].
    specialize (Hb _ eq_refl). unfold enqueuePendingCommands. destruct commands as [|x xs]; [simpl in Hb; lia|].
    unfold len_map, privateControlMaxPendingCommands. rewrite Hp.
    rewrite (proj2 (Z.ltb_lt _ _)) by lia. by eauto. }
  exists c', (Wrapf "durably queue ACL-triggered Service Admission revocations: %w" [] e).
  split; [|done]. simpl. by rewrite He.
Qed.

(** A client whose queue is full. *)
Definition full_client : privateControlClient :=
  Client (list_to_map ((λ i, (FormatInt i, example_pending_command)) <$> seqZ 0 64)) None false ∅ 1
    no_files.

Lemma reload_bounded_by_queue_witness :
  ∃ c' e, reloadAuthorizer empty_files 0 (no_fault_env, [])
    (map_to_list (az_byService example_authorizer)) (default_acl_order example_authorizer)
    (AclFiles "services" "acl" "permissions") example_authorizer (Some full_client) =
    (example_authorizer, Some c', Err e) ∧
    cl_pending c' = cl_pending full_client ∧ cl_fs c' = cl_fs full_client.
Proof.
  apply (reload_bounded_by_queue empty_files 0 no_fault_env []
    (map_to_list (az_byService example_authorizer)) (default_acl_order example_authorizer)
    (AclFiles "services" "acl" "permissions") example_authorizer full_client zero_authorizer).
  - vm_compute. reflexivity.
  - apply Z.ltb_lt. vm_compute. reflexivity.
  - apply Nat.ltb_lt. vm_compute. reflexivity.
Defined.

Close Scope Z_scope.
