(* ===== verification/ReloadLoop.v ===== *)
(** * The reload loop

    [runAuthorizerReload] of [management_acl_reload.go]: one reload a tick for
    as long as the process runs, each against whatever the files and the queue
    have become in the meantime.  Over any number of ticks, failed ones
    included, no right goes out of force without its revocation having been
    queued. *)

From S2P Require Export Reload.

Open Scope Z_scope.

(** What one tick finds: the files, the clock, the environment of the queue,
    what the other goroutines did to the queue since the last tick, and the
    iteration orders of the maps of the authorizer in force. *)
Record reload_tick (O Q : Type) := Tick {
  tk_open : string → result string;
  tk_now : Z;
  tk_env : O;
  tk_others : Q → Q;
  tk_services : managementAPIAuthorizer → list (string * nat);
  tk_acls : managementAPIAuthorizer → string → list (managementAdmissionKey * managementAdmissionACL);
}.
Arguments Tick {O Q}.
Arguments tk_open {O Q}.
Arguments tk_now {O Q}.
Arguments tk_env {O Q}.
Arguments tk_others {O Q}.
Arguments tk_services {O Q}.
Arguments tk_acls {O Q}.

Section loop.
Context {O Q : Type} `{!DurableQueue O Q} (files : acl_files).

(** [case <-ticker.C] *)
Definition reload_once (t : reload_tick O Q) (authorizer : managementAPIAuthorizer) (queuer : option Q)
    : managementAPIAuthorizer * option Q * result Z :=
  reloadAuthorizer (tk_open t) (tk_now t) (tk_env t) (tk_services t authorizer) (tk_acls t authorizer)
    files authorizer (tk_others t <$> queuer).

(** The loop: what is in force and queued after each tick, with the result
    that is logged.  The loop ends when the process does. *)
Fixpoint reload_ticks (ticks : list (reload_tick O Q)) (authorizer : managementAPIAuthorizer)
    (queuer : option Q) : list (managementAPIAuthorizer * option Q * result Z) :=
  match ticks with
  | [] => []
  | t :: ticks =>
      let '(authorizer', queuer', result) := reload_once t authorizer queuer in
      (authorizer', queuer', result) :: reload_ticks ticks authorizer' queuer'
  end.

(** [a.runAuthorizerReload(ctx)] on a server with the interval [interval]. *)
Definition runAuthorizerReload (interval : Z) (ticks : list (reload_tick O Q))
    (authorizer : managementAPIAuthorizer) (queuer : option Q)
    : list (managementAPIAuthorizer * option Q * result Z) :=
  if interval =? 0 then [] else reload_ticks ticks authorizer queuer.

(** The authorizer after the last tick. *)
Definition in_force (authorizer : managementAPIAuthorizer)
    (outcomes : list (managementAPIAuthorizer * option Q * result Z)) : managementAPIAuthorizer :=
  foldl (λ _ outcome, outcome.1.1) authorizer outcomes.

(** The environment of a tick keeps the contract of the queue; the orders are
    map orders and the clock is in range. *)
Definition tick_ok (t : reload_tick O Q) (authorizer : managementAPIAuthorizer) (queuer : option Q) : Prop :=
  orders_ok (tk_services t authorizer) (tk_acls t authorizer) authorizer ∧ reload_clock_ok (tk_now t) ∧
  ∀ q, tk_others t <$> queuer = Some q → dq_ok q ∧ dq_environment (tk_env t) q.

Fixpoint ticks_ok (ticks : list (reload_tick O Q)) (authorizer : managementAPIAuthorizer)
    (queuer : option Q) : Prop :=
  match ticks with
  | [] => True
  | t :: ticks =>
      let '(authorizer', queuer', _) := reload_once t authorizer queuer in
      tick_ok t authorizer queuer ∧ ticks_ok ticks authorizer' queuer'
  end.

(** The revocation of the right [key] of [id] was queued at the tick [t]. *)
Definition revoked_at (t : reload_tick O Q) (outcome : managementAPIAuthorizer * option Q * result Z)
    (id : string) (key : managementAdmissionKey) : Prop :=
  ∃ authorizer' q n, outcome = (authorizer', Some q, Ok n) ∧
    dq_pending q (RevocationRequest key.1 id "" (lost_reason authorizer' id)
                    (Unix (tk_now t + managementAPIAutomaticRevocationDenyWindow))).

(** A right lost over two replacements is lost at one of them. *)
Lemma right_lost_split a b c id key :
  right_lost a c id key → right_lost a b id key ∨ right_lost b c id key.
Proof.
  intros (s & acl & Hs & Hen & Hacl & Hc).
  destruct (remaining_service b id) as [s'|] eqn:Eb.
  2: { left. exists s, acl. split_and!; [done|done|done|]. intros s'. by rewrite Eb. }
  destruct (decide (svc_admissions s' !! key = Some acl)) as [Hk|Hk].
  - right. unfold remaining_service in Eb.
    destruct (enabled_service id b) as [[r s1]|] eqn:Ee; [|done]. injection Eb as ->.
    apply enabled_service_spec in Ee as (Hr & Hb & Hen'). exists s', acl.
    by split_and!.
  - left. exists s, acl. split_and!; [done|done|done|]. rewrite Eb. by intros ? [= <-].
Qed.

Lemma in_force_cons authorizer outcome outcomes :
  in_force authorizer (outcome :: outcomes) = in_force outcome.1.1 outcomes.
Proof. done. Qed.

Lemma right_lost_irrefl a id key : az_ok a → ¬ right_lost a a id key.
Proof.
  intros Hok (s & acl & Hs & Hen & Hacl & Hno). apply (Hno s); [|done].
  destruct (az_byService a !! id) as [r|] eqn:Er.
  2: { unfold service_by_id in Hs. by rewrite Er in Hs. }
  unfold remaining_service. by rewrite (proj2 (enabled_service_spec id a r s)).
Qed.

(** What one tick did. *)
Lemma reload_once_spec t authorizer queuer authorizer' queuer' result :
  az_ok authorizer → tick_ok t authorizer queuer →
  reload_once t authorizer queuer = (authorizer', queuer', result) →
  az_ok authorizer' ∧
  (authorizer' = authorizer ∨
   loadManagementAPIAuthorizer (tk_open t) (servicesFile files) (channelACLFile files)
     (globalPermissionsFile files) = Ok authorizer') ∧
  ∀ id key, right_lost authorizer authorizer' id key →
    revoked_at t (authorizer', queuer', result) id key.
Proof.
  intros Hok (Hord & Hclock & Hq) Hrun. unfold reload_once in Hrun.
  pose proof (reloadAuthorizer_spec (tk_open t) (tk_now t) (tk_env t) _ _ files authorizer
    (tk_others t <$> queuer) Hok Hord Hclock Hq) as Hs. rewrite Hrun in Hs. cbv zeta in Hs.
  destruct result as [n|e].
  - destruct Hs as (Hload & Hok' & Hpend & _). split_and!; [done|by right|]. intros id key Hlost.
    pose proof (proj2 (Hpend _) (or_intror (ex_intro _ id (ex_intro _ key (conj Hlost eq_refl))))) as Hp.
    destruct queuer' as [q'|]; [|done]. by exists authorizer', q', n.
  - destruct Hs as [-> _]. split_and!; [done|by left|]. intros id key Hlost.
    by destruct (right_lost_irrefl authorizer id key).
Qed.

Lemma reload_ticks_spec ticks authorizer queuer :
  az_ok authorizer → ticks_ok ticks authorizer queuer →
  let outcomes := reload_ticks ticks authorizer queuer in
  az_ok (in_force authorizer outcomes) ∧
  (in_force authorizer outcomes = authorizer ∨ ∃ t, t ∈ ticks ∧
     loadManagementAPIAuthorizer (tk_open t) (servicesFile files) (channelACLFile files)
       (globalPermissionsFile files) = Ok (in_force authorizer outcomes)) ∧
  ∀ id key, right_lost authorizer (in_force authorizer outcomes) id key →
    ∃ i t outcome, ticks !! i = Some t ∧ outcomes !! i = Some outcome ∧ revoked_at t outcome id key.
Proof.
  revert authorizer queuer. induction ticks as [|t ticks IH]; intros authorizer queuer Hok Hts.
  { split_and!; [done|by left|]. intros id key Hlost. by destruct (right_lost_irrefl authorizer id key). }
  cbn [reload_ticks ticks_ok] in *. destruct (reload_once t authorizer queuer) as [[a' q'] r] eqn:Et.
  destruct Hts as [Ht Hts]. destruct (reload_once_spec _ _ _ _ _ _ Hok Ht Et) as (Hok' & Hload & Hrev).
  destruct (IH a' q' Hok' Hts) as (H1 & H2 & H3). cbv zeta. rewrite in_force_cons. cbn [fst].
  split_and!; [done| |].
  - destruct H2 as [->|(t' & Ht' & Hl)]; [|right; exists t'; by split; [right|]].
    destruct Hload as [->|Hl]; [by left|right; exists t; by split; [left|]].
  - intros id key [Hlost|Hlost]%(right_lost_split _ a').
    + exists 0%nat, t, (a', q', r). split_and!; [done|done|by apply Hrev].
    + destruct (H3 id key Hlost) as (i & t' & o & Hi & Ho & Hr). by exists (S i), t', o.
Qed.
End loop.

(** ** Properties *)

(** C7: no right is withdrawn silently.  Over any sequence of ticks, whatever
    the files, the clock, the queue's environment and the other users of the
    queue did in between, and whichever of the reloads failed: the authorizer
    in force at the end is well formed and is the first one or one loaded at
    some tick; and for every right of the first one that it lacks or has
    changed, some tick ended with a revocation of that service on that channel
    pending, with a deadline 90 minutes after that tick. *)
Theorem withdrawn_rights_are_revoked {O Q} `{!DurableQueue O Q} files interval
    (ticks : list (reload_tick O Q)) authorizer queuer :
  az_ok authorizer → ticks_ok files ticks authorizer queuer →
  let outcomes := runAuthorizerReload files interval ticks authorizer queuer in
  az_ok (in_force authorizer outcomes) ∧
  (in_force authorizer outcomes = authorizer ∨ ∃ t, t ∈ ticks ∧
     loadManagementAPIAuthorizer (tk_open t) (servicesFile files) (channelACLFile files)
       (globalPermissionsFile files) = Ok (in_force authorizer outcomes)) ∧
  ∀ id key, right_lost authorizer (in_force authorizer outcomes) id key →
    ∃ i t outcome, ticks !! i = Some t ∧ outcomes !! i = Some outcome ∧ revoked_at t outcome id key.
Proof.
  intros Hok Hts. unfold runAuthorizerReload. destruct (interval =? 0).
  - split_and!; [done|by left|]. intros id key Hlost. by destruct (right_lost_irrefl authorizer id key).
  - by apply reload_ticks_spec.
Qed.

(** Two ticks: the files cannot be read, and then they grant nothing. *)
Definition example_tick (os_open : string → result string) : reload_tick (fs_env * list (result string)) privateControlClient :=
  Tick os_open (1000 * Second) (no_fault_env, [Ok "0123456789abcdef"]) (λ q, q)
    (λ a, map_to_list (az_byService a)) default_acl_order.

Definition example_ticks : list (reload_tick (fs_env * list (result string)) privateControlClient) :=
  [example_tick (λ _, Err ErrNotExist); example_tick empty_files].

Lemma example_tick_ok os_open : tick_ok (example_tick os_open) example_authorizer (Some stored_client).
Proof.
  split_and!; [exact (default_orders_ok _)|exact example_clock_ok|]. intros q [= <-].
  split; [exact stored_client_ok|discriminate].
Qed.

Lemma example_first_tick :
  reload_once (AclFiles "services" "acl" "permissions") (example_tick (λ _, Err ErrNotExist))
    example_authorizer (Some stored_client) =
  (example_authorizer, Some stored_client,
   Err (Wrapf "read management services ACL: %w" [] ErrNotExist)).
Proof. reflexivity. Qed.

Lemma example_ticks_ok :
  ticks_ok (AclFiles "services" "acl" "permissions") example_ticks example_authorizer (Some stored_client).
Proof.
  unfold example_ticks. cbn [ticks_ok]. rewrite example_first_tick. split; [apply example_tick_ok|].
  destruct (reload_once _ _ _ _) as [[a q] r]. split; [apply example_tick_ok|exact I].
Qed.

Lemma withdrawn_rights_are_revoked_witness :
  ∃ i t outcome, example_ticks !! i = Some t ∧
    runAuthorizerReload (AclFiles "services" "acl" "permissions") (5 * Second) example_ticks
      example_authorizer (Some stored_client) !! i = Some outcome ∧
    revoked_at t outcome "svc" (7, 1).
Proof.
  destruct (withdrawn_rights_are_revoked (AclFiles "services" "acl" "permissions") (5 * Second)
    example_ticks example_authorizer (Some stored_client) example_authorizer_ok example_ticks_ok)
    as (_ & _ & H).
  apply H.
  exists (default (Service "" "" false ∅ ∅ ∅) (service_by_id example_authorizer "svc")).
  eexists. split; [vm_compute; reflexivity|]. split; [vm_compute; reflexivity|].
  split; [vm_compute; reflexivity|]. intros s' Hs'. vm_compute in Hs'. discriminate Hs'.
Defined.

Close Scope Z_scope.
