(* ===== verification/Session.v ===== *)
(** * The Private Control Link session

    [newPrivateControlClient], [run], [runSession], [readSessionFrames] and
    [handleSessionMessage] of [private_control.go].  The handshake and the
    message dispatch are functions; the session loop is a step relation, in
    which the API's goroutines add commands between any two steps. *)

From S2P Require Export RelayState Commands.

Open Scope Z_scope.

(** ** Configuration *)

Record privateControlClientConfig := ClientConfig {
  cfg_transport : string;
  cfg_relayAddress : string;
  cfg_udsSocketPath : string;
  cfg_serverName : string;
  cfg_serviceID : string;
  cfg_certificateFile : string;
  cfg_privateKeyFile : string;
  cfg_relayCAFile : string;
  cfg_commandStoreFile : string;
}.

(** What the standard library makes of the TLS files. *)
Record tls_files := TlsFiles {
  LoadX509KeyPair : string → string → option error;
  ReadFile : string → result string;
  AppendCertsFromPEM : string → bool;
}.

(** [path.IsAbs] *)
Definition IsAbs (p : string) : bool := HasPrefix p "/".

(** The [switch config.transport] of [newPrivateControlClient]. *)
Definition check_transport (files : tls_files) (config : privateControlClientConfig) : option error :=
  if String.eqb (cfg_transport config) privateControlTransportMTLSTCP then
    if blank (cfg_relayAddress config) || blank (cfg_serverName config) ||
       blank (cfg_certificateFile config) || blank (cfg_privateKeyFile config) ||
       blank (cfg_relayCAFile config)
    then Some (Errorf "mTLS Relay address, server name, client certificate/key, and Relay CA are required" [])
    else match LoadX509KeyPair files (cfg_certificateFile config) (cfg_privateKeyFile config) with
         | Some e => Some (Wrapf "load Management Service client certificate: %w" [] e)
         | None =>
             match ReadFile files (cfg_relayCAFile config) with
             | Err e => Some (Wrapf "read Relay CA: %w" [] e)
             | Ok caData =>
                 if AppendCertsFromPEM files caData then None
                 else Some (Errorf "Relay CA contains no certificates" [])
             end
         end
  else if String.eqb (cfg_transport config) privateControlTransportUDS then
    if IsAbs (cfg_udsSocketPath config) then None
    else Some (Errorf "UDS socket path must be absolute" [])
  else Some (Errorf "Private Control Link transport must be %q or %q"
               [privateControlTransportUDS; privateControlTransportMTLSTCP]).

(** [newPrivateControlClient(config, state)] for a non-nil state. *)
Definition newPrivateControlClient (files : tls_files) (env : fs_env) (now : Z)
    (config : privateControlClientConfig) (fs : filesystem) : filesystem * result privateControlClient :=
  if negb (validManagementServiceID (cfg_serviceID config))
  then (fs, Err (Errorf "Management Service ID is required" []))
  else match openPrivateControlCommandStore env (cfg_commandStoreFile config) now 0 fs with
       | (fs', Err e) => (fs', Err e)
       | (fs', Ok (filename, pending, next)) =>
           match check_transport files config with
           | Some e => (fs', Err e)
           | None => (fs', Ok (Client pending (Some filename) false ∅ next fs'))
           end
       end.

(** ** Handshake *)

Definition session_hello (serviceID messageID : string) : privateControlHello :=
  Hello privateControlSchemaVersion "hello" messageID serviceID (Some true) (Some false) (Some false).

Definition snapshot_request (messageID : string) : privateControlGetRelayStateSnapshot :=
  GetRelayStateSnapshot privateControlSchemaVersion "get_relay_state_snapshot" messageID.

(** [!*p] and [*p] on a pointer that validation found non-nil. *)
Definition deref (p : option bool) : bool := default false p.

(** The checks of the hello acknowledgement: the Relay ID to connect as. *)
Definition accept_hello_ack (rawAck messageID : string) : result string :=
  try ack <- decode_hello_ack rawAck;
  reject negb (validPrivateControlHelloAck ack messageID)
    with Errorf "invalid Private Control Link hello_ack" [];
  reject negb (deref (hack_LifecycleEventsAccepted ack))
    with Errorf "Relay rejected lifecycle event export" [];
  reject deref (hack_AuditInputsAccepted ack)
    with Errorf "Relay accepted unsupported audit inputs" [];
  reject deref (hack_DiagnosticsAccepted ack)
    with Errorf "Relay accepted unsupported diagnostics" [];
  Ok (hack_RelayID ack).

(** [readSessionFrames(connection, incoming, done)]: what it puts on [incoming]
    for the bytes that the connection delivers before it ends, while the
    session takes its results.  Every frame consumes a byte, so one round
    more than there are bytes is enough. *)
Fixpoint readSessionFrames (fuel : nat) (stream : string) : list (result string) :=
  match fuel with
  | O => []
  | S fuel =>
      match readPrivateControlFrame stream with
      | Ok (raw, stream) => Ok raw :: readSessionFrames fuel stream
      | Err e => [Err e]
      end
  end.

(** The reader goroutine on a connection that delivers [stream]. *)
Definition session_incoming (stream : string) : list (result string) :=
  readSessionFrames (S (String.length stream)) stream.

(** ** Messages *)

(** The objects a session works on. *)
Record session_objects := SessionObjects {
  so_state : managementState;
  so_conn : privateControlClient;
  so_snapshot : option privateControlSnapshotReassembly;
}.

Definition err_relay (code : string) : error := Errorf "Relay Private Control Link error: %s" [code].

(** [c.handleSessionMessage(rawMessage, snapshotRequestID, &snapshot)] at the
    instant [now]; [order] is the hub's iteration order.  [None] is a panic of
    the hub. *)
Definition handleSessionMessage (now : Z) (order : list (Z * Z)) (env : fs_env)
    (rawMessage snapshotRequestID : string) (o : session_objects)
    : option (session_objects * option error) :=
  match decodePrivateControlEnvelope rawMessage with
  | Err e => Some (o, Some e)
  | Ok envelope =>
      let type := env_Type envelope in
      if String.eqb type "relay_lifecycle_event" then
        match decode_lifecycle_event rawMessage with
        | Err e => Some (o, Some e)
        | Ok event =>
            if negb (validPrivateControlLifecycleEvent rawMessage event)
            then Some (o, Some (Errorf "invalid Relay lifecycle event" []))
            else
              s' ← recordLifecycleEvent now order event (so_state o);
              Some (SessionObjects s' (so_conn o) (so_snapshot o), None)
        end
      else if String.eqb type "relay_state_snapshot" then
        match decode_snapshot rawMessage with
        | Err _ => Some (o, Some (Errorf "invalid Relay state snapshot" []))
        | Ok response =>
            if negb (validPrivateControlRelayStateSnapshot response) ||
               negb (String.eqb (snap_InReplyTo response) snapshotRequestID)
            then Some (o, Some (Errorf "invalid Relay state snapshot" []))
            else
              let snapshot := default (newSnapshotReassembly response) (so_snapshot o) in
              match reassembly_add snapshot response with
              | (snapshot', Err e) =>
                  Some (SessionObjects (so_state o) (so_conn o) (Some snapshot'), Some e)
              | (snapshot', Ok None) =>
                  Some (SessionObjects (so_state o) (so_conn o) (Some snapshot'), None)
              | (snapshot', Ok (Some channels)) =>
                  Some (SessionObjects (applyRelayStateSnapshot now channels (so_state o)) (so_conn o)
                          (Some snapshot'), None)
              end
        end
      else if String.eqb type "ack" then
        match decode_ack rawMessage with
        | Err _ => Some (o, Some (Errorf "invalid Private Control Link acknowledgement" []))
        | Ok response =>
            if negb (validPrivateControlAck response)
            then Some (o, Some (Errorf "invalid Private Control Link acknowledgement" []))
            else
              let '(c', (completed, err)) := completePendingAcknowledgement env response (so_conn o) in
              let o' := SessionObjects (so_state o) c' (so_snapshot o) in
              match err with
              | Some e => Some (o', Some e)
              | None =>
                  if completed then Some (o', None)
                  else Some (o', Some (Errorf "unexpected Private Control Link acknowledgement" []))
              end
        end
      else if String.eqb type "error" then
        match decode_control_error rawMessage with
        | Err e => Some (o, Some e)
        | Ok response =>
            if negb (validPrivateControlError response)
            then Some (o, Some (Errorf "invalid Private Control Link error" []))
            else if String.eqb (err_InReplyTo response) snapshotRequestID
            then Some (o, Some (err_relay (err_Code response)))
            else
              let unexpected := Errorf "unexpected Relay Private Control Link error: %s" [err_Code response] in
              if negb (String.eqb (err_InReplyTo response) "") then
                let '(c', (completed, err)) :=
                  completePendingCommand env (err_InReplyTo response)
                    (CommandResult zero_ack (Some (err_relay (err_Code response)))) (so_conn o) in
                let o' := SessionObjects (so_state o) c' (so_snapshot o) in
                match err with
                | Some e => Some (o', Some e)
                | None => Some (o', if completed then None else Some unexpected)
                end
              else Some (o, Some unexpected)
        end
      else Some (o, Some (Errorf "unexpected Relay Private Control Link message type %q" [type]))
  end.

(** ** The loop *)

(** Where the session loop is: about to take a snapshot of the queue, sending
    the rest of one, waiting in the [select], or returned. *)
Inductive loop_point :=
| AtHead
| Sending (rest : list privateControlPendingCommand)
| Waiting
| Ended (err : error).

Section loop.
Context {W : Type} (Write : W → string → W * (Z * option error)).
Context (snapshotRequestID : string).

Record session := Session {
  ses_point : loop_point;
  ses_objects : session_objects;
  ses_conn : W;
  ses_sent : gset string;
}.

Definition with_client (c : privateControlClient) (o : session_objects) : session_objects :=
  SessionObjects (so_state o) c (so_snapshot o).

(** An iteration order of the hub's subscribers, when there is a hub. *)
Definition hub_order (s : managementState) (order : list (Z * Z)) : Prop :=
  ∀ hub, ms_liveEvents s = Some hub → map_order (hub_subscribers hub) order.

(** The operations of other goroutines on the client. *)
Definition api_op (op : client_op) : Prop :=
  match op with OpQueue _ _ _ | OpRevoke _ _ _ | OpReceive _ => True | _ => False end.

Inductive session_step : session → session → Prop :=
(** [c.pendingCommands()], in some iteration order *)
| step_head o w sent order :
    map_order (cl_pending (so_conn o)) order →
    session_step (Session AtHead o w sent) (Session (Sending (pendingCommands order)) o w sent)
(** one round of the loop of [sendPendingCommands] *)
| step_send now envs cmd rest o w sent w' sent' c' :
    (∀ id, env_ok (envs id) (so_conn o)) →
    send_loop Write now envs [cmd] w sent (so_conn o) = Some (w', sent', c', None) →
    session_step (Session (Sending (cmd :: rest)) o w sent)
                 (Session (Sending rest) (with_client c' o) w' sent')
| step_send_failed now envs cmd rest o w sent w' sent' c' e :
    (∀ id, env_ok (envs id) (so_conn o)) →
    send_loop Write now envs [cmd] w sent (so_conn o) = Some (w', sent', c', Some e) →
    session_step (Session (Sending (cmd :: rest)) o w sent)
                 (Session (Ended e) (with_client c' o) w' sent')
| step_sent o w sent :
    session_step (Session (Sending []) o w sent) (Session Waiting o w sent)
(** [case <-c.commandNotify: continue] *)
| step_notified o w sent :
    cl_notify (so_conn o) = true →
    session_step (Session Waiting o w sent)
                 (Session AtHead (with_client (with_notify false (so_conn o)) o) w sent)
(** [case result := <-incoming] *)
| step_message now order env raw o o' w sent :
    env_ok env (so_conn o) → hub_order (so_state o) order →
    handleSessionMessage now order env raw snapshotRequestID o = Some (o', None) →
    session_step (Session Waiting o w sent) (Session AtHead o' w sent)
| step_message_failed now order env raw o o' w sent e :
    env_ok env (so_conn o) → hub_order (so_state o) order →
    handleSessionMessage now order env raw snapshotRequestID o = Some (o', Some e) →
    session_step (Session Waiting o w sent) (Session (Ended e) o' w sent)
(** a read error, or [case <-context.Done()] *)
| step_closed o w sent e :
    session_step (Session Waiting o w sent) (Session (Ended e) o w sent)
(** an API goroutine, at any point *)
| step_api op point o w sent :
    api_op op → op_ok (cl_store (so_conn o)) op →
    session_step (Session point o w sent)
                 (Session point (with_client (client_apply (so_conn o) op) o) w sent).
End loop.

(** ** Reconnection *)

(** The delay after the next failure. *)
Definition next_retry (retry : Z) : Z :=
  if retry <? 30 * Second then
    let retry := retry * 2 in if 30 * Second <? retry then 30 * Second else retry
  else retry.

(** The delay before the attempt that follows [n] failures and one more. *)
Fixpoint retry_after (n : nat) : Z :=
  match n with O => Second | S n => next_retry (retry_after n) end.

(** ** What a message does *)

Lemma completePendingCommand_effect env id result c c' found err :
  client_ok c → env_ok env c → completePendingCommand env id result c = (c', (found, err)) →
  if found then completes id result c c' err else c' = c ∧ err = None ∧ cl_pending c !! id = None.
Proof.
  intros Hok Henv H. pose proof (completePendingCommand_spec env id result c Hok Henv) as Hs.
  by rewrite H in Hs.
Qed.

Lemma completePendingAcknowledgement_effect env response c c' found err :
  client_ok c → env_ok env c → completePendingAcknowledgement env response c = (c', (found, err)) →
  if found then completes (ack_InReplyTo response) (CommandResult response None) c c' err ∧
                rev_DenyUntil ∘ pc_message <$> cl_pending c !! ack_InReplyTo response =
                Some (ack_DenyUntil response)
  else c' = c ∧ err = None.
Proof.
  intros Hok Henv H. pose proof (completePendingAcknowledgement_spec env response c Hok Henv) as Hs.
  rewrite H in Hs. by destruct found; [apply Hs|destruct Hs as (? & ? & _)].
Qed.

(** The accepted messages. *)
Inductive accepted_message (now : Z) (order : list (Z * Z)) (raw snapshotRequestID : string)
    (o o' : session_objects) : Prop :=
| accepted_event event s' :
    decode_lifecycle_event raw = Ok event → validPrivateControlLifecycleEvent raw event = true →
    recordLifecycleEvent now order event (so_state o) = Some s' →
    o' = SessionObjects s' (so_conn o) (so_snapshot o) →
    accepted_message now order raw snapshotRequestID o o'
| accepted_chunk response snapshot' delivered :
    decode_snapshot raw = Ok response → validPrivateControlRelayStateSnapshot response = true →
    snap_InReplyTo response = snapshotRequestID →
    reassembly_add (default (newSnapshotReassembly response) (so_snapshot o)) response =
      (snapshot', Ok delivered) →
    o' = SessionObjects
           (match delivered with
            | Some channels => applyRelayStateSnapshot now channels (so_state o)
            | None => so_state o
            end) (so_conn o) (Some snapshot') →
    accepted_message now order raw snapshotRequestID o o'
| accepted_ack response c' :
    decode_ack raw = Ok response → validPrivateControlAck response = true →
    rev_DenyUntil ∘ pc_message <$> cl_pending (so_conn o) !! ack_InReplyTo response =
      Some (ack_DenyUntil response) →
    completes (ack_InReplyTo response) (CommandResult response None) (so_conn o) c' None →
    o' = SessionObjects (so_state o) c' (so_snapshot o) →
    accepted_message now order raw snapshotRequestID o o'
| accepted_error response c' :
    decode_control_error raw = Ok response → validPrivateControlError response = true →
    err_InReplyTo response ≠ snapshotRequestID →
    completes (err_InReplyTo response) (CommandResult zero_ack (Some (err_relay (err_Code response))))
      (so_conn o) c' None →
    o' = SessionObjects (so_state o) c' (so_snapshot o) →
    accepted_message now order raw snapshotRequestID o o'.

(** The messages that are accepted: the type of the envelope selects the
    decoder; a chunk has to fit the ones before it, and a completion to be
    stored. *)
Definition message_type (raw : string) : option string :=
  match decodePrivateControlEnvelope raw with Ok envelope => Some (env_Type envelope) | Err _ => None end.

Inductive acceptable (env : fs_env) (raw snapshotRequestID : string) (o : session_objects) : Prop :=
| acceptable_event event :
    message_type raw = Some "relay_lifecycle_event" → decode_lifecycle_event raw = Ok event →
    validPrivateControlLifecycleEvent raw event = true → acceptable env raw snapshotRequestID o
| acceptable_chunk response snapshot' delivered :
    message_type raw = Some "relay_state_snapshot" → decode_snapshot raw = Ok response →
    validPrivateControlRelayStateSnapshot response = true → snap_InReplyTo response = snapshotRequestID →
    reassembly_add (default (newSnapshotReassembly response) (so_snapshot o)) response =
      (snapshot', Ok delivered) → acceptable env raw snapshotRequestID o
| acceptable_ack response command :
    message_type raw = Some "ack" → decode_ack raw = Ok response → validPrivateControlAck response = true →
    cl_pending (so_conn o) !! ack_InReplyTo response = Some command →
    rev_DenyUntil (pc_message command) = ack_DenyUntil response →
    removal_stored env (ack_InReplyTo response) (so_conn o) → acceptable env raw snapshotRequestID o
| acceptable_error response command :
    message_type raw = Some "error" → decode_control_error raw = Ok response →
    validPrivateControlError response = true → err_InReplyTo response ≠ snapshotRequestID →
    cl_pending (so_conn o) !! err_InReplyTo response = Some command →
    removal_stored env (err_InReplyTo response) (so_conn o) → acceptable env raw snapshotRequestID o.

(** What a rejected message may have moved: the reassembly, by a chunk for this
    session that does not fit; and the store file, by the failing write of the
    queue without the command that the message names. *)
Definition rejected_reassembly (raw snapshotRequestID : string) (o o' : session_objects) : Prop :=
  so_snapshot o' = so_snapshot o ∨
  ∃ response snapshot' e, decode_snapshot raw = Ok response ∧ snap_InReplyTo response = snapshotRequestID ∧
    reassembly_add (default (newSnapshotReassembly response) (so_snapshot o)) response = (snapshot', Err e) ∧
    so_snapshot o' = Some snapshot'.

Definition rejected_store (env : fs_env) (o o' : session_objects) : Prop :=
  cl_fs (so_conn o') = cl_fs (so_conn o) ∨
  ∃ id, is_Some (cl_pending (so_conn o) !! id) ∧
    store_left env (delete id (cl_pending (so_conn o))) (so_conn o) (so_conn o').

(** A rejected message: the state and the queue have not moved. *)
Definition rejected_message (o o' : session_objects) : Prop :=
  so_state o' = so_state o ∧ cl_pending (so_conn o') = cl_pending (so_conn o) ∧
  cl_results (so_conn o') = cl_results (so_conn o) ∧ cl_notify (so_conn o') = cl_notify (so_conn o) ∧
  cl_store (so_conn o') = cl_store (so_conn o) ∧ cl_next (so_conn o') = cl_next (so_conn o).

Lemma rejected_same o : rejected_message o o.
Proof. by split_and!. Qed.

Lemma rejected_snapshot o r : rejected_message o (SessionObjects (so_state o) (so_conn o) r).
Proof. by split_and!. Qed.

Lemma rejected_completes id result o c' e :
  completes id result (so_conn o) c' (Some e) →
  rejected_message o (SessionObjects (so_state o) c' (so_snapshot o)).
Proof. intros (cmd & _ & ? & ? & ? & ? & ?). by split_and!. Qed.

Lemma handleSessionMessage_spec now order env raw snapshotRequestID o o' err :
  client_ok (so_conn o) → env_ok env (so_conn o) →
  handleSessionMessage now order env raw snapshotRequestID o = Some (o', err) →
  match err with
  | None => accepted_message now order raw snapshotRequestID o o'
  | Some _ => rejected_message o o'
  end.
Proof.
  intros Hok Henv. unfold handleSessionMessage.
  destruct (decodePrivateControlEnvelope raw) as [envelope|e]; [|intros [= <- <-]; apply rejected_same].
  destruct (String.eqb (env_Type envelope) "relay_lifecycle_event").
  { destruct (decode_lifecycle_event raw) as [event|e] eqn:Ed; [|intros [= <- <-]; apply rejected_same].
    destruct (validPrivateControlLifecycleEvent raw event) eqn:Ev; cbn [negb];
      [|intros [= <- <-]; apply rejected_same].
    destruct (recordLifecycleEvent now order event (so_state o)) as [s'|] eqn:Er; [|done].
    intros [= <- <-]. by eapply accepted_event. }
  destruct (String.eqb (env_Type envelope) "relay_state_snapshot").
  { destruct (decode_snapshot raw) as [response|e] eqn:Ed; [|intros [= <- <-]; apply rejected_same].
    destruct (negb _ || _) eqn:Ev; [intros [= <- <-]; apply rejected_same|]. go_bool.
    destruct (reassembly_add _ response) as [r' [[channels|]|e]] eqn:Ea; intros [= <- <-];
      [by eapply accepted_chunk..|apply rejected_snapshot]. }
  destruct (String.eqb (env_Type envelope) "ack").
  { destruct (decode_ack raw) as [response|e] eqn:Ed; [|intros [= <- <-]; apply rejected_same].
    destruct (validPrivateControlAck response) eqn:Ev; cbn [negb]; [|intros [= <- <-]; apply rejected_same].
    destruct (completePendingAcknowledgement env response (so_conn o)) as [c' [found e]] eqn:Ec.
    apply completePendingAcknowledgement_effect in Ec; [|done|done].
    destruct e as [e|]; [intros [= <- <-]|destruct found; intros [= <- <-]].
    - destruct found; [by destruct Ec; eapply rejected_completes|by destruct Ec].
    - destruct Ec. by eapply accepted_ack.
    - destruct Ec as [-> _]. apply rejected_snapshot. }
  destruct (String.eqb (env_Type envelope) "error"); [|intros [= <- <-]; apply rejected_same].
  destruct (decode_control_error raw) as [response|e] eqn:Ed; [|intros [= <- <-]; apply rejected_same].
  destruct (validPrivateControlError response) eqn:Ev; cbn [negb]; [|intros [= <- <-]; apply rejected_same].
  destruct (String.eqb (err_InReplyTo response) snapshotRequestID) eqn:Es;
    [intros [= <- <-]; apply rejected_same|]. go_bool.
  destruct (String.eqb (err_InReplyTo response) ""); cbn [negb]; [intros [= <- <-]; apply rejected_same|].
  destruct (completePendingCommand _ _ _ _) as [c' [found e]] eqn:Ec.
  apply completePendingCommand_effect in Ec; [|done|done].
  destruct e as [e|]; [intros [= <- <-]|destruct found; intros [= <- <-]].
  - destruct found; [by eapply rejected_completes|by destruct Ec as (_ & ? & _)].
  - by eapply accepted_error.
  - destruct Ec as (-> & _ & _). apply rejected_snapshot.
Qed.

(** A command that can be named has an identifier. *)
Lemma pending_id_ne c id cmd : client_ok c → cl_pending c !! id = Some cmd → id ≠ "".
Proof.
  intros Hok Hid ->. destruct (ok_pending c Hok _ _ Hid) as [Heq [Hv _]]. unfold validPrivateControlRevocation in Hv.
  go_bool. rewrite Heq in *. done.
Qed.

(** Nothing else is acceptable; and nothing has moved. *)
Ltac refute_acceptable :=
  intros Hacc; destruct Hacc; unfold message_type in *;
  repeat match goal with H : decodePrivateControlEnvelope _ = _ |- _ => rewrite H in * end;
  go_bool; simplify_eq; congruence.

Ltac reject_message := intros [= <- <-]; split_and!; [refute_acceptable|by left|by left].

(** What a failing completion moves. *)
Lemma rejected_completion env id raw snapshotRequestID o c' :
  is_Some (cl_pending (so_conn o) !! id) ∧ store_left env (delete id (cl_pending (so_conn o))) (so_conn o) c' →
  let o' := SessionObjects (so_state o) c' (so_snapshot o) in
  rejected_reassembly raw snapshotRequestID o o' ∧ rejected_store env o o'.
Proof. intros H. split; [by left|right]. by exists id. Qed.

Lemma rejected_unmoved env raw snapshotRequestID o :
  let o' := SessionObjects (so_state o) (so_conn o) (so_snapshot o) in
  rejected_reassembly raw snapshotRequestID o o' ∧ rejected_store env o o'.
Proof. by split; left. Qed.

Section completions.
Context (env : fs_env) (raw snapshotRequestID : string) (o : session_objects).
Context (Hok : client_ok (so_conn o)) (Henv : env_ok env (so_conn o)).

(** The outcome of a completion that the message asks for. *)
Definition completion_exact (c' : privateControlClient) (found : bool) (err : option error) : Prop :=
  let o' := SessionObjects (so_state o) c' (so_snapshot o) in
  (found = true ∧ err = None → acceptable env raw snapshotRequestID o) ∧
  (¬ (found = true ∧ err = None) → ¬ acceptable env raw snapshotRequestID o ∧
     rejected_reassembly raw snapshotRequestID o o' ∧ rejected_store env o o').

Lemma acknowledgement_exact response :
  message_type raw = Some "ack" → decode_ack raw = Ok response → validPrivateControlAck response = true →
  let '(c', (found, err)) := completePendingAcknowledgement env response (so_conn o) in
  completion_exact c' found err.
Proof using Hok Henv.
  intros Hty Hd Hv.
  pose proof (completePendingAcknowledgement_exact env response (so_conn o) Henv) as Hex.
  pose proof (completePendingAcknowledgement_spec env response (so_conn o) Hok Henv) as Hspec.
  destruct (completePendingAcknowledgement env response (so_conn o)) as [c' [found e]].
  destruct Hex as [Hiff Hleft]. split.
  - intros Hdone. apply Hiff in Hdone as [(cmd & ? & ?) ?]. by eapply acceptable_ack.
  - intros Hn. split.
    + intros [| |response' cmd ? Hd' ? ? ? ?|]; [congruence|congruence| |congruence].
      rewrite Hd in Hd'. injection Hd' as <-. apply Hn, Hiff. split; [by eexists|done].
    + destruct e as [e|]; [by eapply rejected_completion, Hleft|]. destruct found; [by destruct Hn|].
      destruct Hspec as (-> & _). apply rejected_unmoved.
Qed.

Lemma error_reply_exact response result :
  message_type raw = Some "error" → decode_control_error raw = Ok response →
  validPrivateControlError response = true → err_InReplyTo response ≠ snapshotRequestID →
  let '(c', (found, err)) := completePendingCommand env (err_InReplyTo response) result (so_conn o) in
  completion_exact c' found err.
Proof using Hok Henv.
  intros Hty Hd Hv Hne.
  pose proof (completePendingCommand_exact env (err_InReplyTo response) result (so_conn o) Henv) as Hex.
  pose proof (completePendingCommand_spec env (err_InReplyTo response) result (so_conn o) Hok Henv) as Hspec.
  destruct (completePendingCommand env _ result (so_conn o)) as [c' [found e]].
  destruct Hex as [Hiff Hleft]. split.
  - intros Hdone. apply Hiff in Hdone as [[cmd ?] ?]. by eapply acceptable_error.
  - intros Hn. split.
    + intros [| | |response' cmd ? Hd' ? ? ? ?]; [congruence..|].
      rewrite Hd in Hd'. injection Hd' as <-. apply Hn, Hiff. split; [by eexists|done].
    + destruct e as [e|]; [by eapply rejected_completion, Hleft|]. destruct found; [by destruct Hn|].
      destruct Hspec as (-> & _). apply rejected_unmoved.
Qed.
End completions.

(** A message succeeds exactly when it is acceptable, and what moves when it
    is not. *)
Lemma handleSessionMessage_exact now order env raw snapshotRequestID o o' err :
  client_ok (so_conn o) → env_ok env (so_conn o) →
  handleSessionMessage now order env raw snapshotRequestID o = Some (o', err) →
  match err with
  | None => acceptable env raw snapshotRequestID o
  | Some _ => ¬ acceptable env raw snapshotRequestID o ∧
              rejected_reassembly raw snapshotRequestID o o' ∧ rejected_store env o o'
  end.
Proof.
  intros Hok Henv. unfold handleSessionMessage.
  destruct (decodePrivateControlEnvelope raw) as [envelope|e] eqn:Ee; [|reject_message].
  assert (message_type raw = Some (env_Type envelope)) as Hty by (unfold message_type; by rewrite Ee).
  destruct (String.eqb (env_Type envelope) "relay_lifecycle_event") eqn:E1.
  { go_bool. rewrite E1 in Hty. destruct (decode_lifecycle_event raw) as [event|e] eqn:Ed; [|reject_message].
    destruct (validPrivateControlLifecycleEvent raw event) eqn:Ev; cbn [negb]; [|reject_message].
    destruct (recordLifecycleEvent now order event (so_state o)) as [s'|] eqn:Er; [|done].
    intros [= <- <-]. by eapply acceptable_event. }
  destruct (String.eqb (env_Type envelope) "relay_state_snapshot") eqn:E2.
  { go_bool. rewrite E2 in Hty. destruct (decode_snapshot raw) as [response|e] eqn:Ed; [|reject_message].
    destruct (negb _ || _) eqn:Ev; [apply orb_true_iff in Ev as [Ev|Ev]; reject_message|].
    go_bool. destruct (reassembly_add _ response) as [r' [delivered|e]] eqn:Ea.
    - by destruct delivered; intros [= <- <-]; eapply acceptable_chunk.
    - intros [= <- <-]. split_and!; [refute_acceptable|right; by eexists _, _, _|by left]. }
  destruct (String.eqb (env_Type envelope) "ack") eqn:E3.
  { go_bool. rewrite E3 in Hty. destruct (decode_ack raw) as [response|e] eqn:Ed; [|reject_message].
    destruct (validPrivateControlAck response) eqn:Ev; cbn [negb]; [|reject_message].
    pose proof (acknowledgement_exact env raw snapshotRequestID o Hok Henv response Hty Ed Ev) as Hex.
    destruct (completePendingAcknowledgement _ _ _) as [c' [found e]]. destruct Hex as [Hyes Hno].
    destruct e as [e|]; [|destruct found]; intros [= <- <-]; [apply Hno; by intros [_ ?]|by apply Hyes|].
    apply Hno. by intros [? _]. }
  destruct (String.eqb (env_Type envelope) "error") eqn:E4; [|reject_message].
  go_bool. rewrite E4 in Hty. destruct (decode_control_error raw) as [response|e] eqn:Ed; [|reject_message].
  destruct (validPrivateControlError response) eqn:Ev; cbn [negb]; [|reject_message].
  destruct (String.eqb (err_InReplyTo response) snapshotRequestID) eqn:Es; [reject_message|]. go_bool.
  destruct (String.eqb (err_InReplyTo response) "") eqn:En; cbn [negb].
  { go_bool. intros [= <- <-]. split_and!; [|by left|by left].
    intros [| | |response' cmd ? Hd' ? ? Hid ?]; [congruence..|]. rewrite Ed in Hd'. injection Hd' as <-.
    by eapply (pending_id_ne (so_conn o)). }
  set (result := CommandResult _ _).
  pose proof (error_reply_exact env raw snapshotRequestID o Hok Henv response result Hty Ed Ev Es) as Hex.
  destruct (completePendingCommand _ _ _ _) as [c' [found e]]. destruct Hex as [Hyes Hno].
  destruct e as [e|]; [|destruct found]; intros [= <- <-]; [apply Hno; by intros [_ ?]|by apply Hyes|].
  apply Hno. by intros [? _].
Qed.

(** ** No command is forgotten *)

(** A success of the API adds commands and leaves a token; otherwise the queue
    and the token are unchanged. *)
Lemma api_op_effect c op :
  client_ok c → op_ok (cl_store c) op → api_op op →
  let c' := client_apply c op in
  (cl_pending c' = cl_pending c ∧ cl_notify c' = cl_notify c) ∨
  (cl_notify c' = true ∧ ∀ id cmd, cl_pending c !! id = Some cmd → cl_pending c' !! id = Some cmd).
Proof.
  intros Hok Hop Hapi.
  destruct op as [env raws requests|env raw request| | | |ch]; try done; simpl.
  - destruct Hop as [Henv Hints]. unfold queueServiceAdmissionRevocations.
    pose proof (new_batch_spec raws requests c Hok Hints) as Hb.
    destruct (new_batch raws requests c) as [c1 [commands|e]]; destruct Hb as [(n & Hn & ->) _]; [|by left].
    destruct commands as [|x xs]; [by left|].
    assert (x :: xs ≠ []) as Hne by done.
    pose proof (enqueue_spec env (x :: xs) (with_next n c) Henv Hne) as He.
    destruct (enqueuePendingCommands _ _ _) as [c2 [e|]]; simpl in *; [left; by destruct He|right].
    destruct He as (_ & cmds & _ & [Hall Hnd] & _ & -> & -> & _). split; [done|]. intros id cmd Hid.
    rewrite Forall_forall in Hall. apply add_all_lookup; [done|naive_solver|by left].
  - destruct Hop as [Henv Hint].
    pose proof (revoke_start_spec env raw request c Hok Henv Hint) as Hs. unfold revoke_start, enqueuePendingCommand in *.
    destruct (newPendingRevocation raw request c) as [c1 [cmd|e]] eqn:En.
    2: { left. unfold newPendingRevocation in En. destruct raw as [raw|e']; simplify_eq/=; [|done].
         by destruct (validPrivateControlRevocation _). }
    assert ([Some cmd] ≠ []) as Hne by done.
    assert (c1 = with_next (cl_next c + 1) c) as ->.
    { unfold newPendingRevocation in En. destruct raw as [raw|e']; by simplify_eq/=. }
    pose proof (enqueue_spec env [Some cmd] (with_next (cl_next c + 1) c) Henv Hne) as He.
    destruct (enqueuePendingCommands _ _ _) as [c2 [e|]]; simpl in *; [left; by destruct He|right].
    destruct Hs as (_ & _ & _ & Hnew & -> & -> & _). split; [done|]. intros id x Hid.
    rewrite lookup_insert_ne; [done|congruence].
  - left. unfold receive_result. by destruct (cl_results c !! ch).
Qed.

Section loop_invariant.
Context {W : Type} (Write : W → string → W * (Z * option error)) (delivered : W → string).
Context (Hcontract : writer_contract Write delivered).
Context (snapshotRequestID : string) (w0 : W).

(** The commands a loop point still has in hand. *)
Definition in_hand (point : loop_point) (c : privateControlClient)
    (cmd : privateControlPendingCommand) : Prop :=
  match point with
  | AtHead | Ended _ => True
  | Sending rest => cmd ∈ rest
  | Waiting => False
  end.

(** The rest of a snapshot is still pending. *)
Definition point_ok (point : loop_point) (c : privateControlClient) : Prop :=
  match point with
  | Sending rest => NoDup (command_id <$> rest) ∧
                    ∀ cmd, cmd ∈ rest → cl_pending c !! command_id cmd = Some cmd
  | _ => True
  end.

(** What went out: one frame for each command recorded as sent. *)
Definition wire_ok (s : @session W) : Prop :=
  match ses_point s with
  | Ended _ => True
  | _ => ∃ out, delivered (ses_conn s) = delivered w0 +:+ command_frames out ∧
                NoDup (command_id <$> out) ∧ (∀ id, id ∈ ses_sent s ↔ id ∈ command_id <$> out) ∧
                Forall (λ cmd, revocation_wf (pc_message cmd)) out
  end.

Record session_ok (s : @session W) : Prop := SessionOk {
  sok_client : client_ok (so_conn (ses_objects s));
  sok_point : point_ok (ses_point s) (so_conn (ses_objects s));
  sok_covered : ∀ id cmd, cl_pending (so_conn (ses_objects s)) !! id = Some cmd →
    id ∈ ses_sent s ∨ cl_notify (so_conn (ses_objects s)) = true ∨
    in_hand (ses_point s) (so_conn (ses_objects s)) cmd;
  sok_wire : wire_ok s;
}.

(** What one round of [sendPendingCommands] does about its command. *)
Record sent_one (cmd : privateControlPendingCommand) (w w' : W) (sent sent' : gset string)
    (c c' : privateControlClient) : Prop := SentOne {
  one_out : ∃ out, delivered w' = delivered w +:+ command_frames out ∧ (out = [] ∨ out = [cmd]) ∧
    (∀ x, x ∈ out → command_id x ∉ sent) ∧ (∀ id, id ∈ sent' ↔ id ∈ command_id <$> out ∨ id ∈ sent);
  one_others : ∀ id, id ≠ command_id cmd → cl_pending c' !! id = cl_pending c !! id;
  one_handled : command_id cmd ∈ sent' ∨ cl_pending c' !! command_id cmd = None;
}.

Lemma to_send_one now sent cmd :
  (to_send now sent [cmd] = [] ∨ to_send now sent [cmd] = [cmd]) ∧
  (∀ x, x ∈ to_send now sent [cmd] → command_id x ∉ sent).
Proof.
  split; [unfold to_send; rewrite filter_cons, filter_nil; destruct (decide _); auto|].
  by intros x [[? _] _]%list_elem_of_filter.
Qed.

Lemma lapsed_one now sent cmd x : x ∈ lapsed now sent [cmd] → x = cmd.
Proof. by intros [_ ?%list_elem_of_singleton]%list_elem_of_filter. Qed.

(** A command is sent already, on the wire now, or out of the queue now. *)
Lemma one_of_three now sent cmd :
  command_id cmd ∈ sent ∨ command_id cmd ∈ command_id <$> to_send now sent [cmd] ∨
  command_id cmd ∈ command_id <$> lapsed now sent [cmd].
Proof.
  destruct (decide (command_id cmd ∈ sent)); [by left|right].
  destruct (decide (now < rev_DenyUntil (pc_message cmd))) as [Hl|Hl]; [left|right];
    (apply list_elem_of_fmap_2, list_elem_of_filter; split; [|by apply list_elem_of_singleton]);
    (split; [done|lia]).
Qed.

Lemma send_round now envs cmd w sent c w' sent' c' err :
  client_ok c → (∀ id, env_ok (envs id) c) → cl_pending c !! command_id cmd = Some cmd →
  send_loop Write now envs [cmd] w sent c = Some (w', sent', c', err) →
  client_ok c' ∧ cl_notify c' = cl_notify c ∧ (err = None → sent_one cmd w w' sent sent' c c').
Proof.
  intros Hok Henv Hp Hrun.
  destruct (send_loop_spec Write delivered Hcontract now envs [cmd] w sent c Hok Henv)
    as (w1 & sent1 & c1 & err1 & out & gone & Hrun' & Ho).
  { apply NoDup_singleton. }
  { by intros x ->%list_elem_of_singleton. }
  rewrite Hrun in Hrun'. injection Hrun' as <- <- <- <-.
  destruct Ho as [_ _ (q & Hd & Hq) Hsent (Hok' & _ & _ & Hno) Hp' _ _ Hcomp].
  split_and!; [done|done|]. intros ->. destruct (Hcomp eq_refl) as [-> ->].
  rewrite (Hq eq_refl), string_app_empty_r in Hd. constructor.
  - exists (to_send now sent [cmd]). destruct (to_send_one now sent cmd). by split_and!.
  - intros id Hne. rewrite Hp', delete_all_lookup, decide_False; [done|].
    intros (x & -> & ->%lapsed_one)%list_elem_of_fmap. done.
  - rewrite Hsent. destruct (one_of_three now sent cmd) as [?|[?|Hg]]; [by left; right|by left; left|right].
    by rewrite Hp', delete_all_lookup, decide_True.
Qed.

Lemma command_frames_app a b : command_frames (a ++ b) = command_frames a +:+ command_frames b.
Proof.
  unfold command_frames. induction a as [|x a IH]; [done|]. simpl. by rewrite IH, string_app_assoc.
Qed.

Lemma wire_ok_sent cmd rest o o' w w' sent sent' c c' :
  revocation_wf (pc_message cmd) →
  wire_ok (Session (Sending (cmd :: rest)) o w sent) → sent_one cmd w w' sent sent' c c' →
  wire_ok (Session (Sending rest) o' w' sent').
Proof.
  intros Hwf (out0 & Hd0 & Hnd0 & Hs0 & Hwf0) [(out & Hd & Hout & Hnew & Hs) _ _]. cbn in *.
  exists (out0 ++ out). cbn. split_and!.
  - by rewrite Hd, Hd0, command_frames_app, string_app_assoc.
  - rewrite fmap_app. apply NoDup_app. split_and!; [done| |].
    + intros id Hid (x & -> & Hx)%list_elem_of_fmap. by apply (Hnew x Hx), Hs0.
    + destruct Hout as [->| ->]; [constructor|apply NoDup_singleton].
  - intros id. rewrite Hs, Hs0, fmap_app, elem_of_app. tauto.
  - apply Forall_app. split; [done|].
    by destruct Hout as [->| ->]; [constructor|apply Forall_singleton].
Qed.

Lemma session_send_ok now envs cmd rest o w sent w' sent' c' :
  session_ok (Session (Sending (cmd :: rest)) o w sent) → (∀ id, env_ok (envs id) (so_conn o)) →
  send_loop Write now envs [cmd] w sent (so_conn o) = Some (w', sent', c', None) →
  session_ok (Session (Sending rest) (with_client c' o) w' sent').
Proof.
  intros [Hok [Hnd Hin] Hcov Hw] Henv Hrun. cbn in *.
  rewrite NoDup_cons in Hnd. destruct Hnd as [Hnew Hnd].
  apply send_round in Hrun as (Hok' & Hno & Hone); [|done|done|apply Hin; by left].
  specialize (Hone eq_refl). pose proof Hone as [(out & _ & _ & _ & Hs) Hothers Hhandled].
  assert (revocation_wf (pc_message cmd)) as Hwf.
  { by eapply (ok_pending _ Hok), Hin, list_elem_of_here. }
  constructor; cbn; [done| | |exact (wire_ok_sent cmd rest o o w w' sent sent' _ c' Hwf Hw Hone)].
  - split; [done|]. intros x Hx. rewrite Hothers; [apply Hin; by right|].
    intros Heq. apply Hnew. rewrite <-Heq. by apply list_elem_of_fmap_2.
  - intros id x Hid. destruct (decide (id = command_id cmd)) as [->|Hne].
    { left. destruct Hhandled as [?|Hnone]; [done|by rewrite Hnone in Hid]. }
    rewrite Hothers in Hid by done. rewrite Hno.
    destruct (Hcov id x Hid) as [?|[?|[->|Hx]%elem_of_cons]]; [left; apply Hs; by right|by right; left| |by right; right].
    destruct Hne. symmetry. apply (ok_pending _ Hok _ _ Hid).
Qed.

Lemma session_api_ok op point o w sent :
  session_ok (Session point o w sent) → api_op op → op_ok (cl_store (so_conn o)) op →
  session_ok (Session point (with_client (client_apply (so_conn o) op) o) w sent).
Proof.
  intros [Hok Hpt Hcov Hw] Hapi Hop. cbn in *. destruct (client_apply_ok _ _ Hok Hop) as [Hok' _].
  destruct (api_op_effect _ _ Hok Hop Hapi) as [[Hp Hn]|[Hn Hkeep]].
  - constructor; simpl; [done| | |done].
    + unfold point_ok in *. by destruct point; rewrite ?Hp.
    + intros id cmd. rewrite Hp, Hn. apply Hcov.
  - constructor; simpl; [done| | |done].
    + unfold point_ok in *. destruct point; [done| |done|done]. naive_solver.
    + auto.
Qed.

Lemma session_message_ok now order env raw o o' w sent err :
  session_ok (Session Waiting o w sent) → env_ok env (so_conn o) →
  handleSessionMessage now order env raw snapshotRequestID o = Some (o', err) →
  session_ok (Session (match err with None => AtHead | Some e => Ended e end) o' w sent).
Proof.
  intros [Hok _ _ Hw] Henv Hm. cbn in *.
  pose proof (handleSessionMessage_spec _ _ _ _ _ _ _ _ Hok Henv Hm) as Ha. destruct err as [e|].
  - destruct Ha as (_ & Hp & Hr & _ & _ & Hn).
    constructor; simpl; [by eapply client_ok_eq; [..|exact Hok]|done|auto|done].
  - assert (client_ok (so_conn o')) as Hok'.
    { by destruct Ha as [event s' _ _ _ ->|response sn dl _ _ _ _ ->|response c' _ _ _ Hc ->|response c' _ _ _ Hc ->];
        simpl; [done|done|by eapply completes_ok|by eapply completes_ok]. }
    constructor; simpl; [done|done|auto|done].
Qed.

Lemma session_step_ok s s' :
  session_ok s → session_step Write snapshotRequestID s s' → session_ok s'.
Proof.
  intros Hses Hstep. pose proof Hses as [Hok Hpt Hcov Hw]. destruct Hstep as
    [o w sent order Horder|now envs cmd rest o w sent w' sent' c' Henv Hrun
    |now envs cmd rest o w sent w' sent' c' e Henv Hrun|o w sent|o w sent Hn
    |now order env raw o o' w sent Henv _ Hm|now order env raw o o' w sent e Henv _ Hm
    |o w sent e|op point o w sent Hapi Hop];
    cbn [ses_point ses_objects ses_conn ses_sent point_ok in_hand] in *.
  - destruct (map_order_pending _ _ Hok Horder) as [Hnd Hin]. constructor; simpl; [done|done| |done].
    intros id cmd Hid. right; right. apply (map_order_elem _ _ _ _ Horder) in Hid.
    apply list_elem_of_fmap. by exists (id, cmd).
  - by eapply session_send_ok.
  - apply send_round in Hrun as (Hok' & _); [|done|done|apply Hpt; by left].
    constructor; simpl; [done|done|auto|exact I].
  - constructor; simpl; [done|done| |done].
    intros id cmd Hid. destruct (Hcov id cmd Hid) as [?|[?|Hx]]; [auto|auto|by apply elem_of_nil in Hx].
  - constructor; simpl; [by eapply client_ok_eq; [..|exact Hok]|done|auto|done].
  - by apply (session_message_ok _ _ _ _ _ _ _ _ None Hses Henv Hm).
  - by apply (session_message_ok _ _ _ _ _ _ _ _ (Some e) Hses Henv Hm).
  - constructor; simpl; [done|done|auto|exact I].
  - by apply session_api_ok.
Qed.

Lemma session_reachable_ok o s :
  client_ok (so_conn o) →
  rtc (session_step Write snapshotRequestID) (Session AtHead o w0 ∅) s → session_ok s.
Proof.
  intros Hok Hrun. eapply (rtc_invariant session_ok); [|..|exact Hrun].
  - intros a b Ha Hab. by eapply session_step_ok.
  - constructor; simpl; [done|done|auto|]. exists []. rewrite string_app_empty_r.
    split_and!; [done|constructor|set_solver|constructor].
Qed.
End loop_invariant.

(** ** Properties *)

(** C5: a message is accepted as one of four effects or moves nothing.  In a
    sound state, [handleSessionMessage] succeeds exactly on a valid lifecycle
    event (recorded), a valid chunk that answers this session's snapshot
    request and fits the chunks before it (reassembled, and applied when
    complete), a valid acknowledgement of a pending command with its deadline
    or a valid error reply to one, when the queue without that command could
    be stored (the command is gone and its caller told).  Every other message
    ends the session and leaves the relay state, the queue, its token and the
    result channels as they were, the reassembly too unless a chunk for this
    session did not fit, and the store file unless a write of it failed, which
    leaves the old store or the new one. *)
Theorem message_effect now order env raw snapshotRequestID o o' err :
  client_ok (so_conn o) → env_ok env (so_conn o) →
  handleSessionMessage now order env raw snapshotRequestID o = Some (o', err) →
  (err = None ↔ acceptable env raw snapshotRequestID o) ∧
  match err with
  | None => accepted_message now order raw snapshotRequestID o o'
  | Some _ => rejected_message o o' ∧ rejected_reassembly raw snapshotRequestID o o' ∧ rejected_store env o o'
  end.
Proof.
  intros Hok Henv Hrun. pose proof (handleSessionMessage_exact _ _ _ _ _ _ _ _ Hok Henv Hrun) as Hex.
  pose proof (handleSessionMessage_spec _ _ _ _ _ _ _ _ Hok Henv Hrun) as Hspec.
  destruct err as [e|]; [|by split]. destruct Hex as (Hno & H1 & H2). by split_and!.
Qed.

Definition example_objects : session_objects := SessionObjects newManagementState example_client None.

Definition example_error_message : string :=
  print_json (JObject [("schema_version", JString privateControlSchemaVersion); ("type", JString "error");
    ("message_id", JString "BBBBBBBBBBBBBBBBBBBBBA"); ("in_reply_to", JString "AAAAAAAAAAAAAAAAAAAAAA");
    ("code", JString "unauthorized")]).

Lemma message_effect_witness :
  ∃ o', handleSessionMessage 0 [] no_fault_env example_error_message "CCCCCCCCCCCCCCCCCCCCCA" example_objects
          = Some (o', None) ∧
    accepted_message 0 [] example_error_message "CCCCCCCCCCCCCCCCCCCCCA" example_objects o'.
Proof.
  set (r := handleSessionMessage 0 [] no_fault_env example_error_message "CCCCCCCCCCCCCCCCCCCCCA" example_objects).
  assert (snd <$> r = Some None) as Hr by (vm_compute; reflexivity).
  destruct r as [[o' err]|] eqn:E; [|discriminate Hr]. injection Hr as ->.
  exists o'. split; [reflexivity|].
  apply (message_effect 0 [] no_fault_env example_error_message "CCCCCCCCCCCCCCCCCCCCCA" example_objects o' None
    example_client_ok I E).
Defined.

(** C11: no command is forgotten, none is sent twice.  Whatever the API
    goroutines queue between any two steps of the session loop, when the loop
    waits without a token every pending command has been sent in this session;
    and as long as the session runs, the wire carries exactly one frame for
    each command recorded as sent. *)
Theorem session_forgets_nothing {W} (Write : W → string → W * (Z * option error)) (delivered : W → string)
    snapshotRequestID o w s :
  writer_contract Write delivered → client_ok (so_conn o) →
  rtc (session_step Write snapshotRequestID) (Session AtHead o w ∅) s →
  client_ok (so_conn (ses_objects s)) ∧
  (ses_point s = Waiting → cl_notify (so_conn (ses_objects s)) = false →
     ∀ id cmd, cl_pending (so_conn (ses_objects s)) !! id = Some cmd → id ∈ ses_sent s) ∧
  ((∀ e, ses_point s ≠ Ended e) →
     ∃ out, delivered (ses_conn s) = delivered w +:+ command_frames out ∧
       NoDup (command_id <$> out) ∧ (∀ id, id ∈ ses_sent s ↔ id ∈ command_id <$> out) ∧
       Forall (λ cmd, revocation_wf (pc_message cmd)) out).
Proof.
  intros Hc Hok Hrun. destruct (session_reachable_ok Write delivered Hc _ w o s Hok Hrun) as [H1 H2 H3 H4].
  split_and!; [done| |].
  - intros Hw Hn id cmd Hid. rewrite Hw, Hn in H3. by destruct (H3 id cmd Hid) as [?|[?|?]].
  - intros Hne. unfold wire_ok in H4. destruct (ses_point s); [done|done|done|by destruct (Hne err)].
Qed.

Lemma session_forgets_nothing_witness :
  ∃ o', rtc (session_step (chunked_write 10) "id") (Session AtHead example_objects "" ∅)
          (Session (Sending (map_to_list example_pending).*2) o' "" ∅) ∧
    client_ok (so_conn o').
Proof.
  exists example_objects.
  assert (rtc (session_step (chunked_write 10) "id") (Session AtHead example_objects "" ∅)
          (Session (Sending (map_to_list example_pending).*2) example_objects "" ∅)) as H.
  { apply rtc_once. apply step_head. apply map_order_default. }
  split; [exact H|].
  apply (session_forgets_nothing (chunked_write 10) id "id" example_objects "" _
    (chunked_write_contract 10) example_client_ok H).
Defined.

(** The handshake.  The session connects exactly when the Relay's reply is
    one strictly decoded [hello_ack] for this hello that accepts lifecycle
    events and neither audit inputs nor diagnostics, under a Relay ID that is
    not blank and has at most 128 bytes. *)
Theorem handshake_exact rawAck messageID relayID :
  accept_hello_ack rawAck messageID = Ok relayID ↔
  ∃ ack, decode_hello_ack rawAck = Ok ack ∧
    hack_SchemaVersion ack = privateControlSchemaVersion ∧ hack_Type ack = "hello_ack" ∧
    validPrivateControlID (hack_MessageID ack) = true ∧ hack_InReplyTo ack = messageID ∧
    validPrivateControlID (hack_SessionID ack) = true ∧
    hack_LifecycleEventsAccepted ack = Some true ∧ hack_AuditInputsAccepted ack = Some false ∧
    hack_DiagnosticsAccepted ack = Some false ∧
    hack_RelayID ack = relayID ∧ TrimSpace relayID ≠ "" ∧ len relayID ≤ 128.
Proof.
  unfold accept_hello_ack. rewrite result_bind_ok.
  assert (Hp : ∀ p b, is_Some p ∧ deref p = b ↔ p = Some b).
  { intros [[]|] []; unfold deref; simpl; split; try done;
      first [by intros [_ ?]|by intros [[? ?] _]|by eauto]. }
  split.
  - intros (ack & Hd & H). repeat (apply reject_if_ok in H as [? H]). injection H as H.
    unfold validPrivateControlHelloAck in *. go_bool. exists ack.
    repeat match goal with H : String.eqb _ _ = true |- _ => apply String.eqb_eq in H end.
    split_and!; try done; try (apply Hp; by split); by subst.
  - intros (ack & Hd & H1 & H2 & H3 & H4 & H5 & H6 & H7 & H8 & H9 & H10 & H11). exists ack. split; [done|].
    unfold validPrivateControlHelloAck. rewrite H1, H2, H3, H4, H5, H6, H7, H8, H9, !String.eqb_refl.
    rewrite (proj2 (String.eqb_neq _ _) H10), (proj2 (Z.leb_le _ _) H11).
    rewrite !bool_decide_eq_true_2 by eauto. done.
Qed.

(** Reconnection delays.  The delay before the attempt that follows [n]
    failures and one more is 2^n seconds, capped at 30 seconds. *)
Theorem retry_delay_exact n : retry_after n = Z.min (2 ^ Z.of_nat n) 30 * Second.
Proof.
  induction n as [|n IH]; [reflexivity|]. cbn [retry_after]. rewrite IH. unfold next_retry, Second.
  rewrite Nat2Z.inj_succ, Z.pow_succ_r by lia.
  assert (1 ≤ 2 ^ Z.of_nat n) by (apply (Z.pow_le_mono_r 2 0); lia).
  set (p := 2 ^ Z.of_nat n) in *. clearbody p.
  destruct (_ <? _) eqn:E1; go_bool; [destruct (_ <? _) eqn:E2; go_bool|]; lia.
Qed.

Close Scope Z_scope.
