(* ===== verification/StateTypes.v ===== *)
(** * The relay state is well formed

    The invariant of [managementState] and of the session's snapshot under
    reassembly: identifiers have their widths, participants are in one of
    three states, the hub and the job table are sound.  Every operation of
    the state keeps it, and so does every message that the session handles. *)

From S2P Require Export Session.

Open Scope Z_scope.

(** ** The projection *)

Definition participant_states : list string := ["joined"; "talking"; "idle"].

Definition participant_ok (sender : Z) (state : string) : Prop :=
  0 < sender < 2 ^ 32 ∧ state ∈ participant_states.

Definition channel_entry_ok (channel : Z) (participants : gmap Z string) : Prop :=
  is_u32 channel ∧ map_Forall participant_ok participants.

Definition projection_ok (channels : gmap Z (gmap Z string)) : Prop := map_Forall channel_entry_ok channels.

Lemma participants_default_ok channels channel :
  projection_ok channels → map_Forall participant_ok (default ∅ (channels !! channel)).
Proof.
  intros Hok. destruct (channels !! channel) as [ps|] eqn:E; [|apply map_Forall_empty]. by apply (Hok _ _ E).
Qed.

Lemma move_participant_ok eventType sender participants :
  0 < sender < 2 ^ 32 → map_Forall participant_ok participants →
  map_Forall participant_ok (move_participant eventType sender participants).1.
Proof.
  intros Hs Hps. unfold move_participant.
  assert (∀ st, st ∈ participant_states → map_Forall participant_ok (<[sender := st]> participants)) as Hins.
  { intros st Hst. by apply map_Forall_insert_2. }
  assert ("idle" ∈ participant_states ∧ "talking" ∈ participant_states) as [Hi Ht]
    by (split; apply in_set_spec; reflexivity).
  repeat case_match; simpl; auto. by apply map_Forall_delete.
Qed.

Lemma project_event_ok event channels :
  event_ints event → (∀ s, ev_SenderID event = Some s → s ≠ 0) →
  projection_ok channels → projection_ok (project_event event channels).
Proof.
  intros [Hc Hs] Hnz Hok. unfold project_event.
  destruct (ev_ChannelID event) as [channel|]; [|done]. destruct (ev_SenderID event) as [sender|]; [|done].
  specialize (Hs _ eq_refl). specialize (Hnz _ eq_refl).
  pose proof (move_participant_ok (ev_EventType event) sender _
    ltac:(unfold is_u32 in Hs; lia) (participants_default_ok channels channel Hok)) as Hm.
  destruct (move_participant _ _ _) as [ps []]; [by apply map_Forall_delete|].
  apply map_Forall_insert_2; [|done]. split; [by apply Hc|done].
Qed.

(** *** Snapshots *)

Definition snapshot_channel_ok (c : privateControlSnapshotChannel) : Prop :=
  is_u32 (sc_ChannelID c) ∧ Forall (λ p, participant_ok (sp_SenderID p) (sp_State p)) (sc_Participants c).

Lemma valid_snapshot_channels raw response :
  decode_snapshot raw = Ok response → validPrivateControlRelayStateSnapshot response = true →
  0 ≤ snap_ChunkIndex response ∧ Forall snapshot_channel_ok (default [] (snap_Channels response)).
Proof.
  intros (Hi & _ & Hcs)%decode_snapshot_ints Hv. split; [unfold is_u16 in Hi; lia|].
  unfold validPrivateControlRelayStateSnapshot in Hv. case_match; [done|].
  destruct (snap_Channels response) as [channels|]; [|done]. simpl in *.
  rewrite forallb_forall in Hv. rewrite Forall_forall in Hcs |- *. intros c Hc.
  destruct (Hcs c Hc) as [Hid Hps]. specialize (Hv c ltac:(by apply list_elem_of_In)).
  rewrite forallb_forall in Hv. rewrite Forall_forall in Hps. split; [done|].
  apply Forall_forall. intros p Hp. specialize (Hps p Hp). specialize (Hv p ltac:(by apply list_elem_of_In)).
  unfold valid_snapshot_participant in Hv. go_bool. unfold participant_ints, is_u32 in Hps. split; [lia|].
  apply in_set_spec. unfold in_set. apply bool_decide_eq_true. unfold participant_states.
  rewrite !elem_of_cons.
  destruct (String.eqb (sp_State p) "joined") eqn:E1; [go_bool; auto|].
  destruct (String.eqb (sp_State p) "talking") eqn:E2; [go_bool; auto|].
  destruct (String.eqb (sp_State p) "idle") eqn:E3; [go_bool; auto|]. done.
Qed.

Lemma project_participants_ok ps participants :
  map_Forall participant_ok participants →
  Forall (λ p, participant_ok (sp_SenderID p) (sp_State p)) ps →
  map_Forall participant_ok (project_participants participants ps).
Proof.
  unfold project_participants. intros Hm Hps. revert participants Hm.
  induction Hps as [|p ps Hp _ IH]; intros participants Hm; [done|]. simpl. apply IH.
  by apply map_Forall_insert_2.
Qed.

Lemma project_snapshot_ok cs : Forall snapshot_channel_ok cs → projection_ok (project_snapshot cs).
Proof.
  rewrite project_snapshot_foldl. assert (projection_ok ∅) as Hm by apply map_Forall_empty.
  revert Hm. generalize (∅ : gmap Z (gmap Z string)) as m. intros m Hm Hcs. revert m Hm.
  induction Hcs as [|c cs [Hid Hps] _ IH]; intros m Hm; [done|]. simpl. apply IH. unfold project_channel.
  apply map_Forall_insert_2; [|done]. split; [done|]. apply project_participants_ok; [|done].
  by apply participants_default_ok.
Qed.

(** *** The snapshot under reassembly *)

Definition chunks_ok (r : privateControlSnapshotReassembly) : Prop :=
  reassembly_ok r ∧ map_Forall (λ _ cs, Forall snapshot_channel_ok cs) (ra_chunks r).

Lemma assemble_channels chunks n index seen acc cs :
  map_Forall (λ _ cs, Forall snapshot_channel_ok cs) chunks → Forall snapshot_channel_ok acc →
  assemble chunks n index seen acc = Ok cs → Forall snapshot_channel_ok cs.
Proof.
  intros Hch. revert index seen acc. induction n as [|n IH]; intros index seen acc Hacc; simpl;
    [by intros [= <-]|].
  destruct (chunks !! index) as [chunk|] eqn:E; [|done].
  destruct (see_channels seen chunk); simpl; [|done]. apply IH. apply Forall_app_2; [done|].
  by apply (Hch _ _ E).
Qed.

Lemma reassembly_add_chunks r response :
  chunks_ok r → 0 ≤ snap_ChunkIndex response < snap_ChunkCount response →
  Forall snapshot_channel_ok (default [] (snap_Channels response)) →
  chunks_ok (reassembly_add r response).1 ∧
  ∀ cs, (reassembly_add r response).2 = Ok (Some cs) → Forall snapshot_channel_ok cs.
Proof.
  intros [Hr Hch] Hi Hnew. pose proof (reassembly_add_ok r response Hr Hi) as Hok.
  unfold chunks_ok. split; [split; [done|]|]; unfold reassembly_add in *; (case_match; [done|]).
  - destruct (ra_chunks r !! _); [done|]. by case_match; apply map_Forall_insert_2.
  - destruct (ra_chunks r !! _); [done|]. case_match; [done|]. intros cs.
    destruct (assemble _ _ _ _ _) as [cs'|] eqn:Ea; [|done]. intros [= <-].
    eapply assemble_channels; [|constructor|exact Ea]. by apply map_Forall_insert_2.
Qed.

(** ** The relay state *)

Definition jobs_opt_ok (jobs : option managementRecordingJobs) : Prop :=
  match jobs with Some j => jobs_ok j | None => True end.

Record state_ok (s : managementState) : Prop := StateOk {
  state_projection : projection_ok (ms_channels s);
  state_hub : hub_opt_ok (ms_liveEvents s);
  state_jobs : jobs_opt_ok (ms_recordingJobs s);
}.

Lemma state_ok_new : state_ok newManagementState.
Proof. constructor; [apply map_Forall_empty|done|done]. Qed.

Lemma state_ok_connected now relayID s : state_ok s → state_ok (markConnected now relayID s).
Proof. intros []. constructor; [apply map_Forall_empty|done|done]. Qed.

Lemma state_ok_disconnected s : state_ok s → state_ok (markDisconnected s).
Proof. by intros []. Qed.

Lemma state_ok_hub hub s : state_ok s → hub_opt_ok hub → state_ok (with_hub hub s).
Proof. by intros []. Qed.

Lemma state_ok_jobs jobs s : state_ok s → jobs_opt_ok jobs → state_ok (with_jobs jobs s).
Proof. by intros []. Qed.

Lemma state_ok_snapshot now cs s :
  state_ok s → Forall snapshot_channel_ok cs → state_ok (applyRelayStateSnapshot now cs s).
Proof. intros [] ?. constructor; [by apply project_snapshot_ok|done|done]. Qed.

(** The operations of the state keep it well formed: one hint database. *)
Create HintDb state discriminated.
#[export] Hint Resolve state_ok_new state_ok_connected state_ok_disconnected state_ok_hub state_ok_jobs
  state_ok_snapshot hub_ok_new jobs_ok_new : state.

(** What attaches to the state stays attached. *)
Definition same_attachments (s s' : managementState) : Prop :=
  ms_connected s' = ms_connected s ∧
  (is_Some (ms_liveEvents s') ↔ is_Some (ms_liveEvents s)) ∧
  (is_Some (ms_recordingJobs s') ↔ is_Some (ms_recordingJobs s)).

Lemma job_op_opt_ok op jobs :
  jobs_opt_ok jobs → job_op_ok op →
  jobs_opt_ok (job_apply op jobs) ∧ (is_Some (job_apply op jobs) ↔ is_Some jobs).
Proof.
  destruct jobs as [j|]; simpl.
  - intros Hj Hop. destruct (job_apply_ok op j Hj Hop) as (j' & -> & Hj' & _). by split.
  - intros _ _. destruct op as [[raw|e] c s|id|event]; simpl; done.
Qed.

Lemma valid_event_facts raw event :
  validPrivateControlLifecycleEvent raw event = true →
  (∀ s, ev_SenderID event = Some s → s ≠ 0) ∧
  (∀ s, ev_State event = Some s → s ∈ privateControlLifecycleStates).
Proof.
  unfold validPrivateControlLifecycleEvent.
  destruct (_ || _); [done|]. destruct (negb _); [done|].
  destruct (negb (if_present (ev_SenderID event) _)) eqn:E1; [done|].
  destruct (negb (if_present (ev_ServiceID event) _)); [done|].
  destruct (negb (if_present (ev_RecordingJobID event) _)); [done|].
  destruct (negb (if_present (ev_State event) _)) eqn:E2; [done|]. intros _. go_bool. split.
  - intros s Hs. rewrite Hs in E1. simpl in E1. by go_bool.
  - intros s Hs. rewrite Hs in E2. simpl in E2. by apply in_set_spec.
Qed.

Lemma state_ok_event now order raw event s s' :
  state_ok s → decode_lifecycle_event raw = Ok event → validPrivateControlLifecycleEvent raw event = true →
  hub_order s order →
  recordLifecycleEvent now order event s = Some s' → state_ok s' ∧ same_attachments s s'.
Proof.
  intros [Hp Hh Hj] Hd Hv Ho Hr. apply decode_lifecycle_event_ints in Hd.
  apply valid_event_facts in Hv as [Hsender Hstate].
  destruct (recordLifecycleEvent_total now order event s Hh Ho) as (s1 & Hr1 & Hh1 & Hc & _ & Hp1 & Hj1).
  assert (is_Some (ms_liveEvents s') ↔ is_Some (ms_liveEvents s)) as Hhub.
  { clear Hr1. unfold recordLifecycleEvent in Hr. simpl in Hr.
    destruct (ms_liveEvents s) as [hub|] eqn:E; simpl in Hr.
    - apply fmap_Some in Hr as (h & _ & ->). simpl. split; eauto.
    - injection Hr as <-. simpl. by rewrite E. }
  rewrite Hr in Hr1. injection Hr1 as <-.
  destruct (job_op_opt_ok (JobEvent event) _ Hj Hstate) as [Hj' Hjs]. simpl in Hj', Hjs.
  split; [constructor|].
  - rewrite Hp1. by apply project_event_ok.
  - done.
  - by rewrite Hj1.
  - split_and!; [done|done|by rewrite Hj1].
Qed.

(** ** What the session handles *)

Record objects_ok (o : session_objects) : Prop := ObjectsOk {
  objects_state : state_ok (so_state o);
  objects_snapshot : ∀ r, so_snapshot o = Some r → chunks_ok r;
}.

Lemma new_reassembly_ok response :
  0 ≤ snap_ChunkIndex response → validPrivateControlRelayStateSnapshot response = true →
  chunks_ok (newSnapshotReassembly response).
Proof. intros Hi Hv. split; [by apply reassembly_ok_new|apply map_Forall_empty]. Qed.

(** A chunk that passed the checks, added to the session's reassembly. *)
Lemma chunk_added raw response o :
  objects_ok o → decode_snapshot raw = Ok response → validPrivateControlRelayStateSnapshot response = true →
  let r := reassembly_add (default (newSnapshotReassembly response) (so_snapshot o)) response in
  chunks_ok r.1 ∧ ∀ cs, r.2 = Ok (Some cs) → Forall snapshot_channel_ok cs.
Proof.
  intros [_ Hsnap] Hd Hv. destruct (valid_snapshot_channels raw response Hd Hv) as [Hi Hcs].
  apply reassembly_add_chunks; [|by apply valid_snapshot_index|done].
  destruct (so_snapshot o) as [r|]; simpl; [by apply Hsnap|by apply new_reassembly_ok].
Qed.

Lemma accepted_objects_ok now order raw id o o' :
  objects_ok o → hub_order (so_state o) order →
  accepted_message now order raw id o o' → objects_ok o' ∧ same_attachments (so_state o) (so_state o').
Proof.
  intros Hok Ho Ha. pose proof Hok as [Hs Hsnap].
  destruct Ha as [event s' Hd Hv Hr ->|response r' delivered Hd Hv _ Hadd ->|response c' _ _ _ _ ->
    |response c' _ _ _ _ ->]; simpl; [| |by split|by split].
  - destruct (state_ok_event _ _ _ _ _ _ Hs Hd Hv Ho Hr) as [Hs' Hatt]. split; [by constructor|done].
  - pose proof (chunk_added raw response o Hok Hd Hv) as [Hr Hcs]. rewrite Hadd in Hr, Hcs. simpl in *.
    split; [constructor; simpl; [|by intros ? [= <-]]|].
    + destruct delivered as [cs|]; [|done]. auto with state.
    + destruct delivered; by split_and!.
Qed.

Close Scope Z_scope.
