(* ===== verification/Liveness.v ===== *)
(** * Progress of the session loop

    A command that the API queues is sent, completed or told that the session
    ended within a bounded number of the loop's own steps, however many
    operations of the API come between any two of them. *)

From S2P Require Export Session.

Open Scope Z_scope.

Section progress.
Context {W : Type} (Write : W → string → W * (Z * option error)) (delivered : W → string).
Context (Hcontract : writer_contract Write delivered).
Context (snapshotRequestID : string) (w0 : W).
#[local] Abbreviation step := (session_step Write snapshotRequestID).
#[local] Abbreviation ok := (session_ok delivered w0).
Implicit Types s : @session W.

(** A step of the loop moves its program point; the API's steps do not. *)
Definition own_step s s' : Prop := step s s' ∧ ses_point s' ≠ ses_point s.
Definition other_step s s' : Prop := step s s' ∧ ses_point s' = ses_point s.

(** After at most [n] own steps [P] holds, whatever the steps are and whatever
    comes between them; until then the loop can always take a step. *)
Fixpoint within (n : nat) (P : @session W → Prop) s : Prop :=
  P s ∨ match n with
        | O => False
        | S n => ∀ s1, rtc other_step s s1 → P s1 ∨
                   (∃ s2, own_step s1 s2) ∧ ∀ s2, own_step s1 s2 → within n P s2
        end.

Lemma within_now n P s : P s → within n P s.
Proof. destruct n; by left. Qed.

Lemma within_le n m P s : within n P s → (n ≤ m)%nat → within m P s.
Proof.
  revert m s. induction n as [|n IH]; intros m s; simpl.
  - intros [?|[]] _. by apply within_now.
  - intros [?|Hn] Hm; [by apply within_now|]. destruct m as [|m]; [lia|]. right.
    intros s1 H1. destruct (Hn s1 H1) as [?|[Hex Hall]]; [by left|right]. split; [done|].
    intros s2 H2. apply IH; [by apply Hall|lia].
Qed.

Lemma other_step_ok s s' : ok s → rtc other_step s s' → ok s' ∧ ses_point s' = ses_point s.
Proof.
  intros Hok Hrun. induction Hrun as [|s s1 s' [Hs Hp] _ IH]; [done|].
  destruct IH as [? ->]; [by eapply session_step_ok|done].
Qed.

(** The command was taken care of: sent, no longer pending, or the session is
    over. *)
Definition handled (cmd : privateControlPendingCommand) s : Prop :=
  command_id cmd ∈ ses_sent s ∨ cl_pending (so_conn (ses_objects s)) !! command_id cmd ≠ Some cmd ∨
  ∃ e, ses_point s = Ended e.

(** A file system for which the store's environment is fine. *)
Definition fresh_env (c : privateControlClient) : fs_env :=
  FsEnv no_faults (match cl_store c with Some f => f +:+ "~" | None => "" end) "" false.

Lemma fresh_env_ok c : env_ok (fresh_env c) c.
Proof.
  unfold env_ok, fresh_env. destruct (cl_store c) as [f|]; [|done]. simpl. intros Heq.
  apply (f_equal String.length) in Heq. rewrite string_app_length in Heq. simpl in Heq. lia.
Qed.

(** Where the loop can go from each point. *)
Lemma own_step_exists s :
  ok s → (∀ e, ses_point s ≠ Ended e) →
  (ses_point s = Waiting → cl_notify (so_conn (ses_objects s)) = true) → ∃ s', own_step s s'.
Proof.
  intros Hok Hne Hwait. destruct s as [[|[|cmd rest]| |e] o w sent]; simpl in *.
  - eexists. split; [apply step_head, map_order_default|]. by simpl.
  - eexists. split; [apply step_sent|]. by simpl.
  - destruct Hok as [Hcl [Hnd Hin] _ _]. simpl in *.
    destruct (send_loop_spec Write delivered Hcontract 0 (λ _, fresh_env (so_conn o)) [cmd] w sent (so_conn o))
      as (w' & sent' & c' & err & out & gone & Hrun & _); [done|intros; apply fresh_env_ok|apply NoDup_singleton|..].
    { intros x ->%list_elem_of_singleton. apply Hin. by left. }
    assert (∀ rest' : list privateControlPendingCommand, rest' ≠ cmd :: rest').
    { intros rest' Heq. apply (f_equal length) in Heq. simpl in Heq. lia. }
    destruct err as [e|]; eexists; (split; [by first [eapply step_send_failed, Hrun; intros; apply fresh_env_ok
      |eapply step_send, Hrun; intros; apply fresh_env_ok]|simpl; congruence]).
  - eexists. split; [apply step_notified; by apply Hwait|]. by simpl.
  - by destruct (Hne e).
Qed.

Lemma own_step_point s s' :
  ok s → own_step s s' →
  match ses_point s with
  | AtHead => ∃ order, map_order (cl_pending (so_conn (ses_objects s))) order ∧
                ses_point s' = Sending order.*2
  | Sending [] => ses_point s' = Waiting
  | Sending (cmd :: rest) => ses_point s' = Sending rest ∧ handled cmd s' ∨ ∃ e, ses_point s' = Ended e
  | Waiting => ses_point s' = AtHead ∨ ∃ e, ses_point s' = Ended e
  | Ended _ => False
  end.
Proof.
  intros Hok [Hstep Hne]. destruct Hstep; cbn [ses_point ses_objects ses_sent] in *; eauto; [|done].
  left. split; [done|]. destruct Hok as [Hcl Hpt _ _]. unfold handled. cbn [ses_objects ses_sent so_conn with_client].
  match goal with H : send_loop _ _ _ _ _ _ _ = _ |- _ =>
    apply (send_round Write delivered Hcontract) in H as (_ & _ & Hone); [|done|done|apply Hpt; by left] end.
  destruct (one_handled _ _ _ _ _ _ _ _ (Hone eq_refl)); [by left|right; left; congruence].
Qed.

Definition unhandled (cmd : privateControlPendingCommand) s : Prop :=
  (command_id cmd ∉ ses_sent s) ∧ cl_pending (so_conn (ses_objects s)) !! command_id cmd = Some cmd ∧
  ∀ e, ses_point s ≠ Ended e.

Lemma handled_or_not cmd s : handled cmd s ∨ unhandled cmd s.
Proof.
  unfold handled, unhandled.
  destruct (decide (command_id cmd ∈ ses_sent s)); [by left; left|].
  destruct (decide (cl_pending (so_conn (ses_objects s)) !! command_id cmd = Some cmd)); [|by left; right; left].
  destruct (ses_point s) as [|rest| |err]; [by right..|by left; right; right; exists err].
Qed.

(** An unhandled command never finds the loop waiting without a token. *)
Lemma unhandled_steps cmd s : ok s → unhandled cmd s → ∃ s', own_step s s'.
Proof.
  intros Hok (Hs & Hp & Hne). apply own_step_exists; [done|done|]. intros Hw.
  destruct (sok_covered _ _ _ Hok _ _ Hp) as [?|[?|Hh]]; [done|done|by rewrite Hw in Hh].
Qed.

(** It is enough to look at the next own step from a state at the same point
    in which the command is still unhandled. *)
Lemma within_step n cmd s :
  ok s →
  (∀ s1 s2, ok s1 → ses_point s1 = ses_point s → unhandled cmd s1 → own_step s1 s2 → ok s2 →
     within n (handled cmd) s2) →
  within (S n) (handled cmd) s.
Proof.
  intros Hok Hall. right. intros s1 H1. destruct (other_step_ok _ _ Hok H1) as [Hok1 Hp1].
  destruct (handled_or_not cmd s1) as [?|Hu]; [by left|right]. split; [by eapply unhandled_steps|].
  intros s2 H2. apply (Hall s1); [done..|]. eapply session_step_ok; [done| |apply H2]. done.
Qed.

Lemma handled_ended cmd s e : ses_point s = Ended e → handled cmd s.
Proof. intros ?. right; right. by exists e. Qed.

(** While it is in the rest of a snapshot, its turn comes. *)
Lemma within_sending cmd rest s :
  ok s → ses_point s = Sending rest → cmd ∈ rest → within (length rest) (handled cmd) s.
Proof.
  revert s. induction rest as [|c rest IH]; intros s Hok Hp Hin; [by apply elem_of_nil in Hin|].
  apply within_step; [done|]. intros s1 s2 Hok1 Hp1 Hu Hs Hok2. apply own_step_point in Hs; [|done].
  rewrite Hp1, Hp in Hs. destruct Hs as [[Hp2 Hh]|[e He]]; [|by eapply within_now, handled_ended].
  apply elem_of_cons in Hin as [->|Hin]; [by apply within_now|by apply IH].
Qed.

(** A new snapshot holds every pending command. *)
Lemma within_head cmd s : ok s → ses_point s = AtHead → within 65 (handled cmd) s.
Proof.
  intros Hok Hp. apply within_step; [done|]. intros s1 s2 Hok1 Hp1 (_ & Hc & _) Hs Hok2.
  apply own_step_point in Hs; [|done]. rewrite Hp1, Hp in Hs. destruct Hs as (order & Ho & Hp2).
  apply (within_le (length order.*2)).
  - apply within_sending; [done|done|]. apply list_elem_of_fmap. exists (command_id cmd, cmd).
    split; [done|]. by apply (map_order_elem _ _ _ _ Ho).
  - pose proof (ok_size _ (sok_client _ _ _ Hok1)). rewrite length_fmap, (map_order_length _ _ Ho). lia.
Qed.

Lemma within_waiting cmd s : ok s → ses_point s = Waiting → within 66 (handled cmd) s.
Proof.
  intros Hok Hp. apply within_step; [done|]. intros s1 s2 Hok1 Hp1 Hu Hs Hok2.
  apply own_step_point in Hs; [|done]. rewrite Hp1, Hp in Hs.
  destruct Hs as [Hp2|[e He]]; [by apply within_head|by eapply within_now, handled_ended].
Qed.

(** A snapshot taken before the command was queued is sent first. *)
Lemma within_rest cmd rest s :
  ok s → ses_point s = Sending rest → within (length rest + 67) (handled cmd) s.
Proof.
  revert s. induction rest as [|c rest IH]; intros s Hok Hp;
    (apply within_step; [done|]; intros s1 s2 Hok1 Hp1 Hu Hs Hok2;
     apply own_step_point in Hs; [|done]; rewrite Hp1, Hp in Hs).
  - by apply within_waiting.
  - destruct Hs as [[Hp2 Hh]|[e He]]; [by apply IH|by eapply within_now, handled_ended].
Qed.

(** A snapshot has at most 64 commands. *)
Lemma rest_length rest s : ok s → ses_point s = Sending rest → (length rest ≤ 64)%nat.
Proof.
  intros [Hcl Hpt _ _] Hp. rewrite Hp in Hpt. destruct Hpt as [Hnd Hin].
  etrans; [|apply (ok_size _ Hcl)]. rewrite <-(length_fmap command_id), <-(size_dom (D:=gset string)),
    <-(size_list_to_set (C:=gset string) _ Hnd).
  apply subseteq_size. intros id (c & -> & Hc)%elem_of_list_to_set%list_elem_of_fmap.
  apply elem_of_dom. eauto.
Qed.

Lemma within_any cmd s : ok s → within 131 (handled cmd) s.
Proof.
  intros Hok. destruct (ses_point s) as [|rest| |e] eqn:Hp.
  - by apply (within_le 65); [apply within_head|lia].
  - pose proof (rest_length rest s Hok Hp). by apply (within_le (length rest + 67)); [apply within_rest|lia].
  - by apply (within_le 66); [apply within_waiting|lia].
  - by eapply within_now, handled_ended.
Qed.
End progress.

(** C16: every queued command is dealt with.  From any state the session loop
    can reach, a command that is pending is sent, completed or overtaken by the
    end of the session within 131 of the loop's own steps - the rest of a
    snapshot of at most 64 commands, the [select], a new snapshot of at most
    64 - whatever steps these are and however many API operations come between
    them; and until then the loop is never stuck. *)
Theorem command_eventually_sent {W} (Write : W → string → W * (Z * option error)) (delivered : W → string)
    snapshotRequestID o w s cmd :
  writer_contract Write delivered → client_ok (so_conn o) →
  rtc (session_step Write snapshotRequestID) (Session AtHead o w ∅) s →
  within Write snapshotRequestID 131 (handled cmd) s.
Proof.
  intros Hc Hok Hrun. eapply (within_any Write delivered Hc snapshotRequestID w).
  by eapply session_reachable_ok.
Qed.

Lemma command_eventually_sent_witness :
  within (chunked_write 10) "id" 131 (handled (PendingCommand example_command 0))
    (Session (Sending (map_to_list example_pending).*2) example_objects "" ∅).
Proof.
  apply (command_eventually_sent (chunked_write 10) id "id" example_objects "").
  - apply chunked_write_contract.
  - exact example_client_ok.
  - apply rtc_once. apply step_head. apply map_order_default.
Defined.

Close Scope Z_scope.
