(* ===== verification/Grants.v ===== *)
(** * Service Admission grants

    [service_admission_grants.go]: the issuer of signed admission grants, its
    configuration, and the record of the grants that have not expired.

    SHA-256 and Ed25519 are the functions [Sum256] and [Sign] of a Section;
    what the theorems use of them is the documented size of their results and
    that a signature verifies. *)

From S2P Require Export Authorizer Outbox Framing.

Open Scope Z_scope.

Definition serviceAdmissionGrantMinimumLifetime : Z := 60 * Second.
Definition serviceAdmissionGrantMaximumLifetime : Z := Hour.
Definition serviceAdmissionGrantDefaultLifetime : Z := 5 * Minute.
Definition serviceAdmissionGrantMaximumBytes : Z := 768.
Definition serviceAdmissionGrantMaximumTracked : Z := 4096.

(** [^[A-Za-z0-9._-]{1,128}$] *)
Definition serviceAdmissionGrantKeyIDPattern (s : string) : bool :=
  match_repeat (λ c, is_alnum c || is_dot_dash c) 1 128 s.

Definition errServiceAdmissionGrantTracking : error :=
  Errorf "Service Admission grant tracking capacity reached" [].

Record issuedServiceAdmissionGrant := IssuedGrant {
  ig_serviceID : string;
  ig_channelID : Z;
  ig_expiresAt : Z;
}.

Record serviceAdmissionGrantIssuer := Issuer {
  is_privateKey : string;
  is_keyID : string;
  is_issuer : string;
  is_audience : string;
  is_lifetime : Z;
  is_issued : gmap string issuedServiceAdmissionGrant;
}.

Definition with_issued (m : gmap string issuedServiceAdmissionGrant) (i : serviceAdmissionGrantIssuer) :=
  Issuer (is_privateKey i) (is_keyID i) (is_issuer i) (is_audience i) (is_lifetime i) m.

Record serviceAdmissionGrantClaims := GrantClaims {
  gc_Issuer : string;
  gc_Audience : string;
  gc_ServiceID : string;
  gc_GrantID : string;
  gc_IssuedAt : Z;
  gc_ExpiresAt : Z;
  gc_ChannelID : Z;
  gc_SenderID : Z;
  gc_Role : string;
  gc_Permissions : Z;
  gc_Priority : option Z;
  gc_JWKThumbprint : string;
}.

(** The body of [POST /v1/service-admission-grants]. *)
Record managementServiceAdmissionGrantRequest := GrantRequest {
  gr_ChannelID : Z;
  gr_SenderID : Z;
  gr_Role : string;
  gr_RequestTalk : bool;
  gr_RequestInterrupt : bool;
  gr_ServicePublicKey : string;
}.

(** ** Configuration *)

Record managementAPIConfig := APIConfig {
  ac_listen : string;
  ac_certificateFile : string;
  ac_privateKeyFile : string;
  ac_clientCAFile : string;
  ac_servicesFile : string;
  ac_channelACLFile : string;
  ac_globalPermissionsFile : string;
  ac_grantSigningKeyFile : string;
  ac_grantKeyID : string;
  ac_grantIssuer : string;
  ac_grantAudience : string;
  ac_grantTTLSeconds : string;
  ac_eventDelivery : string;
  ac_aclReloadInterval : string;
}.

(** What [x509.ParsePKCS8PrivateKey] returns: an [ed25519.PrivateKey] or a key
    of another type. *)
Inductive private_key := Ed25519Key (bytes : string) | OtherKey.

(** The file system and the standard library's parsers of key files:
    [pem.Decode] gives a block (type and bytes), if any, and the rest. *)
Record key_loader := KeyLoader {
  kl_ReadFile : string → result string;
  kl_pem_Decode : string → option (string * string) * string;
  kl_ParsePKCS8PrivateKey : string → result private_key;
}.

Definition ed25519_PrivateKeySize : Z := 64.
Definition ed25519_PublicKeySize : Z := 32.

Definition validServiceAdmissionIssuerValue (value : string) : bool :=
  (1 <=? len value) && (len value <=? 256) && String.eqb (TrimSpace value) value.

Definition loadServiceAdmissionSigningKey (kl : key_loader) (filename : string) : result string :=
  try data <- map_err (Wrapf "read Service Admission signing key: %w" []) (kl_ReadFile kl filename);
  let pem_error := Errorf
    "Service Admission signing key must be one unencrypted PKCS#8 PRIVATE KEY PEM block" [] in
  match kl_pem_Decode kl data with
  | (None, _) => Err pem_error
  | (Some (type, bytes), remaining) =>
      reject negb (String.eqb type "PRIVATE KEY") || negb (blank remaining) with pem_error;
      try parsed <- map_err (Wrapf "parse Service Admission signing key: %w" [])
                      (kl_ParsePKCS8PrivateKey kl bytes);
      match parsed with
      | Ed25519Key key =>
          reject negb (len key =? ed25519_PrivateKeySize)
            with Errorf "Service Admission signing key must be Ed25519" [];
          Ok key
      | OtherKey => Err (Errorf "Service Admission signing key must be Ed25519" [])
      end
  end.

(** The fields of the configuration that issuance needs. *)
Definition grant_fields (config : managementAPIConfig) : list (string * string) :=
  [("grant signing key", ac_grantSigningKeyFile config); ("grant key ID", ac_grantKeyID config);
   ("grant issuer", ac_grantIssuer config); ("grant audience", ac_grantAudience config)].

Definition grant_ttl_error : error :=
  Errorf "Management API grant TTL must be an integer from 60 through 3600 seconds" [].

(** The lifetime that [grantTTLSeconds] asks for. *)
Definition grant_lifetime (grantTTLSeconds : string) : result Z :=
  let value := TrimSpace grantTTLSeconds in
  if String.eqb value "" then Ok serviceAdmissionGrantDefaultLifetime
  else match ParseInt value with
       | None => Err grant_ttl_error
       | Some seconds =>
           reject (seconds <? serviceAdmissionGrantMinimumLifetime / Second) ||
                  (serviceAdmissionGrantMaximumLifetime / Second <? seconds) with grant_ttl_error;
           Ok (seconds * Second)
       end.

(** [loadServiceAdmissionGrantIssuer(config)]; [Ok None] is the nil issuer. *)
Definition loadServiceAdmissionGrantIssuer (kl : key_loader) (config : managementAPIConfig)
    : result (option serviceAdmissionGrantIssuer) :=
  if forallb blank (grant_fields config).*2 then Ok None
  else match list_find (λ field, blank field.2 = true) (grant_fields config) with
  | Some (_, (name, _)) =>
      Err (Errorf "Management API %s is required when Service Admission issuance is configured" [name])
  | None =>
      reject negb (serviceAdmissionGrantKeyIDPattern (ac_grantKeyID config))
        with Errorf "Management API grant key ID is invalid" [];
      reject negb (validServiceAdmissionIssuerValue (ac_grantIssuer config)) ||
             negb (validServiceAdmissionIssuerValue (ac_grantAudience config))
        with Errorf "Management API grant issuer or audience is invalid" [];
      try lifetime <- grant_lifetime (ac_grantTTLSeconds config);
      try key <- loadServiceAdmissionSigningKey kl (ac_grantSigningKeyFile config);
      Ok (Some (Issuer key (ac_grantKeyID config) (ac_grantIssuer config) (ac_grantAudience config)
                  lifetime ∅))
  end.

(** ** Grants *)

Definition grant_header_json (keyID : string) : json :=
  JObject [("alg", JString "EdDSA"); ("kid", JString keyID);
           ("typ", JString "incomudon-service-admission+jwt")].

Definition grant_claims_json (c : serviceAdmissionGrantClaims) : json :=
  JObject ([("iss", JString (gc_Issuer c)); ("aud", JString (gc_Audience c));
            ("svc", JString (gc_ServiceID c)); ("jti", JString (gc_GrantID c));
            ("iat", jnum (gc_IssuedAt c)); ("exp", jnum (gc_ExpiresAt c));
            ("ch", jnum (gc_ChannelID c)); ("sid", jnum (gc_SenderID c));
            ("role", JString (gc_Role c)); ("perm", jnum (gc_Permissions c))] ++
           match gc_Priority c with Some p => [("pri", jnum p)] | None => [] end ++
           [("cnf", JObject [("jkt", JString (gc_JWKThumbprint c))])]).

Definition decodeServiceAdmissionPublicKey (value : string) : result string :=
  let e := Errorf "service_public_key must be canonical Base64URL-encoded raw Ed25519 public key" [] in
  match DecodeString value with
  | None => Err e
  | Some decoded =>
      reject negb (len decoded =? ed25519_PublicKeySize) ||
             negb (String.eqb (EncodeToString decoded) value) with e;
      Ok decoded
  end.

(** [newServiceAdmissionGrantID()]; [raw] is what [rand.Read] filled in. *)
Definition newServiceAdmissionGrantID (raw : result string) : result string :=
  try raw <- raw; Ok (EncodeToString raw).

(** [i.cleanupIssuedLocked(now)] *)
Definition cleanupIssuedLocked (now : Z) (i : serviceAdmissionGrantIssuer) : serviceAdmissionGrantIssuer :=
  with_issued (filter (λ '(_, grant), After (ig_expiresAt grant) now = true) (is_issued i)) i.

(** [i.issuedGrant(grantIDHash, now)] *)
Definition issuedGrant (grantIDHash : string) (now : Z) (i : option serviceAdmissionGrantIssuer)
    : option serviceAdmissionGrantIssuer * option issuedServiceAdmissionGrant :=
  match i with
  | None => (None, None)
  | Some i => let i' := cleanupIssuedLocked now i in (Some i', is_issued i' !! grantIDHash)
  end.

Definition err_not_authorized : error :=
  Errorf "grant request is not authorized by the channel ACL" [].

(** The three checks of a request against the ACL. *)
Definition check_request (serviceID : string) (acl : managementAdmissionACL)
    (request : managementServiceAdmissionGrantRequest) : option error :=
  if negb (validManagementServiceID serviceID) || negb (acl_enabled acl) ||
     negb (String.eqb (acl_role acl) (gr_Role request)) || negb (acl_allowListen acl)
  then Some err_not_authorized
  else if gr_RequestTalk request && negb (acl_allowTalk acl)
  then Some (Errorf "channel ACL does not permit talk" [])
  else if gr_RequestInterrupt request &&
          (negb (gr_RequestTalk request) || negb (acl_allowInterrupt acl) ||
           (acl_interruptPriority acl =? 0))
  then Some (Errorf "channel ACL does not permit interrupt" [])
  else None.

Definition grant_permissions (request : managementServiceAdmissionGrantRequest) : Z :=
  let permissions := 1 in
  let permissions := if gr_RequestTalk request then Z.lor permissions 2 else permissions in
  if gr_RequestInterrupt request then Z.lor permissions 4 else permissions.

Definition grant_priority (acl : managementAdmissionACL)
    (request : managementServiceAdmissionGrantRequest) : option Z :=
  if gr_RequestInterrupt request then Some (acl_interruptPriority acl) else None.

Section grants.
Context (Sum256 : string → string) (Sign : string → string → string).

(** [signServiceAdmissionGrant(privateKey, keyID, claims)] *)
Definition signServiceAdmissionGrant (privateKey keyID : string) (claims : serviceAdmissionGrantClaims)
    : result string :=
  let protected := EncodeToString (print_json (grant_header_json keyID)) in
  let body := EncodeToString (print_json (grant_claims_json claims)) in
  let signingInput := protected +:+ "." +:+ body in
  let signature := Sign privateKey signingInput in
  let grant := signingInput +:+ "." +:+ EncodeToString signature in
  reject serviceAdmissionGrantMaximumBytes <? len grant
    with Errorf "Service Admission grant exceeds %d bytes" [FormatInt serviceAdmissionGrantMaximumBytes];
  Ok grant.

(** The key of a grant in [issued]. *)
Definition grant_id_hash (grantID : string) : string := EncodeToString (Sum256 grantID).

Definition grant_claims (i : serviceAdmissionGrantIssuer) (serviceID grantID publicKey : string)
    (acl : managementAdmissionACL) (request : managementServiceAdmissionGrantRequest) (issuedAt : Z)
    : serviceAdmissionGrantClaims :=
  GrantClaims (is_issuer i) (is_audience i) serviceID grantID
    (Unix issuedAt) (Unix (issuedAt + is_lifetime i)) (gr_ChannelID request) (gr_SenderID request)
    (gr_Role request) (grant_permissions request) (grant_priority acl request)
    (EncodeToString (Sum256 publicKey)).

(** [i.issue(serviceID, acl, request, now)] *)
Definition issue (raw : result string) (serviceID : string) (acl : managementAdmissionACL)
    (request : managementServiceAdmissionGrantRequest) (now : Z) (i : option serviceAdmissionGrantIssuer)
    : option serviceAdmissionGrantIssuer * result (string * Z) :=
  match i with
  | None => (None, Err err_not_authorized)
  | Some i =>
      match check_request serviceID acl request with
      | Some e => (Some i, Err e)
      | None =>
      match decodeServiceAdmissionPublicKey (gr_ServicePublicKey request) with
      | Err e => (Some i, Err e)
      | Ok publicKey =>
      match newServiceAdmissionGrantID raw with
      | Err e => (Some i, Err e)
      | Ok grantID =>
          let issuedAt := TruncateSecond now in
          let expiresAt := issuedAt + is_lifetime i in
          let claims := grant_claims i serviceID grantID publicKey acl request issuedAt in
          match signServiceAdmissionGrant (is_privateKey i) (is_keyID i) claims with
          | Err e => (Some i, Err e)
          | Ok grant =>
              let i' := cleanupIssuedLocked issuedAt i in
              if serviceAdmissionGrantMaximumTracked <=? len_map (is_issued i')
              then (Some i', Err errServiceAdmissionGrantTracking)
              else
                let issued := IssuedGrant serviceID (gr_ChannelID request) expiresAt in
                (Some (with_issued (<[grant_id_hash grantID := issued]> (is_issued i')) i'),
                 Ok (grant, expiresAt))
          end
      end
      end
      end
  end.
End grants.

(** ** Specification *)

(** A sound issuer: an admissible configuration and a bounded record. *)
Record issuer_ok (i : serviceAdmissionGrantIssuer) : Prop := IssuerOk {
  issuer_key_id : serviceAdmissionGrantKeyIDPattern (is_keyID i) = true;
  issuer_value : validServiceAdmissionIssuerValue (is_issuer i) = true;
  issuer_audience : validServiceAdmissionIssuerValue (is_audience i) = true;
  issuer_key : len (is_privateKey i) = ed25519_PrivateKeySize;
  issuer_lifetime : ∃ seconds, is_lifetime i = seconds * Second ∧ 60 ≤ seconds ≤ 3600;
  issuer_tracked : len_map (is_issued i) ≤ serviceAdmissionGrantMaximumTracked;
}.

Definition dot : ascii := "."%char.

(** What the holder of the public key reads in a grant: the JWS compact
    serialization with a valid signature, its header and its claims. *)
Definition open_grant (Verify : string → string → string → bool) (publicKey grant : string)
    : option (json * json) :=
  match split_on dot grant with
  | [protected; body; signature] =>
      signature ← DecodeString signature;
      if Verify publicKey (protected +:+ "." +:+ body) signature then
        header ← DecodeString protected;
        claims ← DecodeString body;
        match parse_document header, parse_document claims with
        | Ok header, Ok claims => Some (header, claims)
        | _, _ => None
        end
      else None
  | _ => None
  end.

(** The claims stay within the ACL, and say what was asked for. *)
Record claims_within (Sum256 : string → string) (i : serviceAdmissionGrantIssuer) (serviceID : string)
    (acl : managementAdmissionACL) (request : managementServiceAdmissionGrantRequest) (now : Z)
    (c : serviceAdmissionGrantClaims) : Prop := ClaimsWithin {
  within_issuer : gc_Issuer c = is_issuer i ∧ gc_Audience c = is_audience i;
  within_service : gc_ServiceID c = serviceID ∧ validManagementServiceID serviceID = true;
  within_scope : gc_ChannelID c = gr_ChannelID request ∧ gc_SenderID c = gr_SenderID request;
  within_role : gc_Role c = acl_role acl;
  within_listen : Z.testbit (gc_Permissions c) 0 = true ∧ acl_allowListen acl = true;
  within_talk : Z.testbit (gc_Permissions c) 1 = gr_RequestTalk request ∧
    (gr_RequestTalk request = true → acl_allowTalk acl = true);
  within_interrupt : Z.testbit (gc_Permissions c) 2 = gr_RequestInterrupt request ∧
    (gr_RequestInterrupt request = true → gr_RequestTalk request = true ∧ acl_allowInterrupt acl = true);
  within_no_more : 0 ≤ gc_Permissions c < 8;
  within_priority : gc_Priority c =
    if gr_RequestInterrupt request then Some (acl_interruptPriority acl) else None;
  within_time : gc_IssuedAt c = Unix now ∧ gc_ExpiresAt c = Unix now + is_lifetime i / Second;
  within_key : ∃ key, gr_ServicePublicKey request = EncodeToString key ∧
    len key = ed25519_PublicKeySize ∧ gc_JWKThumbprint c = EncodeToString (Sum256 key);
}.

(** The operations of the API on the issuer's record. *)
Inductive issuer_op :=
| OpIssue (raw : result string) (serviceID : string) (acl : managementAdmissionACL)
    (request : managementServiceAdmissionGrantRequest) (now : Z)
| OpLookup (grantIDHash : string) (now : Z).

Definition op_now (op : issuer_op) : Z :=
  match op with OpIssue _ _ _ _ now => now | OpLookup _ now => now end.

Section issuer.
Context (Sum256 : string → string) (Sign : string → string → string).

Definition issuer_apply (i : option serviceAdmissionGrantIssuer) (op : issuer_op)
    : option serviceAdmissionGrantIssuer :=
  match op with
  | OpIssue raw serviceID acl request now => (issue Sum256 Sign raw serviceID acl request now i).1
  | OpLookup grantIDHash now => (issuedGrant grantIDHash now i).1
  end.

(** The grant ID that an operation draws hashes to [h]. *)
Definition op_issues (h : string) (op : issuer_op) : Prop :=
  match op with
  | OpIssue (Ok raw) _ _ _ _ => grant_id_hash Sum256 (EncodeToString raw) = h
  | _ => False
  end.

(** The request is within the ACL and a grant was signed for it, from the
    random bytes and for the key given. *)
Definition signed (raw : result string) (serviceID : string) (acl : managementAdmissionACL)
    (request : managementServiceAdmissionGrantRequest) (now : Z) (i : serviceAdmissionGrantIssuer)
    (random publicKey grant : string) : Prop :=
  raw = Ok random ∧
  check_request serviceID acl request = None ∧
  gr_ServicePublicKey request = EncodeToString publicKey ∧ len publicKey = ed25519_PublicKeySize ∧
  signServiceAdmissionGrant Sign (is_privateKey i) (is_keyID i)
    (grant_claims Sum256 i serviceID (EncodeToString random) publicKey acl request
       (TruncateSecond now)) = Ok grant.

(** The three outcomes of [issue] on a non-nil issuer. *)
Inductive issue_view (raw : result string) (serviceID : string) (acl : managementAdmissionACL)
    (request : managementServiceAdmissionGrantRequest) (now : Z) (i : serviceAdmissionGrantIssuer)
    : option serviceAdmissionGrantIssuer * result (string * Z) → Prop :=
| issue_refused e : issue_view raw serviceID acl request now i (Some i, Err e)
| issue_full random publicKey grant :
    let i' := cleanupIssuedLocked (TruncateSecond now) i in
    signed raw serviceID acl request now i random publicKey grant →
    serviceAdmissionGrantMaximumTracked ≤ len_map (is_issued i') →
    issue_view raw serviceID acl request now i (Some i', Err errServiceAdmissionGrantTracking)
| issue_granted random publicKey grant :
    let grantID := EncodeToString random in
    let i' := cleanupIssuedLocked (TruncateSecond now) i in
    let expiresAt := TruncateSecond now + is_lifetime i in
    signed raw serviceID acl request now i random publicKey grant →
    len_map (is_issued i') < serviceAdmissionGrantMaximumTracked →
    issue_view raw serviceID acl request now i
      (Some (with_issued (<[grant_id_hash Sum256 grantID :=
                            IssuedGrant serviceID (gr_ChannelID request) expiresAt]> (is_issued i')) i'),
       Ok (grant, expiresAt)).

Lemma decodePublicKey_Ok value key :
  decodeServiceAdmissionPublicKey value = Ok key →
  value = EncodeToString key ∧ len key = ed25519_PublicKeySize.
Proof.
  unfold decodeServiceAdmissionPublicKey. destruct (DecodeString value); [|done]. intros Hr.
  apply reject_if_ok in Hr as [Hc [= ->]]. by go_bool.
Qed.

Lemma issue_cases raw serviceID acl request now i :
  issue_view raw serviceID acl request now i
    (issue Sum256 Sign raw serviceID acl request now (Some i)).
Proof.
  unfold issue. destruct (check_request serviceID acl request) eqn:Ec; [apply issue_refused|].
  destruct (decodeServiceAdmissionPublicKey _) as [key|] eqn:Ek; [|apply issue_refused].
  apply decodePublicKey_Ok in Ek as [??].
  unfold newServiceAdmissionGrantID. destruct raw as [random|]; cbn [result_bind]; [|apply issue_refused].
  cbv zeta.
  destruct (signServiceAdmissionGrant _ _ _ _) as [grant|] eqn:Es; [|apply issue_refused].
  assert (signed (Ok random) serviceID acl request now i random key grant) as Hsigned by done.
  destruct (_ <=? _) eqn:El.
  - apply Z.leb_le in El. exact (issue_full _ _ _ _ _ _ _ _ _ Hsigned El).
  - apply Z.leb_gt in El. exact (issue_granted _ _ _ _ _ _ _ _ _ Hsigned El).
Qed.
End issuer.

(** ** Reading a grant *)

Lemma encoded_no_dot s : string_forallb (no_byte dot) (EncodeToString s) = true.
Proof.
  eapply string_forallb_impl; [|apply EncodeToString_bytes].
  intros c Hc. unfold no_byte. destruct (Ascii.eqb_spec c dot) as [->|]; [discriminate Hc|done].
Qed.

Lemma open_signed Verify Sign pk sk keyID claims grant :
  (∀ m, Verify pk m (Sign sk m) = true) →
  json_wf max_nesting_depth (grant_header_json keyID) →
  json_wf max_nesting_depth (grant_claims_json claims) →
  signServiceAdmissionGrant Sign sk keyID claims = Ok grant →
  open_grant Verify pk grant = Some (grant_header_json keyID, grant_claims_json claims) ∧
  len grant ≤ serviceAdmissionGrantMaximumBytes.
Proof.
  intros Hverify Hh Hc Hs. unfold signServiceAdmissionGrant in Hs. apply reject_if_ok in Hs as [Hlen Hs].
  apply (inj Ok) in Hs. subst grant.
  apply Z.ltb_ge in Hlen. split; [|done]. clear Hlen.
  apply parse_document_print in Hh, Hc. revert Hh Hc.
  generalize (print_json (grant_header_json keyID)) (print_json (grant_claims_json claims)).
  intros h c Hh Hc. unfold open_grant.
  rewrite !string_app_assoc.
  repeat match goal with |- context ["." +:+ ?x] => change ("." +:+ x) with (String dot x) end.
  rewrite split_on_app, split_on_app, split_on_last by apply encoded_no_dot.
  rewrite !DecodeString_EncodeToString. cbn [mbind option_bind].
  rewrite Hverify. cbn [mbind option_bind]. by rewrite Hh, Hc.
Qed.

Lemma header_wf keyID :
  serviceAdmissionGrantKeyIDPattern keyID = true → json_wf max_nesting_depth (grant_header_json keyID).
Proof.
  intros Hk. unfold serviceAdmissionGrantKeyIDPattern, match_repeat in Hk. go_bool.
  apply wf_object; [done|].
  repeat (apply Forall_cons; split; [split; [done|constructor; by first [done|apply plain_utf8]]|]); constructor.
Qed.

Lemma role_utf8 role : role ∈ ["recorder"; "observer"; "automation"] → utf8_Valid role = true.
Proof. rewrite !elem_of_cons. by intros [->|[->|[->|?%elem_of_nil]]]. Qed.

(** The claims whose texts are UTF-8 and whose numbers are not negative. *)
Lemma claims_wf c :
  Forall (λ s, utf8_Valid s = true)
    [gc_Issuer c; gc_Audience c; gc_ServiceID c; gc_GrantID c; gc_Role c; gc_JWKThumbprint c] →
  Forall (λ z, 0 ≤ z)
    [gc_IssuedAt c; gc_ExpiresAt c; gc_ChannelID c; gc_SenderID c; gc_Permissions c;
     default 0 (gc_Priority c)] →
  json_wf max_nesting_depth (grant_claims_json c).
Proof.
  rewrite !Forall_cons. intros (H1 & H2 & H3 & H4 & H5 & H6 & _) (Z1 & Z2 & Z3 & Z4 & Z5 & Z6 & _).
  unfold grant_claims_json. apply wf_object; [done|].
  destruct (gc_Priority c); simpl app;
    repeat (apply Forall_cons; split; [split; [done|]|]); try constructor; try done;
    (apply Forall_cons; split; [split; [done|by constructor]|constructor]).
Qed.

(** ** What a granted request carries *)

Lemma check_request_None serviceID acl request :
  check_request serviceID acl request = None →
  validManagementServiceID serviceID = true ∧ acl_enabled acl = true ∧ acl_role acl = gr_Role request ∧
  acl_allowListen acl = true ∧ (gr_RequestTalk request = true → acl_allowTalk acl = true) ∧
  (gr_RequestInterrupt request = true → gr_RequestTalk request = true ∧
     acl_allowInterrupt acl = true ∧ acl_interruptPriority acl ≠ 0).
Proof.
  unfold check_request. intros Hc.
  destruct (_ || _) eqn:E1 in Hc; [done|].
  destruct (gr_RequestTalk request && _) eqn:E2 in Hc; [done|].
  destruct (gr_RequestInterrupt request && _) eqn:E3 in Hc; [done|]. go_bool.
  split_and!; try done.
  - intros Ht. rewrite Ht in E2. by destruct (acl_allowTalk acl).
  - intros Hi. rewrite Hi in E3. cbn [andb] in E3. by go_bool.
Qed.

Lemma permissions_bits request :
  0 ≤ grant_permissions request < 8 ∧ Z.testbit (grant_permissions request) 0 = true ∧
  Z.testbit (grant_permissions request) 1 = gr_RequestTalk request ∧
  Z.testbit (grant_permissions request) 2 = gr_RequestInterrupt request.
Proof. unfold grant_permissions. by destruct (gr_RequestTalk request), (gr_RequestInterrupt request). Qed.

#[local] Arguments TruncateSecond : simpl never.

Lemma Unix_truncated now : Unix (TruncateSecond now) = Unix now.
Proof. rewrite TruncateSecond_Unix. unfold Unix. by rewrite Z.div_mul. Qed.

Lemma Unix_expiry now seconds :
  Unix (TruncateSecond now + seconds * Second) = Unix now + seconds.
Proof. rewrite TruncateSecond_Unix, <-Z.mul_add_distr_r. unfold Unix at 1. by rewrite Z.div_mul. Qed.

Lemma granted_claims Sum256 i serviceID acl request now grantID publicKey :
  issuer_ok i → check_request serviceID acl request = None →
  gr_ServicePublicKey request = EncodeToString publicKey → len publicKey = ed25519_PublicKeySize →
  claims_within Sum256 i serviceID acl request now
    (grant_claims Sum256 i serviceID grantID publicKey acl request (TruncateSecond now)).
Proof.
  intros Hi Hc Hkey Hlen. apply check_request_None in Hc as (Hv & He & Hr & Hl & Ht & Hint).
  destruct (permissions_bits request) as (Hp & Hb0 & Hb1 & Hb2).
  destruct (issuer_lifetime i Hi) as (seconds & Hs & _).
  constructor; simpl; try done.
  - split; [done|]. intros Hri. by destruct (Hint Hri) as (? & ? & _).
  - rewrite Hs, Unix_expiry, Unix_truncated. by rewrite Z.div_mul.
  - eauto.
Qed.

Lemma granted_claims_wf Sum256 i serviceID acl request now random publicKey :
  issuer_ok i → utf8_Valid (is_issuer i) = true → utf8_Valid (is_audience i) = true → 0 ≤ now →
  acl_ok (gr_ChannelID request, gr_SenderID request) acl → check_request serviceID acl request = None →
  json_wf max_nesting_depth (grant_claims_json
    (grant_claims Sum256 i serviceID (EncodeToString random) publicKey acl request (TruncateSecond now))).
Proof.
  intros Hi Hiss Haud Hnow Hacl Hc. apply check_request_None in Hc as (Hv & _ & Hr & _ & _ & Hint).
  destruct (permissions_bits request) as (Hp & _). destruct (issuer_lifetime i Hi) as (seconds & Hs & Hsec).
  assert (0 ≤ Unix now) by (unfold Unix; apply Z.div_pos; done).
  destruct Hacl as [Hch Hsid Hrole _ Hprio _ _]. unfold is_u32 in *. simpl in Hch, Hsid.
  apply claims_wf; rewrite !Forall_cons, Forall_nil; simpl; split_and!; try done;
    try (apply plain_utf8; apply EncodeToString_plain); try lia.
  - apply plain_utf8. by apply validManagementServiceID_bytes in Hv as (_ & ? & _).
  - rewrite <-Hr. by apply role_utf8.
  - rewrite Unix_truncated. lia.
  - rewrite Hs, Unix_expiry. lia.
  - unfold grant_priority. destruct (gr_RequestInterrupt request); [|done]. simpl.
    destruct (Hint eq_refl) as (_ & Hai & _). apply Hprio in Hai as [_ ?]. lia.
Qed.

(** ** The record of issued grants *)

Lemma len_cleanup now i : len_map (is_issued (cleanupIssuedLocked now i)) ≤ len_map (is_issued i).
Proof. unfold len_map. simpl. apply inj_le, map_subseteq_size, map_filter_subseteq. Qed.

Lemma cleanup_lookup now i h :
  is_issued (cleanupIssuedLocked now i) !! h =
  match is_issued i !! h with
  | Some g => if now <? ig_expiresAt g then Some g else None
  | None => None
  end.
Proof.
  simpl. destruct (is_issued i !! h) as [g|] eqn:E.
  - destruct (now <? ig_expiresAt g) eqn:El.
    + by apply map_lookup_filter_Some.
    + apply map_lookup_filter_None. right. intros g' Hg'. unfold After. simplify_eq. congruence.
  - apply map_lookup_filter_None. by left.
Qed.

Definition same_config (i i' : serviceAdmissionGrantIssuer) : Prop := i' = with_issued (is_issued i') i.

Lemma issuer_ok_issued i m :
  issuer_ok i → len_map m ≤ serviceAdmissionGrantMaximumTracked → issuer_ok (with_issued m i).
Proof. intros [] Hm. by constructor. Qed.

Lemma cleanup_ok now i : issuer_ok i → issuer_ok (cleanupIssuedLocked now i).
Proof.
  intros Hi. apply issuer_ok_issued; [exact Hi|].
  etrans; [exact (len_cleanup now i)|apply (issuer_tracked i Hi)].
Qed.

Lemma TruncateSecond_le now : TruncateSecond now ≤ now.
Proof.
  rewrite TruncateSecond_Unix. unfold Unix. rewrite Z.mul_comm. apply Z.mul_div_le. done.
Qed.

Section history.
Context (Sum256 : string → string) (Sign : string → string → string).

(** One operation keeps the issuer sound, and keeps a grant that has not
    expired unless the same ID is drawn again. *)
Lemma issuer_apply_keeps i op :
  issuer_ok i →
  ∃ i', issuer_apply Sum256 Sign (Some i) op = Some i' ∧ issuer_ok i' ∧
    ∀ h g, is_issued i !! h = Some g → op_now op < ig_expiresAt g → ¬ op_issues Sum256 h op →
           is_issued i' !! h = Some g.
Proof.
  intros Hi. destruct op as [raw serviceID acl request now|hash now]; cbn [issuer_apply op_now issuedGrant fst].
  - destruct (issue_cases Sum256 Sign raw serviceID acl request now i)
      as [e|random publicKey grant i' _ _|random publicKey grant grantID i' expiresAt [-> _] Hroom].
    + by exists i.
    + eexists. split; [done|]. split.
      { by apply cleanup_ok. }
      intros h g Hg Hnow _. unfold i'. rewrite cleanup_lookup, Hg.
      pose proof (TruncateSecond_le now). by rewrite (proj2 (Z.ltb_lt _ _)) by lia.
    + eexists. split; [done|]. split.
      { apply issuer_ok_issued; [by apply cleanup_ok|].
        etrans; [apply len_map_insert_le|]. by apply Z.le_succ_l. }
      intros h g Hg Hnow Hnot. cbn [is_issued with_issued]. rewrite lookup_insert_ne by done. unfold i'.
      rewrite cleanup_lookup, Hg.
      pose proof (TruncateSecond_le now). by rewrite (proj2 (Z.ltb_lt _ _)) by lia.
  - eexists. split; [done|]. split.
    { by apply cleanup_ok. }
    intros h g Hg Hnow _. rewrite cleanup_lookup, Hg. by rewrite (proj2 (Z.ltb_lt _ _)) by lia.
Qed.

Lemma issuer_run_keeps ops i h g :
  issuer_ok i → is_issued i !! h = Some g →
  Forall (λ op, op_now op < ig_expiresAt g ∧ ¬ op_issues Sum256 h op) ops →
  ∃ i', foldl (issuer_apply Sum256 Sign) (Some i) ops = Some i' ∧ issuer_ok i' ∧
        is_issued i' !! h = Some g.
Proof.
  revert i. induction ops as [|op ops IH]; intros i Hi Hg Hops; [by exists i|].
  apply Forall_cons in Hops as [[Hnow Hnot] Hops]. cbn [foldl].
  destruct (issuer_apply_keeps i op Hi) as (i1 & -> & Hi1 & Hkeep). eauto.
Qed.

Lemma issue_records raw serviceID acl request now i i' grant expiresAt :
  issuer_ok i → issue Sum256 Sign raw serviceID acl request now (Some i) = (i', Ok (grant, expiresAt)) →
  ∃ random i1, raw = Ok random ∧ i' = Some i1 ∧ issuer_ok i1 ∧
    expiresAt = TruncateSecond now + is_lifetime i ∧
    is_issued i1 !! grant_id_hash Sum256 (EncodeToString random) =
      Some (IssuedGrant serviceID (gr_ChannelID request) expiresAt).
Proof.
  intros Hi Hissue.
  destruct (issuer_apply_keeps i (OpIssue raw serviceID acl request now) Hi) as (i2 & Hi2 & Hok & _).
  pose proof (issue_cases Sum256 Sign raw serviceID acl request now i) as Hv.
  cbn [issuer_apply] in Hi2. rewrite Hissue in Hi2, Hv. simpl in Hi2. subst i'.
  inversion Hv as [| |random key grant' grantID i1 e [Hraw _]]; subst.
  exists random. eexists. split; [done|]. split; [done|]. split; [done|]. split; [done|].
  simpl. apply lookup_insert_eq.
Qed.
End history.

(** ** The size of a grant *)

Lemma len_nonneg s : 0 ≤ len s.
Proof. unfold len. lia. Qed.

Lemma quote_ascii_len c : 1 ≤ len (quote_ascii c).
Proof. pose proof (quote_ascii_length c). unfold len. lia. Qed.

Lemma quote_body_len n s : (String.length s ≤ n)%nat → len s ≤ len (quote_body n s).
Proof.
  revert s. induction n as [|n IH]; intros [|c r] Hn; [done|simpl in Hn; lia|done|].
  cbn [quote_body]. cbn [String.length] in Hn.
  replace (len (String c r)) with (len r + 1) by (unfold len; cbn [String.length]; lia).
  destruct (byte_in 0 127 c).
  { rewrite len_app. pose proof (quote_ascii_len c). specialize (IH r ltac:(lia)). lia. }
  destruct (rune_size (String c r)) as [k|] eqn:Ek.
  - destruct (split_at k (String c r)) as [chunk r2] eqn:Es.
    pose proof (split_at_app _ _ _ _ Es) as Happ.
    assert (len r + 1 = len chunk + len r2) as Hl.
    { rewrite <-len_app, <-Happ. unfold len. cbn [String.length]. lia. }
    assert (1 ≤ len chunk) as Hc.
    { destruct k as [|k]; [apply rune_size_positive in Ek; lia|]. simpl in Es.
      destruct (split_at k r). injection Es as <- <-. unfold len. cbn [String.length]. lia. }
    rewrite len_app. specialize (IH r2 ltac:(unfold len in *; lia)).
    repeat case_match; go_bool; subst; try lia.
    + change (len (byte_string _)) with 3 in *. change (len "\u2028") with 6. lia.
    + change (len (byte_string _)) with 3 in *. change (len "\u2029") with 6. lia.
  - rewrite len_app. specialize (IH r ltac:(lia)). change (len "\ufffd") with 6. lia.
Qed.

Lemma quoted_len s : len s + 2 ≤ len (print_json (JString s)).
Proof.
  cbn [print_json]. unfold quote_string. rewrite !len_app. change (len dquote) with 1.
  pose proof (quote_body_len (String.length s) s ltac:(lia)). lia.
Qed.

Lemma number_len z : 0 ≤ z → 1 ≤ len (print_json (jnum z)).
Proof.
  intros Hz. cbn [print_json jnum]. destruct (FormatInt_spec z Hz) as (Hne & _).
  destruct (FormatInt z); [done|]. unfold len. cbn [String.length]. lia.
Qed.

Lemma encoded_len_mono n s : n ≤ len s → n / 3 * 4 + (n mod 3 * 8 + 5) / 6 ≤ len (EncodeToString s).
Proof.
  intros Hn. rewrite EncodeToString_len. pose proof (len_nonneg s).
  Z.to_euclidean_division_equations. lia.
Qed.

Lemma header_len keyID : 1 ≤ len keyID → 65 ≤ len (print_json (grant_header_json keyID)).
Proof.
  intros Hk. unfold grant_header_json. rewrite print_object. unfold print_member.
  cbn [fmap list_fmap join_comma fst snd]. rewrite !len_app.
  pose proof (quoted_len keyID).
  change (len (quote_string "alg")) with 5. change (len (quote_string "kid")) with 5.
  change (len (quote_string "typ")) with 5. change (len (print_json (JString "EdDSA"))) with 7.
  change (len (print_json (JString "incomudon-service-admission+jwt"))) with 33.
  len_literals. lia.
Qed.

Lemma join_comma_suffix l1 l2 : len (join_comma l2) ≤ len (join_comma (l1 ++ l2)).
Proof.
  induction l1 as [|x l1 IH]; cbn [app]; [done|]. pose proof (len_nonneg x).
  destruct (l1 ++ l2) as [|y l]; [|rewrite join_comma_cons, !len_app; change (len ",") with 1; lia].
  change (len (join_comma [])) with 0 in IH. cbn [join_comma]. lia.
Qed.

Lemma confirmation_len jkt :
  43 ≤ len jkt → 59 ≤ len (print_member ("cnf", JObject [("jkt", JString jkt)])).
Proof.
  intros Hj. unfold print_member at 1. cbn [fst snd]. rewrite print_object. unfold print_member.
  cbn [fmap list_fmap join_comma fst snd]. rewrite !len_app. pose proof (quoted_len jkt).
  change (len (quote_string "cnf")) with 5. change (len (quote_string "jkt")) with 5.
  len_literals. lia.
Qed.

Lemma claims_len c :
  Forall (λ z, 0 ≤ z)
    [gc_IssuedAt c; gc_ExpiresAt c; gc_ChannelID c; gc_SenderID c; gc_Permissions c;
     default 0 (gc_Priority c)] →
  1 ≤ len (gc_ServiceID c) → 32 ≤ len (gc_GrantID c) → 8 ≤ len (gc_Role c) →
  43 ≤ len (gc_JWKThumbprint c) →
  188 + (len (gc_Issuer c) + len (gc_Audience c)) ≤ len (print_json (grant_claims_json c)).
Proof.
  rewrite !Forall_cons. intros (Z1 & Z2 & Z3 & Z4 & Z5 & _) Hs Hg Hr Hj.
  apply number_len in Z1, Z2, Z3, Z4, Z5. unfold grant_claims_json. rewrite print_object.
  pose proof (quoted_len (gc_Issuer c)). pose proof (quoted_len (gc_Audience c)).
  pose proof (quoted_len (gc_ServiceID c)). pose proof (quoted_len (gc_GrantID c)).
  pose proof (quoted_len (gc_Role c)).
  pose proof (confirmation_len (gc_JWKThumbprint c) Hj) as Hcnf.
  set (cnf := ("cnf", JObject [("jkt", JString (gc_JWKThumbprint c))])) in *.
  set (pri := match gc_Priority c with Some p => _ | None => _ end).
  pose proof (join_comma_suffix (print_member <$> pri) (print_member <$> [cnf])) as Htail.
  rewrite <-fmap_app in Htail. change (join_comma (print_member <$> [cnf])) with (print_member cnf) in Htail.
  destruct (pri ++ [cnf]) as [|m ms] eqn:E; [by apply app_nil in E as [_ ?]|].
  cbn [app]. rewrite !fmap_cons, !join_comma_cons, <-fmap_cons.
  unfold print_member at 1 2 3 4 5 6 7 8 9 10. cbn [fst snd]. rewrite !len_app.
  change (len (quote_string "iss")) with 5. change (len (quote_string "aud")) with 5.
  change (len (quote_string "svc")) with 5. change (len (quote_string "jti")) with 5.
  change (len (quote_string "iat")) with 5. change (len (quote_string "exp")) with 5.
  change (len (quote_string "ch")) with 4. change (len (quote_string "sid")) with 5.
  change (len (quote_string "role")) with 6. change (len (quote_string "perm")) with 6.
  len_literals. lia.
Qed.

Lemma role_len role : role ∈ ["recorder"; "observer"; "automation"] → 8 ≤ len role.
Proof. rewrite !elem_of_cons. by intros [->|[->|[->|?%elem_of_nil]]]. Qed.

(** A signed grant whose issuer and audience have 257 bytes together is
    longer than the limit. *)
Lemma signed_len Sum256 Sign raw serviceID acl request now i random publicKey grant :
  (∀ m, len (Sum256 m) = 32) → (∀ k m, len (Sign k m) = 64) →
  issuer_ok i → acl_ok (gr_ChannelID request, gr_SenderID request) acl → 0 ≤ now →
  len random = 24 → 257 ≤ len (is_issuer i) + len (is_audience i) →
  ¬ signed Sum256 Sign raw serviceID acl request now i random publicKey grant.
Proof.
  intros Hsum Hsign Hi Hacl Hnow Hrandom Hlong (_ & Hc & _ & _ & Hs).
  apply check_request_None in Hc as (Hv & _ & Hr & _ & _ & Hint).
  destruct (permissions_bits request) as (Hp & _). destruct (issuer_lifetime i Hi) as (seconds & Hs1 & Hsec).
  assert (0 ≤ Unix now) by (unfold Unix; apply Z.div_pos; done).
  destruct Hacl as [Hch Hsid Hrole _ Hprio _ _]. unfold is_u32 in *. cbn [fst snd] in Hch, Hsid.
  apply validManagementServiceID_bytes in Hv as (_ & _ & Hsvc).
  unfold signServiceAdmissionGrant in Hs. apply reject_if_ok in Hs as [Hlen _]. apply Z.ltb_ge in Hlen.
  revert Hlen. rewrite !len_app. set (c := grant_claims _ _ _ _ _ _ _ _).
  assert (445 ≤ len (print_json (grant_claims_json c))) as Hclaims.
  { etrans; [|apply claims_len].
    - unfold c, grant_claims. cbn [gc_Issuer gc_Audience]. lia.
    - unfold c, grant_claims. cbn. rewrite Unix_truncated, Hs1, Unix_expiry.
      rewrite !Forall_cons, Forall_nil. split_and!; try done; try lia.
      unfold grant_priority. destruct (gr_RequestInterrupt request); [|done].
      destruct (Hint eq_refl) as (_ & Hai & _). apply Hprio in Hai as [_ ?]. simpl. lia.
    - unfold c. cbn [gc_ServiceID grant_claims]. lia.
    - unfold c. cbn [gc_GrantID grant_claims]. rewrite EncodeToString_len, Hrandom. done.
    - unfold c. cbn [gc_Role grant_claims]. rewrite <-Hr. by apply role_len.
    - unfold c. cbn [gc_JWKThumbprint grant_claims]. by rewrite EncodeToString_len, Hsum. }
  assert (65 ≤ len (print_json (grant_header_json (is_keyID i)))) as Hheader.
  { apply header_len. pose proof (issuer_key_id i Hi) as Hk.
    unfold serviceAdmissionGrantKeyIDPattern, match_repeat in Hk. go_bool. lia. }
  apply encoded_len_mono in Hclaims, Hheader.
  rewrite (EncodeToString_len (Sign _ _)), Hsign. change (len ".") with 1.
  unfold serviceAdmissionGrantMaximumBytes. revert Hclaims Hheader. cbv [Z.div Z.modulo Z.div_eucl].
  intros. simpl in *. lia.
Qed.

(** ** Examples *)

(** The first [n] bytes of a string, filled up with zeros. *)
Fixpoint pad_to (n : nat) (s : string) : string :=
  match n with
  | O => ""
  | S n => match s with String c s => String c (pad_to n s) | EmptyString => String "0"%char (pad_to n "") end
  end.

Lemma pad_to_len n s : len (pad_to n s) = Z.of_nat n.
Proof.
  unfold len. f_equal. revert s. induction n as [|n IH]; intros s; [done|].
  destruct s; simpl; by rewrite IH.
Qed.

(** Stand-ins of the right sizes for SHA-256 and Ed25519. *)
Definition example_sum (m : string) : string := pad_to 32 m.
Definition example_sign (key m : string) : string := pad_to 64 m.
Definition example_verify (publicKey m signature : string) : bool :=
  String.eqb signature (example_sign "" m).

Definition example_issuer (issuer audience : string) : serviceAdmissionGrantIssuer :=
  Issuer (pad_to 64 "key") "key-1" issuer audience (300 * Second) ∅.
Definition example_talk_acl : managementAdmissionACL := AdmissionACL "automation" true true true 7 true.
Definition example_random : string := pad_to 24 "random".
Definition example_grant_request : managementServiceAdmissionGrantRequest :=
  GrantRequest 5 9 "automation" true true (EncodeToString (pad_to 32 "service key")).

Lemma example_issuer_ok issuer audience :
  validServiceAdmissionIssuerValue issuer = true → validServiceAdmissionIssuerValue audience = true →
  issuer_ok (example_issuer issuer audience).
Proof. intros Hi Ha. constructor; try done. by exists 300. Qed.

Lemma example_talk_acl_ok : acl_ok (5, 9) example_talk_acl.
Proof. constructor; simpl; try done; try lia; [set_solver|by intros [|]]. Qed.

Definition example_issue (now : Z) : option serviceAdmissionGrantIssuer * result (string * Z) :=
  issue example_sum example_sign (Ok example_random) "svc" example_talk_acl example_grant_request now
    (Some (example_issuer "management" "relay")).

(** ** Properties *)

Lemma issue_opens Sum256 Sign Verify publicKey raw serviceID acl request now i i' grant expiresAt :
  (∀ m, Verify publicKey m (Sign (is_privateKey i) m) = true) →
  issuer_ok i → utf8_Valid (is_issuer i) = true → utf8_Valid (is_audience i) = true → 0 ≤ now →
  acl_ok (gr_ChannelID request, gr_SenderID request) acl →
  issue Sum256 Sign raw serviceID acl request now (Some i) = (i', Ok (grant, expiresAt)) →
  ∃ claims, open_grant Verify publicKey grant =
              Some (grant_header_json (is_keyID i), grant_claims_json claims) ∧
    claims_within Sum256 i serviceID acl request now claims ∧
    expiresAt = gc_ExpiresAt claims * Second ∧ len grant ≤ 768.
Proof.
  intros Hverify Hi Hiss Haud Hnow Hacl Hissue.
  pose proof (issue_cases Sum256 Sign raw serviceID acl request now i) as Hv. rewrite Hissue in Hv.
  inversion Hv as [| |random key grant' grantID i1 e (Hraw & Hc & Hkey & Hlen & Hs)]; subst.
  destruct (issuer_lifetime i Hi) as (seconds & Hl & _).
  eexists. split; [|split; [by eapply granted_claims|split]].
  - eapply open_signed; [done|apply header_wf, Hi| |exact Hs]. by apply granted_claims_wf.
  - unfold e. cbn [gc_ExpiresAt grant_claims]. rewrite Hl, Unix_expiry, TruncateSecond_Unix. lia.
  - eapply (open_signed Verify Sign); [exact Hverify|apply header_wf, Hi| |exact Hs].
    by apply granted_claims_wf.
Qed.

(** C9: a grant never exceeds the ACL.  When [issue] returns a grant, its
    holder can open it with the issuer's public key: it is a signed JWS of at
    most 768 bytes whose claims name the service, channel, sender and role of
    the ACL row, allow talking and interrupting only when asked for and
    permitted, carry the row's priority, are bound to the key of the request,
    and expire after the configured lifetime. *)
Theorem grant_within_acl Sum256 Sign Verify publicKey raw serviceID acl request now i i' grant expiresAt :
  (∀ m, Verify publicKey m (Sign (is_privateKey i) m) = true) →
  issuer_ok i → utf8_Valid (is_issuer i) = true → utf8_Valid (is_audience i) = true → 0 ≤ now →
  acl_ok (gr_ChannelID request, gr_SenderID request) acl →
  issue Sum256 Sign raw serviceID acl request now (Some i) = (i', Ok (grant, expiresAt)) →
  ∃ claims, open_grant Verify publicKey grant =
              Some (grant_header_json (is_keyID i), grant_claims_json claims) ∧
    claims_within Sum256 i serviceID acl request now claims ∧
    expiresAt = gc_ExpiresAt claims * Second ∧ len grant ≤ 768.
Proof. apply issue_opens. Qed.

Lemma grant_within_acl_witness :
  ∃ i' grant expiresAt, example_issue (1700000000 * Second) = (i', Ok (grant, expiresAt)) ∧
  ∃ claims, open_grant example_verify "" grant =
              Some (grant_header_json "key-1", grant_claims_json claims) ∧
    claims_within example_sum (example_issuer "management" "relay") "svc" example_talk_acl
      example_grant_request (1700000000 * Second) claims ∧
    expiresAt = gc_ExpiresAt claims * Second ∧ len grant ≤ 768.
Proof.
  destruct (example_issue (1700000000 * Second)) as [i' [[grant expiresAt]|e]] eqn:E;
    [|vm_compute in E; discriminate E].
  exists i', grant, expiresAt. split; [reflexivity|].
  apply (grant_within_acl example_sum example_sign example_verify "" (Ok example_random) "svc"
           example_talk_acl example_grant_request _ (example_issuer "management" "relay") i');
    [intros m; apply String.eqb_refl|by apply example_issuer_ok|done|done|done|
     exact example_talk_acl_ok|exact E].
Defined.

(** C28: an issued grant can be revoked until it expires and not after.
    Whatever the API issues and looks up in between, at clocks before the
    expiry and without drawing the same grant ID again, the record keeps to
    4096 entries and looking the grant up finds exactly its service, channel
    and expiry while it is valid, and nothing once it has expired. *)
Theorem issued_grant_revocable Sum256 Sign random serviceID acl request now i i' grant expiresAt ops :
  let h := grant_id_hash Sum256 (EncodeToString random) in
  issuer_ok i →
  issue Sum256 Sign (Ok random) serviceID acl request now (Some i) = (i', Ok (grant, expiresAt)) →
  Forall (λ op, op_now op < expiresAt ∧ ¬ op_issues Sum256 h op) ops →
  ∃ i'', foldl (issuer_apply Sum256 Sign) i' ops = Some i'' ∧ issuer_ok i'' ∧
    ∀ later, (issuedGrant h later (Some i'')).2 =
      if later <? expiresAt then Some (IssuedGrant serviceID (gr_ChannelID request) expiresAt) else None.
Proof.
  intros h Hi Hissue Hops.
  destruct (issue_records _ _ _ _ _ _ _ _ _ _ _ Hi Hissue) as (r & i1 & [= <-] & -> & Hi1 & _ & Hg).
  destruct (issuer_run_keeps Sum256 Sign ops i1 h _ Hi1 Hg Hops) as (i2 & Hrun & Hi2 & Hg2).
  exists i2. split; [done|]. split; [done|]. intros later. cbn [issuedGrant snd].
  by rewrite cleanup_lookup, Hg2.
Qed.

Lemma issued_grant_revocable_witness :
  let h := grant_id_hash example_sum (EncodeToString example_random) in
  ∃ i' grant expiresAt, example_issue 0 = (i', Ok (grant, expiresAt)) ∧
  ∃ i'', foldl (issuer_apply example_sum example_sign) i'
           [OpLookup "x" (100 * Second); OpIssue (Ok (pad_to 24 "other")) "svc" example_talk_acl
              example_grant_request (200 * Second)] = Some i'' ∧
    issuer_ok i'' ∧
    ∀ later, (issuedGrant h later (Some i'')).2 =
      if later <? expiresAt then Some (IssuedGrant "svc" 5 expiresAt) else None.
Proof.
  cbv zeta. destruct (example_issue 0) as [i' [[grant expiresAt]|e]] eqn:E; [|vm_compute in E; discriminate E].
  exists i', grant, expiresAt. split; [reflexivity|].
  assert (expiresAt = 300 * Second) as He.
  { destruct (issue_records _ _ _ _ _ _ _ _ _ _ _ (example_issuer_ok "management" "relay" eq_refl eq_refl) E)
      as (? & ? & _ & _ & _ & -> & _). reflexivity. }
  apply (issued_grant_revocable example_sum example_sign example_random "svc" example_talk_acl
           example_grant_request 0 (example_issuer "management" "relay") i' grant expiresAt);
    [by apply example_issuer_ok|exact E|].
  rewrite He. repeat constructor; vm_compute; congruence.
Defined.

(** C38: a long issuer and audience make every grant too big.  The
    configuration admits 256 bytes for each of the two, but with 257 bytes
    together no request is ever granted: the signed grant would exceed 768
    bytes. *)
Theorem long_identity_never_issues Sum256 Sign raw serviceID acl request now i :
  (∀ m, len (Sum256 m) = 32) → (∀ k m, len (Sign k m) = 64) →
  issuer_ok i → acl_ok (gr_ChannelID request, gr_SenderID request) acl → 0 ≤ now →
  (∀ random, raw = Ok random → len random = 24) →
  257 ≤ len (is_issuer i) + len (is_audience i) →
  ∃ e, issue Sum256 Sign raw serviceID acl request now (Some i) = (Some i, Err e).
Proof.
  intros Hsum Hsign Hi Hacl Hnow Hraw Hlong.
  destruct (issue_cases Sum256 Sign raw serviceID acl request now i)
    as [e|random publicKey grant i' Hs _|random publicKey grant grantID i' e Hs _]; [by exists e|..];
    destruct (signed_len Sum256 Sign raw serviceID acl request now i random publicKey grant); try done;
    apply Hraw; by destruct Hs.
Qed.

Lemma long_identity_never_issues_witness :
  let i := example_issuer (pad_to 129 "https://management") (pad_to 128 "relay") in
  ∃ e, issue example_sum example_sign (Ok example_random) "svc" example_talk_acl example_grant_request
         0 (Some i) = (Some i, Err e).
Proof.
  apply (long_identity_never_issues example_sum example_sign);
    [intros m; apply pad_to_len|intros k m; apply pad_to_len|by apply example_issuer_ok|
     exact example_talk_acl_ok|done|by intros r [= <-]|done].
Defined.

Lemma forallb_false {A} (f : A → bool) l : forallb f l = false → ∃ v, v ∈ l ∧ f v = false.
Proof.
  induction l as [|x l IH]; [done|]. simpl. destruct (f x) eqn:E; [|by exists x; set_solver].
  intros (v & ? & ?)%IH. set_solver.
Qed.

Lemma grant_lifetime_ok value lifetime :
  grant_lifetime value = Ok lifetime → ∃ seconds, lifetime = seconds * Second ∧ 60 ≤ seconds ≤ 3600.
Proof.
  unfold grant_lifetime. cbv zeta. destruct (String.eqb _ _); [intros [= <-]; by exists 300|].
  destruct (ParseInt _) as [seconds|]; [|done]. intros H. apply reject_if_ok in H as [Hc Hs].
  apply (inj Ok) in Hs as <-. apply orb_false_iff in Hc as [H1%Z.ltb_ge H2%Z.ltb_ge].
  change (serviceAdmissionGrantMinimumLifetime / Second) with 60 in H1.
  change (serviceAdmissionGrantMaximumLifetime / Second) with 3600 in H2. eauto.
Qed.

Lemma signing_key_ok kl filename key :
  loadServiceAdmissionSigningKey kl filename = Ok key → len key = ed25519_PrivateKeySize.
Proof.
  unfold loadServiceAdmissionSigningKey. intros H. apply result_bind_ok in H as (data & _ & H).
  cbv zeta in H. destruct (kl_pem_Decode kl data) as [[[type bytes]|] remaining]; [|done].
  apply reject_if_ok in H as [_ H]. apply result_bind_ok in H as (parsed & _ & H).
  destruct parsed; [|done]. apply reject_if_ok in H as [Hl [= <-]]. by go_bool.
Qed.

(** What [loadServiceAdmissionGrantIssuer] returns. *)
Lemma load_issuer_spec kl config :
  let fields := (grant_fields config).*2 in
  match loadServiceAdmissionGrantIssuer kl config with
  | Ok None => ∀ v, v ∈ fields → blank v = true
  | Ok (Some i) =>
      issuer_ok i ∧ (∀ v, v ∈ fields → blank v = false) ∧ is_issued i = ∅ ∧
      is_keyID i = ac_grantKeyID config ∧ is_issuer i = ac_grantIssuer config ∧
      is_audience i = ac_grantAudience config ∧
      (blank (ac_grantTTLSeconds config) = true → is_lifetime i = 5 * Minute)
  | Err _ => ∃ v, v ∈ fields ∧ blank v = false
  end.
Proof.
  cbv zeta. unfold loadServiceAdmissionGrantIssuer.
  destruct (forallb blank (grant_fields config).*2) eqn:Eall.
  { rewrite forallb_forall in Eall. intros v Hv. apply Eall. by apply list_elem_of_In. }
  assert (∃ v, v ∈ (grant_fields config).*2 ∧ blank v = false) as Hset.
  { by apply forallb_false. }
  destruct (list_find _ _) as [[n [name value]]|] eqn:Ef; [done|].
  destruct (reject_if _ _ _) as [i|e] eqn:Er; [|done].
  apply reject_if_ok in Er as [Hk Er]. apply reject_if_ok in Er as [Hv Er].
  apply result_bind_ok in Er as (lifetime & Hl & Er). apply result_bind_ok in Er as (key & Hkey & Er).
  apply (inj Ok) in Er as <-. go_bool.
  split.
  { constructor; try done; [by eapply signing_key_ok|by eapply grant_lifetime_ok]. }
  split_and!; try done.
  - apply list_find_None in Ef. intros v Hv. apply list_elem_of_fmap in Hv as (field & -> & Hf).
    rewrite Forall_forall in Ef. apply not_true_iff_false. by apply (Ef field).
  - intros Hb. cbn [is_lifetime]. unfold grant_lifetime in Hl. unfold blank in Hb. cbv zeta in Hl.
    rewrite Hb in Hl. by apply (inj Ok) in Hl.
Qed.

(** What configures an issuer.  Issuance is off exactly when the key file,
    key ID, issuer and audience are all blank; when an issuer loads it carries
    the configured identity, none of the four is blank, its key ID, issuer and
    audience are admissible, its key is a 64-byte Ed25519 key, its lifetime is
    from 60 to 3600 whole seconds (300 by default), and nothing is recorded as
    issued; otherwise loading is an error. *)
Theorem issuer_configuration kl config :
  let fields := (grant_fields config).*2 in
  match loadServiceAdmissionGrantIssuer kl config with
  | Ok None => ∀ v, v ∈ fields → blank v = true
  | Ok (Some i) =>
      issuer_ok i ∧ (∀ v, v ∈ fields → blank v = false) ∧ is_issued i = ∅ ∧
      is_keyID i = ac_grantKeyID config ∧ is_issuer i = ac_grantIssuer config ∧
      is_audience i = ac_grantAudience config ∧
      (blank (ac_grantTTLSeconds config) = true → is_lifetime i = 5 * Minute)
  | Err _ => ∃ v, v ∈ fields ∧ blank v = false
  end.
Proof. apply load_issuer_spec. Qed.
