(* ===== verification/Api.v ===== *)
(** * The Management API

    The HTTP handlers of [management_api.go], [service_admission_api.go],
    [management_events.go] and [recording_jobs.go], from [ServeHTTP] down.  A
    handler takes the server's state and a request to the new state and what
    is written; the event stream is what its loop writes for what it receives.

    The Relay's commands go through the interface
    [managementServiceAdmissionRevoker], here the operation [revoke] on a type
    [R]; the recording jobs and the live event hub are the objects that
    [newManagementAPI] attached to the relay state. *)

From S2P Require Export Grants RelayState.

Open Scope Z_scope.

(** ** Requests and responses *)

Record http_request := Request {
  rq_Method : string;
  rq_Path : string;
  rq_QueryKeys : list string;
  rq_Body : string;
  rq_Fingerprint : option string;
}.

Record http_response := Response {
  rs_Status : Z;
  rs_Header : gmap string string;
  rs_Body : string;
}.

Definition StatusOK : Z := 200.
Definition StatusCreated : Z := 201.
Definition StatusAccepted : Z := 202.
Definition StatusBadRequest : Z := 400.
Definition StatusForbidden : Z := 403.
Definition StatusNotFound : Z := 404.
Definition StatusMethodNotAllowed : Z := 405.
Definition StatusInternalServerError : Z := 500.
Definition StatusServiceUnavailable : Z := 503.

(** [http.StatusText], for the codes above *)
Definition StatusText (code : Z) : string :=
  if code =? 200 then "OK" else if code =? 201 then "Created" else if code =? 202 then "Accepted"
  else if code =? 400 then "Bad Request" else if code =? 403 then "Forbidden"
  else if code =? 404 then "Not Found" else if code =? 405 then "Method Not Allowed"
  else if code =? 500 then "Internal Server Error" else if code =? 503 then "Service Unavailable"
  else "".

(** [writeJSON(writer, status, value)] on the headers set so far *)
Definition writeJSON (header : gmap string string) (status : Z) (value : json) : http_response :=
  Response status (<["Content-Type" := "application/json"]> header) (print_json value +:+ newline).

Definition writeManagementAPIError (header : gmap string string) (status : Z) : http_response :=
  writeJSON header status (JObject [("error", JString (StatusText status))]).

Definition writeManagementAPIMethodNotAllowed (method : string) : http_response :=
  writeManagementAPIError {["Allow" := method]} StatusMethodNotAllowed.

(** [decodeManagementAPIRequest(writer, request, &body)].  A body of more than
    4096 bytes fails one of the two [Decode] calls: the reader reports the
    limit before it reports the end. *)
Definition decodeManagementAPIRequest {T} (fields : list (json_field T)) (zero : T) (body : string)
    : result T :=
  reject 4096 <? len body with Errorf "http: request body too large" [];
  try (j, rest) <- decode_next body;
  try target <- type_checked (decode_struct true fields j zero);
  reject negb (at_EOF rest) with Errorf "request body must contain one JSON object" [];
  Ok target.

(** ** Message types *)

Definition zero_grant_request : managementServiceAdmissionGrantRequest :=
  GrantRequest 0 0 "" false false "".

Definition grant_request_fields : list (json_field managementServiceAdmissionGrantRequest) :=
  [ field_of "channel_id" (decode_uint 32) gr_ChannelID
      (λ v m, GrantRequest v (gr_SenderID m) (gr_Role m) (gr_RequestTalk m) (gr_RequestInterrupt m) (gr_ServicePublicKey m));
    field_of "sender_id" (decode_uint 32) gr_SenderID
      (λ v m, GrantRequest (gr_ChannelID m) v (gr_Role m) (gr_RequestTalk m) (gr_RequestInterrupt m) (gr_ServicePublicKey m));
    field_of "role" decode_string gr_Role
      (λ v m, GrantRequest (gr_ChannelID m) (gr_SenderID m) v (gr_RequestTalk m) (gr_RequestInterrupt m) (gr_ServicePublicKey m));
    field_of "request_talk" decode_bool gr_RequestTalk
      (λ v m, GrantRequest (gr_ChannelID m) (gr_SenderID m) (gr_Role m) v (gr_RequestInterrupt m) (gr_ServicePublicKey m));
    field_of "request_interrupt" decode_bool gr_RequestInterrupt
      (λ v m, GrantRequest (gr_ChannelID m) (gr_SenderID m) (gr_Role m) (gr_RequestTalk m) v (gr_ServicePublicKey m));
    field_of "service_public_key" decode_string gr_ServicePublicKey
      (λ v m, GrantRequest (gr_ChannelID m) (gr_SenderID m) (gr_Role m) (gr_RequestTalk m) (gr_RequestInterrupt m) v) ].

Definition zero_revocation_request : managementServiceAdmissionRevocationRequest :=
  RevocationRequest 0 "" "" "" 0.

Definition revocation_request_fields : list (json_field managementServiceAdmissionRevocationRequest) :=
  [ field_of "channel_id" (decode_uint 32) rr_ChannelID
      (λ v m, RevocationRequest v (rr_ServiceID m) (rr_GrantIDHash m) (rr_Reason m) (rr_DenyUntil m));
    field_of "service_id" decode_string rr_ServiceID
      (λ v m, RevocationRequest (rr_ChannelID m) v (rr_GrantIDHash m) (rr_Reason m) (rr_DenyUntil m));
    field_of "grant_id_hash" decode_string rr_GrantIDHash
      (λ v m, RevocationRequest (rr_ChannelID m) (rr_ServiceID m) v (rr_Reason m) (rr_DenyUntil m));
    field_of "reason" decode_string rr_Reason
      (λ v m, RevocationRequest (rr_ChannelID m) (rr_ServiceID m) (rr_GrantIDHash m) v (rr_DenyUntil m));
    field_of "deny_until" decode_int64 rr_DenyUntil
      (λ v m, RevocationRequest (rr_ChannelID m) (rr_ServiceID m) (rr_GrantIDHash m) (rr_Reason m) v) ].

(** [managementRecordingJobRequest], a struct of one field *)
Definition recording_request_fields : list (json_field Z) :=
  [ field_of "channel_id" (decode_uint 32) id (λ v _, v) ].

Definition recording_response_json (job : managementRecordingJob) : json :=
  JObject [("job_id", JString (job_jobID job)); ("state", JString (job_state job))].

Definition health_json (status eventDelivery : string) : json :=
  JObject [("status", JString status);
           ("capabilities", JObject [("event_delivery", JString eventDelivery);
                                     ("audit_retrieval", JBool false)])].

Record managementChannelSummary := ChannelSummary { cs_ChannelID : Z; cs_ParticipantCount : Z }.

Definition channel_list_json (channels : list managementChannelSummary) : json :=
  JObject [("channels", JArray ((λ c, JObject [("channel_id", jnum (cs_ChannelID c));
              ("participant_count", jnum (cs_ParticipantCount c))]) <$> channels))].

Record managementParticipant := Participant { mp_SenderID : Z; mp_State : string }.

Definition participant_list_json (channelID : Z) (participants : list managementParticipant) : json :=
  JObject [("channel_id", jnum channelID);
           ("participants", JArray ((λ p, JObject [("sender_id", jnum (mp_SenderID p));
              ("state", JString (mp_State p))]) <$> participants))].

Definition grant_response_json (grant : string) (expiresAt : Z) : json :=
  JObject [("grant", JString grant); ("expires_at", JString (Format_RFC3339 expiresAt))].

Definition revocation_response_json (ack : privateControlAck) : json :=
  JObject [("outcome", JString (ack_Outcome ack)); ("deny_until", jnum (ack_DenyUntil ack));
           ("affected_membership_count", jnum (ack_AffectedMembershipCount ack));
           ("talk_release_count", jnum (ack_TalkReleaseCount ack))].

Definition pending_response_json (messageID : string) (denyUntil : Z) : json :=
  JObject [("status", JString "pending_relay_ack"); ("message_id", JString messageID);
           ("deny_until", jnum denyUntil)].

Definition omit_none {A} (name : string) (enc : A → json) (o : option A) : list (string * json) :=
  match o with Some a => [(name, enc a)] | None => [] end.

Definition event_json (e : managementEvent) : json :=
  JObject ([("schema_version", JString (me_SchemaVersion e)); ("event_id", JString (me_EventID e));
            ("occurred_at", JString (me_OccurredAt e)); ("type", JString (me_Type e));
            ("channel_id", jopt jnum (me_ChannelID e))] ++
           omit_none "sender_id" jnum (me_SenderID e) ++
           omit_none "service_id" JString (me_ServiceID e) ++
           omit_none "recording_job_id" JString (me_RecordingJobID e) ++
           omit_none "state" JString (me_State e) ++ omit_none "reason" JString (me_Reason e)).

(** ** The server *)

Record managementAPI {R : Type} := API {
  api_state : managementState;
  api_authorizer : managementAPIAuthorizer;
  api_issuer : option serviceAdmissionGrantIssuer;
  api_revoker : option R;
  api_eventDelivery : string;
}.
Arguments managementAPI R : clear implicits.
Arguments API {R} _ _ _ _ _.

Definition managementAPIEventDeliveryDisabled : string := "disabled".
Definition managementAPIEventDeliveryLive : string := "live".

(** What a handler reads besides the request: the clock, at up to two
    instants, the random bytes, the iteration order of a map, and whether the
    writer is an [http.Flusher]. *)
Record request_env := RequestEnv {
  re_now : Z;
  re_later : Z;
  re_random : result string;
  re_channels : list (Z * gmap Z string);
  re_participants : list (Z * string);
  re_flusher : bool;
}.

(** What becomes of a request: a response, or an open event stream of a
    service, with its channel, the subscription to cancel at its end, and the
    response that starts it. *)
Inductive outcome :=
| Respond (response : http_response)
| OpenStream (service : managementAPIService) (channel subscription : Z) (response : http_response).

(** *** Paths *)

Definition recording_stop_prefix : string := "/v1/recording-jobs/".
Definition recording_stop_suffix : string := "/stop".

Definition managementAPIRecordingJobIDFromStopPath (path : string) : option string :=
  if negb (HasPrefix path recording_stop_prefix) || negb (HasSuffix path recording_stop_suffix) then None
  else
    let jobID := TrimSuffix (TrimPrefix path recording_stop_prefix) recording_stop_suffix in
    if ContainsByte jobID "/" || (RuneCountInString jobID =? 0) || (128 <? RuneCountInString jobID)
    then None else Some jobID.

Definition participants_prefix : string := "/v1/channels/".
Definition participants_suffix : string := "/participants".

Definition managementAPIChannelIDFromPath (path : string) : option Z :=
  if negb (HasPrefix path participants_prefix) || negb (HasSuffix path participants_suffix) then None
  else
    let value := TrimSuffix (TrimPrefix path participants_prefix) participants_suffix in
    if String.eqb value "" || ContainsByte value "/" then None
    else match parseManagementU32 value "channel_id" false with
         | Ok channelID => Some channelID
         | Err _ => None
         end.

(** *** The event stream *)

Definition canReceiveEvent (s : managementAPIService) (event : managementEvent) : bool :=
  match me_ChannelID event with
  | Some channelID => canReadEventChannel (Some s) channelID
  | None => String.eqb (me_Type event) "relay_health_changed" &&
            hasGlobalPermission s managementAPIHealthPermission
  end.

(** What [writeManagementSSEEvent(writer, event)] writes *)
Definition sse_event (event : managementEvent) : string :=
  "id: " +:+ me_EventID event +:+ newline +:+ "event: " +:+ me_Type event +:+ newline +:+
  "data: " +:+ print_json (event_json event) +:+ newline +:+ newline.

Definition sse_greeting : string := ": connected" +:+ newline +:+ newline.

(** What the [select] of the stream loop yields: the end of the request, the
    closed channel, or an event with what writing it returns. *)
Inductive stream_input :=
| StreamDone
| StreamClosed
| StreamEvent (event : managementEvent) (write_error : option error).

(** The loop of [handleEvents]: the events written in full. *)
Fixpoint stream_loop (service : managementAPIService) (inputs : list stream_input) : string :=
  match inputs with
  | [] => ""
  | StreamDone :: _ | StreamClosed :: _ => ""
  | StreamEvent event write_error :: inputs =>
      if negb (canReceiveEvent service event) then stream_loop service inputs
      else match write_error with
           | Some _ => ""
           | None => sse_event event +:+ stream_loop service inputs
           end
  end.

Definition canManageRecordingChannel (s : managementAPIService) (channelID : Z) : bool :=
  if negb (in_set (svc_apiRole s) ["recorder"; "operator"]) then false
  else bool_decide (channelID ∈ svc_channels s).

(** *** Revocation requests *)

Definition managementServiceAdmissionMaximumDenyWindow : Z := 90 * Minute.

(** The check of a request against the issued grant that it names. *)
Definition check_issued_grant (later : Z) (request : managementServiceAdmissionRevocationRequest)
    (issuer : option serviceAdmissionGrantIssuer)
    : option serviceAdmissionGrantIssuer * option error :=
  let '(issuer', found) := issuedGrant (rr_GrantIDHash request) later issuer in
  let err := Errorf "grant-specific revocation is outside the issued grant scope" [] in
  match found with
  | None => (issuer', Some err)
  | Some grant =>
      if negb (ig_channelID grant =? rr_ChannelID request) ||
         (negb (String.eqb (rr_ServiceID request) "") &&
          negb (String.eqb (rr_ServiceID request) (ig_serviceID grant))) ||
         (Unix (ig_expiresAt grant) <? rr_DenyUntil request)
      then (issuer', Some err) else (issuer', None)
  end.

(** [a.validateServiceAdmissionRevocation(request)]; [now] and [later] are
    the two readings of the clock. *)
Definition validateServiceAdmissionRevocation (now later : Z)
    (request : managementServiceAdmissionRevocationRequest) (issuer : option serviceAdmissionGrantIssuer)
    : option serviceAdmissionGrantIssuer * option error :=
  let now := Unix now in
  if negb (validServiceAdmissionRevocationReason (rr_Reason request)) ||
     (rr_DenyUntil request <=? now) ||
     (wrap_i64 (now + managementServiceAdmissionMaximumDenyWindow / Second) <? rr_DenyUntil request) ||
     (String.eqb (rr_ServiceID request) "" && String.eqb (rr_GrantIDHash request) "")
  then (issuer, Some (Errorf "invalid Service Admission revocation request" []))
  else if negb (String.eqb (rr_ServiceID request) "") && negb (validManagementServiceID (rr_ServiceID request))
  then (issuer, Some (Errorf "invalid service_id" []))
  else if String.eqb (rr_GrantIDHash request) "" then (issuer, None)
  else if negb (validPrivateControlGrantIDHash (rr_GrantIDHash request)) ||
          negb (bool_decide (is_Some issuer))
  then (issuer, Some (Errorf "unknown grant_id_hash" []))
  else check_issued_grant later request issuer.

(** ** Handlers *)

Section handlers.
Context (Sum256 : string → string) (Sign : string → string → string).
Context {R : Type}
  (revoke : managementServiceAdmissionRevocationRequest → R → R * (privateControlAck * string * option error)).

Definition with_state (s : managementState) (a : managementAPI R) : managementAPI R :=
  API s (api_authorizer a) (api_issuer a) (api_revoker a) (api_eventDelivery a).
Definition with_issuer (i : option serviceAdmissionGrantIssuer) (a : managementAPI R) : managementAPI R :=
  API (api_state a) (api_authorizer a) i (api_revoker a) (api_eventDelivery a).
Definition with_revoker (r : option R) (a : managementAPI R) : managementAPI R :=
  API (api_state a) (api_authorizer a) (api_issuer a) r (api_eventDelivery a).

Definition fail (status : Z) : outcome := Respond (writeManagementAPIError ∅ status).

(** [a.handleHealth(writer, service)] *)
Definition handleHealth (service : managementAPIService) (a : managementAPI R) : outcome :=
  if negb (hasGlobalPermission service managementAPIHealthPermission) then fail StatusForbidden
  else
    let eventDeliveryMode :=
      if String.eqb (api_eventDelivery a) "" then managementAPIEventDeliveryDisabled
      else api_eventDelivery a in
    Respond (writeJSON ∅ StatusOK
               (health_json (managementAPIHealthStatus (api_state a)) eventDeliveryMode)).

(** [a.handleChannels(writer, service)] *)
Definition handleChannels (env : request_env) (service : managementAPIService) (a : managementAPI R)
    : outcome :=
  if negb (canReadChannels service) then fail StatusForbidden
  else match managementAPIChannelState (api_state a) with
  | None => fail StatusServiceUnavailable
  | Some _ =>
      let channels :=
        omap (λ '(channelID, participants),
                if canReadChannel service channelID
                then Some (ChannelSummary channelID (len_map participants)) else None)
             (re_channels env) in
      Respond (writeJSON ∅ StatusOK (channel_list_json (sort_by cs_ChannelID Z.le channels)))
  end.

(** [a.handleParticipants(writer, service, channelID)] *)
Definition handleParticipants (env : request_env) (service : managementAPIService) (channelID : Z)
    (a : managementAPI R) : outcome :=
  if negb (canReadChannel service channelID) then fail StatusForbidden
  else match managementAPIChannelState (api_state a) with
  | None => fail StatusServiceUnavailable
  | Some _ =>
      let participants := (λ '(senderID, state), Participant senderID state) <$> re_participants env in
      Respond (writeJSON ∅ StatusOK
                 (participant_list_json channelID (sort_by mp_SenderID Z.le participants)))
  end.

(** [a.handleEvents(writer, request, service)] up to its loop *)
Definition handleEvents (env : request_env) (request : http_request) (service : managementAPIService)
    (a : managementAPI R) : managementAPI R * outcome :=
  if negb (String.eqb (rq_Method request) "GET")
  then (a, Respond (writeManagementAPIMethodNotAllowed "GET"))
  else match ms_liveEvents (api_state a) with
  | None => (a, fail StatusNotFound)
  | Some hub =>
      if negb (String.eqb (api_eventDelivery a) managementAPIEventDeliveryLive) then (a, fail StatusNotFound)
      else if bool_decide ("since" ∈ rq_QueryKeys request) then (a, fail StatusBadRequest)
      else if negb (canOpenEventStream (Some service)) then (a, fail StatusForbidden)
      else if negb (re_flusher env) then (a, fail StatusInternalServerError)
      else match hub_subscribe hub with
      | (hub', None) => (with_state (with_hub (Some hub') (api_state a)) a, fail StatusServiceUnavailable)
      | (hub', Some (channel, subscription)) =>
          (with_state (with_hub (Some hub') (api_state a)) a,
           OpenStream service channel subscription
             (Response StatusOK
                (<["Content-Type" := "text/event-stream"]> (<["Cache-Control" := "no-cache"]>
                 (<["Connection" := "keep-alive"]> {["X-Accel-Buffering" := "no"]})))
                sse_greeting))
      end
  end.

(** [a.handleServiceAdmissionGrant(writer, request, service)] *)
Definition handleServiceAdmissionGrant (env : request_env) (request : http_request)
    (service : managementAPIService) (a : managementAPI R) : managementAPI R * outcome :=
  if negb (String.eqb (rq_Method request) "POST")
  then (a, Respond (writeManagementAPIMethodNotAllowed "POST"))
  else if negb (bool_decide (is_Some (api_issuer a))) then (a, fail StatusServiceUnavailable)
  else if negb (in_set (svc_apiRole service) ["recorder"; "operator"]) then (a, fail StatusForbidden)
  else match decodeManagementAPIRequest grant_request_fields zero_grant_request (rq_Body request) with
  | Err _ => (a, fail StatusBadRequest)
  | Ok body =>
      match admissionACL (Some service) (gr_ChannelID body) (gr_SenderID body) with
      | None => (a, fail StatusForbidden)
      | Some acl =>
          match issue Sum256 Sign (re_random env) (svc_serviceID service) acl body (re_now env)
                  (api_issuer a) with
          | (issuer', Err e) =>
              (with_issuer issuer' a,
               fail (if errors_Is e errServiceAdmissionGrantTracking
                     then StatusServiceUnavailable else StatusBadRequest))
          | (issuer', Ok (grant, expiresAt)) =>
              (with_issuer issuer' a,
               Respond (writeJSON {["Cache-Control" := "no-store"]} StatusCreated
                          (grant_response_json grant expiresAt)))
          end
      end
  end.

(** What the handler writes when [revokeServiceAdmission] has returned. *)
Definition revocation_answer (body : managementServiceAdmissionRevocationRequest)
    (answer : privateControlAck * string * option error) : http_response :=
  match answer with
  | (ack, _, None) =>
      if negb (ack_DenyUntil ack =? rr_DenyUntil body)
      then writeManagementAPIError ∅ StatusServiceUnavailable
      else writeJSON ∅ StatusOK (revocation_response_json ack)
  | (_, messageID, Some e) =>
      if errors_Is e ErrContextDeadlineExceeded && negb (String.eqb messageID "")
      then writeJSON ∅ StatusAccepted (pending_response_json messageID (rr_DenyUntil body))
      else writeManagementAPIError ∅ StatusServiceUnavailable
  end.

(** [a.handleServiceAdmissionRevocation(writer, request, service)] *)
Definition handleServiceAdmissionRevocation (env : request_env) (request : http_request)
    (service : managementAPIService) (a : managementAPI R) : managementAPI R * outcome :=
  if negb (String.eqb (rq_Method request) "POST")
  then (a, Respond (writeManagementAPIMethodNotAllowed "POST"))
  else if negb (String.eqb (svc_apiRole service) "admin") ||
          negb (hasGlobalPermission service managementAPIRevokePermission)
  then (a, fail StatusForbidden)
  else match decodeManagementAPIRequest revocation_request_fields zero_revocation_request (rq_Body request) with
  | Err _ => (a, fail StatusBadRequest)
  | Ok body =>
      match validateServiceAdmissionRevocation (re_now env) (re_later env) body (api_issuer a) with
      | (issuer', Some _) => (with_issuer issuer' a, fail StatusBadRequest)
      | (issuer', None) =>
          let a := with_issuer issuer' a in
          match api_revoker a with
          | None => (a, fail StatusServiceUnavailable)
          | Some revoker =>
              let '(revoker', answer) := revoke body revoker in
              (with_revoker (Some revoker') a, Respond (revocation_answer body answer))
          end
      end
  end.

(** [a.handleRecordingJobStart(writer, request, service)] *)
Definition handleRecordingJobStart (env : request_env) (request : http_request)
    (service : managementAPIService) (a : managementAPI R) : managementAPI R * outcome :=
  if negb (String.eqb (rq_Method request) "POST")
  then (a, Respond (writeManagementAPIMethodNotAllowed "POST"))
  else match decodeManagementAPIRequest recording_request_fields 0 (rq_Body request) with
  | Err _ => (a, fail StatusBadRequest)
  | Ok channelID =>
      if negb (canManageRecordingChannel service channelID) then (a, fail StatusForbidden)
      else
        let '(jobs', created) :=
          jobs_create (re_random env) channelID (svc_serviceID service) (ms_recordingJobs (api_state a)) in
        let a' := with_state (with_jobs jobs' (api_state a)) a in
        match created with
        | Err _ => (a', fail StatusServiceUnavailable)
        | Ok job => (a', Respond (writeJSON {["Cache-Control" := "no-store"]} StatusCreated
                                    (recording_response_json job)))
        end
  end.

(** [a.handleRecordingJobStop(writer, request, service, jobID)] *)
Definition handleRecordingJobStop (request : http_request) (service : managementAPIService)
    (jobID : string) (a : managementAPI R) : managementAPI R * outcome :=
  if negb (String.eqb (rq_Method request) "POST")
  then (a, Respond (writeManagementAPIMethodNotAllowed "POST"))
  else match jobs_get jobID (ms_recordingJobs (api_state a)) with
  | None => (a, fail StatusForbidden)
  | Some job =>
      if negb (canManageRecordingChannel service (job_channelID job)) then (a, fail StatusForbidden)
      else
        let jobs' := (jobs_stop jobID (ms_recordingJobs (api_state a))).1 in
        (with_state (with_jobs jobs' (api_state a)) a,
         Respond (Response StatusAccepted {["Cache-Control" := "no-store"]} ""))
  end.

(** [a.ServeHTTP(writer, request)], with [a.authenticate] *)
Definition ServeHTTP (env : request_env) (request : http_request) (a : managementAPI R)
    : managementAPI R * outcome :=
  match serviceForRequest (api_authorizer a) (rq_Fingerprint request) with
  | None => (a, fail StatusForbidden)
  | Some service =>
      let path := rq_Path request in
      let get (o : outcome) : managementAPI R * outcome :=
        if negb (String.eqb (rq_Method request) "GET")
        then (a, Respond (writeManagementAPIMethodNotAllowed "GET")) else (a, o) in
      if String.eqb path "/v1/health" then get (handleHealth service a)
      else if String.eqb path "/v1/channels" then get (handleChannels env service a)
      else if String.eqb path "/v1/events" then handleEvents env request service a
      else if String.eqb path "/v1/service-admission-grants"
      then handleServiceAdmissionGrant env request service a
      else if String.eqb path "/v1/service-admission-revocations"
      then handleServiceAdmissionRevocation env request service a
      else if String.eqb path "/v1/recording-jobs" then handleRecordingJobStart env request service a
      else match managementAPIRecordingJobIDFromStopPath path with
      | Some jobID => handleRecordingJobStop request service jobID a
      | None =>
          match managementAPIChannelIDFromPath path with
          | None => (a, fail StatusNotFound)
          | Some channelID => get (handleParticipants env service channelID a)
          end
      end
  end.
End handlers.

(** ** Paths *)

(** A path that starts with [p] and ends with [q] and what trimming both
    leaves: the part between them, or, when the two share the slash that ends
    [p] and starts [q], what follows that slash in [q]. *)
Definition path_between (p q path t : string) : Prop :=
  path = p +:+ t +:+ q ∨ (path = p +:+ t ∧ q = "/" +:+ t).

(** The two ends can only overlap in a slash. *)
Definition slash_ends (p q : string) : Prop :=
  ∀ u x t, p = u +:+ x → q = x +:+ t → x = "" ∨ x = "/".

Lemma TrimSuffix_short t x : TrimSuffix t (String x t) = t.
Proof.
  unfold TrimSuffix, HasSuffix. cbn [String.length].
  by rewrite (proj2 (Nat.leb_gt _ _)) by lia.
Qed.

Lemma trimmed_between p q path :
  slash_ends p q → HasPrefix path p = true → HasSuffix path q = true →
  path_between p q path (TrimSuffix (TrimPrefix path p) q).
Proof.
  intros Hends (t & ->)%HasPrefix_spec (u & Hu)%HasSuffix_spec. rewrite TrimPrefix_app.
  destruct (string_app_split _ _ _ _ Hu) as [(x & -> & ->)|(x & -> & ->)].
  { rewrite TrimSuffix_app. by left. }
  destruct (Hends u x t eq_refl eq_refl) as [->| ->].
  - left. rewrite !string_app_empty_l. pose proof (TrimSuffix_app "" t) as Ht.
    rewrite string_app_empty_l in Ht. by rewrite Ht.
  - right. change ("/" +:+ t) with (String "/"%char t). by rewrite TrimSuffix_short.
Qed.

Lemma between_trimmed p0 q path t :
  let p := p0 +:+ "/" in
  path_between p q path t →
  HasPrefix path p = true ∧ HasSuffix path q = true ∧ TrimSuffix (TrimPrefix path p) q = t.
Proof.
  intros p [->|[-> ->]].
  - split_and!; [by apply HasPrefix_spec; eauto| |by rewrite TrimPrefix_app, TrimSuffix_app].
    rewrite <-string_app_assoc. apply HasSuffix_app.
  - rewrite TrimPrefix_app. change ("/" +:+ t) with (String "/"%char t). rewrite TrimSuffix_short.
    split_and!; [by apply HasPrefix_spec; eauto| |done].
    unfold p. rewrite string_app_assoc. apply (HasSuffix_app p0).
Qed.

(** Every way to cut the literal [p] in two, in a goal [slash_ends p q]. *)
Ltac solve_slash_ends :=
  intros u x t Hp Hs; cbv in Hp, Hs;
  repeat (destruct u as [|? u];
    [subst x; solve [discriminate Hs|by left|by right]|
     first [discriminate Hp|injection Hp as <- Hp]]).

Lemma participants_ends : slash_ends participants_prefix participants_suffix.
Proof. solve_slash_ends. Qed.

Lemma recording_stop_ends : slash_ends recording_stop_prefix recording_stop_suffix.
Proof. solve_slash_ends. Qed.

Lemma RuneCount_nonneg s : 0 ≤ RuneCountInString s.
Proof.
  unfold RuneCountInString. remember (String.length s) as n eqn:Hn.
  revert s Hn. induction (lt_wf n) as [n _ IH]. intros [|a s] ->; [done|].
  cbn [fold_runes]. assert (∀ t, (String.length t < String.length (String a s))%nat →
    0 ≤ fold_runes (λ _ n, n + 1) 0 t) as Ht by (intros t Hl; by apply (IH _ Hl)).
  clear IH. cbn [String.length] in Ht.
  repeat (case_match; subst; cbn [String.length] in * );
    repeat match goal with |- context [fold_runes ?f ?e ?t] =>
      pose proof (Ht t ltac:(lia)); generalize dependent (fold_runes f e t); intros end; lia.
Qed.

Lemma path_value_u32 value c :
  (if String.eqb value "" || ContainsByte value "/" then None
   else match parseManagementU32 value "channel_id" false with Ok c => Some c | Err _ => None end)
  = Some c ↔ managementAPIDecimalPattern value = true ∧ ParseUint value 32 = Some c.
Proof.
  unfold parseManagementU32. destruct (managementAPIDecimalPattern value) eqn:Ed; cbn [negb].
  - assert (String.eqb value "" = false ∧ ContainsByte value "/" = false) as [-> ->].
    { unfold managementAPIDecimalPattern, match_plus in Ed. go_bool. split; [by destruct value|].
      unfold ContainsByte. apply negb_false_iff. eapply string_forallb_impl; [|done].
      intros d Hd. destruct (Ascii.eqb_spec "/" d) as [<-|]; [discriminate Hd|done]. }
    cbn [orb]. destruct (ParseUint value 32); simpl; naive_solver.
  - destruct (_ || _); simpl; naive_solver.
Qed.

(** C40: routing by path.  A participants path is recognised exactly when it
    is /v1/channels/, a decimal number that fits 32 bits and /participants; a
    stop path exactly when it is /v1/recording-jobs/, an identifier of 1 to
    128 characters without a slash and /stop, or the shorter
    /v1/recording-jobs/stop, in which prefix and suffix share a slash and
    which addresses the job named "stop". *)
Theorem paths_exact path :
  (∀ c, managementAPIChannelIDFromPath path = Some c ↔
     ∃ value, path = "/v1/channels/" +:+ value +:+ "/participants" ∧
              managementAPIDecimalPattern value = true ∧ ParseUint value 32 = Some c) ∧
  (∀ id, managementAPIRecordingJobIDFromStopPath path = Some id ↔
     (path = "/v1/recording-jobs/" +:+ id +:+ "/stop" ∨ path = "/v1/recording-jobs/stop" ∧ id = "stop") ∧
     ContainsByte id "/" = false ∧ 1 ≤ RuneCountInString id ≤ 128).
Proof.
  split.
  - intros c. unfold managementAPIChannelIDFromPath. cbv zeta. split.
    + destruct (HasPrefix path _) eqn:Hp; [|done]. destruct (HasSuffix path _) eqn:Hs; [|done].
      cbn [negb orb]. pose proof (trimmed_between _ _ _ participants_ends Hp Hs) as Hb. revert Hb.
      generalize (TrimSuffix (TrimPrefix path participants_prefix) participants_suffix) as t.
      intros t Hb [Hd Hv]%path_value_u32. destruct Hb as [->|[_ Ht]]; [by eauto|].
      rewrite string_app_cons, string_app_empty_l in Ht. injection Ht as <-. discriminate Hd.
    + intros (v & -> & Hd & Hv).
      destruct (between_trimmed "/v1/channels" participants_suffix
                  ("/v1/channels/" +:+ v +:+ "/participants") v (or_introl eq_refl)) as (Hp & Hs & Ht).
      change ("/v1/channels" +:+ "/") with participants_prefix in *. rewrite Hp, Hs. cbn [negb orb].
      rewrite Ht. by apply path_value_u32.
  - intros id. unfold managementAPIRecordingJobIDFromStopPath. cbv zeta. split.
    + destruct (HasPrefix path _) eqn:Hp; [|done]. destruct (HasSuffix path _) eqn:Hs; [|done].
      cbn [negb orb].
      pose proof (trimmed_between _ _ _ recording_stop_ends Hp Hs) as Hb. revert Hb.
      generalize (TrimSuffix (TrimPrefix path recording_stop_prefix) recording_stop_suffix) as t.
      intros t Hb. destruct (_ || _) eqn:Ec; [done|]. intros [= <-]. go_bool.
      assert (0 ≤ RuneCountInString t) by apply RuneCount_nonneg.
      split_and!; [|done|lia|done].
      destruct Hb as [->|[-> Ht]]; [by left|right].
      rewrite string_app_cons, string_app_empty_l in Ht. by injection Ht as <-.
    + intros (Hpath & Hc & Hl).
      destruct (between_trimmed "/v1/recording-jobs" recording_stop_suffix path id) as (Hp & Hs & Ht).
      { destruct Hpath as [->|[-> ->]]; [by left|by right]. }
      change ("/v1/recording-jobs" +:+ "/") with recording_stop_prefix in *. rewrite Hp, Hs. cbn [negb orb].
      rewrite Ht, Hc. cbn [orb].
      by rewrite (proj2 (Z.eqb_neq _ _)), (proj2 (Z.ltb_ge _ _)) by lia.
Qed.
