(* ===== verification/Access.v ===== *)
(** * Access control of the Management API

    What the handlers of [Api] may change and reveal: every change a request
    makes is one its service is entitled to, listings hold exactly the
    channels and participants the service may see, a stop request tells
    nothing about jobs outside the caller's channels, and a revocation request
    is accepted exactly within the scope of what was issued. *)

From S2P Require Export Api.

Open Scope Z_scope.

(** ** What a request may change *)

(** The jobs and the hub of the server. *)
Definition api_jobs {R} (a : managementAPI R) : gmap string managementRecordingJob :=
  match ms_recordingJobs (api_state a) with Some jobs => jobs_map jobs | None => ∅ end.
Definition api_hub {R} (a : managementAPI R) : option managementLiveEventHub :=
  ms_liveEvents (api_state a).

Definition is_admission_service (s : managementAPIService) : Prop :=
  svc_apiRole s ∈ ["recorder"; "operator"].
Definition is_revoking_admin (s : managementAPIService) : Prop :=
  svc_apiRole s = "admin" ∧ hasGlobalPermission s managementAPIRevokePermission = true.

(** Every change that a request of [s] made is one that [s] may make. *)
Record authorized_change {R} (s : managementAPIService) (method : string) (a a' : managementAPI R)
    : Prop := AuthorizedChange {
  change_authorizer : api_authorizer a' = api_authorizer a;
  change_channels : managementAPIChannelState (api_state a') = managementAPIChannelState (api_state a);
  change_issuer : api_issuer a' = api_issuer a ∨
    method = "POST" ∧ (is_admission_service s ∨ is_revoking_admin s);
  change_revoker : api_revoker a' = api_revoker a ∨ method = "POST" ∧ is_revoking_admin s;
  change_jobs : ∀ id, api_jobs a' !! id = api_jobs a !! id ∨
    ∃ job, api_jobs a' !! id = Some job ∧ method = "POST" ∧ is_admission_service s ∧
           job_channelID job ∈ svc_channels s;
  change_hub : api_hub a' = api_hub a ∨
    method = "GET" ∧ api_eventDelivery a = "live" ∧ canOpenEventStream (Some s) = true;
}.

Lemma authorized_refl {R} s method (a : managementAPI R) : authorized_change s method a a.
Proof. constructor; auto. Qed.

Lemma manage_channel_spec s c :
  canManageRecordingChannel s c = true ↔ is_admission_service s ∧ c ∈ svc_channels s.
Proof.
  unfold canManageRecordingChannel, is_admission_service.
  destruct (in_set _ _) eqn:E; simpl.
  - apply in_set_spec in E. rewrite bool_decide_eq_true. tauto.
  - split; [done|]. intros [Hs _]. apply in_set_spec in Hs. congruence.
Qed.

Lemma with_jobs_channels s jobs :
  managementAPIChannelState (with_jobs jobs s) = managementAPIChannelState s.
Proof. done. Qed.

Section authority.
Context (Sum256 : string → string) (Sign : string → string → string).
Context {R : Type}
  (revoke : managementServiceAdmissionRevocationRequest → R → R * (privateControlAck * string * option error)).
Implicit Types a : managementAPI R.

Lemma events_authorized env request s a :
  authorized_change s (rq_Method request) a (handleEvents env request s a).1.
Proof.
  unfold handleEvents. destruct (String.eqb (rq_Method request) "GET") eqn:Em; [|apply authorized_refl].
  apply String.eqb_eq in Em. cbn [negb]. cbv iota. destruct (ms_liveEvents (api_state a)) as [hub|];
    [|apply authorized_refl].
  destruct (String.eqb (api_eventDelivery a) _) eqn:Ed; [|apply authorized_refl].
  apply String.eqb_eq in Ed. cbn [negb]. cbv iota. case_match; [apply authorized_refl|].
  destruct (canOpenEventStream (Some s)) eqn:Ec; [|apply authorized_refl].
  cbn [negb]. cbv iota. case_match; [apply authorized_refl|].
  destruct (hub_subscribe hub) as [hub' [[channel subscription]|]]; cbn [fst];
    constructor; auto.
Qed.

Lemma grant_authorized env request s a :
  authorized_change s (rq_Method request) a
    (handleServiceAdmissionGrant Sum256 Sign env request s a).1.
Proof.
  unfold handleServiceAdmissionGrant.
  destruct (String.eqb (rq_Method request) "POST") eqn:Em; [|apply authorized_refl].
  apply String.eqb_eq in Em. cbn [negb]. cbv iota. case_match; [apply authorized_refl|].
  destruct (in_set (svc_apiRole s) _) eqn:Er; [|apply authorized_refl].
  apply in_set_spec in Er. cbn [negb]. cbv iota.
  destruct (decodeManagementAPIRequest _ _ _); [|apply authorized_refl].
  destruct (admissionACL _ _ _); [|apply authorized_refl].
  destruct (issue _ _ _ _ _ _ _ _) as [issuer' [[grant expiresAt]|e]]; cbn [fst];
    constructor; auto.
Qed.

Lemma revocation_authorized env request s a :
  authorized_change s (rq_Method request) a
    (handleServiceAdmissionRevocation revoke env request s a).1.
Proof.
  unfold handleServiceAdmissionRevocation.
  destruct (String.eqb (rq_Method request) "POST") eqn:Em; [|apply authorized_refl].
  apply String.eqb_eq in Em. cbn [negb]. cbv iota.
  destruct (_ || _) eqn:Er; [apply authorized_refl|]. go_bool.
  assert (is_revoking_admin s) as Hs by done.
  destruct (decodeManagementAPIRequest _ _ _) as [body|]; [|apply authorized_refl].
  destruct (validateServiceAdmissionRevocation _ _ _ _) as [issuer' [e|]].
  { constructor; auto. }
  cbn [api_revoker with_issuer]. destruct (api_revoker a) as [r|] eqn:Ea; [|by constructor; auto].
  destruct (revoke body r) as [r' [[ack messageID] [e|]]]; cbn [fst]; constructor; auto.
Qed.

Lemma job_start_authorized env request s a :
  authorized_change s (rq_Method request) a (handleRecordingJobStart env request s a).1.
Proof.
  unfold handleRecordingJobStart.
  destruct (String.eqb (rq_Method request) "POST") eqn:Em; [|apply authorized_refl].
  apply String.eqb_eq in Em. cbn [negb]. cbv iota.
  destruct (decodeManagementAPIRequest _ _ _) as [channelID|]; [|apply authorized_refl].
  destruct (canManageRecordingChannel s channelID) eqn:Ec; [|apply authorized_refl].
  apply manage_channel_spec in Ec as [Hs Hc]. cbn [negb]. cbv iota.
  destruct (jobs_create _ _ _ _) as [jobs' created] eqn:Ej.
  assert (authorized_change s (rq_Method request) a
            (with_state (with_jobs jobs' (api_state a)) a)) as Hok; [|by destruct created].
  constructor; auto. intros id. unfold api_jobs. cbn. unfold jobs_create in Ej.
  destruct (ms_recordingJobs (api_state a)) as [jobs|]; [|simplify_eq; by left].
  destruct (re_random env) as [raw|]; [|simplify_eq; by left].
  destruct (_ <=? _); simplify_eq; [by left|]. cbn.
  destruct (decide (id = newPrivateControlID raw)) as [->|Hne].
  - right. rewrite lookup_insert_eq. eauto.
  - left. by rewrite lookup_insert_ne.
Qed.

Lemma job_stop_authorized request s jobID a :
  authorized_change s (rq_Method request) a (handleRecordingJobStop request s jobID a).1.
Proof.
  unfold handleRecordingJobStop.
  destruct (String.eqb (rq_Method request) "POST") eqn:Em; [|apply authorized_refl].
  apply String.eqb_eq in Em. cbn [negb]. cbv iota.
  destruct (jobs_get _ _) as [job|] eqn:Eg; [|apply authorized_refl].
  destruct (canManageRecordingChannel s _) eqn:Ec; [|apply authorized_refl].
  apply manage_channel_spec in Ec as [Hs Hc]. cbn [negb fst]. cbv iota.
  constructor; auto. intros id. unfold api_jobs. cbn.
  destruct (ms_recordingJobs (api_state a)) as [jobs|]; [|by left].
  simpl in Eg. unfold jobs_stop. rewrite Eg. destruct (_ && _); [|by left]. cbn [fst jobs_map].
  destruct (decide (id = jobID)) as [->|Hne].
  - right. rewrite lookup_insert_eq. eexists. split; [done|]. done.
  - left. by rewrite lookup_insert_ne.
Qed.

(** An authenticated request changes only what its service may change. *)
Lemma serve_authorized env request s a :
  serviceForRequest (api_authorizer a) (rq_Fingerprint request) = Some s →
  authorized_change s (rq_Method request) a (ServeHTTP Sum256 Sign revoke env request a).1.
Proof.
  intros Hs. unfold ServeHTTP. rewrite Hs. cbv zeta.
  destruct (String.eqb _ "/v1/health"); [destruct (negb _); apply authorized_refl|].
  destruct (String.eqb _ "/v1/channels"); [destruct (negb _); apply authorized_refl|].
  destruct (String.eqb _ "/v1/events"); [apply events_authorized|].
  destruct (String.eqb _ "/v1/service-admission-grants"); [apply grant_authorized|].
  destruct (String.eqb _ "/v1/service-admission-revocations"); [apply revocation_authorized|].
  destruct (String.eqb _ "/v1/recording-jobs"); [apply job_start_authorized|].
  destruct (managementAPIRecordingJobIDFromStopPath _); [apply job_stop_authorized|].
  destruct (managementAPIChannelIDFromPath _); [destruct (negb _)|]; apply authorized_refl.
Qed.
End authority.

(** ** Listings *)

Lemma channel_state_listed {R} (a : managementAPI R) channels :
  managementAPIChannelState (api_state a) = Some channels → channels = ms_channels (api_state a).
Proof. unfold managementAPIChannelState. case_match; [done|]. by intros [= <-]. Qed.

(** The right to list channels: a role, and channels in the ACL. *)
Definition may_list (s : managementAPIService) : Prop :=
  svc_apiRole s ∈ ["viewer"; "recorder"; "operator"] ∧ svc_channels s ≠ ∅.

Definition may_list_channel (s : managementAPIService) (channelID : Z) : Prop :=
  svc_apiRole s ∈ ["viewer"; "recorder"; "operator"] ∧ channelID ∈ svc_channels s.

#[global] Instance may_list_dec s : Decision (may_list s).
Proof. unfold may_list. apply _. Defined.
#[global] Instance may_list_channel_dec s channelID : Decision (may_list_channel s channelID).
Proof. unfold may_list_channel. apply _. Defined.

Lemma canReadChannels_spec s : canReadChannels s = bool_decide (may_list s).
Proof.
  unfold canReadChannels, may_list. apply eq_true_iff_eq.
  rewrite bool_decide_eq_true, andb_true_iff, in_set_spec, Z.ltb_lt. apply and_iff_compat_l.
  rewrite <-leibniz_equiv_iff, <-size_non_empty_iff. lia.
Qed.

Lemma canReadChannel_spec s channelID : canReadChannel s channelID = bool_decide (may_list_channel s channelID).
Proof.
  unfold canReadChannel. rewrite canReadChannels_spec. unfold may_list, may_list_channel.
  destruct (decide (channelID ∈ svc_channels s)) as [Hin|Hin].
  - rewrite (bool_decide_true (_ ∈ _)) by exact Hin.
    destruct (bool_decide _) eqn:E; symmetry;
      [apply bool_decide_eq_true in E; apply bool_decide_eq_true|
       apply bool_decide_eq_false in E; apply bool_decide_eq_false]; set_solver.
  - rewrite (bool_decide_false (_ ∈ _)) by exact Hin. rewrite (bool_decide_false (_ ∧ channelID ∈ _)) by (intros [_ ?]; by apply Hin).
    by destruct (negb _).
Qed.

(** The state of the Relay is current: it comes from a snapshot of the open
    connection. *)
Definition current_state (s : managementState) : Prop := ms_connected s = true ∧ ms_snapshotAt s ≠ zero_time.

#[global] Instance current_state_dec s : Decision (current_state s).
Proof. unfold current_state. apply _. Defined.

Lemma channel_state_spec s :
  managementAPIChannelState s = if decide (current_state s) then Some (ms_channels s) else None.
Proof.
  destruct (decide (current_state s)) as [[Hc Hz]|Hno]; unfold managementAPIChannelState, IsZero.
  - by rewrite Hc, (proj2 (Z.eqb_neq _ _) Hz).
  - destruct (ms_connected s) eqn:Hc; [|done]. destruct (ms_snapshotAt s =? zero_time) eqn:Hz; [done|].
    destruct Hno. split; [done|by apply Z.eqb_neq].
Qed.

(** The channels of a state that a service may list. *)
Definition visible_channel (s : managementAPIService) (channels : gmap Z (gmap Z string))
    (c : managementChannelSummary) : Prop :=
  may_list_channel s (cs_ChannelID c) ∧
  ∃ participants, channels !! cs_ChannelID c = Some participants ∧
                  cs_ParticipantCount c = len_map participants.

Definition list_channels (s : managementAPIService) (order : list (Z * gmap Z string))
    : list managementChannelSummary :=
  omap (λ '(channelID, participants),
          if canReadChannel s channelID
          then Some (ChannelSummary channelID (len_map participants)) else None) order.

Lemma list_channels_elem s channels order c :
  map_order channels order → c ∈ list_channels s order ↔ visible_channel s channels c.
Proof.
  intros Ho. unfold list_channels, visible_channel. rewrite list_elem_of_omap.
  setoid_rewrite <-(bool_decide_eq_true (may_list_channel s (cs_ChannelID c))). rewrite <-canReadChannel_spec. split.
  - intros ([id ps] & Hin & Hc). apply (map_order_elem _ _ _ _ Ho) in Hin.
    destruct (canReadChannel s id) eqn:E; [|done]. simplify_eq/=. eauto.
  - intros [Hr (ps & Hps & Hn)]. exists (cs_ChannelID c, ps).
    split; [by apply (map_order_elem _ _ _ _ Ho)|]. rewrite Hr. destruct c; simpl in *. by subst.
Qed.

Lemma list_channels_NoDup s channels order :
  map_order channels order → NoDup (cs_ChannelID <$> list_channels s order).
Proof.
  intros Ho. apply map_order_NoDup in Ho. unfold list_channels.
  induction order as [|[id ps] order IH]; [constructor|]. cbn [omap list_omap] in *.
  apply NoDup_cons in Ho as [Hnot Hnd]. specialize (IH Hnd).
  destruct (canReadChannel s id); [|done]. cbn [fmap list_fmap]. constructor; [|done].
  intros (c & Hc & Hin)%list_elem_of_fmap. apply list_elem_of_omap in Hin as ([id' ps'] & Hin & Hf).
  destruct (canReadChannel s id'); simplify_eq/=. apply Hnot. by apply (list_elem_of_fmap_2 fst _ (_, _)) in Hin.
Qed.

(** The list answered for a listing: sorted by key, without repetition. *)
Definition listing {A} (key : A → Z) (visible : A → Prop) (l : list A) : Prop :=
  NoDup (key <$> l) ∧ StronglySorted (key_le key Z.le) l ∧ ∀ x, x ∈ l ↔ visible x.

Lemma sort_by_listing {A} (key : A → Z) visible l :
  NoDup (key <$> l) → (∀ x, x ∈ l ↔ visible x) → listing key visible (sort_by key Z.le l).
Proof.
  intros Hnd Hl. pose proof (sort_by_perm key Z.le l) as Hp. split_and!.
  - by rewrite Hp.
  - apply sort_by_sorted; apply _.
  - intros x. by rewrite Hp.
Qed.

(** The participants that a listing of one channel holds. *)
Definition visible_participant (channels : gmap Z (gmap Z string)) (channelID : Z)
    (p : managementParticipant) : Prop :=
  participant_state channels channelID (mp_SenderID p) = Some (mp_State p).

Lemma list_participants_elem channels channelID order p :
  map_order (default ∅ (channels !! channelID)) order →
  p ∈ (λ '(senderID, state), Participant senderID state) <$> order ↔
  visible_participant channels channelID p.
Proof.
  intros Ho. unfold visible_participant. rewrite participant_state_default.
  rewrite <-(map_order_elem _ _ _ _ Ho), list_elem_of_fmap. split.
  - by intros ([sender state] & -> & Hin).
  - intros Hin. exists (mp_SenderID p, mp_State p). by destruct p.
Qed.

Lemma list_participants_NoDup (m : gmap Z string) order :
  map_order m order →
  NoDup (mp_SenderID <$> ((λ '(senderID, state), Participant senderID state) <$> order)).
Proof.
  intros Ho%map_order_NoDup. rewrite <-list_fmap_compose.
  by replace (mp_SenderID ∘ _ <$> order) with order.*1
    by (apply list_fmap_ext; by intros i [sender state]).
Qed.

(** ** Revocation requests *)

(** The grant that a request names was issued, has not expired, and the
    request stays within it. *)
Definition within_issued_grant (later : Z) (request : managementServiceAdmissionRevocationRequest)
    (issuer : option serviceAdmissionGrantIssuer) : Prop :=
  ∃ i grant, issuer = Some i ∧ is_issued i !! rr_GrantIDHash request = Some grant ∧
    later < ig_expiresAt grant ∧ ig_channelID grant = rr_ChannelID request ∧
    (rr_ServiceID request ≠ "" → rr_ServiceID request = ig_serviceID grant) ∧
    rr_DenyUntil request ≤ Unix (ig_expiresAt grant).

(** A revocation request that the API passes on. *)
Definition admissible_revocation (now later : Z) (request : managementServiceAdmissionRevocationRequest)
    (issuer : option serviceAdmissionGrantIssuer) : Prop :=
  rr_Reason request ∈ ["acl_removed"; "service_disabled"; "grant_revoked"] ∧
  Unix now < rr_DenyUntil request ≤ Unix now + 5400 ∧
  (rr_ServiceID request = "" → rr_GrantIDHash request ≠ "") ∧
  (rr_ServiceID request ≠ "" → validManagementServiceID (rr_ServiceID request) = true) ∧
  (rr_GrantIDHash request ≠ "" →
     validPrivateControlGrantIDHash (rr_GrantIDHash request) = true ∧
     within_issued_grant later request issuer).

(** What validation leaves of the issuer: expired grants may be dropped. *)
Definition same_or_cleaned (later : Z) (issuer issuer' : option serviceAdmissionGrantIssuer) : Prop :=
  issuer' = issuer ∨ issuer' = cleanupIssuedLocked later <$> issuer.

Lemma check_issued_grant_exact later request issuer :
  let '(issuer', err) := check_issued_grant later request issuer in
  same_or_cleaned later issuer issuer' ∧ (err = None ↔ within_issued_grant later request issuer).
Proof.
  unfold check_issued_grant, within_issued_grant, same_or_cleaned.
  destruct issuer as [i|]; cbn [issuedGrant]; [|split; [by left|naive_solver]].
  rewrite cleanup_lookup. destruct (is_issued i !! rr_GrantIDHash request) as [g|] eqn:Eg.
  2:{ split; [by right|]. split; [done|]. intros (i' & grant & [= <-] & Hg & _). congruence. }
  destruct (later <? ig_expiresAt g) eqn:El; go_bool.
  2:{ split; [by right|]. split; [done|]. intros (i' & grant & [= <-] & Hg & Hlt & _). simplify_eq. lia. }
  destruct (_ || _) eqn:Ec.
  - split; [by right|]. split; [done|]. intros (i' & grant & [= <-] & Hg & _ & Hc & Hs & Hd).
    simplify_eq. rewrite Hc, Z.eqb_refl in Ec. cbn [negb orb] in Ec.
    rewrite (proj2 (Z.ltb_ge _ _)), orb_false_r in Ec by done. go_bool.
    rewrite (Hs ltac:(done)) in *. done.
  - split; [by right|]. split; [|done]. intros _. go_bool. exists i, g. split_and!; try done.
    intros Hs. destruct (String.eqb_spec (rr_ServiceID request) ""); [done|]. cbn [negb andb] in *.
    by go_bool.
Qed.

Lemma validate_exact now later request issuer :
  is_i64 (Unix now + 5400) →
  let '(issuer', err) := validateServiceAdmissionRevocation now later request issuer in
  same_or_cleaned later issuer issuer' ∧
  (err = None ↔ admissible_revocation now later request issuer).
Proof.
  intros Hclock. unfold validateServiceAdmissionRevocation, admissible_revocation. cbv zeta.
  change (managementServiceAdmissionMaximumDenyWindow / Second) with 5400.
  rewrite wrap_i64_small by done.
  pose proof (check_issued_grant_exact later request issuer) as Hg.
  destruct (_ || _) eqn:E1.
  { split; [by left|]. split; [done|]. intros (Hr & Hd & Hn & _). exfalso.
    apply in_set_spec in Hr. unfold validServiceAdmissionRevocationReason in E1. rewrite Hr in E1.
    rewrite (proj2 (Z.leb_gt _ _)), (proj2 (Z.ltb_ge _ _)) in E1 by lia. cbn [negb orb] in E1.
    go_bool. by apply Hn. }
  go_bool.
  assert (rr_Reason request ∈ ["acl_removed"; "service_disabled"; "grant_revoked"]) as Hr
    by by apply in_set_spec.
  assert (rr_ServiceID request = "" → rr_GrantIDHash request ≠ "") as Hn.
  { intros Hs Hh. by rewrite Hs, Hh in *. }
  destruct (negb (String.eqb (rr_ServiceID request) "") && _) eqn:E2.
  { split; [by left|]. split; [done|]. go_bool. intros (_ & _ & _ & Hv & _).
    by rewrite Hv in *. }
  assert (rr_ServiceID request ≠ "" → validManagementServiceID (rr_ServiceID request) = true) as Hv.
  { intros Hs%String.eqb_neq. rewrite Hs in E2. cbn [negb andb] in E2. by go_bool. }
  destruct (String.eqb_spec (rr_GrantIDHash request) "") as [Eh|Eh].
  { split; [by left|]. split; [|done]. by intros _. }
  destruct (negb (validPrivateControlGrantIDHash _) || _) eqn:E3.
  { split; [by left|]. split; [done|]. intros (_ & _ & _ & _ & Hg'). exfalso.
    destruct (Hg' Eh) as (Hh & i & g & -> & _). rewrite Hh in E3. discriminate E3. }
  go_bool. destruct (check_issued_grant later request issuer) as [issuer' err].
  destruct Hg as [Hsame Hiff]. split; [done|]. rewrite Hiff. naive_solver.
Qed.

(** ** Stop requests *)

(** The job that a service may stop under an ID. *)
Definition job_in_scope {R} (s : managementAPIService) (a : managementAPI R) (id : string)
    : option managementRecordingJob :=
  job ← api_jobs a !! id;
  if canManageRecordingChannel s (job_channelID job) then Some job else None.

Definition stopping_job (job : managementRecordingJob) : managementRecordingJob :=
  if in_set (job_state job) ["stopped"; "failed"] then job else with_job_state "stopping" job.

Lemma jobs_get_api {R} (a : managementAPI R) id : jobs_get id (ms_recordingJobs (api_state a)) = api_jobs a !! id.
Proof. unfold api_jobs. by destruct (ms_recordingJobs (api_state a)). Qed.

Lemma stop_response {R} request s id (a : managementAPI R) :
  (handleRecordingJobStop request s id a).2 =
  if negb (String.eqb (rq_Method request) "POST")
  then Respond (writeManagementAPIMethodNotAllowed "POST")
  else match job_in_scope s a id with
       | Some _ => Respond (Response StatusAccepted {["Cache-Control" := "no-store"]} "")
       | None => fail StatusForbidden
       end.
Proof.
  unfold handleRecordingJobStop, job_in_scope. case_match; [done|]. rewrite jobs_get_api.
  destruct (api_jobs a !! id) as [job|]; [|done]. simpl. by destruct (canManageRecordingChannel _ _).
Qed.

Lemma stop_jobs {R} request s id (a : managementAPI R) id' :
  api_jobs (handleRecordingJobStop request s id a).1 !! id' =
  if decide (rq_Method request = "POST" ∧ id' = id)
  then match job_in_scope s a id with
       | Some job => Some (stopping_job job)
       | None => api_jobs a !! id'
       end
  else api_jobs a !! id'.
Proof.
  unfold handleRecordingJobStop, job_in_scope. rewrite jobs_get_api.
  destruct (String.eqb_spec (rq_Method request) "POST") as [Hm|Hm]; cbn [negb].
  2:{ by rewrite decide_False by tauto. }
  destruct (api_jobs a !! id) as [job|] eqn:Ej; simpl; [|by destruct (decide _)].
  destruct (canManageRecordingChannel _ _); cbn [negb fst]; [|by destruct (decide _)].
  unfold api_jobs in *. cbn [api_state with_state with_jobs ms_recordingJobs].
  destruct (ms_recordingJobs (api_state a)) as [jobs|]; [|by rewrite lookup_empty in Ej].
  cbn [jobs_stop]. rewrite Ej. unfold stopping_job.
  replace (in_set (job_state job) ["stopped"; "failed"])
    with (negb (negb (String.eqb (job_state job) "stopped") && negb (String.eqb (job_state job) "failed"))).
  2:{ destruct (in_set _ _) eqn:E.
      - apply in_set_spec in E. rewrite !elem_of_cons, elem_of_nil in E.
        by destruct E as [->|[->|[]]].
      - destruct (String.eqb_spec (job_state job) "stopped") as [Es|]; [by rewrite Es in E|].
        destruct (String.eqb_spec (job_state job) "failed") as [Es|]; [by rewrite Es in E|done]. }
  destruct (_ && _); cbn [negb fst jobs_map].
  - destruct (decide _) as [[_ ->]|Hne]; [apply lookup_insert_eq|].
    apply lookup_insert_ne. intros ->. tauto.
  - destruct (decide _) as [[_ ->]|Hne]; [done|done].
Qed.

(** ** Examples *)

Definition example_channels : gmap Z (gmap Z string) := {[5 := {[9 := "idle"; 3 := "talking"]}; 6 := ∅]}.
Definition example_job : managementRecordingJob := RecordingJob "job-1" 5 "svc" "recording".
Definition example_service : managementAPIService :=
  Service "svc" "recorder" true {[5]} {[(5, 9) := AdmissionACL "recorder" true false false 0 true]} ∅.
Definition example_api (jobs : gmap string managementRecordingJob) : managementAPI unit :=
  API (ManagementState "relay" true 1 1 "" example_channels 1 None (Some (Jobs jobs)))
    zero_authorizer None None "disabled".
Definition example_env : request_env :=
  RequestEnv 0 0 (Ok "") (map_to_list example_channels)
    (map_to_list (default ∅ (example_channels !! 5))) true.
Definition example_stop : http_request := Request "POST" "/v1/recording-jobs/job-1/stop" [] "" None.
Definition example_revocation : managementServiceAdmissionRevocationRequest :=
  RevocationRequest 5 "svc" "" "acl_removed" 100.

(** ** Properties *)

(** C18: authority.  Without a client certificate of an enabled service a
    request changes nothing and is answered 403.  Otherwise, whatever the
    request, its service's rights bound its effects: the authorizer and the
    channel state never change, the record of grants only by a recorder,
    operator or revoking admin, the revoker is called only for a revoking
    admin, only jobs on the service's own channels change and only for a
    recorder or operator, and only a service that may read events subscribes. *)
Theorem request_authority Sum256 Sign {R}
    (revoke : managementServiceAdmissionRevocationRequest → R → R * (privateControlAck * string * option error))
    env request (a : managementAPI R) :
  let '(a', out) := ServeHTTP Sum256 Sign revoke env request a in
  match serviceForRequest (api_authorizer a) (rq_Fingerprint request) with
  | None => a' = a ∧ out = fail StatusForbidden
  | Some s => authorized_change s (rq_Method request) a a'
  end.
Proof.
  destruct (serviceForRequest _ _) as [s|] eqn:Es.
  - pose proof (serve_authorized Sum256 Sign revoke env request s a Es) as Ha.
    by destruct (ServeHTTP _ _ _ _ _ _).
  - unfold ServeHTTP. by rewrite Es.
Qed.

(** C29: listings are exact.  Whatever order the maps are traversed in, the
    channel listing holds exactly the channels of the current relay state that
    the service's ACL names, with their numbers of participants, and the
    participant listing exactly the participants of the channel with their
    states, both sorted and without repetition.  The right to a listing is a
    viewer's, recorder's or operator's whose ACL names a channel, or this
    channel; a service without it gets 403, and without a snapshot on the open
    connection everyone else gets 503. *)
Theorem listings_exact {R} env s channelID (a : managementAPI R) :
  let channels := ms_channels (api_state a) in
  map_order channels (re_channels env) →
  map_order (default ∅ (channels !! channelID)) (re_participants env) →
  ∃ cs ps,
    listing cs_ChannelID (visible_channel s channels) cs ∧
    listing mp_SenderID (visible_participant channels channelID) ps ∧
    let answer (value : json) :=
      if decide (current_state (api_state a)) then Respond (writeJSON ∅ StatusOK value)
      else fail StatusServiceUnavailable in
    handleChannels env s a =
      (if decide (may_list s) then answer (channel_list_json cs) else fail StatusForbidden) ∧
    handleParticipants env s channelID a =
      (if decide (may_list_channel s channelID) then answer (participant_list_json channelID ps)
       else fail StatusForbidden).
Proof.
  intros channels Hc Hp.
  exists (sort_by cs_ChannelID Z.le (list_channels s (re_channels env))).
  eexists. split; [|split; [|split]].
  - apply sort_by_listing; [by eapply list_channels_NoDup|by intros; apply list_channels_elem].
  - apply sort_by_listing; [by eapply list_participants_NoDup|by intros; apply list_participants_elem].
  - unfold handleChannels. rewrite canReadChannels_spec, channel_state_spec.
    destruct (decide (may_list s)) as [H|H]; [rewrite bool_decide_true by exact H|by rewrite bool_decide_false by exact H].
    by destruct (decide (current_state _)).
  - unfold handleParticipants. rewrite canReadChannel_spec, channel_state_spec.
    destruct (decide (may_list_channel s channelID)) as [H|H];
      [rewrite bool_decide_true by exact H|by rewrite bool_decide_false by exact H].
    by destruct (decide (current_state _)).
Qed.

Lemma listings_exact_witness :
  ∃ cs ps,
    listing cs_ChannelID (visible_channel example_service example_channels) cs ∧
    listing mp_SenderID (visible_participant example_channels 5) ps ∧
    handleChannels example_env example_service (example_api ∅) =
      Respond (writeJSON ∅ StatusOK (channel_list_json cs)) ∧
    handleParticipants example_env example_service 5 (example_api ∅) =
      Respond (writeJSON ∅ StatusOK (participant_list_json 5 ps)).
Proof.
  apply (listings_exact example_env example_service 5 (example_api ∅)); apply map_order_default.
Defined.

(** C27: which revocation requests pass.  A request is passed on exactly when
    its reason is one of the three, its deadline lies in the next 90 minutes,
    it names a service (validly) or a grant, and a named grant was issued by
    this process, has not expired, is for the same channel and service, and
    outlives the deadline; checking at most drops expired grants. *)
Theorem revocation_request_exact now later request issuer :
  is_i64 (Unix now + 5400) →
  let '(issuer', err) := validateServiceAdmissionRevocation now later request issuer in
  same_or_cleaned later issuer issuer' ∧
  (err = None ↔ admissible_revocation now later request issuer).
Proof. apply validate_exact. Qed.

Lemma revocation_request_exact_witness :
  let '(issuer', err) := validateServiceAdmissionRevocation 0 0 example_revocation None in
  same_or_cleaned 0 None issuer' ∧ (err = None ↔ admissible_revocation 0 0 example_revocation None).
Proof. apply (revocation_request_exact 0 0 example_revocation None). by vm_compute. Defined.

(** C37: stop requests disclose nothing.  What a service is answered depends
    only on the jobs of its own channels: two servers that agree on these give
    the same answer to any stop request, so an unknown job and a job of a
    foreign channel cannot be told apart.  A permitted stop moves exactly the
    addressed job, and every other request leaves all jobs as they were. *)
Theorem recording_stop_confined {R} request s id (a a2 : managementAPI R) :
  (∀ id, job_in_scope s a id = job_in_scope s a2 id) →
  (handleRecordingJobStop request s id a).2 = (handleRecordingJobStop request s id a2).2 ∧
  ∀ id', api_jobs (handleRecordingJobStop request s id a).1 !! id' =
    if decide (rq_Method request = "POST" ∧ id' = id)
    then match job_in_scope s a id with
         | Some job => Some (stopping_job job)
         | None => api_jobs a !! id'
         end
    else api_jobs a !! id'.
Proof.
  intros Hagree. split; [by rewrite !stop_response, Hagree|]. intros id'. apply stop_jobs.
Qed.

(** A job of channel 6, which is foreign to the service, and no job at all. *)
Lemma recording_stop_confined_witness :
  let a := example_api {["job-1" := example_job; "job-2" := RecordingJob "job-2" 6 "other" "recording"]} in
  let a2 := example_api {["job-1" := example_job]} in
  (handleRecordingJobStop example_stop example_service "job-2" a).2 =
  (handleRecordingJobStop example_stop example_service "job-2" a2).2 ∧
  ∀ id', api_jobs (handleRecordingJobStop example_stop example_service "job-2" a).1 !! id' =
    if decide (rq_Method example_stop = "POST" ∧ id' = "job-2")
    then match job_in_scope example_service a "job-2" with
         | Some job => Some (stopping_job job)
         | None => api_jobs a !! id'
         end
    else api_jobs a !! id'.
Proof.
  cbv zeta. apply recording_stop_confined. intros id. unfold job_in_scope, api_jobs. cbn.
  destruct (decide (id = "job-1")) as [->|H1]; [by rewrite lookup_insert_eq, lookup_singleton_eq|].
  rewrite lookup_insert_ne, (lookup_singleton_ne "job-1") by done.
  destruct (decide (id = "job-2")) as [->|H2]; [by rewrite lookup_singleton_eq|].
  by rewrite lookup_singleton_ne.
Defined.
