(* ===== verification/GrantEndpoint.v ===== *)
(** * From the files to a grant

    The grant endpoint end to end: what a 201 answer to a grant request says
    about the three ACL files, the client certificate, the request body and
    the token in the response. *)

From S2P Require Export Access.

Open Scope Z_scope.

Section endpoint.
Context (Sum256 : string → string) (Sign : string → string → string).
Context {R : Type}
  (revoke : managementServiceAdmissionRevocationRequest → R → R * (privateControlAck * string * option error)).
Implicit Types a : managementAPI R.

Definition grant_path : string := "/v1/service-admission-grants".

(** A 201 answer is a grant that [issue] returned for an ACL of the caller. *)
Inductive granted (env : request_env) (request : http_request) (s : managementAPIService) a
    (a' : managementAPI R) (response : http_response) : Prop :=
| Granted body acl i' grant expiresAt :
    rq_Method request = "POST" → svc_apiRole s ∈ ["recorder"; "operator"] →
    decodeManagementAPIRequest grant_request_fields zero_grant_request (rq_Body request) = Ok body →
    svc_admissions s !! (gr_ChannelID body, gr_SenderID body) = Some acl →
    issue Sum256 Sign (re_random env) (svc_serviceID s) acl body (re_now env) (api_issuer a) =
      (i', Ok (grant, expiresAt)) →
    a' = with_issuer i' a →
    response = writeJSON {["Cache-Control" := "no-store"]} StatusCreated (grant_response_json grant expiresAt) →
    granted env request s a a' response.

Lemma fail_status status response : fail status = Respond response → rs_Status response = status.
Proof. by intros [= <-]. Qed.

Lemma handleServiceAdmissionGrant_created env request s a a' response :
  handleServiceAdmissionGrant Sum256 Sign env request s a = (a', Respond response) →
  rs_Status response = StatusCreated → granted env request s a a' response.
Proof.
  assert (∀ x status, (x, fail status) = (a', Respond response) → status ≠ StatusCreated →
    rs_Status response = StatusCreated → granted env request s a a' response) as Hfail.
  { intros x status Hf Hne Hst. apply (f_equal snd), fail_status in Hf. simpl in Hf. congruence. }
  unfold handleServiceAdmissionGrant. destruct (String.eqb_spec (rq_Method request) "POST") as [Hm|]; cbn [negb].
  2: { intros [= _ <-]. discriminate. }
  destruct (bool_decide _); cbn [negb]; [|intros H; by apply (Hfail _ _ H)].
  destruct (in_set _ _) eqn:Erole; cbn [negb]; [|intros H; by apply (Hfail _ _ H)]. apply in_set_spec in Erole.
  destruct (decodeManagementAPIRequest _ _ _) as [body|] eqn:Ebody; [|intros H; by apply (Hfail _ _ H)].
  destruct (admissionACL _ _ _) as [acl|] eqn:Eacl; [|intros H; by apply (Hfail _ _ H)].
  assert (svc_admissions s !! (gr_ChannelID body, gr_SenderID body) = Some acl) as Hacl.
  { unfold admissionACL in Eacl. cbn [mbind option_bind] in Eacl.
    destruct (svc_admissions s !! _) as [x|]; cbn [mbind option_bind] in Eacl; [|done].
    destruct (acl_enabled x); [by injection Eacl as ->|done]. }
  destruct (issue _ _ _ _ _ _ _ _) as [i' [[grant expiresAt]|e]] eqn:Ei.
  - intros [= <- <-] _. by econstructor.
  - intros H. apply (Hfail _ _ H). by destruct (errors_Is _ _).
Qed.

Lemma serve_grant env request s a :
  serviceForRequest (api_authorizer a) (rq_Fingerprint request) = Some s → rq_Path request = grant_path →
  ServeHTTP Sum256 Sign revoke env request a = handleServiceAdmissionGrant Sum256 Sign env request s a.
Proof. intros Hs Hp. unfold ServeHTTP. rewrite Hs, Hp. reflexivity. Qed.

Lemma unauthenticated env request a a' response :
  serviceForRequest (api_authorizer a) (rq_Fingerprint request) = None →
  ServeHTTP Sum256 Sign revoke env request a = (a', Respond response) → rs_Status response = StatusForbidden.
Proof. intros Hs. unfold ServeHTTP. rewrite Hs. by intros [= <- <-]. Qed.
End endpoint.

(** The ACL of an authenticated service is within its limits. *)
Lemma authenticated_acl a fingerprint s key acl :
  az_ok a → serviceForRequest a fingerprint = Some s → svc_admissions s !! key = Some acl → acl_ok key acl.
Proof.
  intros Hok. unfold serviceForRequest. destruct fingerprint as [fp|]; cbn [mbind option_bind]; [|done].
  destruct (service_by_fingerprint a fp) as [s'|] eqn:E; cbn [mbind option_bind]; [|done].
  destruct (svc_enabled s'); [|done]. intros [= ->].
  apply (service_by_fingerprint_by_id _ _ _ Hok) in E. destruct (az_ok_service _ _ _ Hok E) as [Hs _].
  apply (service_acls s Hs).
Qed.

(** ** Properties *)

(** C10: a token comes from the files.  When the API, with an authorizer that
    was loaded from the three files, answers a grant request with 201, the
    client's certificate is that of an enabled row of the services file with
    the role recorder or operator, the request body decodes to a grant
    request, an enabled row of the ACL file grants that service the channel
    and sender asked for, and the response holds a token that opens with the
    public key of the issuer to claims within that row and that request. *)
Theorem token_from_files Sum256 Sign Verify publicKey {R}
    (revoke : managementServiceAdmissionRevocationRequest → R → R * (privateControlAck * string * option error))
    os_open servicesFile channelACLFile globalPermissionsFile env request (a a' : managementAPI R) i response :
  loadManagementAPIAuthorizer os_open servicesFile channelACLFile globalPermissionsFile = Ok (api_authorizer a) →
  api_issuer a = Some i → issuer_ok i → utf8_Valid (is_issuer i) = true → utf8_Valid (is_audience i) = true →
  (∀ m, Verify publicKey m (Sign (is_privateKey i) m) = true) → 0 ≤ re_now env →
  rq_Path request = grant_path → ServeHTTP Sum256 Sign revoke env request a = (a', Respond response) →
  rs_Status response = StatusCreated →
  ∃ fingerprint serviceID role srows arows body acl grant claims,
    rq_Fingerprint request = Some fingerprint ∧
    readManagementCSV (os_open servicesFile) services_header = Ok srows ∧
    service_declared srows serviceID fingerprint role true ∧ role ∈ ["recorder"; "operator"] ∧
    decodeManagementAPIRequest grant_request_fields zero_grant_request (rq_Body request) = Ok body ∧
    readManagementCSV (os_open channelACLFile) acl_header = Ok arows ∧
    acl_granted arows serviceID (gr_ChannelID body, gr_SenderID body) acl ∧
    rs_Body response = print_json (grant_response_json grant (gc_ExpiresAt claims * Second)) +:+ newline ∧
    open_grant Verify publicKey grant = Some (grant_header_json (is_keyID i), grant_claims_json claims) ∧
    claims_within Sum256 i serviceID acl body (re_now env) claims.
Proof.
  intros Hload Hi Hok Hiss Haud Hverify Hnow Hpath Hserve Hst.
  destruct (serviceForRequest (api_authorizer a) (rq_Fingerprint request)) as [s|] eqn:Es.
  2: { pose proof (unauthenticated _ _ _ _ _ _ _ _ Es Hserve) as Hno. by rewrite Hst in Hno. }
  rewrite (serve_grant _ _ _ _ _ s) in Hserve by done.
  destruct (handleServiceAdmissionGrant_created _ _ _ _ _ _ _ _ Hserve Hst)
    as [body acl i' grant expiresAt _ Hrole Hbody Hacl Hissue _ ->].
  destruct (authorizer_rights _ _ _ _ _ Hload) as (srows & arows & prows & Hs & Ha & _ & Hdecl & Hrights).
  pose proof (loadManagementAPIAuthorizer_ok _ _ _ _ _ Hload) as Haz.
  destruct (rq_Fingerprint request) as [fp|] eqn:Efp; [|done].
  destruct (Hrights fp s Es) as [Hadm _]. rewrite Hi in Hissue.
  destruct (issue_opens Sum256 Sign Verify publicKey _ _ _ _ _ i i' grant expiresAt Hverify Hok Hiss Haud
    Hnow (authenticated_acl _ _ _ _ _ Haz Es Hacl) Hissue) as (claims & Hopen & Hwithin & -> & _).
  exists fp, (svc_serviceID s), (svc_apiRole s), srows, arows, body, acl, grant, claims.
  split_and!; [done|done|apply Hdecl; by exists s|done|done|done|by apply Hadm|done|done|done].
Qed.

(** The example files, asked for the right of their one ACL row. *)
Definition example_grant_body : string :=
  print_json (JObject [("channel_id", jnum 7); ("sender_id", jnum 1); ("role", JString "recorder");
    ("request_talk", JBool false); ("request_interrupt", JBool false);
    ("service_public_key", JString (EncodeToString (pad_to 32 "service key")))]).

Definition example_grant_http : http_request :=
  Request "POST" grant_path [] example_grant_body (Some example_fingerprint).

Definition example_grant_env : request_env :=
  RequestEnv (1700000000 * Second) (1700000000 * Second) (Ok example_random) [] [] true.

Definition example_grant_api : managementAPI unit :=
  API newManagementState example_authorizer (Some (example_issuer "management" "relay")) None "disabled".

Definition example_no_revoker (body : managementServiceAdmissionRevocationRequest) (r : unit)
    : unit * (privateControlAck * string * option error) := (r, (zero_ack, "", None)).

Lemma token_from_files_witness :
  ∃ a' response, ServeHTTP example_sum example_sign example_no_revoker example_grant_env example_grant_http
      example_grant_api = (a', Respond response) ∧
    rs_Status response = StatusCreated ∧
    ∃ serviceID arows body acl claims,
      acl_granted arows serviceID (gr_ChannelID body, gr_SenderID body) acl ∧
      claims_within example_sum (example_issuer "management" "relay") serviceID acl body
        (1700000000 * Second) claims.
Proof.
  set (served := ServeHTTP example_sum example_sign example_no_revoker example_grant_env example_grant_http
    example_grant_api).
  assert (match served.2 with Respond r => rs_Status r = StatusCreated | _ => False end) as Hst
    by (vm_compute; reflexivity).
  destruct served as [a' [response|? ? ? ?]] eqn:E; [|destruct Hst]. exists a', response.
  split; [reflexivity|]. split; [exact Hst|].
  destruct (token_from_files example_sum example_sign example_verify "" example_no_revoker example_files
    "services" "acl" "permissions" example_grant_env example_grant_http example_grant_api a'
    (example_issuer "management" "relay") response example_load_ok eq_refl
    (example_issuer_ok "management" "relay" eq_refl eq_refl) eq_refl eq_refl)
    as (fp & serviceID & role & srows & arows & body & acl & grant & claims & H).
  - intros m. apply String.eqb_refl.
  - discriminate.
  - reflexivity.
  - exact E.
  - exact Hst.
  - exists serviceID, arows, body, acl, claims.
    destruct H as (_ & _ & _ & _ & _ & _ & Hacl & _ & _ & Hw). split; [exact Hacl|exact Hw].
Defined.

Close Scope Z_scope.
