(* ===== verification/EventStream.v ===== *)
(** * The event stream

    What the loop of [handleEvents] writes is a sequence of server-sent events
    that a client reads back one by one: exactly the events the service may
    receive, in order, each with its identifier, its type and its JSON text. *)

From S2P Require Export Api.

Open Scope Z_scope.

(** ** Reading server-sent events *)

Definition line_feed : ascii := byte_of 10.

(** One event as the client sees it. *)
Record sse_message := SseMessage { sse_id : string; sse_type : string; sse_data : string }.

Definition sse_field (name line : string) : option string :=
  if HasPrefix line (name +:+ ": ") then Some (TrimPrefix line (name +:+ ": ")) else None.

(** The event stream interpretation of lines: a field sets the identifier, the
    type or the data of the event being read, a blank line dispatches it when
    it has data, other lines (comments) are ignored. *)
Fixpoint sse_read (lines : list string) (id type : string) (data : option string) : list sse_message :=
  match lines with
  | [] => []
  | line :: lines =>
      if String.eqb line "" then
        match data with
        | Some d => SseMessage id type d :: sse_read lines id "" None
        | None => sse_read lines id "" None
        end
      else match sse_field "id" line, sse_field "event" line, sse_field "data" line with
           | Some v, _, _ => sse_read lines v type data
           | _, Some v, _ => sse_read lines id v data
           | _, _, Some v => sse_read lines id type (Some v)
           | _, _, _ => sse_read lines id type data
           end
  end.

Definition sse_parse (stream : string) : list sse_message :=
  sse_read (split_on line_feed stream) "" "" None.

(** ** No line feed inside a line *)

Definition one_line (s : string) : Prop := string_forallb (no_byte line_feed) s = true.

Lemma one_line_app a b : one_line a → one_line b → one_line (a +:+ b).
Proof. unfold one_line. intros. by rewrite string_forallb_app, andb_true_iff. Qed.

Lemma quote_ascii_one_line c : one_line (quote_ascii c).
Proof. destruct c as [[] [] [] [] [] [] [] []]; reflexivity. Qed.

Lemma chunk_one_line c r k chunk r2 :
  byte_in 0 127 c = false → rune_size (String c r) = Some k → split_at k (String c r) = (chunk, r2) →
  one_line chunk.
Proof.
  assert (∀ d, byte_in 128 255 d = true → no_byte line_feed d = true) as Hhigh.
  { intros d Hd. unfold no_byte. destruct (Ascii.eqb_spec d line_feed) as [->|]; [discriminate Hd|done]. }
  assert (∀ d lo hi, 128 ≤ lo → hi ≤ 255 → byte_in lo hi d = true → no_byte line_feed d = true) as Hin.
  { intros d lo hi Hlo Hhi Hd. apply Hhigh. unfold byte_in in *. rewrite andb_true_iff, !Z.leb_le in *. lia. }
  assert (∀ d, is_cont d = true → no_byte line_feed d = true) as Hcont by (intros d; by apply Hin).
  intros Hc Hk Hs. unfold rune_size in Hk. rewrite Hc in Hk.
  assert (no_byte line_feed c = true) as Hc'.
  { apply Hhigh. pose proof (byte_val_range c). unfold byte_in in *.
    rewrite andb_true_iff, !Z.leb_le. rewrite andb_false_iff, !Z.leb_gt in Hc. lia. }
  destruct r as [|b r]; [done|]. destruct (byte_in 194 223 c).
  { destruct (is_cont b) eqn:Eb; [|done]. simplify_eq/=. unfold one_line. cbn [string_forallb].
    by rewrite Hc', Hcont. }
  destruct r as [|d r]; [done|]. destruct (_ || _) eqn:E3.
  { destruct (is_cont d) eqn:Ed; [|done]. simplify_eq/=. unfold one_line. cbn [string_forallb].
    rewrite Hc', (Hcont d) by done. rewrite andb_true_r.
    assert (no_byte line_feed b = true) as ->; [|done].
    rewrite !orb_true_iff, !andb_true_iff in E3.
    destruct E3 as [[[[_ Hb]|[_ Hb]]|[_ Hb]]|[_ Hb]]; first [exact (Hcont _ Hb)|by eapply Hin; [| |exact Hb]]. }
  destruct r as [|e r]; [done|].
  match type of Hk with (if ?b then _ else _) = _ => destruct b eqn:E4; [|done] end. simplify_eq/=.
  rewrite !andb_true_iff, !orb_true_iff, !andb_true_iff in E4. destruct E4 as [[Hb Hd] He].
  unfold one_line. cbn [string_forallb]. rewrite Hc', (Hcont d), (Hcont e) by done. rewrite andb_true_r.
  assert (no_byte line_feed b = true) as ->; [|done].
  destruct Hb as [[[_ Hb]|[_ Hb]]|[_ Hb]]; first [exact (Hcont _ Hb)|by eapply Hin; [| |exact Hb]].
Qed.

Lemma quote_body_one_line n s : one_line (quote_body n s).
Proof.
  revert s. induction n as [|n IH]; intros [|c r]; try done. cbn [quote_body].
  destruct (byte_in 0 127 c) eqn:Ec.
  { apply one_line_app; [apply quote_ascii_one_line|apply IH]. }
  destruct (rune_size (String c r)) as [k|] eqn:Ek; [|by apply one_line_app].
  destruct (split_at k (String c r)) as [chunk r2] eqn:Es.
  apply one_line_app; [|apply IH]. repeat case_match; try done. by eapply chunk_one_line.
Qed.

Lemma quote_string_one_line s : one_line (quote_string s).
Proof. unfold quote_string. repeat apply one_line_app; try done. apply quote_body_one_line. Qed.

Lemma FormatInt_one_line z : 0 ≤ z → one_line (FormatInt z).
Proof.
  intros Hz. destruct (FormatInt_spec z Hz) as (_ & Hd & _). unfold one_line.
  eapply string_forallb_impl; [|exact Hd]. intros c Hc. unfold no_byte.
  destruct (Ascii.eqb_spec c line_feed) as [->|]; [discriminate Hc|done].
Qed.

Lemma join_one_line l : Forall one_line l → one_line (join_comma l).
Proof.
  induction 1 as [|x l Hx Hl IH]; [done|]. destruct l as [|y l]; [done|].
  rewrite join_comma_cons. by repeat apply one_line_app.
Qed.

(** A document whose numbers are not negative is printed on one line. *)
Lemma member_one_line name j : one_line (print_json j) → one_line (print_member (name, j)).
Proof.
  intros Hj. unfold print_member. cbn [fst snd].
  apply one_line_app; [apply quote_string_one_line|]. by apply one_line_app.
Qed.

Lemma object_one_line ms : Forall (λ m, one_line (print_json m.2)) ms → one_line (print_json (JObject ms)).
Proof.
  intros Hms. rewrite print_object. apply one_line_app; [done|]. apply one_line_app; [|done].
  apply join_one_line, Forall_fmap. eapply Forall_impl; [exact Hms|].
  intros [name j] Hj. by apply member_one_line.
Qed.

(** ** Events as a client reads them *)

(** An event whose numbers have their Go types: what the hub makes of a valid
    lifecycle event. *)
Definition event_ok (e : managementEvent) : Prop :=
  me_Type e ∈ privateControlLifecycleEventTypes ∧
  (∃ n, 0 ≤ n ∧ me_EventID e = FormatInt n) ∧
  (∀ c, me_ChannelID e = Some c → is_u32 c) ∧ (∀ c, me_SenderID e = Some c → is_u32 c).

Definition message_of (e : managementEvent) : sse_message :=
  SseMessage (me_EventID e) (me_Type e) (print_json (event_json e)).

Lemma event_json_one_line e : event_ok e → one_line (print_json (event_json e)).
Proof.
  intros (_ & _ & Hc & Hs). unfold is_u32 in *. unfold event_json. apply object_one_line.
  assert (∀ s, one_line (print_json (JString s))) as Hstr by (intros; apply quote_string_one_line).
  assert (∀ name o, Forall (λ m, one_line (print_json m.2)) (omit_none name JString o)) as Homit.
  { intros name [s|]; constructor; [apply Hstr|constructor]. }
  repeat (apply Forall_app; split); try apply Homit.
  - repeat constructor; try apply Hstr. cbn [snd]. destruct (me_ChannelID e) as [c|]; [|done].
    apply FormatInt_one_line. specialize (Hc c eq_refl). lia.
  - destruct (me_SenderID e) as [c|]; [|constructor]. repeat constructor.
    apply FormatInt_one_line. specialize (Hs c eq_refl). lia.
Qed.

Lemma type_one_line type : type ∈ privateControlLifecycleEventTypes → one_line type.
Proof.
  intros Hin. assert (Forall one_line privateControlLifecycleEventTypes) as Hall by repeat constructor.
  rewrite Forall_forall in Hall. by apply Hall.
Qed.

Lemma split_line a b : one_line a → split_on line_feed (a +:+ newline +:+ b) = a :: split_on line_feed b.
Proof. apply split_on_app. Qed.

Lemma sse_field_app name v : sse_field name (name +:+ ": " +:+ v) = Some v.
Proof.
  unfold sse_field. rewrite <-string_app_assoc, TrimPrefix_app.
  by rewrite (proj2 (HasPrefix_spec _ (name +:+ ": "))) by eauto.
Qed.

(** One written event is read back, and the reader goes on after it. *)
Lemma read_event e rest id :
  event_ok e →
  sse_read (split_on line_feed (sse_event e +:+ rest)) id "" None =
  message_of e :: sse_read (split_on line_feed rest) (me_EventID e) "" None.
Proof.
  intros He. destruct He as (Ht & (n & Hn & Hid) & Hints).
  pose proof (type_one_line _ Ht) as Ht1.
  pose proof (event_json_one_line e (conj Ht (conj (ex_intro _ n (conj Hn Hid)) Hints))) as Hj.
  assert (one_line (me_EventID e)) as Hid1 by (rewrite Hid; by apply FormatInt_one_line).
  unfold sse_event, message_of. revert Hj. generalize (print_json (event_json e)) as j.
  generalize (me_EventID e) (me_Type e) Hid1 Ht1. clear. intros i t Hi Ht j Hj.
  rewrite !string_app_assoc.
  rewrite <-(string_app_assoc "id: "), split_line by by apply one_line_app.
  rewrite <-(string_app_assoc "event: "), split_line by by apply one_line_app.
  rewrite <-(string_app_assoc "data: "), split_line by by apply one_line_app.
  rewrite <-(string_app_empty_l (newline +:+ rest)), split_line by done.
  cbn [sse_read].
  pose proof (sse_field_app "id" i) as H1. pose proof (sse_field_app "event" t) as H2.
  pose proof (sse_field_app "data" j) as H3.
  change ("id" +:+ ": " +:+ i) with ("id: " +:+ i) in H1.
  change ("event" +:+ ": " +:+ t) with ("event: " +:+ t) in H2.
  change ("data" +:+ ": " +:+ j) with ("data: " +:+ j) in H3.
  rewrite H1, H2, H3. reflexivity.
Qed.

Lemma read_stream s es tail id :
  Forall event_ok es → stream_loop s tail = "" →
  sse_read (split_on line_feed (stream_loop s (((λ e, StreamEvent e None) <$> es) ++ tail))) id "" None =
  message_of <$> filter (λ e, canReceiveEvent s e = true) es.
Proof.
  intros Hes Htail. revert id. induction Hes as [|e es He Hes IH]; intros id.
  - rewrite fmap_nil. cbn [app]. by rewrite Htail.
  - rewrite fmap_cons. cbn [app stream_loop]. rewrite filter_cons.
    destruct (canReceiveEvent s e); cbn [negb].
    + rewrite decide_True by done. rewrite read_event by done. by rewrite IH.
    + rewrite decide_False by done. apply IH.
Qed.

(** ** Properties *)

(** C23: the event stream is confined and readable.  Whatever ends the stream,
    a client that reads it sees exactly those of the events taken from its
    subscription that its service may receive, in order, each with its
    identifier, type and JSON text intact; every event of a channel that it
    sees is of a channel of its ACL, and one without a channel is a relay
    health change for a holder of the health permission. *)
Theorem event_stream_confined s es tail :
  Forall event_ok es → stream_loop s tail = "" →
  let seen := filter (λ e, canReceiveEvent s e = true) es in
  sse_parse (sse_greeting +:+ stream_loop s (((λ e, StreamEvent e None) <$> es) ++ tail)) =
    message_of <$> seen ∧
  ∀ e, e ∈ seen → match me_ChannelID e with
    | Some c => c ∈ svc_channels s ∧ svc_apiRole s ∈ event_roles
    | None => me_Type e = "relay_health_changed" ∧
              hasGlobalPermission s managementAPIHealthPermission = true
    end.
Proof.
  intros Hes Htail seen. split.
  - unfold sse_parse, sse_greeting. rewrite string_app_assoc, (string_app_assoc newline), split_line by done.
    rewrite <-(string_app_empty_l (newline +:+ _)), split_line by done.
    by apply read_stream.
  - intros e [Hr He]%list_elem_of_filter. unfold canReceiveEvent in Hr.
    destruct (me_ChannelID e) as [c|]; [|by go_bool].
    unfold canReadEventChannel in Hr. destruct (in_set _ _) eqn:E; [|done].
    apply in_set_spec in E. cbn [negb] in Hr. by go_bool.
Qed.

Definition example_event (id channel : Z) : managementEvent :=
  event_of id (LifecycleEvent "" "" "" "2024-01-01T00:00:00Z" "talk_started" (Some channel) (Some 9)
                 None None None None).
Definition example_viewer : managementAPIService := Service "svc" "viewer" true {[5]} ∅ ∅.

Lemma example_event_ok id channel : 0 ≤ id → is_u32 channel → event_ok (example_event id channel).
Proof.
  intros Hid Hc. split_and!; [by apply in_set_spec|by exists id|by intros c [= <-]|by intros c [= <-]].
Qed.

Lemma event_stream_confined_witness :
  let es := [example_event 1 5; example_event 2 6; example_event 3 5] in
  sse_parse (sse_greeting +:+ stream_loop example_viewer (((λ e, StreamEvent e None) <$> es) ++ [StreamDone])) =
    message_of <$> [example_event 1 5; example_event 3 5].
Proof.
  cbv zeta.
  refine (proj1 (event_stream_confined example_viewer
    [example_event 1 5; example_event 2 6; example_event 3 5] [StreamDone] _ eq_refl)).
  repeat (apply Forall_cons; split; [by apply example_event_ok|]). constructor.
Defined.
