(* ===== verification/Requests.v ===== *)
(** * A request in its critical sections

    [ServeHTTP] of [Api] is a function, as if nothing happened between the
    start of a handler and its end.  The goroutine of a request takes several
    locks: it reads the authorizer in force, and with the service it found
    there it goes on to the body of the request and to the state.  Three
    handlers take the state's locks more than once: a revocation validates its
    request, queues the command and waits; a stop looks the job up and then
    moves it; an event stream subscribes and then reads.  Here the handlers are
    cut into these sections, and put together again they are [ServeHTTP]. *)

From S2P Require Export StateTypes GrantEndpoint.

Open Scope Z_scope.

(** ** The sections *)

(** What a handler has left to do after its first section. *)
Inductive remaining :=
| Finish (out : outcome)
| RevokeWith (body : managementServiceAdmissionRevocationRequest)
| StopJob (jobID : string).

Section sections.
Context (Sum256 : string → string) (Sign : string → string → string).
Context {R : Type}.
Implicit Types a : managementAPI R.

(** [a.handleServiceAdmissionRevocation] up to its call of the revoker *)
Definition admit_revocation (env : request_env) (request : http_request) (service : managementAPIService) a
    : managementAPI R * remaining :=
  if negb (String.eqb (rq_Method request) "POST")
  then (a, Finish (Respond (writeManagementAPIMethodNotAllowed "POST")))
  else if negb (String.eqb (svc_apiRole service) "admin") ||
          negb (hasGlobalPermission service managementAPIRevokePermission)
  then (a, Finish (fail StatusForbidden))
  else match decodeManagementAPIRequest revocation_request_fields zero_revocation_request (rq_Body request) with
  | Err _ => (a, Finish (fail StatusBadRequest))
  | Ok body =>
      match validateServiceAdmissionRevocation (re_now env) (re_later env) body (api_issuer a) with
      | (issuer', Some _) => (with_issuer issuer' a, Finish (fail StatusBadRequest))
      | (issuer', None) =>
          (with_issuer issuer' a,
           match api_revoker a with
           | None => Finish (fail StatusServiceUnavailable)
           | Some _ => RevokeWith body
           end)
      end
  end.

(** [a.handleRecordingJobStop] up to its call of [stop] *)
Definition admit_stop (request : http_request) (service : managementAPIService) (jobID : string) a : remaining :=
  if negb (String.eqb (rq_Method request) "POST")
  then Finish (Respond (writeManagementAPIMethodNotAllowed "POST"))
  else match jobs_get jobID (ms_recordingJobs (api_state a)) with
  | None => Finish (fail StatusForbidden)
  | Some job =>
      if negb (canManageRecordingChannel service (job_channelID job)) then Finish (fail StatusForbidden)
      else StopJob jobID
  end.

(** Its end. *)
Definition stop_response : http_response := Response StatusAccepted {["Cache-Control" := "no-store"]} "".

Definition stop_job (jobID : string) a : managementAPI R :=
  with_state (with_jobs (jobs_stop jobID (ms_recordingJobs (api_state a))).1 (api_state a)) a.

(** The first section of a request of [service], by its path. *)
Definition first_section (env : request_env) (request : http_request) (service : managementAPIService) a
    : managementAPI R * remaining :=
  let path := rq_Path request in
  let finish (r : managementAPI R * outcome) := (r.1, Finish r.2) in
  let get (o : outcome) :=
    finish (if negb (String.eqb (rq_Method request) "GET")
            then (a, Respond (writeManagementAPIMethodNotAllowed "GET")) else (a, o)) in
  if String.eqb path "/v1/health" then get (handleHealth service a)
  else if String.eqb path "/v1/channels" then get (handleChannels env service a)
  else if String.eqb path "/v1/events" then finish (handleEvents env request service a)
  else if String.eqb path "/v1/service-admission-grants"
  then finish (handleServiceAdmissionGrant Sum256 Sign env request service a)
  else if String.eqb path "/v1/service-admission-revocations" then admit_revocation env request service a
  else if String.eqb path "/v1/recording-jobs" then finish (handleRecordingJobStart env request service a)
  else match managementAPIRecordingJobIDFromStopPath path with
  | Some jobID => (a, admit_stop request service jobID a)
  | None =>
      match managementAPIChannelIDFromPath path with
      | None => (a, Finish (fail StatusNotFound))
      | Some channelID => get (handleParticipants env service channelID a)
      end
  end.

(** ** Together they are the handler *)

Context (revoke : managementServiceAdmissionRevocationRequest → R →
                  R * (privateControlAck * string * option error)).

(** The rest at once. *)
Definition finish_request (k : remaining) a : managementAPI R * outcome :=
  match k with
  | Finish out => (a, out)
  | RevokeWith body =>
      match api_revoker a with
      | None => (a, fail StatusServiceUnavailable)
      | Some revoker =>
          let '(revoker', answer) := revoke body revoker in
          (with_revoker (Some revoker') a, Respond (revocation_answer body answer))
      end
  | StopJob jobID => (stop_job jobID a, Respond stop_response)
  end.

Definition serve_in_sections (env : request_env) (request : http_request) a : managementAPI R * outcome :=
  match serviceForRequest (api_authorizer a) (rq_Fingerprint request) with
  | None => (a, fail StatusForbidden)
  | Some service => let '(a', k) := first_section env request service a in finish_request k a'
  end.

Lemma finish_revocation env request service a :
  (let '(a', k) := admit_revocation env request service a in finish_request k a') =
  handleServiceAdmissionRevocation revoke env request service a.
Proof.
  unfold admit_revocation, handleServiceAdmissionRevocation.
  destruct (negb _); [done|]. destruct (_ || _); [done|].
  destruct (decodeManagementAPIRequest _ _ _) as [body|]; [|done].
  destruct (validateServiceAdmissionRevocation _ _ _ _) as [issuer' [e|]]; [done|].
  cbn [api_revoker with_issuer]. destruct (api_revoker a) as [r|] eqn:Er; [|done].
  cbn [finish_request api_revoker with_issuer]. by rewrite Er.
Qed.

Lemma finish_stop request service jobID a :
  finish_request (admit_stop request service jobID a) a = handleRecordingJobStop request service jobID a.
Proof.
  unfold admit_stop, handleRecordingJobStop. destruct (negb _); [done|].
  destruct (jobs_get _ _) as [job|]; [|done]. by destruct (negb _).
Qed.

Lemma sections_are_ServeHTTP env request a :
  serve_in_sections env request a = ServeHTTP Sum256 Sign revoke env request a.
Proof.
  unfold serve_in_sections, ServeHTTP. destruct (serviceForRequest _ _) as [s|]; [|done].
  unfold first_section. cbv zeta.
  destruct (String.eqb _ "/v1/health"); [by destruct (negb _)|].
  destruct (String.eqb _ "/v1/channels"); [by destruct (negb _)|].
  destruct (String.eqb _ "/v1/events"); [symmetry; apply surjective_pairing|].
  destruct (String.eqb _ "/v1/service-admission-grants"); [symmetry; apply surjective_pairing|].
  destruct (String.eqb _ "/v1/service-admission-revocations"); [apply finish_revocation|].
  destruct (String.eqb _ "/v1/recording-jobs"); [symmetry; apply surjective_pairing|].
  destruct (managementAPIRecordingJobIDFromStopPath _); [apply finish_stop|].
  destruct (managementAPIChannelIDFromPath _); [by destruct (negb _)|done].
Qed.
End sections.

(** ** Every request keeps the server sound *)

Lemma decodeManagementAPIRequest_typed {T} (P : T → Prop) fields zero body t :
  Forall (field_typed P) fields → P zero → decodeManagementAPIRequest fields zero body = Ok t → P t.
Proof.
  unfold decodeManagementAPIRequest. intros Hf Hz [_ H]%reject_if_ok.
  apply result_bind_ok in H as ([j rest] & _ & H). apply result_bind_ok in H as (t' & Ht & H).
  apply reject_if_ok in H as [_ H]. apply (inj Ok) in H as <-.
  destruct (decode_struct true fields j zero) as [t''|] eqn:E; [|done]. apply (inj Ok) in Ht as ->.
  by eapply decode_struct_typed.
Qed.

Lemma revocation_request_typed : Forall (field_typed request_ints) revocation_request_fields.
Proof. unfold revocation_request_fields, request_ints, is_u32. fields_typed. Qed.

(** The random bytes of a request: 16 for a job. *)
Definition random_ok (env : request_env) (request : http_request) : Prop :=
  rq_Path request = "/v1/recording-jobs" → ∀ raw, re_random env = Ok raw → len raw = 16.

Section serving.
Context (Sum256 : string → string) (Sign : string → string → string).
Context {R : Type}.
Implicit Types a : managementAPI R.

Record api_ok a : Prop := ApiOk {
  api_ok_state : state_ok (api_state a);
  api_ok_issuer : ∀ i, api_issuer a = Some i → issuer_ok i;
}.

(** What no section of a request changes. *)
Definition same_server a a' : Prop :=
  api_authorizer a' = api_authorizer a ∧ api_eventDelivery a' = api_eventDelivery a ∧
  same_attachments (api_state a) (api_state a') ∧ api_revoker a' = api_revoker a.

Definition serves {X} a (r : managementAPI R * X) : Prop := api_ok r.1 ∧ same_server a r.1.

Lemma serves_same {X} a (out : X) : api_ok a → serves a (a, out).
Proof. intros Ha. by split_and!. Qed.

Lemma serves_state {X} a s (out : X) :
  api_ok a → state_ok s → same_attachments (api_state a) s → serves a (with_state s a, out).
Proof. intros [] Hs Hatt. split; [by constructor|by split_and!]. Qed.

Lemma serves_issuer {X} a i (out : X) :
  api_ok a → (∀ i', i = Some i' → issuer_ok i') → serves a (with_issuer i a, out).
Proof. intros [] Hi. split; [by constructor|by split_and!]. Qed.

Lemma issuer_opt_ok op i :
  (∀ i', i = Some i' → issuer_ok i') → ∀ i', issuer_apply Sum256 Sign i op = Some i' → issuer_ok i'.
Proof.
  intros Hi i' H. destruct i as [i|].
  - destruct (issuer_apply_keeps Sum256 Sign i op (Hi i eq_refl)) as (i1 & H1 & Hok & _). by simplify_eq.
  - destruct op as [raw id acl request now|h now]; simpl in H; [|done].
    unfold issue in H. destruct raw; simpl in H; repeat case_match; simplify_eq/=.
Qed.

Lemma events_serves env request s a : api_ok a → serves a (handleEvents env request s a).
Proof.
  intros Ha. unfold handleEvents. destruct (negb _); [by apply serves_same|].
  destruct (ms_liveEvents (api_state a)) as [hub|] eqn:Eh; [|by apply serves_same].
  destruct (negb _); [by apply serves_same|]. destruct (bool_decide _); [by apply serves_same|].
  destruct (negb _); [by apply serves_same|]. destruct (negb _); [by apply serves_same|].
  pose proof (api_ok_state a Ha) as Hs. pose proof (state_hub _ Hs) as Hhub. rewrite Eh in Hhub.
  apply hub_subscribe_ok in Hhub. destruct (hub_subscribe hub) as [hub' [[c id]|]];
    (apply serves_state; [done|auto with state|split_and!; simpl; rewrite ?Eh; by eauto]).
Qed.

Lemma grant_serves env request s a :
  api_ok a → serves a (handleServiceAdmissionGrant Sum256 Sign env request s a).
Proof.
  intros Ha. unfold handleServiceAdmissionGrant. destruct (negb _); [by apply serves_same|].
  destruct (negb _); [by apply serves_same|]. destruct (negb _); [by apply serves_same|].
  destruct (decodeManagementAPIRequest _ _ _) as [body|]; [|by apply serves_same].
  destruct (admissionACL _ _ _) as [acl|]; [|by apply serves_same].
  pose proof (issuer_opt_ok (OpIssue (re_random env) (svc_serviceID s) acl body (re_now env)) _
    (api_ok_issuer a Ha)) as Hi. cbn [issuer_apply] in Hi.
  by destruct (issue _ _ _ _ _ _ _ _) as [i [[grant expiresAt]|e]]; apply serves_issuer.
Qed.

Lemma validated_issuer_ok now later request i :
  (∀ i', i = Some i' → issuer_ok i') →
  ∀ i', (validateServiceAdmissionRevocation now later request i).1 = Some i' → issuer_ok i'.
Proof.
  intros Hi. unfold validateServiceAdmissionRevocation. destruct (_ || _); [done|].
  destruct (_ && _); [done|]. destruct (String.eqb _ ""); [done|]. destruct (_ || _); [done|].
  unfold check_issued_grant. pose proof (issuer_opt_ok (OpLookup (rr_GrantIDHash request) later) i Hi) as H.
  cbn [issuer_apply] in H. destruct (issuedGrant _ _ _) as [i1 [g|]]; [|done]. by destruct (_ || _).
Qed.

Lemma revocation_serves env request s a : api_ok a → serves a (admit_revocation env request s a).
Proof.
  intros Ha. unfold admit_revocation. destruct (negb _); [by apply serves_same|].
  destruct (_ || _); [by apply serves_same|].
  destruct (decodeManagementAPIRequest _ _ _) as [body|]; [|by apply serves_same].
  pose proof (validated_issuer_ok (re_now env) (re_later env) body _ (api_ok_issuer a Ha)) as Hi.
  by destruct (validateServiceAdmissionRevocation _ _ _ _) as [i [e|]]; apply serves_issuer.
Qed.

Lemma jobs_serves {X} op a (out : X) :
  api_ok a → job_op_ok op →
  serves a (with_state (with_jobs (job_apply op (ms_recordingJobs (api_state a))) (api_state a)) a, out).
Proof.
  intros Ha Hop. pose proof (api_ok_state a Ha) as Hs.
  destruct (job_op_opt_ok op _ (state_jobs _ Hs) Hop) as [Hj Hsome].
  apply serves_state; [done|auto with state|by split_and!].
Qed.

Lemma job_start_serves env request s a :
  api_ok a → (∀ raw, re_random env = Ok raw → len raw = 16) →
  serves a (handleRecordingJobStart env request s a).
Proof.
  intros Ha Hraw. unfold handleRecordingJobStart. destruct (negb _); [by apply serves_same|].
  destruct (decodeManagementAPIRequest _ _ _) as [c|]; [|by apply serves_same].
  destruct (negb _); [by apply serves_same|].
  assert (job_op_ok (JobCreate (re_random env) c (svc_serviceID s))) as Hop.
  { simpl. destruct (re_random env) as [raw|]; [by apply Hraw|done]. }
  destruct (jobs_create _ _ _ _) as [jobs' created] eqn:Ej.
  assert (jobs' = job_apply (JobCreate (re_random env) c (svc_serviceID s)) (ms_recordingJobs (api_state a)))
    as -> by (simpl; by rewrite Ej).
  by destruct created; apply jobs_serves.
Qed.

Lemma stop_job_serves id a : api_ok a → serves a (stop_job id a, stop_response).
Proof. intros Ha. by apply (jobs_serves (JobStop id)). Qed.

Lemma serves_finish a r : serves a r → serves a (r.1, Finish r.2).
Proof. done. Qed.

Lemma first_section_serves env request s a :
  api_ok a → random_ok env request → serves a (first_section Sum256 Sign env request s a).
Proof.
  intros Ha Hraw. unfold first_section. cbv zeta.
  destruct (String.eqb _ "/v1/health"); [destruct (negb _); by apply serves_same|].
  destruct (String.eqb _ "/v1/channels"); [destruct (negb _); by apply serves_same|].
  destruct (String.eqb _ "/v1/events"); [by apply serves_finish, events_serves|].
  destruct (String.eqb _ "/v1/service-admission-grants"); [by apply serves_finish, grant_serves|].
  destruct (String.eqb _ "/v1/service-admission-revocations"); [by apply revocation_serves|].
  destruct (String.eqb _ "/v1/recording-jobs") eqn:Ep.
  { apply serves_finish, job_start_serves; [done|apply Hraw; by go_bool]. }
  destruct (managementAPIRecordingJobIDFromStopPath _); [by apply serves_same|].
  destruct (managementAPIChannelIDFromPath _); [destruct (negb _)|]; by apply serves_same.
Qed.

(** What is left after it, and what that request asked for. *)
Lemma first_section_left env request s a :
  match (first_section Sum256 Sign env request s a).2 with
  | Finish out => True
  | RevokeWith body =>
      decodeManagementAPIRequest revocation_request_fields zero_revocation_request (rq_Body request) = Ok body ∧
      request_ints body ∧ is_Some (api_revoker a)
  | StopJob jobID => managementAPIRecordingJobIDFromStopPath (rq_Path request) = Some jobID
  end.
Proof.
  unfold first_section. cbv zeta.
  destruct (String.eqb _ "/v1/health"); [done|]. destruct (String.eqb _ "/v1/channels"); [done|].
  destruct (String.eqb _ "/v1/events"); [done|].
  destruct (String.eqb _ "/v1/service-admission-grants"); [done|].
  destruct (String.eqb _ "/v1/service-admission-revocations").
  { unfold admit_revocation. destruct (negb _); [done|]. destruct (_ || _); [done|].
    destruct (decodeManagementAPIRequest _ _ _) as [body|] eqn:Ed; [|done].
    destruct (validateServiceAdmissionRevocation _ _ _ _) as [i [e|]]; [done|].
    cbn [snd]. destruct (api_revoker a) as [r|]; [|done]. split_and!; [done| |done].
    eapply decodeManagementAPIRequest_typed; [apply revocation_request_typed| |exact Ed]. done. }
  destruct (String.eqb _ "/v1/recording-jobs"); [done|].
  destruct (managementAPIRecordingJobIDFromStopPath _) as [jobID|] eqn:Ep.
  - cbn [snd]. unfold admit_stop. destruct (negb _); [done|]. destruct (jobs_get _ _); [|done].
    by destruct (negb _).
  - by destruct (managementAPIChannelIDFromPath _).
Qed.
End serving.

Close Scope Z_scope.
