(* ===== verification/Server.v ===== *)
(** * Starting the service

    The command line and environment ([loadConfiguration] of [main.go]), the
    construction of the Management API ([newManagementAPI]) and of the whole
    service ([main] up to its listeners), and the handlers of the health
    listener. *)

From S2P Require Export Duration Session Reload Api.

Open Scope Z_scope.

(** ** The command line *)

Definition valueOrDefault (value fallback : string) : string :=
  if String.eqb value "" then fallback else value.

(** The process: [os.Getenv] and the flags given on the command line. *)
Record process := Process {
  Getenv : string → string;
  flag_given : string → option string;
}.

(** [*flag.String(name, default, usage)] after [flag.Parse()] *)
Definition flag_String (p : process) (name default_value : string) : string :=
  default default_value (flag_given p name).

(** A flag whose default is an environment variable of the service. *)
Definition setting (p : process) (name variable : string) : string :=
  flag_String p name (Getenv p ("INCOMUDON_MANAGEMENT_" +:+ variable)).

(** One with a fallback for an unset or empty variable. *)
Definition setting_or (p : process) (name variable fallback : string) : string :=
  flag_String p name (valueOrDefault (Getenv p ("INCOMUDON_MANAGEMENT_" +:+ variable)) fallback).

Definition loadConfiguration (p : process) : privateControlClientConfig * string * managementAPIConfig :=
  (ClientConfig
     (setting p "pcl-transport" "PCL_TRANSPORT")
     (setting p "pcl-relay-address" "PCL_RELAY_ADDRESS")
     (setting p "pcl-uds-socket-path" "PCL_UDS_SOCKET_PATH")
     (setting p "pcl-server-name" "PCL_SERVER_NAME")
     (setting p "pcl-service-id" "PCL_SERVICE_ID")
     (setting p "pcl-cert-file" "PCL_CERT_FILE")
     (setting p "pcl-key-file" "PCL_KEY_FILE")
     (setting p "pcl-relay-ca-file" "PCL_RELAY_CA_FILE")
     (setting p "pcl-command-store-file" "PCL_COMMAND_STORE_FILE"),
   setting_or p "http-listen" "HTTP_LISTEN" ":8080",
   APIConfig
     (setting p "api-listen" "API_LISTEN")
     (setting p "api-cert-file" "API_CERT_FILE")
     (setting p "api-key-file" "API_KEY_FILE")
     (setting p "api-client-ca-file" "API_CLIENT_CA_FILE")
     (setting p "api-services-file" "API_SERVICES_FILE")
     (setting p "api-channel-acl-file" "API_CHANNEL_ACL_FILE")
     (setting p "api-global-permissions-file" "API_GLOBAL_PERMISSIONS_FILE")
     (setting p "grant-signing-key-file" "GRANT_SIGNING_KEY_FILE")
     (setting p "grant-key-id" "GRANT_KEY_ID")
     (setting p "grant-issuer" "GRANT_ISSUER")
     (setting p "grant-audience" "GRANT_AUDIENCE")
     (setting p "grant-ttl-seconds" "GRANT_TTL_SECONDS")
     (setting_or p "api-event-delivery" "API_EVENT_DELIVERY" managementAPIEventDeliveryDisabled)
     (setting_or p "api-acl-reload-interval" "API_ACL_RELOAD_INTERVAL" "5s")).

(** ** The Management API *)

Definition err_reload_interval : error :=
  Errorf "Management API ACL reload interval must be from 1s through 1m" [].

Definition parseManagementACLReloadInterval (value : string) : result Z :=
  let value := TrimSpace value in
  if String.eqb value "" then Ok (5 * Second)
  else match ParseDuration value with
       | None => Err err_reload_interval
       | Some interval =>
           reject (interval <? Second) || (Minute <? interval) with err_reload_interval;
           Ok interval
       end.

(** [config.enabled()] *)
Definition enabled (config : managementAPIConfig) : bool := negb (blank (ac_listen config)).

(** The map of the files that the listener needs. *)
Definition required_files (config : managementAPIConfig) : list (string * string) :=
  [("server certificate", ac_certificateFile config); ("server private key", ac_privateKeyFile config);
   ("client CA", ac_clientCAFile config); ("management services CSV", ac_servicesFile config);
   ("management channel ACL CSV", ac_channelACLFile config);
   ("global permissions CSV", ac_globalPermissionsFile config)].

(** [tls.VersionTLS13] *)
Definition managementAPIMinimumTLSVersion : Z := 772.

Inductive client_auth := NoClientCert | RequireAndVerifyClientCert.

(** What the program sets of a [tls.Config]: the certificate is named by its
    files, the pool of client CAs by the PEM data it was made from. *)
Record tls_config := TLSConfig {
  tls_MinVersion : Z;
  tls_Certificates : list (string * string);
  tls_ClientAuth : client_auth;
  tls_ClientCAs : string;
}.

(** The server certificate and the pool of client CAs. *)
Definition load_api_tls (files : tls_files) (config : managementAPIConfig) : result tls_config :=
  match LoadX509KeyPair files (ac_certificateFile config) (ac_privateKeyFile config) with
  | Some e => Err (Wrapf "load Management API server certificate: %w" [] e)
  | None =>
      try caData <- map_err (Wrapf "read Management API client CA: %w" []) (ReadFile files (ac_clientCAFile config));
      reject negb (AppendCertsFromPEM files caData)
        with Errorf "Management API client CA contains no certificates" [];
      Ok (TLSConfig managementAPIMinimumTLSVersion [(ac_certificateFile config, ac_privateKeyFile config)]
            RequireAndVerifyClientCert caData)
  end.

(** The delivery mode: blank is disabled. *)
Definition event_delivery (config : managementAPIConfig) : result string :=
  let eventDelivery := TrimSpace (ac_eventDelivery config) in
  let eventDelivery :=
    if String.eqb eventDelivery "" then managementAPIEventDeliveryDisabled else eventDelivery in
  reject negb (String.eqb eventDelivery managementAPIEventDeliveryDisabled) &&
         negb (String.eqb eventDelivery managementAPIEventDeliveryLive)
    with Errorf "Management API event delivery must be %q or %q"
           [managementAPIEventDeliveryDisabled; managementAPIEventDeliveryLive];
  Ok eventDelivery.

(** The API with what only its listener and its reload loop read. *)
Record api_server {R : Type} := ApiServer {
  as_api : managementAPI R;
  as_files : acl_files;
  as_aclReloadInterval : Z;
  as_listen : string;
  as_tlsConfig : tls_config;
}.
Arguments api_server R : clear implicits.
Arguments ApiServer {R} _ _ _ _ _.

(** The world outside the process at start-up. *)
Record start_env := StartEnv {
  se_tls : tls_files;
  se_keys : key_loader;
  se_open : string → result string;
  se_fs : fs_env;
  se_now : Z;
  (** the iteration order of the map of required files *)
  se_order : list (string * string) → list (string * string);
}.

(** The loop over the required files, in some order: the first blank one. *)
Definition missing_file (env : start_env) (config : managementAPIConfig) : option (nat * (string * string)) :=
  list_find (λ field, blank field.2 = true) (se_order env (required_files config)).

(** [newManagementAPI(config, state, revoker)] for a non-nil state; [Ok None]
    is the nil API of a disabled listener.  The state comes back with the hub
    and the job table attached. *)
Definition newManagementAPI {R : Type} (env : start_env) (config : managementAPIConfig)
    (state : managementState) (revoker : option R) : result (option (api_server R)) :=
  if negb (enabled config) then Ok None
  else match missing_file env config with
  | Some (_, (label, _)) =>
      Err (Errorf "Management API %s is required when the listener is enabled" [label])
  | None =>
      try tlsConfig <- load_api_tls (se_tls env) config;
      try authorizer <- loadManagementAPIAuthorizer (se_open env) (ac_servicesFile config)
                          (ac_channelACLFile config) (ac_globalPermissionsFile config);
      try issuer <- loadServiceAdmissionGrantIssuer (se_keys env) config;
      try eventDelivery <- event_delivery config;
      try aclReloadInterval <- parseManagementACLReloadInterval (ac_aclReloadInterval config);
      let liveEvents :=
        if String.eqb eventDelivery managementAPIEventDeliveryLive
        then Some newManagementLiveEventHub else None in
      let state := setLiveEvents liveEvents state in
      let state := setRecordingJobs (Some newManagementRecordingJobs) state in
      Ok (Some (ApiServer (API state authorizer issuer revoker eventDelivery)
                  (AclFiles (ac_servicesFile config) (ac_channelACLFile config)
                     (ac_globalPermissionsFile config))
                  aclReloadInterval (ac_listen config) tlsConfig))
  end.

(** [a.httpServer()]: what the TLS listener is made of. *)
Record http_server := HttpServer {
  hs_Addr : string;
  hs_TLSConfig : tls_config;
  hs_ReadHeaderTimeout : Z;
}.

Definition httpServer {R} (a : api_server R) : http_server :=
  HttpServer (as_listen a) (as_tlsConfig a) (5 * Second).

(** ** The service *)

(** What [main] builds before it starts its goroutines. *)
Record service_start := ServiceStart {
  st_client : privateControlClient;
  st_state : managementState;
  st_api : option (api_server privateControlClient);
  st_httpListen : string;
}.

(** [main] up to [signal.NotifyContext]: [Err] is [log.Fatalf].  The API's
    revoker is the client. *)
Definition start (env : start_env) (p : process) (fs : filesystem) : filesystem * result service_start :=
  let '(config, httpListen, apiConfig) := loadConfiguration p in
  let state := newManagementState in
  match newPrivateControlClient (se_tls env) (se_fs env) (se_now env) config fs with
  | (fs', Err e) => (fs', Err (Wrapf "invalid Private Control Link configuration: %v" [] e))
  | (fs', Ok client) =>
      match newManagementAPI env apiConfig state (Some client) with
      | Err e => (fs', Err (Wrapf "invalid Management API configuration: %v" [] e))
      | Ok None => (fs', Ok (ServiceStart client state None httpListen))
      | Ok (Some api) => (fs', Ok (ServiceStart client (api_state (as_api api)) (Some api) httpListen))
      end
  end.

(** ** The health listener *)

(** [writer.WriteHeader(http.StatusMethodNotAllowed)] and nothing else *)
Definition bare_method_not_allowed : http_response := Response StatusMethodNotAllowed ∅ "".

Definition handle_healthz (request : http_request) (state : managementState) : http_response :=
  if negb (String.eqb (rq_Method request) "GET") then bare_method_not_allowed
  else writeJSON ∅ StatusOK (state_snapshot state).

(** [/readyz] reads the state twice; [later] is what the second read finds. *)
Definition handle_readyz (request : http_request) (state later : managementState) : http_response :=
  if negb (String.eqb (rq_Method request) "GET") then bare_method_not_allowed
  else
    let snapshot := state_snapshot state in
    let status :=
      match managementAPIChannelState later with Some _ => StatusOK | None => StatusServiceUnavailable end in
    writeJSON ∅ status snapshot.

(** ** What starts *)

(** The order in which a map is traversed is a permutation of its entries. *)
Definition order_env (env : start_env) : Prop := ∀ l, se_order env l ≡ₚ l.

(** The API server that a configuration starts on [state]. *)
Record server_started (env : start_env) (config : managementAPIConfig) (state : managementState)
    {R : Type} (revoker : option R) (s : api_server R) : Prop := ServerStarted {
  started_files : ∀ label value, (label, value) ∈ required_files config → blank value = false;
  started_tls : load_api_tls (se_tls env) config = Ok (as_tlsConfig s) ∧
    tls_MinVersion (hs_TLSConfig (httpServer s)) = 772 ∧
    tls_ClientAuth (hs_TLSConfig (httpServer s)) = RequireAndVerifyClientCert;
  started_authorizer :
    loadManagementAPIAuthorizer (se_open env) (ac_servicesFile config) (ac_channelACLFile config)
      (ac_globalPermissionsFile config) = Ok (api_authorizer (as_api s)) ∧ az_ok (api_authorizer (as_api s));
  started_issuer : loadServiceAdmissionGrantIssuer (se_keys env) config = Ok (api_issuer (as_api s)) ∧
    ∀ i, api_issuer (as_api s) = Some i → issuer_ok i ∧ is_issued i = ∅;
  started_state : api_state (as_api s) =
    with_jobs (Some newManagementRecordingJobs)
      (with_hub (if String.eqb (api_eventDelivery (as_api s)) "live"
                 then Some newManagementLiveEventHub else None) state);
  started_delivery : api_eventDelivery (as_api s) ∈ ["disabled"; "live"] ∧
    (blank (ac_eventDelivery config) = true → api_eventDelivery (as_api s) = "disabled");
  started_revoker : api_revoker (as_api s) = revoker;
  started_interval : Second ≤ as_aclReloadInterval s ≤ Minute;
  started_reload_files : as_files s =
    AclFiles (ac_servicesFile config) (ac_channelACLFile config) (ac_globalPermissionsFile config);
  started_listen : as_listen s = ac_listen config ∧ blank (ac_listen config) = false;
}.

Lemma reload_interval_range value n :
  parseManagementACLReloadInterval value = Ok n → Second ≤ n ≤ Minute ∧ (blank value = true → n = 5 * Second).
Proof.
  unfold parseManagementACLReloadInterval, blank. cbv zeta. destruct (String.eqb (TrimSpace value) "").
  - intros Hn. apply (inj Ok) in Hn as <-. split; [split; vm_compute; discriminate|done].
  - destruct (ParseDuration _) as [d|]; [|done]. intros [Hb H]%reject_if_ok. apply (inj Ok) in H as <-.
    go_bool. by split.
Qed.

Lemma event_delivery_spec config mode :
  event_delivery config = Ok mode →
  mode ∈ ["disabled"; "live"] ∧ (blank (ac_eventDelivery config) = true → mode = "disabled").
Proof.
  unfold event_delivery, blank. cbv zeta. intros [Hb H]%reject_if_ok. apply (inj Ok) in H as <-.
  destruct (String.eqb (TrimSpace _) ""); [by split; [left|]|]. split; [|done].
  unfold managementAPIEventDeliveryDisabled, managementAPIEventDeliveryLive in Hb.
  destruct (String.eqb _ "disabled") eqn:E1; [go_bool; rewrite E1; by left|].
  destruct (String.eqb _ "live") eqn:E2; [go_bool; rewrite E2; by right; left|done].
Qed.

(** No required file is blank, in whatever order they are checked. *)
Lemma required_files_checked env config :
  order_env env →
  missing_file env config = None ↔
  ∀ label value, (label, value) ∈ required_files config → blank value = false.
Proof.
  intros Ho. unfold missing_file. rewrite list_find_None, (Ho (required_files config)), Forall_forall. split.
  - intros H label value Hin. apply not_true_iff_false. exact (H (label, value) Hin).
  - intros H [label value] Hin. simpl. by rewrite (H label value Hin).
Qed.

(** The listener asks for a verified client certificate over TLS 1.3. *)
Lemma load_api_tls_spec files config c :
  load_api_tls files config = Ok c →
  tls_MinVersion c = 772 ∧ tls_ClientAuth c = RequireAndVerifyClientCert.
Proof.
  unfold load_api_tls. destruct (LoadX509KeyPair _ _ _); [done|].
  intros (caData & _ & H)%result_bind_ok. apply reject_if_ok in H as [_ H]. by apply (inj Ok) in H as <-.
Qed.

Lemma newManagementAPI_spec {R} env config state (revoker : option R) :
  order_env env →
  match newManagementAPI env config state revoker with
  | Ok None => blank (ac_listen config) = true
  | Ok (Some s) => server_started env config state revoker s
  | Err _ => blank (ac_listen config) = false
  end.
Proof.
  intros Ho. unfold newManagementAPI, enabled.
  destruct (blank (ac_listen config)) eqn:El; cbn [negb]; [done|].
  destruct (missing_file env config) as [[n [label value]]|] eqn:Ef; [done|].
  pose proof (proj1 (required_files_checked env config Ho) Ef) as Hfiles.
  match goal with |- match ?r with Ok _ => _ | Err _ => _ end => destruct r as [s|e] eqn:Er; [|done] end.
  apply result_bind_ok in Er as (tlsConfig & Ht & Er). pose proof (load_api_tls_spec _ _ _ Ht) as Hspec.
  apply result_bind_ok in Er as (authorizer & Ha & Er). apply result_bind_ok in Er as (issuer & Hi & Er).
  apply result_bind_ok in Er as (mode & Hm & Er). apply result_bind_ok in Er as (interval & Hn & Er).
  apply (inj Ok) in Er as <-.
  constructor; cbn [as_api as_files as_aclReloadInterval as_listen as_tlsConfig httpServer hs_TLSConfig api_state api_authorizer api_issuer
    api_revoker api_eventDelivery]; try done.
  - split; [done|]. by eapply loadManagementAPIAuthorizer_ok.
  - split; [done|]. intros i ->. pose proof (load_issuer_spec (se_keys env) config) as H.
    cbv zeta in H. rewrite Hi in H. naive_solver.
  - by apply event_delivery_spec.
  - by apply (reload_interval_range (ac_aclReloadInterval config)).
Qed.

(** Only the label of an error depends on the order. *)
Definition with_order (order : list (string * string) → list (string * string)) (env : start_env) : start_env :=
  StartEnv (se_tls env) (se_keys env) (se_open env) (se_fs env) (se_now env) order.

Lemma newManagementAPI_order {R} env order config state (revoker : option R) s :
  order_env env → order_env (with_order order env) →
  newManagementAPI env config state revoker = Ok s →
  newManagementAPI (with_order order env) config state revoker = Ok s.
Proof.
  intros Ho Ho'. unfold newManagementAPI. destruct (negb (enabled config)); [done|].
  pose proof (required_files_checked env config Ho) as H1.
  pose proof (required_files_checked (with_order order env) config Ho') as H2.
  destruct (missing_file env config) as [[n [label value]]|] eqn:E1; [done|].
  by rewrite (proj2 H2 (proj1 H1 eq_refl)).
Qed.

(** ** What a configuration asks for *)

(** The settings with a default, and what the files of the listener have to
    hold. *)
Definition interval_setting (value : string) (n : Z) : Prop :=
  if blank value then n = 5 * Second else ParseDuration (TrimSpace value) = Some n ∧ Second ≤ n ≤ Minute.

Definition delivery_setting (value mode : string) : Prop :=
  if blank value then mode = "disabled" else TrimSpace value = mode ∧ mode ∈ ["disabled"; "live"].

Definition lifetime_setting (value : string) (lifetime : Z) : Prop :=
  if blank value then lifetime = 5 * Minute
  else ∃ seconds, ParseInt (TrimSpace value) = Some seconds ∧ 60 ≤ seconds ≤ 3600 ∧ lifetime = seconds * Second.

Definition tls_setting (files : tls_files) (config : managementAPIConfig) (c : tls_config) : Prop :=
  LoadX509KeyPair files (ac_certificateFile config) (ac_privateKeyFile config) = None ∧
  ∃ caData, ReadFile files (ac_clientCAFile config) = Ok caData ∧ AppendCertsFromPEM files caData = true ∧
    c = TLSConfig 772 [(ac_certificateFile config, ac_privateKeyFile config)] RequireAndVerifyClientCert caData.

(** One unencrypted PKCS #8 block with an Ed25519 key. *)
Definition signing_key (kl : key_loader) (filename key : string) : Prop :=
  ∃ data bytes remaining, kl_ReadFile kl filename = Ok data ∧
    kl_pem_Decode kl data = (Some ("PRIVATE KEY", bytes), remaining) ∧ blank remaining = true ∧
    kl_ParsePKCS8PrivateKey kl bytes = Ok (Ed25519Key key) ∧ len key = 64.

Definition issuer_text (value : string) : Prop := 1 ≤ len value ≤ 256 ∧ TrimSpace value = value.

(** Grants are issued when the four settings are given, and not when none is. *)
Inductive issuer_setting (kl : key_loader) (config : managementAPIConfig) : option serviceAdmissionGrantIssuer → Prop :=
| issuer_none :
    Forall (λ v, blank v = true) [ac_grantSigningKeyFile config; ac_grantKeyID config; ac_grantIssuer config;
                                  ac_grantAudience config] → issuer_setting kl config None
| issuer_some key lifetime :
    Forall (λ v, blank v = false) [ac_grantSigningKeyFile config; ac_grantKeyID config; ac_grantIssuer config;
                                   ac_grantAudience config] →
    serviceAdmissionGrantKeyIDPattern (ac_grantKeyID config) = true →
    issuer_text (ac_grantIssuer config) → issuer_text (ac_grantAudience config) →
    lifetime_setting (ac_grantTTLSeconds config) lifetime →
    signing_key kl (ac_grantSigningKeyFile config) key →
    issuer_setting kl config
      (Some (Issuer key (ac_grantKeyID config) (ac_grantIssuer config) (ac_grantAudience config) lifetime ∅)).

Lemma interval_setting_spec value n : parseManagementACLReloadInterval value = Ok n ↔ interval_setting value n.
Proof.
  unfold parseManagementACLReloadInterval, interval_setting, blank. cbv zeta.
  destruct (String.eqb (TrimSpace value) ""); [split; [by intros [= <-]|by intros ->]|].
  destruct (ParseDuration _) as [d|]; [|by split; [|intros [[=] _]]]. split.
  - intros [Hb H]%reject_if_ok. apply (inj Ok) in H as <-. go_bool. by split.
  - intros [[= ->] [H1 H2]]. unfold reject_if. by rewrite (proj2 (Z.ltb_ge _ _) H1), (proj2 (Z.ltb_ge _ _) H2).
Qed.

Lemma delivery_setting_spec config mode :
  event_delivery config = Ok mode ↔ delivery_setting (ac_eventDelivery config) mode.
Proof.
  unfold event_delivery, delivery_setting, blank, managementAPIEventDeliveryDisabled, managementAPIEventDeliveryLive.
  cbv zeta. destruct (String.eqb_spec (TrimSpace (ac_eventDelivery config)) "") as [E|E].
  { split; [by intros [= <-]|by intros ->]. }
  generalize (TrimSpace (ac_eventDelivery config)). intros v. split.
  - intros [Hb H]%reject_if_ok. apply (inj Ok) in H. subst v. split; [done|].
    destruct (String.eqb_spec mode "disabled") as [->|]; [by left|].
    destruct (String.eqb_spec mode "live") as [->|]; [by right; left|done].
  - intros [-> Hm]. apply elem_of_cons in Hm as [->|Hm]; [done|]. by apply list_elem_of_singleton in Hm as ->.
Qed.

Lemma lifetime_setting_spec value n : grant_lifetime value = Ok n ↔ lifetime_setting value n.
Proof.
  unfold grant_lifetime, lifetime_setting, blank. cbv zeta.
  destruct (String.eqb (TrimSpace value) ""); [split; [by intros [= <-]|by intros ->]|].
  change (serviceAdmissionGrantMinimumLifetime / Second) with 60.
  change (serviceAdmissionGrantMaximumLifetime / Second) with 3600.
  destruct (ParseInt _) as [d|]; [|by split; [|intros (? & [=] & _)]]. split.
  - intros [Hb H]%reject_if_ok. apply (inj Ok) in H as <-. go_bool. by exists d.
  - intros (seconds & [= ->] & [H1 H2] & ->). unfold reject_if.
    by rewrite (proj2 (Z.ltb_ge _ _) H1), (proj2 (Z.ltb_ge _ _) H2).
Qed.

Lemma tls_setting_spec files config c : load_api_tls files config = Ok c ↔ tls_setting files config c.
Proof.
  unfold load_api_tls, tls_setting. destruct (LoadX509KeyPair _ _ _); [by split; [|intros [[=] _]]|].
  destruct (ReadFile _ _) as [caData|e]; [|by split; [|intros (_ & ? & [=] & _)]]. simpl. unfold reject_if. split.
  - destruct (AppendCertsFromPEM files caData) eqn:E; [|done]. intros [= <-]. split; [done|]. by exists caData.
  - intros (_ & ca & [= <-] & -> & ->). done.
Qed.

Lemma signing_key_spec kl filename key :
  loadServiceAdmissionSigningKey kl filename = Ok key ↔ signing_key kl filename key.
Proof.
  unfold loadServiceAdmissionSigningKey, signing_key. split.
  - intros (data & Hd & H)%result_bind_ok. cbv zeta in H.
    destruct (kl_ReadFile kl filename) as [data'|] eqn:Er; [|done]. apply (inj Ok) in Hd as ->.
    destruct (kl_pem_Decode kl data) as [[[type bytes]|] remaining] eqn:Ep; [|done].
    apply reject_if_ok in H as [Hb H]. go_bool. subst type. apply result_bind_ok in H as (parsed & Hp & H).
    destruct (kl_ParsePKCS8PrivateKey kl bytes) as [k|] eqn:Ek; [|done]. apply (inj Ok) in Hp as ->.
    destruct parsed as [k|]; [|done]. apply reject_if_ok in H as [Hl [= <-]]. go_bool. by exists data, bytes, remaining.
  - intros (data & bytes & remaining & -> & Hp & Hb & Hk & Hl). cbv zeta. cbn [map_err result_bind].
    rewrite Hp. rewrite Hb. cbn [negb orb String.eqb]. unfold reject_if at 1. simpl. rewrite Hk. simpl.
    by rewrite Hl.
Qed.

Lemma issuer_text_spec value : validServiceAdmissionIssuerValue value = true ↔ issuer_text value.
Proof.
  unfold validServiceAdmissionIssuerValue, issuer_text.
  rewrite !andb_true_iff, !Z.leb_le, String.eqb_eq. tauto.
Qed.

Lemma issuer_setting_spec kl config issuer :
  loadServiceAdmissionGrantIssuer kl config = Ok issuer ↔ issuer_setting kl config issuer.
Proof.
  unfold loadServiceAdmissionGrantIssuer. set (fields := (grant_fields config).*2).
  assert (∀ b, Forall (λ v, blank v = b) fields ↔
    Forall (λ v, blank v = b) [ac_grantSigningKeyFile config; ac_grantKeyID config; ac_grantIssuer config;
                               ac_grantAudience config]) as Hfields by done.
  destruct (forallb blank fields) eqn:Eall.
  { rewrite forallb_forall in Eall. assert (Forall (λ v, blank v = true) fields) as Hall
      by (apply Forall_forall; intros v Hv; by apply Eall, list_elem_of_In).
    split; [intros [= <-]; constructor; by apply Hfields|]. intros [|key lifetime Hno]; [done|].
    apply Hfields in Hno. apply Forall_cons in Hno as [Hno _]. apply Forall_cons in Hall as [Hyes _]. congruence. }
  assert (¬ Forall (λ v, blank v = true) fields) as Hnot.
  { intros Hall. apply not_true_iff_false in Eall. apply Eall, forallb_forall. intros v Hv%list_elem_of_In.
    rewrite Forall_forall in Hall. by apply Hall. }
  destruct (list_find _ _) as [[n [name value]]|] eqn:Ef.
  { split; [done|]. intros [Hall|key lifetime Hno]; [by apply Hfields in Hall|]. exfalso.
    apply list_find_Some in Ef as (Hin & Hb & _). apply list_elem_of_lookup_2 in Hin.
    apply Hfields in Hno. rewrite Forall_forall in Hno. simpl in Hb.
    rewrite (Hno value) in Hb; [done|]. by apply (list_elem_of_fmap_2 snd) in Hin. }
  assert (Forall (λ v, blank v = false) fields) as Hset.
  { apply list_find_None in Ef. apply Forall_fmap. eapply Forall_impl; [exact Ef|].
    intros x Hx. by apply not_true_iff_false. }
  split.
  - intros [Hk H]%reject_if_ok. apply reject_if_ok in H as [Hv H].
    apply result_bind_ok in H as (lifetime & Hl & H). apply result_bind_ok in H as (key & Hkey & H).
    apply (inj Ok) in H as <-. go_bool.
    apply issuer_some; [by apply Hfields|done|by apply issuer_text_spec|by apply issuer_text_spec|
      by apply lifetime_setting_spec|by apply signing_key_spec].
  - intros [Hall|key lifetime _ Hk Hi%issuer_text_spec Ha%issuer_text_spec Hl%lifetime_setting_spec
      Hkey%signing_key_spec]; [by apply Hfields in Hall|].
    by rewrite Hk, Hi, Ha, Hl, Hkey.
Qed.

(** The server that the configuration asks for. *)
Record configured (env : start_env) (config : managementAPIConfig) (state : managementState)
    {R : Type} (revoker : option R) (s : api_server R) : Prop := Configured {
  configured_listen : blank (ac_listen config) = false ∧ as_listen s = ac_listen config;
  configured_files : Forall (λ v, blank v = false)
    [ac_certificateFile config; ac_privateKeyFile config; ac_clientCAFile config; ac_servicesFile config;
     ac_channelACLFile config; ac_globalPermissionsFile config];
  configured_tls : tls_setting (se_tls env) config (as_tlsConfig s);
  configured_authorizer :
    loadManagementAPIAuthorizer (se_open env) (ac_servicesFile config) (ac_channelACLFile config)
      (ac_globalPermissionsFile config) = Ok (api_authorizer (as_api s));
  configured_issuer : issuer_setting (se_keys env) config (api_issuer (as_api s));
  configured_delivery : delivery_setting (ac_eventDelivery config) (api_eventDelivery (as_api s));
  configured_interval : interval_setting (ac_aclReloadInterval config) (as_aclReloadInterval s);
  configured_state : api_state (as_api s) =
    with_jobs (Some newManagementRecordingJobs)
      (with_hub (if String.eqb (api_eventDelivery (as_api s)) "live"
                 then Some newManagementLiveEventHub else None) state);
  configured_revoker : api_revoker (as_api s) = revoker;
  configured_reload : as_files s =
    AclFiles (ac_servicesFile config) (ac_channelACLFile config) (ac_globalPermissionsFile config);
}.

Lemma newManagementAPI_configured {R} env config state (revoker : option R) s :
  order_env env →
  newManagementAPI env config state revoker = Ok (Some s) ↔ configured env config state revoker s.
Proof.
  intros Ho. unfold newManagementAPI, enabled.
  assert (missing_file env config = None ↔ Forall (λ v, blank v = false)
    [ac_certificateFile config; ac_privateKeyFile config; ac_clientCAFile config; ac_servicesFile config;
     ac_channelACLFile config; ac_globalPermissionsFile config]) as Hfiles.
  { rewrite (required_files_checked env config Ho).
    change [ac_certificateFile config; ac_privateKeyFile config; ac_clientCAFile config; ac_servicesFile config;
      ac_channelACLFile config; ac_globalPermissionsFile config] with (required_files config).*2.
    rewrite Forall_fmap, Forall_forall. split; [by intros H [label value]; apply H|intros H label value; apply (H (_, _))]. }
  destruct (blank (ac_listen config)) eqn:El; cbn [negb]; [by split; [|intros [[? _] _]; congruence]|].
  destruct (missing_file env config) as [[n [label value]]|] eqn:Ef.
  { split; [done|]. intros Hs. by apply configured_files, Hfiles in Hs. }
  split.
  - intros Er. apply result_bind_ok in Er as (c & Ht%tls_setting_spec & Er).
    apply result_bind_ok in Er as (az & Ha & Er). apply result_bind_ok in Er as (issuer & Hi%issuer_setting_spec & Er).
    apply result_bind_ok in Er as (mode & Hm%delivery_setting_spec & Er).
    apply result_bind_ok in Er as (interval & Hn%interval_setting_spec & Er).
    apply (inj Ok), (inj Some) in Er as <-. constructor; cbn; try done. by apply Hfiles.
  - intros [[_ Hl] _ Ht%tls_setting_spec Ha Hi%issuer_setting_spec Hm%delivery_setting_spec
      Hn%interval_setting_spec Hs Hr Hf].
    rewrite Ht, Ha, Hi, Hm, Hn. cbn [result_bind]. destruct s as [[st az issuer r mode] files n lis c]. cbn in *.
    by subst.
Qed.

(** ** Properties *)


Definition example_tls : tls_files := TlsFiles (λ _ _, None) (λ _, Ok "pem") (λ _, true).
Definition example_keys : key_loader := KeyLoader (λ _, Ok "pem") (λ _, (None, "")) (λ _, Ok OtherKey).
Definition example_start_env : start_env :=
  StartEnv example_tls example_keys example_files no_fault_env (1000 * Second) id.

(** A process started with environment variables only. *)
Definition example_environment : list (string * string) :=
  [("INCOMUDON_MANAGEMENT_PCL_TRANSPORT", "uds");
   ("INCOMUDON_MANAGEMENT_PCL_UDS_SOCKET_PATH", "/run/relay.sock");
   ("INCOMUDON_MANAGEMENT_PCL_SERVICE_ID", "management");
   ("INCOMUDON_MANAGEMENT_PCL_COMMAND_STORE_FILE", "/var/store");
   ("INCOMUDON_MANAGEMENT_API_LISTEN", ":8443");
   ("INCOMUDON_MANAGEMENT_API_CERT_FILE", "cert"); ("INCOMUDON_MANAGEMENT_API_KEY_FILE", "key");
   ("INCOMUDON_MANAGEMENT_API_CLIENT_CA_FILE", "ca"); ("INCOMUDON_MANAGEMENT_API_SERVICES_FILE", "services");
   ("INCOMUDON_MANAGEMENT_API_CHANNEL_ACL_FILE", "acl");
   ("INCOMUDON_MANAGEMENT_API_GLOBAL_PERMISSIONS_FILE", "permissions");
   ("INCOMUDON_MANAGEMENT_API_EVENT_DELIVERY", "live")].

Definition example_process : process :=
  Process (λ name, match list_find (λ v, v.1 = name) example_environment with
                   | Some (_, (_, value)) => value | None => "" end) (λ _, None).

Definition example_api_config : managementAPIConfig := (loadConfiguration example_process).2.


(** The reload interval.  A blank setting is five seconds, every whole
    number of seconds from 1 to 60 is accepted as written, and nothing outside
    one second to one minute is, however it is spelled; the rest is refused
    with one error. *)
Theorem reload_interval_exact value :
  match parseManagementACLReloadInterval value with
  | Ok n => Second ≤ n ≤ Minute ∧ (blank value = true → n = 5 * Second)
  | Err e => e = err_reload_interval ∧ blank value = false
  end ∧
  ∀ n, 1 ≤ n ≤ 60 → parseManagementACLReloadInterval (whole_seconds n) = Ok (n * Second).
Proof.
  split.
  - destruct (parseManagementACLReloadInterval value) as [n|e] eqn:E; [by apply reload_interval_range|].
    unfold parseManagementACLReloadInterval, blank in *. cbv zeta in E.
    destruct (String.eqb (TrimSpace value) ""); [done|]. split; [|done].
    destruct (ParseDuration _) as [d|]; [|by injection E]. unfold reject_if in E. case_match; [|done].
    by injection E as <-.
  - intros n Hn. unfold parseManagementACLReloadInterval.
    assert (TrimSpace (whole_seconds n) = whole_seconds n ∧ String.eqb (whole_seconds n) "" = false) as [-> ->].
    { assert (forallb (λ n, bool_decide (TrimSpace (whole_seconds n) = whole_seconds n) &&
                            negb (String.eqb (whole_seconds n) "")) (seqZ 1 60) = true) as H by by vm_compute.
      rewrite forallb_forall in H. specialize (H n ltac:(apply list_elem_of_In, elem_of_seqZ; lia)).
      apply andb_true_iff in H as [H1 H2]. split; [by apply bool_decide_eq_true_1 in H1|by apply negb_true_iff]. }
    rewrite ParseDuration_seconds by done. unfold Minute, Second, reject_if in *.
    destruct (_ || _) eqn:Eb; [|done]. apply orb_true_iff in Eb as [?|?]; go_bool; lia.
Qed.

Close Scope Z_scope.
