(* ===== verification/System.v ===== *)
(** * The running service

    The components together: one relay state, one command queue, one session
    at a time and the API server share their objects as [main] wires them.
    Three relations say what the goroutines do, each at the granularity of the
    source's critical sections: [link_step] is the goroutine of [run], with
    the opening, the loop and the end of a session; [request_step] the
    goroutines of the API's requests; [reload_step] the ACL reload.
    [service_step] interleaves them.  A request is a thread: it is accepted
    with the service that the authorizer in force gives it, and its sections
    ([Requests]) and the ends of its waits are steps of their own, so that the
    state, the queue and the authorizer may change between any two of them. *)

From S2P Require Export Server Requests.

Open Scope Z_scope.

(** ** The service *)

(** The client operations of the API's goroutines, one after another. *)
Definition api_client_step (c c' : privateControlClient) : Prop :=
  ∃ op, api_op op ∧ op_ok (cl_store c) op ∧ c' = client_apply c op.

Lemma api_client_step_ok c c' :
  client_ok c → rtc api_client_step c c' → client_ok c' ∧ cl_store c' = cl_store c.
Proof.
  intros Hok Hrun. induction Hrun as [|c c1 c' (op & _ & Hop & ->) _ IH]; [done|].
  destruct (client_apply_ok c op Hok Hop) as [Hok1 Hst]. destruct (IH Hok1) as [? ->]. done.
Qed.

(** The cases of a step of the service. *)
Ltac link_step_cases H :=
  destruct H as
    [dialTLS dialUnix messageID rawAck now relayID w c s p Hgreet
    |dialTLS dialUnix messageID rawAck e c s p Hgreet
    |snapshotID w id w' c s p Hopen
    |snapshotID w e c s p Hopen
    |id point sn w sent c s point' sn' w' sent' c' s' p Hses Hne
    |id e sn w sent c s p
    |e c s p].

Ltac request_step_cases H :=
  destruct H as
    [tid request service c s l p Hfree Hauth
    |tid t env a k c s l p Ht Hpoint Hraw Hrun
    |tid t body env raw queued c c' s l p Ht Hpoint Henv Hrun
    |tid t body command answer c c' s l p Ht Hpoint Hwait
    |tid t jobID c s l p Ht Hpoint
    |tid t ch sub response hub q event q' c s l p Ht Hpoint Hhub Hch Hrecv
    |tid t ch sub response hub hub' c s l p Ht Hpoint Hhub Hun].

Ltac reload_step_cases H :=
  destruct H as
    [os_open now env raws so ao replacement n c c' s l p Hidle Henv Hclock previous Hord Hrel
    |os_open now env raws so ao e c c' s l p Hidle Henv Hclock Hord Hrel
    |replacement c s l p Hheld].

Ltac service_step_cases H :=
  destruct H as [H|[H|H]]; [link_step_cases H|request_step_cases H|reload_step_cases H].

Section service.
Context (Sum256 : string → string) (Sign : string → string → string).
Context {W : Type} (Write : W → string → W * (Z * option error)) (delivered : W → string).
Context (Hcontract : writer_contract Write delivered).
Context (config : privateControlClientConfig).

(** The [switch c.config.transport] of [runSession]; [dialTLS] and [dialUnix]
    are the dialers applied to an address. *)
Definition dial (dialTLS dialUnix : string → result W) : result W :=
  if String.eqb (cfg_transport config) privateControlTransportMTLSTCP
  then dialTLS (cfg_relayAddress config)
  else if String.eqb (cfg_transport config) privateControlTransportUDS
  then dialUnix (cfg_udsSocketPath config)
  else Err (Errorf "unsupported Private Control Link transport %q" [cfg_transport config]).

(** The hello and its answer, on a connection that the dialer returned:
    [messageID] is the outcome of [rand.Read] and [rawAck] that of reading the
    first frame.  The result is the Relay's identifier. *)
Definition greet (messageID rawAck : result string) (w : W) : option (result (string * W)) :=
  match messageID with
  | Err e => Some (Err e)
  | Ok raw =>
      let messageID := newPrivateControlID raw in
      '(w, err) ← writePrivateControlFrame Write w
              (hello_json (session_hello (cfg_serviceID config) messageID));
      match err with
      | Some e => Some (Err e)
      | None =>
          match (try rawAck <- rawAck; accept_hello_ack rawAck messageID) with
          | Err e => Some (Err e)
          | Ok relayID => Some (Ok (relayID, w))
          end
      end
  end.

(** [runSession] up to [markConnected]. *)
Definition connect (dialTLS dialUnix : string → result W) (messageID rawAck : result string)
    : option (result (string * W)) :=
  match dial dialTLS dialUnix with
  | Err e => Some (Err e)
  | Ok connection => greet messageID rawAck connection
  end.

(** From [markConnected] to the loop: the request for a snapshot, under the
    identifier that the session answers to. *)
Definition request_snapshot (snapshotID : result string) (w : W) : option (result (string * W)) :=
  match snapshotID with
  | Err e => Some (Err e)
  | Ok raw =>
      let snapshotRequestID := newPrivateControlID raw in
      '(w, err) ← writePrivateControlFrame Write w (get_snapshot_json (snapshot_request snapshotRequestID));
      match err with
      | Some e => Some (Err e)
      | None => Some (Ok (snapshotRequestID, w))
      end
  end.

(** The connection to the Relay: none; one whose hello was answered, and the
    state marked; a session at a point of its loop; or a [runSession] that
    returned with the state still marked. *)
Inductive link :=
| Down
| Greeted (connection : W)
| Up (snapshotRequestID : string) (point : loop_point) (snapshot : option privateControlSnapshotReassembly)
     (connection : W) (sent : gset string)
| Dropped (err : error).

(** Where the goroutine of an authenticated request is: its body is being read;
    it is about to queue a command for [body]; it waits for the result of the
    command; it is about to stop a job; it reads its subscription; it has
    written [response]. *)
Inductive request_point :=
| Accepted
| Revoking (body : managementServiceAdmissionRevocationRequest)
| Awaiting (body : managementServiceAdmissionRevocationRequest) (command : privateControlPendingCommand)
| Stopping (jobID : string)
| Streaming (channel subscription : Z) (response : http_response)
| Answered (response : http_response).

Record request_thread := Thread {
  th_request : http_request;
  th_service : managementAPIService;
  th_point : request_point;
}.

Definition at_point (point : request_point) (t : request_thread) : request_thread :=
  Thread (th_request t) (th_service t) point.

(** The API with its goroutines: one thread a request, and the reload, which
    holds a loaded authorizer between its queueing and its swap. *)
Record api_process := ApiProcess {
  ap_server : api_server privateControlClient;
  ap_threads : gmap Z request_thread;
  ap_reload : option managementAPIAuthorizer;
}.

Definition with_server (srv : api_server privateControlClient) (p : api_process) : api_process :=
  ApiProcess srv (ap_threads p) (ap_reload p).
Definition with_thread (tid : Z) (t : request_thread) (p : api_process) : api_process :=
  ApiProcess (ap_server p) (<[tid := t]> (ap_threads p)) (ap_reload p).

Record service := Service {
  sv_client : privateControlClient;
  sv_state : managementState;
  sv_link : link;
  sv_server : option api_process;
}.

(** The API as a request finds it: the server's own fields and the shared
    state and queue. *)
Definition api_of (c : privateControlClient) (s : managementState) (srv : api_server privateControlClient)
    : managementAPI privateControlClient :=
  API s (api_authorizer (as_api srv)) (api_issuer (as_api srv)) (Some c) (api_eventDelivery (as_api srv)).

Definition with_api (a : managementAPI privateControlClient) (srv : api_server privateControlClient) :=
  ApiServer a (as_files srv) (as_aclReloadInterval srv) (as_listen srv) (as_tlsConfig srv).

Definition with_authorizer (az : managementAPIAuthorizer) (srv : api_server privateControlClient) :=
  with_api (API (api_state (as_api srv)) az (api_issuer (as_api srv)) (api_revoker (as_api srv))
              (api_eventDelivery (as_api srv))) srv.

(** Where a request goes from its first section. *)
Definition point_after (k : remaining) : request_point :=
  match k with
  | Finish (Respond response) => Answered response
  | Finish (OpenStream _ channel subscription response) => Streaming channel subscription response
  | RevokeWith body => Revoking body
  | StopJob jobID => Stopping jobID
  end.

(** ... and from the queueing of its command. *)
Definition point_queued (body : managementServiceAdmissionRevocationRequest)
    (queued : result privateControlPendingCommand) : request_point :=
  match queued with
  | Ok command => Awaiting body command
  | Err e => Answered (revocation_answer body (zero_ack, "", Some e))
  end.

(** *** The goroutine of [run] *)

Inductive link_step : service → service → Prop :=
(** the dialing and the hello, up to [markConnected]; a failure is followed by
    [markDisconnected] *)
| link_greeted dialTLS dialUnix messageID rawAck now relayID w c s p :
    connect dialTLS dialUnix messageID rawAck = Some (Ok (relayID, w)) →
    link_step (Service c s Down p) (Service c (markConnected now relayID s) (Greeted w) p)
| link_refused dialTLS dialUnix messageID rawAck e c s p :
    connect dialTLS dialUnix messageID rawAck = Some (Err e) →
    link_step (Service c s Down p) (Service c (markDisconnected s) Down p)
(** the request for a snapshot *)
| link_opened snapshotID w id w' c s p :
    request_snapshot snapshotID w = Some (Ok (id, w')) →
    link_step (Service c s (Greeted w) p) (Service c s (Up id AtHead None w' ∅) p)
| link_unopened snapshotID w e c s p :
    request_snapshot snapshotID w = Some (Err e) →
    link_step (Service c s (Greeted w) p) (Service c s (Dropped e) p)
(** the session loop's own steps *)
| link_session id point sn w sent c s point' sn' w' sent' c' s' p :
    session_step Write id (Session point (SessionObjects s c sn) w sent)
      (Session point' (SessionObjects s' c' sn') w' sent') → point' ≠ point →
    link_step (Service c s (Up id point sn w sent) p) (Service c' s' (Up id point' sn' w' sent') p)
(** [runSession] returned, and [run] marks the state *)
| link_ended id e sn w sent c s p :
    link_step (Service c s (Up id (Ended e) sn w sent) p) (Service c (markDisconnected s) Down p)
| link_dropped e c s p :
    link_step (Service c s (Dropped e) p) (Service c (markDisconnected s) Down p).

(** *** The goroutines of the requests *)

Inductive request_step : service → service → Prop :=
(** [ServeHTTP] authenticates a request; any other is answered 403 *)
| sv_accept tid request service c s l p :
    ap_threads p !! tid = None →
    serviceForRequest (api_authorizer (as_api (ap_server p))) (rq_Fingerprint request) = Some service →
    request_step (Service c s l (Some p))
      (Service c s l (Some (with_thread tid (Thread request service Accepted) p)))
(** the first section of its handler *)
| sv_handle tid t env a k c s l p :
    ap_threads p !! tid = Some t → th_point t = Accepted → random_ok env (th_request t) →
    first_section Sum256 Sign env (th_request t) (th_service t) (api_of c s (ap_server p)) = (a, k) →
    request_step (Service c s l (Some p))
      (Service c (api_state a) l
         (Some (with_thread tid (at_point (point_after k) t) (with_server (with_api a (ap_server p)) p))))
(** a revocation queues its command *)
| sv_queue tid t body env raw queued c c' s l p :
    ap_threads p !! tid = Some t → th_point t = Revoking body → env_ok env c →
    revoke_start env raw body c = (c', queued) →
    request_step (Service c s l (Some p))
      (Service c' s l (Some (with_thread tid (at_point (point_queued body queued) t) p)))
(** and takes its result, or its context ends *)
| sv_answer tid t body command answer c c' s l p :
    ap_threads p !! tid = Some t → th_point t = Awaiting body command →
    revoke_wait command c c' answer →
    request_step (Service c s l (Some p))
      (Service c' s l (Some (with_thread tid (at_point (Answered (revocation_answer body answer)) t) p)))
(** a job is stopped *)
| sv_stop tid t jobID c s l p :
    ap_threads p !! tid = Some t → th_point t = Stopping jobID →
    request_step (Service c s l (Some p))
      (Service c (api_state (stop_job jobID (api_of c s (ap_server p)))) l
         (Some (with_thread tid (at_point (Answered stop_response) t) p)))
(** an event stream takes an event, or ends *)
| sv_stream_read tid t ch subscription response hub q event q' c s l p :
    ap_threads p !! tid = Some t → th_point t = Streaming ch subscription response →
    ms_liveEvents s = Some hub → hub_chans hub !! ch = Some q → recv q = Received event q' →
    request_step (Service c s l (Some p)) (Service c (with_hub (Some (with_chan ch q' hub)) s) l (Some p))
| sv_stream_end tid t ch subscription response hub hub' c s l p :
    ap_threads p !! tid = Some t → th_point t = Streaming ch subscription response →
    ms_liveEvents s = Some hub → hub_unsubscribe subscription hub = Some hub' →
    request_step (Service c s l (Some p))
      (Service c (with_hub (Some hub') s) l (Some (with_thread tid (at_point (Answered response) t) p))).

(** *** The goroutine of the reload *)

(** A tick of [runAuthorizerReload]: the revocations are queued, or the reload
    is refused; what was loaded is then put in force. *)
Inductive reload_step : service → service → Prop :=
| sv_reload os_open now env raws service_order acl_order replacement n c c' s l p :
    ap_reload p = None → env_ok env c → reload_clock_ok now →
    let previous := api_authorizer (as_api (ap_server p)) in
    orders_ok service_order acl_order previous →
    reload_queue os_open now (env, raws) service_order acl_order (as_files (ap_server p)) previous (Some c) =
      (Some c', Ok (replacement, n)) →
    reload_step (Service c s l (Some p))
      (Service c' s l (Some (ApiProcess (ap_server p) (ap_threads p) (Some replacement))))
| sv_reload_refused os_open now env raws service_order acl_order e c c' s l p :
    ap_reload p = None → env_ok env c → reload_clock_ok now →
    orders_ok service_order acl_order (api_authorizer (as_api (ap_server p))) →
    reload_queue os_open now (env, raws) service_order acl_order (as_files (ap_server p))
      (api_authorizer (as_api (ap_server p))) (Some c) = (Some c', Err e) →
    reload_step (Service c s l (Some p)) (Service c' s l (Some p))
| sv_reload_swap replacement c s l p :
    ap_reload p = Some replacement →
    reload_step (Service c s l (Some p))
      (Service c s l (Some (ApiProcess (with_authorizer replacement (ap_server p)) (ap_threads p) None))).

(** What [main] starts: [go client.run(ctx)], the API's server and
    [go api.runAuthorizerReload(ctx)]. *)
Definition service_step (sv sv' : service) : Prop :=
  link_step sv sv' ∨ request_step sv sv' ∨ reload_step sv sv'.

(** Where they start from. *)
Definition started (st : service_start) : service :=
  Service (st_client st) (st_state st) Down ((λ srv, ApiProcess srv ∅ None) <$> st_api st).

(** ** The invariant *)

(** The first frames of a session: the hello and the snapshot request. *)
Definition opening (messageID snapshotRequestID : string) : list json :=
  [hello_json (session_hello (cfg_serviceID config) messageID);
   get_snapshot_json (snapshot_request snapshotRequestID)].

Definition payload_frames (payloads : list json) : string :=
  foldr (λ j rest, frame_bytes (print_json j) +:+ rest) "" payloads.

(** What went out on a new connection before the request for a snapshot ... *)
Definition greeted (w : W) : Prop :=
  ∃ before raw, let hello := hello_json (session_hello (cfg_serviceID config) (newPrivateControlID raw)) in
    delivered w = before +:+ payload_frames [hello] ∧ frame_size_ok (print_json hello).

(** ... and before the loop. *)
Definition opened (id : string) (w0 : W) : Prop :=
  ∃ before raw raw', id = newPrivateControlID raw' ∧
    delivered w0 = before +:+ payload_frames (opening (newPrivateControlID raw) id) ∧
    Forall (λ j, frame_size_ok (print_json j)) (opening (newPrivateControlID raw) id).

Definition link_ok (c : privateControlClient) (s : managementState) (l : link) : Prop :=
  match l with
  | Down => ms_connected s = false
  | Greeted w => ms_connected s = true ∧ greeted w
  | Dropped _ => ms_connected s = true
  | Up id point sn w sent =>
      ms_connected s = true ∧
      (∃ w0, opened id w0 ∧ session_ok delivered w0 (Session point (SessionObjects s c sn) w sent)) ∧
      ((∀ e, point ≠ Ended e) → ∀ r, sn = Some r → chunks_ok r)
  end.

(** The server's own fields, and what it attached to the state. *)
Record server_ok (s : managementState) (srv : api_server privateControlClient) : Prop := ServerOk {
  server_authorizer : az_ok (api_authorizer (as_api srv));
  server_issuer : ∀ i, api_issuer (as_api srv) = Some i → issuer_ok i;
  server_delivery : api_eventDelivery (as_api srv) ∈ ["disabled"; "live"];
  server_hub : is_Some (ms_liveEvents s) ↔ api_eventDelivery (as_api srv) = "live";
  server_jobs : is_Some (ms_recordingJobs s);
  server_interval : Second ≤ as_aclReloadInterval srv ≤ Minute;
}.

(** The service of a thread is one that some authorizer held, and a body that
    waits to be revoked has its Go types. *)
Definition thread_ok (t : request_thread) : Prop :=
  Authorizer.service_ok (th_service t) ∧ svc_enabled (th_service t) = true ∧
  match th_point t with
  | Revoking body | Awaiting body _ => request_ints body
  | _ => True
  end.

Record process_ok (s : managementState) (p : api_process) : Prop := ProcessOk {
  process_server : server_ok s (ap_server p);
  process_threads : map_Forall (λ _, thread_ok) (ap_threads p);
  process_reload : ∀ az, ap_reload p = Some az → az_ok az;
}.

Definition server_opt_ok (s : managementState) (p : option api_process) : Prop :=
  match p with
  | Some p => process_ok s p
  | None => ms_liveEvents s = None ∧ ms_recordingJobs s = None
  end.

Record service_ok (sv : service) : Prop := ServiceIsOk {
  service_client : client_ok (sv_client sv);
  service_state : state_ok (sv_state sv);
  service_link : link_ok (sv_client sv) (sv_state sv) (sv_link sv);
  service_server : server_opt_ok (sv_state sv) (sv_server sv);
}.

(** ** Every step keeps it *)

Lemma same_attachments_refl s : same_attachments s s.
Proof. by split_and!. Qed.

Lemma server_ok_attachments s s' srv : server_ok s srv → same_attachments s s' → server_ok s' srv.
Proof. intros [] (_ & Hhub & Hjobs). constructor; by rewrite ?Hhub, ?Hjobs. Qed.

Lemma server_opt_ok_attachments s s' p : server_opt_ok s p → same_attachments s s' → server_opt_ok s' p.
Proof.
  intros Hp Hatt. destruct p as [p|]; simpl in *.
  - destruct Hp as [Hsrv Ht Hr]. constructor; [by eapply server_ok_attachments|done|done].
  - destruct Hp as [H1 H2], Hatt as (_ & Hhub & Hjobs). rewrite H1 in Hhub. rewrite H2 in Hjobs.
    split; apply eq_None_not_Some; [rewrite Hhub|rewrite Hjobs]; by intros [? ?].
Qed.

(** A session's invariant is about its queue and its connection. *)
Lemma session_ok_objects w0 point s c sn w sent s' sn' :
  session_ok delivered w0 (Session point (SessionObjects s c sn) w sent) →
  session_ok delivered w0 (Session point (SessionObjects s' c sn') w sent).
Proof. intros []. by constructor. Qed.

Lemma session_ok_api (id : string) w0 point s c sn w sent c' :
  session_ok delivered w0 (Session point (SessionObjects s c sn) w sent) → rtc api_client_step c c' →
  session_ok delivered w0 (Session point (SessionObjects s c' sn) w sent).
Proof.
  intros Hok Hrun. induction Hrun as [|c c1 c' (op & Hapi & Hop & ->) _ IH]; [done|]. apply IH.
  eapply (session_step_ok Write delivered Hcontract id w0); [exact Hok|].
  by apply (step_api Write id op point (SessionObjects s c sn) w sent).
Qed.

Lemma link_ok_api c s l c' s' :
  link_ok c s l → rtc api_client_step c c' → ms_connected s' = ms_connected s → link_ok c' s' l.
Proof.
  intros Hl Hrun Hc. destruct l as [|w|id point sn w sent|e]; simpl in *; rewrite Hc; [done|done| |done].
  destruct Hl as (? & (w0 & Hop & Hok) & Hsn). split_and!; [done| |done]. exists w0. split; [done|].
  eapply (session_ok_objects _ _ s); [by eapply (session_ok_api id)].
Qed.

(** *** The session *)

Definition not_ended (point : loop_point) : Prop := ∀ e, point ≠ Ended e.

Definition session_objects_ok (x : @session W) : Prop :=
  state_ok (so_state (ses_objects x)) ∧
  (not_ended (ses_point x) → ∀ r, so_snapshot (ses_objects x) = Some r → chunks_ok r).

Lemma session_step_objects id (x x' : @session W) :
  client_ok (so_conn (ses_objects x)) → session_objects_ok x → session_step (W:=W) Write id x x' →
  session_objects_ok x' ∧ same_attachments (so_state (ses_objects x)) (so_state (ses_objects x')).
Proof.
  intros Hcl [Hs Hsn] Hstep. unfold session_objects_ok.
  destruct Hstep as [| | | | |now order env raw o o' w sent Henv Ho Hm
    |now order env raw o o' w sent e Henv Ho Hm| |]; cbn in *;
    try (split; [split; [done|]|apply same_attachments_refl];
         first [done|intros Hn; by destruct (Hn _ eq_refl)|intros _; by apply Hsn]).
  - apply handleSessionMessage_spec in Hm; [|done|done].
    destruct (accepted_objects_ok now order raw id o o') as [[Hs' Hsn'] Hatt]; [|done|done|by split].
    constructor; [done|]. by apply Hsn.
  - apply handleSessionMessage_spec in Hm as (-> & _); [|done|done].
    split; [split; [done|]|apply same_attachments_refl]. intros Hn. by destruct (Hn e).
Qed.

(** A successful write puts the whole frame out, of an admissible size. *)
Lemma write_frame_ok w value w' :
  writePrivateControlFrame Write w value = Some (w', None) →
  delivered w' = delivered w +:+ frame_bytes (print_json value) ∧ frame_size_ok (print_json value).
Proof.
  destruct (write_frame_spec Write delivered w value Hcontract) as (w1 & err & Hw & (q & r & Hq & Hd & Hr) & Hsize & _).
  rewrite Hw. intros [= <- ->]. split; [|by apply Hsize].
  by rewrite Hd, Hq, (Hr eq_refl), string_app_empty_r.
Qed.

Lemma greet_greeted messageID rawAck w relayID w' :
  greet messageID rawAck w = Some (Ok (relayID, w')) → greeted w'.
Proof.
  unfold greet. destruct messageID as [raw|e]; [|done].
  destruct (writePrivateControlFrame _ _ _) as [[w1 [e|]]|] eqn:E; cbn [mbind option_bind]; [done| |done].
  destruct (result_bind _ _) as [r|e]; [|done]. intros [= _ <-]. apply write_frame_ok in E as [Hd Hsize].
  exists (delivered w), raw. split; [|done]. unfold payload_frames. simpl.
  by rewrite Hd, string_app_empty_r.
Qed.

Lemma connect_greeted dialTLS dialUnix messageID rawAck relayID w :
  connect dialTLS dialUnix messageID rawAck = Some (Ok (relayID, w)) → greeted w.
Proof. unfold connect. destruct (dial _ _); [apply greet_greeted|done]. Qed.

Lemma request_snapshot_opened snapshotID w id w' :
  greeted w → request_snapshot snapshotID w = Some (Ok (id, w')) → opened id w'.
Proof.
  intros (before & raw & Hd & Hsize). unfold request_snapshot. destruct snapshotID as [raw'|e]; [|done].
  destruct (writePrivateControlFrame _ _ _) as [[w1 [e|]]|] eqn:E; cbn [mbind option_bind]; [done| |done].
  intros [= <- <-]. apply write_frame_ok in E as [Hd1 Hs1].
  exists before, raw, raw'. split_and!; [done| |constructor; [done|by apply Forall_singleton]].
  unfold payload_frames in *. simpl in *. by rewrite Hd1, Hd, !string_app_empty_r, string_app_assoc.
Qed.

Lemma server_opt_ok_same s s' p :
  server_opt_ok s p → ms_liveEvents s' = ms_liveEvents s → ms_recordingJobs s' = ms_recordingJobs s →
  server_opt_ok s' p.
Proof.
  intros Hp Hh Hj. destruct p as [p|]; simpl in *; [|by rewrite Hh, Hj].
  destruct Hp as [[] Ht Hr]. constructor; [|done|done]. constructor; rewrite ?Hh, ?Hj; done.
Qed.

(** A new session starts with nothing sent. *)
Lemma new_session_ok w s c : client_ok c → session_ok delivered w (Session AtHead (SessionObjects s c None) w ∅).
Proof.
  intros Hc. apply (session_reachable_ok Write delivered Hcontract "" w (SessionObjects s c None)); [done|].
  apply rtc_refl.
Qed.

(** *** Requests and reloads *)

Lemma authenticated_service az fingerprint service :
  az_ok az → serviceForRequest az fingerprint = Some service →
  Authorizer.service_ok service ∧ svc_enabled service = true ∧
  service_by_id az (svc_serviceID service) = Some service.
Proof.
  intros Hok. unfold serviceForRequest. destruct fingerprint as [fp|]; cbn [mbind option_bind]; [|done].
  destruct (service_by_fingerprint az fp) as [s|] eqn:E; cbn [mbind option_bind]; [|done].
  destruct (svc_enabled s) eqn:Een; [|done]. intros [= <-].
  apply (service_by_fingerprint_by_id _ _ _ Hok) in E. by destruct (az_ok_service _ _ _ Hok E).
Qed.

Lemma thread_lookup_ok s p tid t : process_ok s p → ap_threads p !! tid = Some t → thread_ok t.
Proof. intros Hp Ht. exact (process_threads s p Hp tid t Ht). Qed.

Lemma with_thread_ok s p tid t : process_ok s p → thread_ok t → process_ok s (with_thread tid t p).
Proof. intros [Hsrv Ht Hr] Hok. constructor; [done|by apply map_Forall_insert_2|done]. Qed.

(** A thread that moves to a point without a body. *)
Definition bodyless (point : request_point) : Prop :=
  match point with Revoking _ | Awaiting _ _ => False | _ => True end.

Lemma move_thread_ok s p tid t point :
  process_ok s p → ap_threads p !! tid = Some t → bodyless point →
  process_ok s (with_thread tid (at_point point t) p).
Proof.
  intros Hp Ht Hpoint. apply with_thread_ok; [done|].
  destruct (thread_lookup_ok s p tid t Hp Ht) as (H1 & H2 & _). split_and!; [done|done|]. by destruct point.
Qed.

Lemma api_of_ok c s p : state_ok s → process_ok s p → api_ok (api_of c s (ap_server p)).
Proof. intros Hs Hp. constructor; simpl; [done|]. apply (server_issuer _ _ (process_server _ _ Hp)). Qed.

(** A section served by the API keeps the server and the state sound. *)
Lemma served_ok {X} c s p a (x : X) :
  process_ok s p → serves (api_of c s (ap_server p)) (a, x) →
  state_ok (api_state a) ∧ same_attachments s (api_state a) ∧
  process_ok (api_state a) (with_server (with_api a (ap_server p)) p) ∧
  process_ok (api_state a) p.
Proof.
  intros Hp [[Hs Hi] (Haz & Hd & Hatt & _)]. cbn in *.
  assert (process_ok (api_state a) p) as Hp' by by apply (server_opt_ok_attachments s _ (Some p)).
  split_and!; [done|apply Hatt..| |done]. destruct Hp' as [[] Ht Hr].
  constructor; [|done|done]. constructor; simpl; by rewrite ?Haz, ?Hd.
Qed.

Lemma handle_ok env t tid c s p a k :
  state_ok s → process_ok s p → ap_threads p !! tid = Some t → random_ok env (th_request t) →
  first_section Sum256 Sign env (th_request t) (th_service t) (api_of c s (ap_server p)) = (a, k) →
  state_ok (api_state a) ∧ same_attachments s (api_state a) ∧
  process_ok (api_state a)
    (with_thread tid (at_point (point_after k) t) (with_server (with_api a (ap_server p)) p)).
Proof.
  intros Hs Hp Ht Hraw Hrun.
  pose proof (first_section_serves Sum256 Sign env (th_request t) (th_service t) _
    (api_of_ok c s p Hs Hp) Hraw) as Hserves.
  pose proof (first_section_left Sum256 Sign env (th_request t) (th_service t) (api_of c s (ap_server p)))
    as Hleft.
  rewrite Hrun in Hserves, Hleft. destruct (served_ok c s p a k Hp Hserves) as (H1 & H2 & H3 & _).
  split_and!; [done|apply H2..|]. apply with_thread_ok; [done|].
  destruct (thread_lookup_ok s p tid t Hp Ht) as (H4 & H5 & _). split_and!; [done|done|].
  simpl in Hleft. destruct k as [[]|body|jobID]; simpl; [done|done|by destruct Hleft as (_ & ? & _)|done].
Qed.

Lemma queue_step env raw body c c' queued :
  request_ints body → env_ok env c → revoke_start env raw body c = (c', queued) → api_client_step c c'.
Proof.
  intros Hints Henv Hrun. exists (OpRevoke env raw body). split; [done|]. split; [by split|].
  simpl. by rewrite Hrun.
Qed.

Lemma wait_step command c c' answer : revoke_wait command c c' answer → rtc api_client_step c c'.
Proof.
  intros [c1 c1' result Hr|c1 e _]; [|apply rtc_refl]. apply rtc_once.
  exists (OpReceive (pc_result command)). split_and!; [done|done|]. simpl. by rewrite Hr.
Qed.

(** A reload queues one batch, or leaves the queue alone. *)
Lemma reload_queue_effect os_open now env raws service_order acl_order files previous c c' result :
  az_ok previous → reload_clock_ok now → orders_ok service_order acl_order previous →
  reload_queue os_open now (env, raws) service_order acl_order files previous (Some c) = (Some c', result) →
  (c' = c ∨ ∃ requests, Forall request_ints requests ∧
     c' = (queueServiceAdmissionRevocations env raws requests c).1) ∧
  ∀ replacement n, result = Ok (replacement, n) → az_ok replacement.
Proof.
  intros Haz Hclock Hord. unfold reload_queue.
  destruct (loadManagementAPIAuthorizer _ _ _ _) as [replacement|e] eqn:El; [|intros [= <- <-]; split; [by left|done]].
  apply loadManagementAPIAuthorizer_ok in El.
  pose proof (revocation_requests_ints previous replacement service_order acl_order now Haz Hord Hclock) as Hints.
  destruct (managementAutomaticRevocations _ _ _ _) as [|t ts].
  { intros [= <- <-]. split; [by left|]. by intros r n [= <- _]. }
  cbv zeta. set (requests := revocation_requests _ _) in *. cbn [dq_queue client_queue fst snd].
  destruct (queueServiceAdmissionRevocations env raws requests c) as [c1 [e|]] eqn:Eq; intros [= <- <-];
    (split; [right; exists requests; split; [done|by rewrite Eq]|]); [done|by intros r n [= <- _]].
Qed.

Lemma reload_queue_api os_open now env raws service_order acl_order files previous c c' result :
  az_ok previous → env_ok env c → reload_clock_ok now → orders_ok service_order acl_order previous →
  reload_queue os_open now (env, raws) service_order acl_order files previous (Some c) = (Some c', result) →
  rtc api_client_step c c' ∧ ∀ replacement n, result = Ok (replacement, n) → az_ok replacement.
Proof.
  intros Haz Henv Hclock Hord Hrun.
  destruct (reload_queue_effect _ _ _ _ _ _ _ _ _ _ _ Haz Hclock Hord Hrun) as [[->|(requests & Hr & ->)] Hok];
    (split; [|done]); [apply rtc_refl|]. apply rtc_once.
  exists (OpQueue env raws requests). by split_and!.
Qed.

Lemma link_ok_state c s s' l : link_ok c s l → ms_connected s' = ms_connected s → link_ok c s' l.
Proof. intros Hl Hs. by eapply link_ok_api; [exact Hl|apply rtc_refl|]. Qed.

(** Steps of the API's goroutines: the queue moves by their operations, and
    the state by a section that keeps its attachments. *)
Lemma api_step_ok c c' s s' l p p' :
  service_ok (Service c s l (Some p)) → rtc api_client_step c c' →
  state_ok s' → same_attachments s s' → process_ok s' p' → service_ok (Service c' s' l (Some p')).
Proof.
  intros [Hc Hs Hl Hp] Hrun Hs' Hatt Hp'. simpl in *.
  constructor; simpl; [by apply (api_client_step_ok c)|done| |done].
  eapply link_ok_api; [exact Hl|done|apply Hatt].
Qed.

Lemma api_queue_step_ok c c' s l p p' :
  service_ok (Service c s l (Some p)) → rtc api_client_step c c' → process_ok s p' →
  service_ok (Service c' s l (Some p')).
Proof.
  intros Hok Hrun Hp'. apply (api_step_ok c c' s s l p); [done|done|apply Hok| |done].
  apply same_attachments_refl.
Qed.

(** Changing the hub of a state that has one. *)
Lemma hub_change_ok hub hub' c s l p p' :
  service_ok (Service c s l (Some p)) → ms_liveEvents s = Some hub → hub_ok hub' → process_ok s p' →
  service_ok (Service c (with_hub (Some hub') s) l (Some p')).
Proof.
  intros Hok Hhub Hok' Hp'.
  assert (same_attachments s (with_hub (Some hub') s)) as Hatt.
  { split_and!; simpl; rewrite ?Hhub; by eauto. }
  apply (api_step_ok c c s _ l p); [done|apply rtc_refl|apply state_ok_hub; [apply Hok|done]|done|].
  by apply (server_opt_ok_attachments s _ (Some p')).
Qed.

Lemma session_service_ok id point sn w sent c s point' sn' w' sent' c' s' srv :
  service_ok (Service c s (Up id point sn w sent) srv) →
  session_step Write id (Session point (SessionObjects s c sn) w sent)
    (Session point' (SessionObjects s' c' sn') w' sent') →
  service_ok (Service c' s' (Up id point' sn' w' sent') srv).
Proof.
  intros [Hc Hs (Hcon & (w0 & Hop & Hses) & Hsn) Hsrv] Hstep. simpl in *.
  destruct (session_step_objects id (Session point (SessionObjects s c sn) w sent) _ Hc (conj Hs Hsn) Hstep)
    as [[Hs' Hsn'] Hatt]. simpl in *.
  pose proof (session_step_ok Write delivered Hcontract id w0 _ _ Hses Hstep) as Hses'.
  constructor; simpl.
  - apply (sok_client _ _ _ Hses').
  - done.
  - split_and!; [by destruct Hatt as [-> _]|by exists w0|done].
  - by eapply server_opt_ok_attachments.
Qed.

Lemma stop_step_ok c s l p tid t jobID :
  service_ok (Service c s l (Some p)) → ap_threads p !! tid = Some t →
  service_ok (Service c (api_state (stop_job jobID (api_of c s (ap_server p)))) l
    (Some (with_thread tid (at_point (Answered stop_response) t) p))).
Proof.
  intros Hok Ht. pose proof (service_state _ Hok : state_ok s) as Hs.
  pose proof (service_server _ Hok : process_ok s p) as Hp.
  destruct (served_ok c s p _ _ Hp (stop_job_serves jobID _ (api_of_ok c s p Hs Hp))) as (H1 & H2 & _ & H4).
  apply (api_step_ok c c s _ l p); [done|apply rtc_refl|done|done|by apply move_thread_ok].
Qed.

Lemma service_hub_ok c s l p hub :
  service_ok (Service c s l p) → ms_liveEvents s = Some hub → hub_ok hub.
Proof. intros [_ Hs _ _] Hhub. pose proof (state_hub _ Hs) as H. simpl in H. by rewrite Hhub in H. Qed.

Lemma greeted_ok dialTLS dialUnix messageID rawAck now relayID w c s p :
  service_ok (Service c s Down p) →
  connect dialTLS dialUnix messageID rawAck = Some (Ok (relayID, w)) →
  service_ok (Service c (markConnected now relayID s) (Greeted w) p).
Proof.
  intros [Hc Hs Hl Hp] Hcon. simpl in *. constructor; simpl; [done|by apply state_ok_connected| |].
  - split; [done|by eapply connect_greeted].
  - by eapply server_opt_ok_same.
Qed.

Lemma opened_ok snapshotID w id w' c s p :
  service_ok (Service c s (Greeted w) p) → request_snapshot snapshotID w = Some (Ok (id, w')) →
  service_ok (Service c s (Up id AtHead None w' ∅) p).
Proof.
  intros [Hc Hs [Hcon Hw] Hp] Hopen. simpl in *. constructor; simpl; [done|done| |done].
  split_and!; [done|exists w'; split; [by eapply request_snapshot_opened|by apply new_session_ok]|done].
Qed.

Lemma unopened_ok w e c s p : service_ok (Service c s (Greeted w) p) → service_ok (Service c s (Dropped e) p).
Proof. intros [Hc Hs [Hcon _] Hp]. by constructor. Qed.

(** [run] marks the state when [runSession] has returned. *)
Lemma disconnected_ok c s l p :
  service_ok (Service c s l p) → service_ok (Service c (markDisconnected s) Down p).
Proof.
  intros [Hc Hs Hl Hp]. simpl in *.
  constructor; simpl; [done|auto with state|done|by eapply server_opt_ok_same].
Qed.

Lemma accepted_ok tid request service c s l p :
  service_ok (Service c s l (Some p)) →
  serviceForRequest (api_authorizer (as_api (ap_server p))) (rq_Fingerprint request) = Some service →
  service_ok (Service c s l (Some (with_thread tid (Thread request service Accepted) p))).
Proof.
  intros Hok Hauth. pose proof (service_server _ Hok : process_ok s p) as Hp.
  apply (api_queue_step_ok c c s l p); [done|apply rtc_refl|]. apply with_thread_ok; [done|].
  destruct (authenticated_service _ _ _ (server_authorizer _ _ (process_server _ _ Hp)) Hauth) as (? & ? & _).
  by split_and!.
Qed.

Lemma queued_ok tid t body env raw queued c c' s l p :
  service_ok (Service c s l (Some p)) → ap_threads p !! tid = Some t → th_point t = Revoking body →
  env_ok env c → revoke_start env raw body c = (c', queued) →
  service_ok (Service c' s l (Some (with_thread tid (at_point (point_queued body queued) t) p))).
Proof.
  intros Hok Ht Hpoint Henv Hrun. pose proof (service_server _ Hok : process_ok s p) as Hp.
  destruct (thread_lookup_ok s p tid t Hp Ht) as (H1 & H2 & H3). rewrite Hpoint in H3.
  apply (api_queue_step_ok c c' s l p); [done|by apply rtc_once; eapply queue_step|].
  apply with_thread_ok; [done|]. split_and!; [done|done|]. by destruct queued.
Qed.

(** A reload's queueing, and its swap. *)
Lemma reloaded_ok c c' s l p held :
  service_ok (Service c s l (Some p)) → rtc api_client_step c c' →
  (∀ az, held = Some az → az_ok az) →
  service_ok (Service c' s l (Some (ApiProcess (ap_server p) (ap_threads p) held))).
Proof.
  intros Hok Hrun Hheld. apply (api_queue_step_ok c c' s l p); [done|done|].
  destruct (service_server _ Hok : process_ok s p) as [Hsrv Ht _]. by constructor.
Qed.

Lemma swapped_ok replacement c s l p :
  service_ok (Service c s l (Some p)) → ap_reload p = Some replacement →
  service_ok (Service c s l
    (Some (ApiProcess (with_authorizer replacement (ap_server p)) (ap_threads p) None))).
Proof.
  intros Hok Hheld. destruct (service_server _ Hok : process_ok s p) as [[] Ht Hr].
  apply (api_queue_step_ok c c s l p); [done|apply rtc_refl|]. constructor; [|done|done].
  constructor; simpl; try done. by apply Hr.
Qed.

Lemma service_step_ok sv sv' : service_ok sv → service_step sv sv' → service_ok sv'.
Proof.
  intros Hok Hstep. service_step_cases Hstep.
  - by eapply greeted_ok.
  - by eapply disconnected_ok.
  - by eapply opened_ok.
  - by eapply unopened_ok.
  - by eapply session_service_ok.
  - by eapply disconnected_ok.
  - by eapply disconnected_ok.
  - by eapply accepted_ok.
  - destruct (handle_ok env t tid c s p a k (service_state _ Hok) (service_server _ Hok) Ht Hraw Hrun)
      as (H1 & H2 & H3).
    by apply (api_step_ok c c s _ l p); [|apply rtc_refl|..].
  - by eapply queued_ok.
  - apply (api_queue_step_ok c c' s l p); [done|by eapply wait_step|].
    by apply move_thread_ok; [apply (service_server _ Hok)|..].
  - by apply stop_step_ok.
  - eapply hub_change_ok; [done|done| |apply (service_server _ Hok)].
    eapply hub_receive_ok; [by eapply service_hub_ok|done|done].
  - eapply hub_change_ok; [done|done| |by apply move_thread_ok; [apply (service_server _ Hok)|..]].
    eapply hub_unsubscribe_ok; [by eapply service_hub_ok|done].
  - pose proof (server_authorizer _ _ (process_server _ _ (service_server _ Hok))) as Haz.
    destruct (reload_queue_api _ _ _ _ _ _ _ _ _ _ _ Haz Henv Hclock Hord Hrel) as [Hstep Hnew].
    apply (reloaded_ok c); [done|done|]. intros az [= <-]. by eapply Hnew.
  - pose proof (server_authorizer _ _ (process_server _ _ (service_server _ Hok))) as Haz.
    destruct (reload_queue_api _ _ _ _ _ _ _ _ _ _ _ Haz Henv Hclock Hord Hrel) as [Hstep _].
    by apply (api_queue_step_ok c c' s l p); [| |apply (service_server _ Hok)].
  - by apply swapped_ok.
Qed.

(** *** The start *)

Lemma started_ok env p fs fs' st :
  order_env env → start env p fs = (fs', Ok st) → service_ok (started st).
Proof.
  intros Ho. unfold start. destruct (loadConfiguration p) as [[cfg httpListen] apiConfig].
  unfold newPrivateControlClient. destruct (negb _); [done|].
  destruct (openPrivateControlCommandStore _ _ _ _ _) as [fs1 [[[filename pending] next]|e]] eqn:Eo; [|done].
  apply open_store_ok in Eo as (_ & _ & Hwf & Hch & Hsize & _).
  destruct (check_transport _ _) as [e|]; [done|].
  set (c := Client pending (Some filename) false ∅ next fs1).
  assert (client_ok c) as Hc.
  { constructor; simpl; [done|done|done|intros; apply lookup_empty|intros ? ? H; by rewrite lookup_empty in H]. }
  pose proof (newManagementAPI_spec env apiConfig newManagementState (Some c) Ho) as Hs.
  destruct (newManagementAPI _ _ _ _) as [[srv|]|e]; [| |done]; intros [= <- <-]; unfold started; simpl.
  - destruct Hs as [_ _ [_ Haz] [_ Hi] Hst [Hd _] _ Hint _ _]. rewrite Hst.
    assert (hub_opt_ok (if String.eqb (api_eventDelivery (as_api srv)) "live"
                        then Some newManagementLiveEventHub else None)) as Hhub.
    { destruct (String.eqb _ _); [apply hub_ok_new|done]. }
    constructor; simpl; [done| |done|].
    + constructor; [apply map_Forall_empty|done|apply jobs_ok_new].
    + constructor; [|apply map_Forall_empty|done]. constructor; simpl; [done|intros i E; by apply Hi|done| |by eexists|done].
      destruct (String.eqb_spec (api_eventDelivery (as_api srv)) "live"); split;
        first [done|by intros [? ?]|by eexists].
  - constructor; simpl; [done|auto with state|done|done].
Qed.

Lemma service_reachable_ok env p fs fs' st sv :
  order_env env → start env p fs = (fs', Ok st) → rtc service_step (started st) sv → service_ok sv.
Proof.
  intros Ho Hst Hrun. eapply (rtc_invariant service_ok); [|by eapply started_ok|exact Hrun].
  intros a b Ha Hab. by eapply service_step_ok.
Qed.
End service.

(** The configuration of the Private Control Link that [main] reads. *)
Definition link_config (p : process) : privateControlClientConfig := (loadConfiguration p).1.1.

(** ** Properties *)

(** C3: the running service stays well formed.  Whatever environment, command
    line, files and store content the service starts from, whatever the Relay
    sends, whatever requests arrive, whatever the ACL files become, in
    whatever order the goroutines run and whatever fails on the way: the
    command queue is sound, the session has sent exactly the commands it
    recorded and covers every pending one, the relay state is connected
    exactly while there is a session, its participants, jobs, hub and
    snapshot are well formed, the server has a well-formed authorizer, a sound
    issuer and a hub exactly for live delivery, every request in progress holds
    a well-formed enabled service, and so does an authorizer that waits to be
    put in force. *)
Theorem service_well_formed Sum256 Sign {W} (Write : W → string → W * (Z * option error))
    (delivered : W → string) env p fs fs' st sv :
  writer_contract Write delivered → order_env env → start env p fs = (fs', Ok st) →
  rtc (service_step Sum256 Sign Write (link_config p)) (started st) sv →
  service_ok delivered (link_config p) sv.
Proof.
  intros Hc Ho Hst Hrun. by eapply service_reachable_ok.
Qed.

Definition example_hello_ack : string :=
  print_json (JObject [("schema_version", JString privateControlSchemaVersion); ("type", JString "hello_ack");
    ("message_id", JString "BBBBBBBBBBBBBBBBBBBBBA");
    ("in_reply_to", JString (newPrivateControlID example_raw_id));
    ("session_id", JString "CCCCCCCCCCCCCCCCCCCCCA"); ("relay_id", JString "relay");
    ("lifecycle_events_accepted", JBool true); ("audit_inputs_accepted", JBool false);
    ("diagnostics_accepted", JBool false)]).

(** The example process, started, greeted by a Relay, and with its session. *)
Definition example_start : service_start :=
  match (start example_start_env example_process no_files).2 with
  | Ok st => st
  | Err _ => ServiceStart empty_client newManagementState None ""
  end.

Lemma example_started : start example_start_env example_process no_files = (no_files, Ok example_start).
Proof. vm_compute. reflexivity. Qed.

Lemma example_order : order_env example_start_env.
Proof. intros l. reflexivity. Qed.

(** What a step put on the wire. *)
Definition wire_of (r : option (result (string * string))) : string :=
  match r with Some (Ok (_, w)) => w | _ => "" end.

Definition example_hello_wire : string :=
  wire_of (connect (chunked_write 10) (link_config example_process) (λ _, Ok "") (λ _, Ok "")
             (Ok example_raw_id) (Ok example_hello_ack)).
Definition example_wire : string :=
  wire_of (request_snapshot (chunked_write 10) (Ok example_raw_id) example_hello_wire).

Definition example_with (l : @link string) : @service string :=
  Service (st_client example_start) (markConnected (2000 * Second) "relay" (st_state example_start)) l
    ((λ srv, ApiProcess srv ∅ None) <$> st_api example_start).

Definition example_greeted : service := example_with (Greeted example_hello_wire).
Definition example_connected : service :=
  example_with (Up (newPrivateControlID example_raw_id) AtHead None example_wire ∅).

Lemma example_greets Sum256 Sign :
  service_step Sum256 Sign (chunked_write 10) (link_config example_process)
    (started example_start) example_greeted.
Proof.
  left. apply (link_greeted (chunked_write 10) (link_config example_process) (λ _, Ok "") (λ _, Ok "")
    (Ok example_raw_id) (Ok example_hello_ack) (2000 * Second)). vm_compute. reflexivity.
Qed.

Lemma example_opens Sum256 Sign :
  service_step Sum256 Sign (chunked_write 10) (link_config example_process)
    example_greeted example_connected.
Proof. left. apply (link_opened _ _ (Ok example_raw_id)). vm_compute. reflexivity. Qed.

Lemma example_connects Sum256 Sign :
  rtc (service_step Sum256 Sign (chunked_write 10) (link_config example_process))
    (started example_start) example_connected.
Proof. eapply rtc_l; [apply example_greets|apply rtc_once, example_opens]. Qed.

Lemma service_well_formed_witness :
  service_ok id (link_config example_process) example_connected ∧ ms_connected (sv_state example_connected) = true.
Proof.
  split; [|vm_compute; reflexivity].
  apply (service_well_formed example_sum example_sign (chunked_write 10) id example_start_env example_process
    no_files no_files example_start example_connected).
  - apply chunked_write_contract.
  - exact example_order.
  - exact example_started.
  - apply example_connects.
Defined.

(** C25: nothing is served without a Relay.  In every state the service can
    reach, while the Relay has not answered a hello, or [run] has marked the
    loss of the connection, the health is "unhealthy", /readyz does not answer
    200 and neither listing does, whoever asks; and when /readyz answers 200
    there is a connection whose hello was answered. *)
Theorem nothing_served_without_relay Sum256 Sign {W} (Write : W → string → W * (Z * option error))
    (delivered : W → string) env p fs fs' st sv request renv service channelID :
  writer_contract Write delivered → order_env env → start env p fs = (fs', Ok st) →
  rtc (service_step Sum256 Sign Write (link_config p)) (started st) sv →
  let a srv := api_of (sv_client sv) (sv_state sv) srv in
  (sv_link sv = Down →
     managementAPIHealthStatus (sv_state sv) = "unhealthy" ∧
     ∀ srv, (∃ status, status ∈ [StatusForbidden; StatusServiceUnavailable] ∧
               handleChannels renv service (a srv) = fail status) ∧
            (∃ status, status ∈ [StatusForbidden; StatusServiceUnavailable] ∧
               handleParticipants renv service channelID (a srv) = fail status)) ∧
  (rs_Status (handle_readyz request (sv_state sv) (sv_state sv)) = StatusOK → sv_link sv ≠ Down).
Proof.
  intros Hc Ho Hst Hrun a.
  assert (service_ok delivered (link_config p) sv) as [_ _ Hl _] by by eapply service_reachable_ok.
  assert (Hdown : sv_link sv = Down → ms_connected (sv_state sv) = false).
  { intros Hd. by rewrite Hd in Hl. }
  split.
  - intros Hcon%Hdown. unfold managementAPIHealthStatus, handleChannels, handleParticipants.
    unfold managementAPIChannelState. subst a. simpl. rewrite Hcon. simpl. split; [done|]. intros srv.
    split; case_match; eexists; (split; [|done]); set_solver.
  - intros Hr Hd%Hdown. unfold handle_readyz, managementAPIChannelState in Hr. rewrite Hd in Hr.
    simpl in Hr. by destruct (negb _).
Qed.

Lemma nothing_served_without_relay_witness :
  managementAPIHealthStatus (sv_state (started (W:=string) example_start)) = "unhealthy".
Proof.
  apply (nothing_served_without_relay example_sum example_sign (chunked_write 10) id example_start_env
    example_process no_files no_files example_start (started example_start)
    (Request "GET" "/readyz" [] "" None) (RequestEnv 0 0 (Ok "") [] [] true)
    (Authorizer.Service "s" "viewer" true ∅ ∅ ∅) 5).
  - apply chunked_write_contract.
  - exact example_order.
  - exact example_started.
  - apply rtc_refl.
  - reflexivity.
Defined.

Close Scope Z_scope.
