(* ===== verification/Main.v ===== *)
(** * The life of the process

    [main] from its first goroutine to its end: the context that a signal or a
    failed listener ends, the attempts and pauses of [run] around the sessions,
    the reload's ticks, and the two calls of [Shutdown] under one deadline of
    five seconds.  The goroutines of [System] run inside it: [link_step] in an
    attempt of [run], [reload_step] until the reload returns. *)

From S2P Require Export System Liveness.

Open Scope Z_scope.

(** ** The program *)

(** An [http.Server] as [main] uses it: [ListenAndServe] runs, or failed;
    [Shutdown] was called, and the listener is closed; [Shutdown] returned
    because every connection was idle, or at the deadline. *)
Inductive listener := Listening | Failed | Closing | Quiet | Abandoned.

(** Where [run] is: at the condition of its loop; in [runSession] and
    [markDisconnected]; about to look at the context after them; waiting for
    the timer of [retry]; or returned. *)
Inductive run_point :=
| AtLoop (retry : Z)
| Attempting (retry : Z)
| Leaving (retry : Z)
| Pausing (retry : Z)
| Returned.

(** Where [main] is: at [<-ctx.Done()], in one of the two calls of [Shutdown],
    or at its end, which is the end of every goroutine. *)
Inductive main_point := AwaitingContext | ShuttingAPI | ShuttingHealth | Exited.

(** [for context.Err() == nil] *)
Definition loop_head (cancelled : bool) (retry : Z) : run_point :=
  if cancelled then Returned else Attempting retry.

(** [if context.Err() != nil { return }], after a session. *)
Definition after_session (cancelled : bool) (retry : Z) : run_point :=
  if cancelled then Returned else Pausing retry.

(** [run], but for what happens in an attempt. *)
Inductive run_step (cancelled : bool) : run_point → run_point → Prop :=
| run_head retry : run_step cancelled (AtLoop retry) (loop_head cancelled retry)
| run_leaves retry : run_step cancelled (Leaving retry) (after_session cancelled retry)
| run_timer retry : run_step cancelled (Pausing retry) (AtLoop (next_retry retry))
| run_woken retry : cancelled = true → run_step cancelled (Pausing retry) Returned.

(** The delay that a point of [run] holds. *)
Definition run_delay (point : run_point) : option Z :=
  match point with
  | AtLoop retry | Attempting retry | Leaving retry | Pausing retry => Some retry
  | Returned => None
  end.

Section program.
Context (Sum256 : string → string) (Sign : string → string → string).
Context {W : Type} (Write : W → string → W * (Z * option error)).
Context (config : privateControlClientConfig).
#[local] Abbreviation service := (@service W).

Record program := Program {
  pg_service : service;
  pg_cancelled : bool;
  pg_run : run_point;
  pg_reloading : bool;
  pg_health : listener;
  pg_api : option listener;
  pg_deadline : bool;
  pg_main : main_point;
}.

Definition with_service (sv : service) (g : program) : program :=
  Program sv (pg_cancelled g) (pg_run g) (pg_reloading g) (pg_health g) (pg_api g) (pg_deadline g) (pg_main g).
Definition with_run (run : run_point) (g : program) : program :=
  Program (pg_service g) (pg_cancelled g) run (pg_reloading g) (pg_health g) (pg_api g) (pg_deadline g) (pg_main g).
Definition cancel (g : program) : program :=
  Program (pg_service g) true (pg_run g) (pg_reloading g) (pg_health g) (pg_api g) (pg_deadline g) (pg_main g).
Definition reload_returned (g : program) : program :=
  Program (pg_service g) (pg_cancelled g) (pg_run g) false (pg_health g) (pg_api g) (pg_deadline g) (pg_main g).
Definition expire (g : program) : program :=
  Program (pg_service g) (pg_cancelled g) (pg_run g) (pg_reloading g) (pg_health g) (pg_api g) true (pg_main g).
Definition with_listeners (health : listener) (api : option listener) (point : main_point) (g : program) : program :=
  Program (pg_service g) (pg_cancelled g) (pg_run g) (pg_reloading g) health api (pg_deadline g) point.

(** The requests that the API has accepted, and whether each was answered. *)
Definition accepted_requests (sv : service) : gset Z :=
  match sv_server sv with Some p => dom (ap_threads p) | None => ∅ end.

Definition all_answered (sv : service) : Prop :=
  ∀ p tid t, sv_server sv = Some p → ap_threads p !! tid = Some t → ∃ response, th_point t = Answered response.

Inductive program_step (g : program) : program → Prop :=
(** SIGINT or SIGTERM, or a listener that fails other than by [Shutdown] *)
| prog_signal : pg_main g ≠ Exited → program_step g (cancel g)
| prog_health_failed : pg_main g ≠ Exited → pg_health g = Listening →
    program_step g (cancel (with_listeners Failed (pg_api g) (pg_main g) g))
| prog_api_failed : pg_main g ≠ Exited → pg_api g = Some Listening →
    program_step g (cancel (with_listeners (pg_health g) (Some Failed) (pg_main g) g))
(** [run]: its own steps, and those of an attempt, which is over when
    [runSession] has returned and the state is marked *)
| prog_run run : pg_main g ≠ Exited → run_step (pg_cancelled g) (pg_run g) run → program_step g (with_run run g)
| prog_link retry sv : pg_main g ≠ Exited → pg_run g = Attempting retry →
    link_step Write config (pg_service g) sv →
    program_step g (with_service sv
      (with_run (match sv_link sv with Down => Leaving retry | _ => Attempting retry end) g))
(** the goroutines of the requests; when [Shutdown] has found every connection
    idle and closed it, none can come *)
| prog_request sv : pg_main g ≠ Exited → request_step Sum256 Sign (pg_service g) sv →
    (pg_api g = Some Quiet → accepted_requests sv ⊆ accepted_requests (pg_service g)) →
    program_step g (with_service sv g)
(** the reload, and its return between two ticks *)
| prog_reload sv : pg_main g ≠ Exited → pg_reloading g = true → reload_step (pg_service g) sv →
    program_step g (with_service sv g)
| prog_reload_returns p : pg_main g ≠ Exited → pg_reloading g = true → pg_cancelled g = true →
    sv_server (pg_service g) = Some p → ap_reload p = None → program_step g (reload_returned g)
(** [main]: the context has ended, [shutdownContext] starts, and the servers
    are shut down in turn.  [Shutdown] returns when no connection is active,
    or at the deadline. *)
| prog_woken : pg_main g = AwaitingContext → pg_cancelled g = true →
    program_step g (match pg_api g with
      | Some _ => with_listeners (pg_health g) (Some Closing) ShuttingAPI g
      | None => with_listeners Closing None ShuttingHealth g end)
| prog_deadline : pg_main g = ShuttingAPI ∨ pg_main g = ShuttingHealth → program_step g (expire g)
| prog_api_quiet : pg_main g = ShuttingAPI → all_answered (pg_service g) →
    program_step g (with_listeners Closing (Some Quiet) ShuttingHealth g)
| prog_api_abandoned : pg_main g = ShuttingAPI → pg_deadline g = true →
    program_step g (with_listeners Closing (Some Abandoned) ShuttingHealth g)
| prog_health_quiet : pg_main g = ShuttingHealth →
    program_step g (with_listeners Quiet (pg_api g) Exited g)
| prog_health_abandoned : pg_main g = ShuttingHealth → pg_deadline g = true →
    program_step g (with_listeners Abandoned (pg_api g) Exited g).

(** What [main] starts with; [runAuthorizerReload] returns at once without an
    interval. *)
Definition program_start (st : service_start) : program :=
  Program (started st) false (AtLoop Second)
    (match st_api st with Some srv => negb (as_aclReloadInterval srv =? 0) | None => false end)
    Listening ((λ _, Listening) <$> st_api st) false AwaitingContext.

(** ** What holds throughout *)

(** The API's [Shutdown] has returned, if there is an API. *)
Definition api_down (g : program) : Prop :=
  pg_api g = None ∨ pg_api g = Some Quiet ∧ all_answered (pg_service g) ∨
  pg_api g = Some Abandoned ∧ pg_deadline g = true.

(** Where [main] is in its shutdown. *)
Definition shutdown_ok (g : program) : Prop :=
  match pg_main g with
  | AwaitingContext => pg_deadline g = false ∧ (pg_api g = None ∨ pg_api g = Some Listening ∨ pg_api g = Some Failed)
  | ShuttingAPI => pg_cancelled g = true ∧ pg_api g = Some Closing
  | ShuttingHealth => pg_cancelled g = true ∧ api_down g ∧ pg_health g = Closing
  | Exited => pg_cancelled g = true ∧ api_down g ∧ (pg_health g = Quiet ∨ pg_health g = Abandoned ∧ pg_deadline g = true)
  end.

(** Nothing is held by a reload that has returned. *)
Definition reload_ok (g : program) : Prop :=
  pg_reloading g = false → ∀ p, sv_server (pg_service g) = Some p → ap_reload p = None.

Record program_ok (st : service_start) (g : program) : Prop := ProgramOk {
  prog_reachable : rtc (service_step Sum256 Sign Write config) (started st) (pg_service g);
  prog_attempt : sv_link (pg_service g) ≠ Down → ∃ retry, pg_run g = Attempting retry;
  prog_delay : ∀ retry, run_delay (pg_run g) = Some retry → ∃ n, retry = retry_after n;
  prog_returned : pg_run g = Returned → pg_cancelled g = true;
  prog_reload_held : reload_ok g;
  prog_reload_over : pg_reloading g = false → pg_reloading (program_start st) = false ∨ pg_cancelled g = true;
  prog_api : pg_api g = None ↔ sv_server (pg_service g) = None;
  prog_shutdown : shutdown_ok g;
  prog_failed : pg_health g = Failed ∨ pg_api g = Some Failed → pg_cancelled g = true;
}.

Lemma program_start_ok st : program_ok st (program_start st).
Proof.
  constructor; simpl; [apply rtc_refl|done| |done| |by left| | |].
  - intros retry [= <-]. by exists 0%nat.
  - intros _ p. unfold started. simpl. destruct (st_api st); simpl; [|done]. by intros [= <-].
  - by destruct (st_api st).
  - unfold shutdown_ok. simpl. destruct (st_api st); simpl; auto.
  - intros [[=]|H]. by destruct (st_api st).
Qed.

(** *** Steps of the service *)

Lemma link_step_server sv sv' : link_step Write config sv sv' → sv_server sv' = sv_server sv.
Proof. by destruct 1. Qed.

Lemma request_step_link (sv sv' : service) : request_step Sum256 Sign sv sv' → sv_link sv' = sv_link sv.
Proof. by destruct 1. Qed.

Lemma reload_step_link (sv sv' : service) : reload_step sv sv' → sv_link sv' = sv_link sv.
Proof. by destruct 1. Qed.

Lemma request_step_reload (sv sv' : service) :
  request_step Sum256 Sign sv sv' → ap_reload <$> sv_server sv' = ap_reload <$> sv_server sv.
Proof. by destruct 1. Qed.

Lemma service_step_server (sv sv' : service) :
  request_step Sum256 Sign sv sv' ∨ reload_step sv sv' → sv_server sv' = None ↔ sv_server sv = None.
Proof. by intros [[]|[]]. Qed.

Lemma same_server_answered (sv sv' : service) : sv_server sv' = sv_server sv → all_answered sv → all_answered sv'.
Proof. unfold all_answered. by intros ->. Qed.

Lemma reload_step_answered (sv sv' : service) : reload_step sv sv' → all_answered sv → all_answered sv'.
Proof. intros Hs Hall. destruct Hs; intros ? tid t [= <-] Ht; by eapply Hall. Qed.

(** A request in progress is needed for a request to move. *)
Lemma answered_quiet (sv sv' : service) :
  all_answered sv → request_step Sum256 Sign sv sv' → ¬ accepted_requests sv' ⊆ accepted_requests sv.
Proof.
  intros Hall Hstep.
  assert (∀ c s l p tid t, sv = Service c s l (Some p) → ap_threads p !! tid = Some t →
    ∃ response, th_point t = Answered response) as Hans by (intros c s l p tid t -> Ht; by eapply Hall).
  request_step_cases Hstep; try (destruct (Hans _ _ _ _ _ _ eq_refl Ht) as [? ?]; congruence).
  unfold accepted_requests. simpl. rewrite dom_insert. apply not_elem_of_dom in Hfree. set_solver.
Qed.

(** *** Every step keeps it *)

Lemma shutdown_service g sv :
  (all_answered (pg_service g) → pg_api g = Some Quiet → all_answered sv) →
  shutdown_ok g → shutdown_ok (with_service sv g).
Proof.
  intros Hall. assert (api_down g → api_down (with_service sv g)) as Hdown.
  { unfold api_down. simpl. intros [?|[[? ?]|?]]; [by left|right; left; split; auto|by right; right]. }
  unfold shutdown_ok. simpl. destruct (pg_main g); [done|done|..]; intros (? & ? & ?); auto.
Qed.

Lemma cancelled_ok st g health api :
  pg_health g = health ∨ pg_health g = Listening ∧ health = Failed →
  pg_api g = api ∨ pg_api g = Some Listening ∧ api = Some Failed →
  pg_main g ≠ Exited → program_ok st g → program_ok st (cancel (with_listeners health api (pg_main g) g)).
Proof.
  intros Hh Ha Hne [H1 H2 H3 H4 H5 H6 H8 H7 H9]. constructor; simpl; try done.
  - intros Hr. by right.
  - rewrite <-H8. destruct Ha as [<-|[-> ->]]; [done|by split].
  - assert (api_down g → api_down (cancel (with_listeners health api (pg_main g) g))) as Hdown.
    { unfold api_down. simpl. destruct Ha as [<-|[Ha _]]; [done|]. rewrite Ha.
      intros [[=]|[[[=] _]|[[=] _]]]. }
    unfold shutdown_ok in *. simpl. destruct (pg_main g).
    + destruct H7 as [Hd Hapi]. split; [done|]. destruct Ha as [<-|[_ ->]]; auto.
    + destruct H7 as [_ Hapi]. split; [done|]. destruct Ha as [<-|[Ha _]]; [done|congruence].
    + destruct H7 as (_ & Hapi & Hcl). split_and!; [done|auto|]. destruct Hh as [<-|[Hh _]]; [done|congruence].
    + done.
Qed.

(** What a session needs of [run], and what [run] does. *)
Lemma run_step_ok st g run :
  program_ok st g → run_step (pg_cancelled g) (pg_run g) run → program_ok st (with_run run g).
Proof.
  intros [H1 H2 H3 H4 H5 H6 H8 H7 H9] Hstep.
  assert (∀ retry, pg_run g ≠ Attempting retry) as Hno by (intros retry Heq; rewrite Heq in Hstep; by inversion Hstep).
  assert (sv_link (pg_service g) = Down) as Hdown.
  { destruct (sv_link (pg_service g)) eqn:E; [done|..];
      (destruct H2 as [retry Hr]; [done|]; by destruct (Hno retry)). }
  constructor; simpl; try done.
  - intros retry Hd. unfold loop_head, after_session in *.
    destruct Hstep as [r|r|r|r Hc]; try (destruct (pg_cancelled g)); simpl in Hd; try done; injection Hd as <-;
      destruct (H3 r eq_refl) as [n Hn]; [by exists n|by exists n|exists (S n); by rewrite Hn..].
  - intros ->. unfold loop_head, after_session in *. inversion Hstep as [r Hr|r Hr|r|r Hc Hr]; try done;
      by destruct (pg_cancelled g).
Qed.

Lemma program_step_ok st g g' : program_ok st g → program_step g g' → program_ok st g'.
Proof.
  intros Hok Hstep. pose proof Hok as [H1 H2 H3 H4 H5 H6 H8 H7 H9].
  destruct Hstep as [Hne|Hne Hl|Hne Hl|run Hne Hr|retry sv Hne Hr Hs|sv Hne Hs Hacc|sv Hne Hr Hs
    |p Hne Hr Hc Hsrv Hheld|Hm Hc|Hm|Hm Hall|Hm Hd|Hm|Hm Hd].
  - assert (program_ok st (cancel (with_listeners (pg_health g) (pg_api g) (pg_main g) g))) as H
      by (apply cancelled_ok; auto). exact H.
  - by apply cancelled_ok; auto.
  - by apply cancelled_ok; auto.
  - by apply run_step_ok.
  - pose proof (link_step_server _ _ Hs) as Hsrv. constructor; simpl; try done.
    + eapply rtc_r; [exact H1|by left].
    + intros Hl. exists retry. by destruct (sv_link sv).
    + intros r Hd. apply H3. rewrite Hr. by destruct (sv_link sv).
    + by destruct (sv_link sv).
    + intros Hrel p. simpl. rewrite Hsrv. by apply H5.
    + by rewrite Hsrv.
    + apply (shutdown_service (with_run _ g)); [|done]. intros Hall _. by eapply same_server_answered.
  - constructor; simpl; try done.
    + eapply rtc_r; [exact H1|by right; left].
    + by rewrite (request_step_link _ _ Hs).
    + intros Hrel p Hp. simpl in Hp. pose proof (request_step_reload _ _ Hs) as He. rewrite Hp in He. simpl in He.
      destruct (sv_server (pg_service g)) as [p0|] eqn:E; [|done]. injection He as ->. by apply (H5 Hrel).
    + rewrite H8, (service_step_server (pg_service g) sv); [done|by left].
    + apply shutdown_service; [|done]. intros Hall Hq. by destruct (answered_quiet _ _ Hall Hs (Hacc Hq)).
  - constructor; simpl; try done.
    + eapply rtc_r; [exact H1|by right; right].
    + by rewrite (reload_step_link _ _ Hs).
    + intros Hno. simpl in Hno. congruence.
    + rewrite H8, (service_step_server (pg_service g) sv); [done|by right].
    + apply shutdown_service; [|done]. intros Hall _. by eapply reload_step_answered.
  - constructor; simpl; try done; [|by right]. intros _ q Hq. simpl in Hq. congruence.
  - unfold shutdown_ok in H7. rewrite Hm in H7. destruct H7 as [Hd Hapi].
    destruct (pg_api g) as [l|] eqn:El; constructor; simpl; try done.
    + by rewrite <-H8.
    + unfold shutdown_ok. simpl. split_and!; [done|by left|done].
  - unfold shutdown_ok in H7. constructor; simpl; try done. unfold shutdown_ok. simpl.
    destruct Hm as [Hm|Hm]; rewrite Hm in *; [done|]. destruct H7 as (Hc & Hapi & Hh). split_and!; [done| |done].
    unfold api_down in *. simpl. destruct Hapi as [?|[?|[? _]]]; auto.
  - unfold shutdown_ok in H7. rewrite Hm in H7. destruct H7 as [Hc Hapi]. constructor; simpl; try done; [by rewrite <-H8, Hapi|].
    split_and!; [done|right; by left|done].
  - unfold shutdown_ok in H7. rewrite Hm in H7. destruct H7 as [Hc Hapi]. constructor; simpl; try done; [by rewrite <-H8, Hapi|].
    split_and!; [done|by right; right|done].
  - unfold shutdown_ok in H7. rewrite Hm in H7. destruct H7 as (Hc & Hapi & _). constructor; simpl; try done.
    split_and!; [done|done|by left].
  - unfold shutdown_ok in H7. rewrite Hm in H7. destruct H7 as (Hc & Hapi & _). constructor; simpl; try done.
    split_and!; [done|done|by right].
Qed.

Lemma program_reachable_ok st g : rtc program_step (program_start st) g → program_ok st g.
Proof.
  intros Hrun. eapply (rtc_invariant (program_ok st)); [|apply program_start_ok|exact Hrun].
  intros a b Ha Hab. by eapply program_step_ok.
Qed.

(** ** [run] returns *)

(** The steps of [run] outside an attempt that are left to it once the context
    has ended. *)
Definition run_left (point : run_point) : nat :=
  match point with
  | Returned => 0 | AtLoop _ | Leaving _ => 1 | Pausing _ | Attempting _ => 2
  end.

(** Then [run] stays where it is, or gets closer to its return. *)
Lemma cancelled_run g g' :
  pg_cancelled g = true → program_step g g' →
  pg_cancelled g' = true ∧ (pg_run g' = pg_run g ∨ (run_left (pg_run g') < run_left (pg_run g))%nat).
Proof.
  intros Hc Hstep. destruct Hstep as [| | |run _ Hr|retry sv _ Hr Hs| | | | | | | | |]; simpl; auto.
  - split; [done|right]. rewrite Hc in Hr. destruct Hr; simpl; lia.
  - split; [done|]. rewrite Hr. destruct (sv_link sv); [right; simpl; lia|by left..].
  - by destruct (pg_api g); simpl; auto.
Qed.

(** Steps of [run]'s goroutine up to the end of [runSession]. *)
Inductive link_over : service → service → Prop :=
| over_now sv sv' : link_step Write config sv sv' → sv_link sv' = Down → link_over sv sv'
| over_later sv sv1 sv' : link_step Write config sv sv1 → sv_link sv1 ≠ Down → link_over sv1 sv' → link_over sv sv'.

Lemma link_over_run g retry sv' :
  pg_main g ≠ Exited → pg_run g = Attempting retry → link_over (pg_service g) sv' →
  rtc program_step g (with_service sv' (with_run (Leaving retry) g)).
Proof.
  intros Hne Hr Hover. remember (pg_service g) as sv eqn:Esv. revert g Hne Hr Esv.
  induction Hover as [sv sv' Hs Hd|sv sv1 sv' Hs Hd _ IH]; intros g Hne Hr ->.
  - apply rtc_once. pose proof (prog_link g retry sv' Hne Hr Hs) as H. by rewrite Hd in H.
  - pose proof (prog_link g retry sv1 Hne Hr Hs) as H.
    replace (match sv_link sv1 with Down => _ | _ => _ end) with (Attempting retry) in H by by destruct (sv_link sv1).
    eapply rtc_l; [exact H|]. by apply (IH (with_service sv1 (with_run (Attempting retry) g))).
Qed.

Section progress.
Context (delivered : W → string) (Hcontract : writer_contract Write delivered).

Lemma over_session id w0 point s c sn w sent point' s' c' sn' w' sent' p :
  session_ok delivered w0 (Session point (SessionObjects s c sn) w sent) →
  own_step Write id (Session point (SessionObjects s c sn) w sent)
    (Session point' (SessionObjects s' c' sn') w' sent') →
  (session_ok delivered w0 (Session point' (SessionObjects s' c' sn') w' sent') →
   ∃ sv', link_over (Service c' s' (Up id point' sn' w' sent') p) sv') →
  ∃ sv', link_over (Service c s (Up id point sn w sent) p) sv'.
Proof.
  intros Hok [Hstep Hne] Hnext. destruct Hnext as [sv' Hover].
  { by eapply (session_step_ok Write delivered Hcontract). }
  exists sv'. eapply over_later; [by eapply link_session|done|done].
Qed.

Lemma ended_over id e sn w sent c s p : ∃ sv', link_over (Service c s (Up id (Ended e) sn w sent) p) sv'.
Proof. eexists. by apply over_now; [apply link_ended|]. Qed.

Lemma waiting_over id w0 s c sn w sent p :
  session_ok delivered w0 (Session Waiting (SessionObjects s c sn) w sent) →
  ∃ sv', link_over (Service c s (Up id Waiting sn w sent) p) sv'.
Proof.
  intros Hok. eapply (over_session id w0); [exact Hok| |intros _; apply (ended_over id ErrEOF)].
  split; [apply step_closed|done].
Qed.

Lemma sending_over id w0 rest s c sn w sent p :
  session_ok delivered w0 (Session (Sending rest) (SessionObjects s c sn) w sent) →
  ∃ sv', link_over (Service c s (Up id (Sending rest) sn w sent) p) sv'.
Proof.
  revert s c sn w sent. induction rest as [|cmd rest IH]; intros s c sn w sent Hok.
  - eapply (over_session id w0); [exact Hok| |intros Hok'; by eapply waiting_over].
    split; [apply step_sent|done].
  - destruct (own_step_exists Write delivered Hcontract id w0 _ Hok) as [s1 Hown]; [by intros e|by intros [=]|].
    destruct s1 as [point1 [s1 c1 sn1] w1 sent1].
    eapply (over_session id w0); [exact Hok|exact Hown|]. intros Hok'.
    pose proof (own_step_point Write delivered Hcontract id w0 _ _ Hok Hown) as Hpt. simpl in Hpt.
    destruct Hpt as [[-> _]|[e ->]]; [by apply IH|apply ended_over].
Qed.

(** [runSession] can always come to its end. *)
Lemma link_can_end sv : service_ok delivered config sv → ∃ sv', link_over sv sv'.
Proof.
  intros [Hc Hs Hl Hp]. destruct sv as [c s l p]. simpl in *. destruct l as [|w|id point sn w sent|e].
  - assert (∃ e, connect Write config (λ _, Err ErrEOF) (λ _, Err ErrEOF) (Err ErrEOF) (Err ErrEOF) = Some (Err e))
      as [e He] by (unfold connect, dial; repeat case_match; eauto).
    eexists. by apply over_now; [by eapply link_refused|].
  - eexists. eapply over_later; [by apply (link_unopened _ _ (Err ErrEOF))|by intros [=]|].
    by apply over_now; [apply link_dropped|].
  - destruct Hl as (_ & (w0 & _ & Hok) & _). destruct point as [|rest| |e].
    + eapply (over_session id w0); [exact Hok| |intros Hok'; by eapply sending_over].
      split; [apply step_head, map_order_default|done].
    + by eapply sending_over.
    + by eapply waiting_over.
    + apply ended_over.
  - eexists. by apply over_now; [apply link_dropped|].
Qed.

Lemma run_can_return g :
  service_ok delivered config (pg_service g) → pg_cancelled g = true → pg_main g ≠ Exited →
  ∃ g', rtc program_step g g' ∧ pg_run g' = Returned.
Proof.
  intros Hok Hc Hne.
  assert (∀ g1 r, pg_cancelled g1 = true → pg_main g1 ≠ Exited → pg_run g1 = Leaving r →
    program_step g1 (with_run Returned g1)) as Hleave.
  { intros g1 r Hc1 Hne1 Hr1. apply prog_run; [done|]. rewrite Hc1, Hr1. apply (run_leaves true). }
  destruct (pg_run g) as [r|r|r|r|] eqn:Er.
  - exists (with_run Returned g). split; [|done]. apply rtc_once, prog_run; [done|].
    rewrite Hc, Er. apply (run_head true).
  - destruct (link_can_end _ Hok) as [sv' Hover]. pose proof (link_over_run g r sv' Hne Er Hover) as H.
    eexists. split; [eapply rtc_r; [exact H|by apply (Hleave _ r)]|done].
  - exists (with_run Returned g). split; [|done]. by apply rtc_once, (Hleave _ r).
  - exists (with_run Returned g). split; [|done]. apply rtc_once, prog_run; [done|].
    rewrite Er. by apply run_woken.
  - by exists g.
Qed.
End progress.

(** Until then it goes round: the pause and the condition of the loop lead to
    the next attempt. *)
Lemma run_goes_round g retry :
  pg_cancelled g = false → pg_main g ≠ Exited → pg_run g = Leaving retry →
  nsteps program_step 3 g (with_run (Attempting (next_retry retry)) g).
Proof.
  intros Hc Hne Hr.
  eapply (nsteps_l _ 2 _ (with_run (Pausing retry) g)).
  { apply prog_run; [done|]. rewrite Hc, Hr. apply (run_leaves false). }
  eapply (nsteps_l _ 1 _ (with_run (AtLoop (next_retry retry)) g)).
  { apply (prog_run (with_run (Pausing retry) g)); [done|]. apply run_timer. }
  apply nsteps_once. apply (prog_run (with_run (AtLoop (next_retry retry)) g)); [done|].
  simpl. rewrite Hc. apply (run_head false).
Qed.

(** ** [main] exits *)

(** The steps that [main] has left to its end once the context has ended. *)
Definition main_left (point : main_point) : nat :=
  match point with AwaitingContext => 3 | ShuttingAPI => 2 | ShuttingHealth => 1 | Exited => 0 end.

Lemma program_step_left g g' : program_step g g' → (main_left (pg_main g') ≤ main_left (pg_main g))%nat.
Proof.
  destruct 1 as [| | | | | | | |Hm _|Hm|Hm _|Hm _|Hm|Hm _]; simpl; try lia; try (rewrite Hm; simpl; lia).
  rewrite Hm. destruct (pg_api g); simpl; lia.
Qed.

(** At the deadline at the latest. *)
Lemma main_can_exit g :
  pg_cancelled g = true → ∃ k g', (k ≤ 4)%nat ∧ nsteps program_step k g g' ∧ pg_main g' = Exited.
Proof.
  assert (∀ g, pg_main g = ShuttingHealth →
    nsteps program_step 1 g (with_listeners Quiet (pg_api g) Exited g)) as Hhealth.
  { intros g0 Hm. by apply nsteps_once, prog_health_quiet. }
  assert (∀ g, pg_main g = ShuttingAPI → ∃ g', nsteps program_step 3 g g' ∧ pg_main g' = Exited) as Hshut.
  { intros g0 Hm. eexists. split; [|].
    - eapply nsteps_l; [apply prog_deadline; by left|].
      eapply nsteps_l; [by apply prog_api_abandoned|]. by apply Hhealth.
    - done. }
  intros Hc. destruct (pg_main g) eqn:Hm.
  - pose proof (prog_woken g Hm Hc) as Hwoken. destruct (pg_api g) as [l|].
    + destruct (Hshut (with_listeners (pg_health g) (Some Closing) ShuttingAPI g) eq_refl) as (g' & Hrun & Hex).
      exists 4%nat, g'. split_and!; [lia|by econstructor|done].
    + eexists 2%nat, _. split_and!; [lia|eapply nsteps_l; [exact Hwoken|by apply Hhealth]|done].
  - destruct (Hshut g Hm) as (g' & Hrun & Hex). exists 3%nat, g'. split_and!; [lia|done|done].
  - eexists 1%nat, _. split_and!; [lia|by apply Hhealth|done].
  - exists 0%nat, g. split_and!; [lia|constructor|done].
Qed.
End program.

(** ** Properties *)

(** C14: the process ends in order.  In every state the process can reach,
    whatever fails and whenever the signal comes: [main] goes on only when the
    context has ended, and a listener that fails ends it.  It goes on to the health listener, and exits, only when
    the API's [Shutdown] has returned: with every request that was accepted
    answered, or at the five-second deadline - so a single event stream that
    stays open holds it until then.  Once it has exited nothing happens.  The
    reload returns only when the context has ended, and leaves no loaded
    authorizer that is not in force.  And from the end of the context on, no
    goroutine can hold [main]: at most four steps, of which one is the
    deadline, take it to its end from wherever it is. *)
Theorem process_ends_in_order Sum256 Sign {W} (Write : W → string → W * (Z * option error))
    (delivered : W → string) env p fs fs' st g :
  writer_contract Write delivered → order_env env → start env p fs = (fs', Ok st) →
  rtc (program_step Sum256 Sign Write (link_config p)) (program_start st) g →
  service_ok delivered (link_config p) (pg_service g) ∧
  (pg_main g ≠ AwaitingContext ∨ pg_health g = Failed ∨ pg_api g = Some Failed → pg_cancelled g = true) ∧
  (pg_main g = ShuttingHealth ∨ pg_main g = Exited →
     pg_api g = None ∨ pg_api g = Some Quiet ∧ all_answered (pg_service g) ∨
     pg_api g = Some Abandoned ∧ pg_deadline g = true) ∧
  (∀ api tid t ch id response, pg_main g = ShuttingHealth ∨ pg_main g = Exited →
     sv_server (pg_service g) = Some api → ap_threads api !! tid = Some t →
     th_point t = Streaming ch id response → pg_deadline g = true) ∧
  (pg_main g = Exited → (pg_health g = Quiet ∨ pg_health g = Abandoned ∧ pg_deadline g = true) ∧
     ∀ g', ¬ program_step Sum256 Sign Write (link_config p) g g') ∧
  (pg_reloading g = false → (st_api st = None ∨ pg_cancelled g = true) ∧
     ∀ api, sv_server (pg_service g) = Some api → ap_reload api = None) ∧
  (pg_cancelled g = true → ∃ k g', (k ≤ 4)%nat ∧
     nsteps (program_step Sum256 Sign Write (link_config p)) k g g' ∧ pg_main g' = Exited).
Proof.
  intros Hc Ho Hst Hrun.
  pose proof (program_reachable_ok Sum256 Sign Write (link_config p) st g Hrun) as [H1 H2 H3 H4 H5 H6 H8 H7 H9].
  assert (service_ok delivered (link_config p) (pg_service g)) as Hok by by eapply service_reachable_ok.
  assert (pg_main g = ShuttingHealth ∨ pg_main g = Exited → api_down g) as Hdown.
  { unfold shutdown_ok in H7. intros [Hm|Hm]; rewrite Hm in H7; apply H7. }
  split_and!; [done| |exact Hdown| | | |].
  - intros [Hm|Hm]; [|by apply H9]. unfold shutdown_ok in H7. destruct (pg_main g); [done|apply H7..].
  - intros api tid t ch id response Hm Hapi Ht Hpt. destruct (Hdown Hm) as [Hn|[[_ Hall]|[_ Hd]]]; [|  |done].
    + apply H8 in Hn. congruence.
    + destruct (Hall _ _ _ Hapi Ht) as [r Hr]. congruence.
  - intros Hm. unfold shutdown_ok in H7. rewrite Hm in H7. split; [apply H7|].
    intros g' Hs. destruct Hs as [| | | | | | | | |[|]| | | |]; congruence.
  - intros Hr. split; [|by intros; eapply H5]. destruct (H6 Hr) as [Hs|?]; [left|by right].
    assert (service_ok delivered (link_config p) (@started W st)) as [_ _ _ Hsrv] by by eapply started_ok.
    simpl in Hs, Hsrv. destruct (st_api st) as [srv|]; [|done].
    pose proof (server_interval _ _ (process_server _ _ Hsrv)) as Hint. simpl in Hint.
    apply negb_false_iff, Z.eqb_eq in Hs. unfold Second in Hint. lia.
  - apply main_can_exit.
Qed.

(** C15: [run] keeps a connection until the context ends, and no longer.  In
    every state the process can reach: the relay state is connected only in an
    attempt of [run]; the delay of every attempt is 2^n seconds for some number
    n of failures, at most 30 seconds, and from the end of one attempt three
    steps lead to the next, with n + 1.  [run] returns only when the context
    has ended, and leaves the state disconnected.  From the end of the context
    on, no step starts another attempt or another pause: each leaves [run]
    where it is or brings it nearer to its return; and whatever the session is
    doing, [run] can return. *)
Theorem run_until_cancelled Sum256 Sign {W} (Write : W → string → W * (Z * option error))
    (delivered : W → string) env p fs fs' st g :
  writer_contract Write delivered → order_env env → start env p fs = (fs', Ok st) →
  rtc (program_step Sum256 Sign Write (link_config p)) (program_start st) g →
  let step := program_step Sum256 Sign Write (link_config p) in
  let delay n := Z.min (2 ^ Z.of_nat n) 30 * Second in
  (ms_connected (sv_state (pg_service g)) = true → ∃ n, pg_run g = Attempting (delay n)) ∧
  (∀ retry, run_delay (pg_run g) = Some retry → ∃ n, retry = delay n) ∧
  (∀ n, pg_cancelled g = false → pg_run g = Leaving (delay n) → pg_main g = AwaitingContext →
     nsteps step 3 g (with_run (Attempting (delay (S n))) g)) ∧
  (pg_run g = Returned → pg_cancelled g = true ∧ ms_connected (sv_state (pg_service g)) = false) ∧
  (pg_cancelled g = true → ∀ g', step g g' →
     pg_run g' = pg_run g ∨ (run_left (pg_run g') < run_left (pg_run g))%nat) ∧
  (pg_cancelled g = true → pg_main g ≠ Exited → ∃ g', rtc step g g' ∧ pg_run g' = Returned).
Proof.
  intros Hc Ho Hst Hrun step delay.
  pose proof (program_reachable_ok Sum256 Sign Write (link_config p) st g Hrun) as [H1 H2 H3 H4 H5 H6 H8 H7 H9].
  assert (service_ok delivered (link_config p) (pg_service g)) as Hok by by eapply service_reachable_ok.
  assert (ms_connected (sv_state (pg_service g)) = true → sv_link (pg_service g) ≠ Down) as Hup.
  { intros Hcon Hd. pose proof (service_link _ _ _ Hok) as Hl. rewrite Hd in Hl. simpl in Hl. congruence. }
  assert (∀ retry, run_delay (pg_run g) = Some retry → ∃ n, retry = delay n) as Hdelay.
  { intros retry Hr. destruct (H3 retry Hr) as [n ->]. exists n. apply retry_delay_exact. }
  split_and!; [|done| | | |].
  - intros Hcon. destruct (H2 (Hup Hcon)) as [retry Hr].
    destruct (Hdelay retry) as [n ->]; [by rewrite Hr|by exists n].
  - intros n Hcan Hr Hm. unfold delay. rewrite <-retry_delay_exact. cbn [retry_after].
    apply run_goes_round; [done|by rewrite Hm|]. by rewrite Hr, retry_delay_exact.
  - intros Hr. split; [by apply H4|]. destruct (ms_connected (sv_state (pg_service g))) eqn:E; [|done].
    destruct (H2 (Hup eq_refl)) as [retry Hr']. congruence.
  - intros Hcan g' Hs. by eapply cancelled_run.
  - intros Hcan Hne. by eapply run_can_return.
Qed.

(** The example process is told to stop while a session is open. *)
Definition example_stopping : @program string :=
  Program example_connected true (Attempting Second) true Listening (Some Listening) false AwaitingContext.

Lemma example_stops Sum256 Sign :
  rtc (program_step Sum256 Sign (chunked_write 10) (link_config example_process))
    (program_start example_start) example_stopping.
Proof.
  eapply rtc_l; [apply prog_run; [done|apply run_head]|].
  eapply rtc_l; [eapply prog_link; [done|reflexivity|]|].
  { apply (link_greeted (chunked_write 10) (link_config example_process) (λ _, Ok "") (λ _, Ok "")
      (Ok example_raw_id) (Ok example_hello_ack) (2000 * Second)). vm_compute. reflexivity. }
  eapply rtc_l; [eapply prog_link; [done|reflexivity|]|].
  { apply (link_opened _ _ (Ok example_raw_id)). vm_compute. reflexivity. }
  apply rtc_once. apply prog_signal. done.
Qed.

Lemma process_ends_in_order_witness :
  ∃ k g', (k ≤ 4)%nat ∧
    nsteps (program_step example_sum example_sign (chunked_write 10) (link_config example_process)) k
      example_stopping g' ∧ pg_main g' = Exited.
Proof.
  destruct (process_ends_in_order example_sum example_sign (chunked_write 10) Datatypes.id example_start_env
    example_process no_files no_files example_start example_stopping) as (_ & _ & _ & _ & _ & _ & H).
  - apply chunked_write_contract.
  - exact example_order.
  - exact example_started.
  - apply example_stops.
  - exact (H eq_refl).
Defined.

Lemma run_until_cancelled_witness :
  ms_connected (sv_state (pg_service example_stopping)) = true ∧
  ∃ g', rtc (program_step example_sum example_sign (chunked_write 10) (link_config example_process))
          example_stopping g' ∧ pg_run g' = Returned.
Proof.
  destruct (run_until_cancelled example_sum example_sign (chunked_write 10) Datatypes.id example_start_env
    example_process no_files no_files example_start example_stopping) as (_ & _ & _ & _ & _ & H).
  - apply chunked_write_contract.
  - exact example_order.
  - exact example_started.
  - apply example_stops.
  - split; [vm_compute; reflexivity|]. apply H; [reflexivity|discriminate].
Defined.

Close Scope Z_scope.
