(* ===== verification/Scenario.v ===== *)
(** * Running the service

    An executable scheduler for [service_step]: an [action] says which
    goroutine moves and what its environment decides, and [exec] is the step
    it takes, if it can.  A deployment with a recorder, an administrator and a
    signing key is started and driven through it; the witnesses of the
    properties of the running service are its states. *)

From S2P Require Export System.

Open Scope Z_scope.

(** ** Actions *)

Inductive action :=
| Dial (rawAck : string) (now : Z)
| RequestSnapshot
| TakeSnapshot
| SendNext (now : Z)
| SendDone
| Message (raw : string) (now : Z)
| Accept (tid : Z) (request : http_request)
| Handle (tid now : Z) (random : result string)
| Enqueue (tid : Z) (random : result string)
| TakeResult (tid : Z)
| Expire (tid : Z)
| TakeEvent (tid : Z)
| EndStream (tid : Z)
| Reload (now : Z) (files : string → result string) (randoms : list (result string))
| Swap.

(** The environment of every action: no call of the file system fails. *)
Definition action_env (c : privateControlClient) : fs_env :=
  FsEnv no_faults (match cl_store c with Some f => f +:+ "~" | None => "" end) "" false.

Lemma action_env_ok c : env_ok (action_env c) c.
Proof.
  unfold env_ok, action_env. destruct (cl_store c) as [f|]; [|done]. simpl. intros Heq.
  apply (f_equal String.length) in Heq. rewrite string_app_length in Heq. simpl in Heq. lia.
Qed.

(** The example identifiers of the opening. *)
Definition dial_id : string := "0123456789abcdef".

Section exec.
Context (Sum256 : string → string) (Sign : string → string → string).
Context {W : Type} (Write : W → string → W * (Z * option error)) (connection : W).
Context (config : privateControlClientConfig).
#[local] Abbreviation service := (@service W).
#[local] Abbreviation step := (service_step Sum256 Sign Write config).

Definition thread_at (tid : Z) (sv : service) : option (api_process * request_thread) :=
  p ← sv_server sv; t ← ap_threads p !! tid; Some (p, t).

Definition exec (act : action) (sv : service) : option service :=
  match act with
  | Dial rawAck now =>
      match sv_link sv with
      | Down =>
          match connect Write config (λ _, Ok connection) (λ _, Ok connection) (Ok dial_id) (Ok rawAck) with
          | Some (Ok (relayID, w)) =>
              Some (Service (sv_client sv) (markConnected now relayID (sv_state sv)) (Greeted w) (sv_server sv))
          | _ => None
          end
      | _ => None
      end
  | RequestSnapshot =>
      match sv_link sv with
      | Greeted w =>
          match request_snapshot Write (Ok dial_id) w with
          | Some (Ok (id, w')) =>
              Some (Service (sv_client sv) (sv_state sv) (Up id AtHead None w' ∅) (sv_server sv))
          | _ => None
          end
      | _ => None
      end
  | TakeSnapshot =>
      match sv_link sv with
      | Up id AtHead sn w sent =>
          Some (Service (sv_client sv) (sv_state sv)
                  (Up id (Sending (map_to_list (cl_pending (sv_client sv))).*2) sn w sent) (sv_server sv))
      | _ => None
      end
  | SendNext now =>
      match sv_link sv with
      | Up id (Sending (cmd :: rest)) sn w sent =>
          match send_loop Write now (λ _, action_env (sv_client sv)) [cmd] w sent (sv_client sv) with
          | Some (w', sent', c', None) =>
              Some (Service c' (sv_state sv) (Up id (Sending rest) sn w' sent') (sv_server sv))
          | _ => None
          end
      | _ => None
      end
  | SendDone =>
      match sv_link sv with
      | Up id (Sending []) sn w sent =>
          Some (Service (sv_client sv) (sv_state sv) (Up id Waiting sn w sent) (sv_server sv))
      | _ => None
      end
  | Message raw now =>
      match sv_link sv with
      | Up id Waiting sn w sent =>
          let order := match ms_liveEvents (sv_state sv) with
                       | Some hub => map_to_list (hub_subscribers hub) | None => [] end in
          match handleSessionMessage now order (action_env (sv_client sv)) raw id
                  (SessionObjects (sv_state sv) (sv_client sv) sn) with
          | Some (SessionObjects s' c' sn', None) => Some (Service c' s' (Up id AtHead sn' w sent) (sv_server sv))
          | _ => None
          end
      | _ => None
      end
  | Accept tid request =>
      p ← sv_server sv;
      match ap_threads p !! tid with
      | Some _ => None
      | None =>
          service ← serviceForRequest (api_authorizer (as_api (ap_server p))) (rq_Fingerprint request);
          Some (Service (sv_client sv) (sv_state sv) (sv_link sv)
                  (Some (with_thread tid (Thread request service Accepted) p)))
      end
  | Handle tid now random =>
      '(p, t) ← thread_at tid sv;
      let env := RequestEnv now now random [] [] true in
      match th_point t with
      | Accepted =>
          if String.eqb (rq_Path (th_request t)) "/v1/recording-jobs" &&
             negb (match random with Ok raw => len raw =? 16 | Err _ => true end) then None
          else
            let '(a, k) := first_section Sum256 Sign env (th_request t) (th_service t)
                             (api_of (sv_client sv) (sv_state sv) (ap_server p)) in
            Some (Service (sv_client sv) (api_state a) (sv_link sv)
                    (Some (with_thread tid (at_point (point_after k) t) (with_server (with_api a (ap_server p)) p))))
      | _ => None
      end
  | Enqueue tid random =>
      '(p, t) ← thread_at tid sv;
      match th_point t with
      | Revoking body =>
          let '(c', queued) := revoke_start (action_env (sv_client sv)) random body (sv_client sv) in
          Some (Service c' (sv_state sv) (sv_link sv)
                  (Some (with_thread tid (at_point (point_queued body queued) t) p)))
      | _ => None
      end
  | TakeResult tid =>
      '(p, t) ← thread_at tid sv;
      match th_point t with
      | Awaiting body command =>
          '(result, c') ← receive_result (pc_result command) (sv_client sv);
          Some (Service c' (sv_state sv) (sv_link sv)
                  (Some (with_thread tid (at_point (Answered (revocation_answer body
                     (res_ack result, command_id command, res_err result))) t) p)))
      | _ => None
      end
  | Expire tid =>
      '(p, t) ← thread_at tid sv;
      match th_point t with
      | Awaiting body command =>
          Some (Service (sv_client sv) (sv_state sv) (sv_link sv)
                  (Some (with_thread tid (at_point (Answered (revocation_answer body
                     (zero_ack, command_id command, Some ErrContextDeadlineExceeded))) t) p)))
      | _ => None
      end
  | TakeEvent tid =>
      '(p, t) ← thread_at tid sv;
      match th_point t with
      | Streaming ch _ _ =>
          hub ← ms_liveEvents (sv_state sv); q ← hub_chans hub !! ch;
          match recv q with
          | Received event q' =>
              Some (Service (sv_client sv) (with_hub (Some (with_chan ch q' hub)) (sv_state sv)) (sv_link sv) (Some p))
          | _ => None
          end
      | _ => None
      end
  | EndStream tid =>
      '(p, t) ← thread_at tid sv;
      match th_point t with
      | Streaming _ subscription response =>
          hub ← ms_liveEvents (sv_state sv); hub' ← hub_unsubscribe subscription hub;
          Some (Service (sv_client sv) (with_hub (Some hub') (sv_state sv)) (sv_link sv)
                  (Some (with_thread tid (at_point (Answered response) t) p)))
      | _ => None
      end
  | Reload now files randoms =>
      p ← sv_server sv;
      let previous := api_authorizer (as_api (ap_server p)) in
      let order := map_to_list (az_byService previous) in
      match ap_reload p with
      | Some _ => None
      | None =>
          if bool_decide (is_i64 (Unix (now + managementAPIAutomaticRevocationDenyWindow))) then
            match reload_queue files now (action_env (sv_client sv), randoms) order (default_acl_order previous)
                    (as_files (ap_server p)) previous (Some (sv_client sv)) with
            | (Some c', Ok (replacement, _)) =>
                Some (Service c' (sv_state sv) (sv_link sv)
                        (Some (ApiProcess (ap_server p) (ap_threads p) (Some replacement))))
            | _ => None
            end
          else None
      end
  | Swap =>
      p ← sv_server sv; replacement ← ap_reload p;
      Some (Service (sv_client sv) (sv_state sv) (sv_link sv)
              (Some (ApiProcess (with_authorizer replacement (ap_server p)) (ap_threads p) None)))
  end.

Fixpoint exec_all (acts : list action) (sv : service) : option service :=
  match acts with
  | [] => Some sv
  | act :: acts => sv' ← exec act sv; exec_all acts sv'
  end.

(** ** Every action is a step *)

Lemma thread_at_spec tid sv p t :
  thread_at tid sv = Some (p, t) → sv_server sv = Some p ∧ ap_threads p !! tid = Some t.
Proof.
  unfold thread_at. destruct (sv_server sv) as [p'|]; simpl; [|done].
  destruct (ap_threads p' !! tid) as [t'|] eqn:E; simpl; [|done]. intros [= <- <-]. done.
Qed.

#[local] Arguments revocation_answer : simpl never.

(** Splits an [exec] that looks at a thread at one point. *)
Ltac at_thread :=
  cbn [exec]; intros H; apply bind_Some in H as ([p t] & H1 & H);
  apply thread_at_spec in H1 as [Hp Ht]; cbn [sv_client sv_state sv_link sv_server] in *;
  simplify_eq; destruct (th_point t) eqn:Hpoint; try done; cbv beta zeta iota in H.

Lemma exec_link_sound act sv sv' :
  match act with Dial _ _ | RequestSnapshot | TakeSnapshot | SendNext _ | SendDone | Message _ _ => True | _ => False end →
  exec act sv = Some sv' → link_step Write config sv sv'.
Proof.
  destruct sv as [c s l p]. destruct act; try done; intros _; cbn [exec sv_client sv_state sv_link sv_server].
  - destruct l; try done. destruct (connect _ _ _ _ _ _) as [[[relayID w]|e]|] eqn:E; [|done|done].
    intros [= <-]. by eapply link_greeted.
  - destruct l as [|w|id pt sn w sent|e]; try done.
    destruct (request_snapshot _ _ _) as [[[id w']|e]|] eqn:E; [|done|done].
    intros [= <-]. by eapply link_opened.
  - destruct l as [|w0|id [|rest| |e] sn w sent|e0]; try done. intros [= <-].
    apply link_session; [|done]. apply (step_head Write id (SessionObjects s c sn)). apply map_order_default.
  - destruct l as [|w0|id [|[|cmd rest]| |e] sn w sent|e0]; try done.
    destruct (send_loop _ _ _ _ _ _ _) as [[[[w' sent'] c'] [e|]]|] eqn:E; try done. intros [= <-].
    apply link_session; [|intros Heq; apply (f_equal (λ q, match q with Sending r => length r | _ => O end)) in Heq;
                        simpl in Heq; lia].
    apply (step_send Write id now (λ _, action_env c) cmd rest (SessionObjects s c sn)); [|exact E].
    intros. apply action_env_ok.
  - destruct l as [|w0|id [|[|cmd rest]| |e] sn w sent|e0]; try done. intros [= <-].
    apply link_session; [apply (step_sent Write id (SessionObjects s c sn))|done].
  - destruct l as [|w0|id [| | |e] sn w sent|e0]; try done. cbv zeta.
    destruct (handleSessionMessage _ _ _ _ _ _) as [[[s' c' sn'] [e|]]|] eqn:E; try done. intros [= <-].
    apply link_session; [|done].
    eapply (Session.step_message Write id _ _ _ _ (SessionObjects s c sn) (SessionObjects s' c' sn')); [| |exact E].
    + apply action_env_ok.
    + intros hub Hhub. simpl in Hhub. rewrite Hhub. apply map_order_default.
Qed.

Lemma exec_sound act sv sv' : exec act sv = Some sv' → step sv sv'.
Proof.
  intros Hrun. destruct act eqn:Eact; try (by left; eapply (exec_link_sound act); [rewrite Eact|rewrite Eact; exact Hrun]);
    clear Eact; revert Hrun; destruct sv as [c s l q].
  - cbn [exec sv_client sv_state sv_link sv_server]. destruct q as [p|]; simpl; [|done].
    destruct (ap_threads p !! tid) eqn:E; [done|].
    destruct (serviceForRequest _ _) as [service|] eqn:Es; simpl; [|done]. intros [= <-]. right; left. by apply sv_accept.
  - at_thread. destruct (_ && _) eqn:Eraw; [done|].
    destruct (first_section _ _ _ _ _ _) as [a k] eqn:Ek. apply (inj Some) in H as <-.
    right; left. eapply sv_handle; [done|done| |exact Ek]. intros Hpath raw Hraw. simpl in Hraw. subst random.
    rewrite Hpath in Eraw. simpl in Eraw. by go_bool.
  - at_thread. destruct (revoke_start _ _ _ _) as [c' queued] eqn:Eq. apply (inj Some) in H as <-.
    right; left. eapply sv_queue; [done|done|apply action_env_ok|exact Eq].
  - at_thread. apply bind_Some in H as ([result c'] & Hr & H). apply (inj Some) in H as <-.
    right; left. eapply sv_answer; [done|done|]. by apply revoke_wait_result.
  - at_thread. apply (inj Some) in H as <-. right; left. eapply sv_answer; [done|done|].
    apply revoke_wait_done. by right.
  - at_thread. apply bind_Some in H as (hub & Hhub & H). apply bind_Some in H as (ch & Hch & H).
    destruct (recv ch) as [event q'| |] eqn:Er; try done. apply (inj Some) in H as <-. right; left.
    by eapply sv_stream_read.
  - at_thread. apply bind_Some in H as (hub & Hhub & H). apply bind_Some in H as (hub' & Hun & H).
    apply (inj Some) in H as <-. right; left. by eapply sv_stream_end.
  - cbn [exec sv_client sv_state sv_link sv_server]. destruct q as [p|]; cbn [mbind option_bind]; [|done].
    cbv zeta. destruct (ap_reload p) eqn:Ei; [done|]. case_bool_decide as Hclock; [|done].
    destruct (reload_queue _ _ _ _ _ _ _ _) as [[c'|] [[replacement n]|e]] eqn:Eq; try done. intros [= <-].
    right; right. eapply sv_reload; [done|apply action_env_ok|exact Hclock|apply default_orders_ok|exact Eq].
  - cbn [exec sv_client sv_state sv_link sv_server]. destruct q as [p|]; cbn [mbind option_bind]; [|done].
    destruct (ap_reload p) eqn:Ei; cbn [mbind option_bind]; [|done]. intros [= <-]. right; right. by apply sv_reload_swap.
Qed.

Lemma exec_all_sound acts sv sv' : exec_all acts sv = Some sv' → rtc step sv sv'.
Proof.
  revert sv. induction acts as [|act acts IH]; intros sv; cbn [exec_all]; [intros [= <-]; apply rtc_refl|].
  intros (sv1 & H1 & H)%bind_Some. eapply rtc_l; [by eapply exec_sound|by apply IH].
Qed.
End exec.

(** ** A deployment *)

Definition admin_fingerprint : string :=
  "fedcba9876543210fedcba9876543210fedcba9876543210fedcba9876543210".

(** A service that records channel 7 and an administrator that revokes. *)
Definition deployed_files (name : string) : result string :=
  if String.eqb name "services"
  then Ok ("service_id,certificate_sha256,api_role,enabled" +:+ lf +:+
           "svc," +:+ example_fingerprint +:+ ",operator,true" +:+ lf +:+
           "admin," +:+ admin_fingerprint +:+ ",admin,true" +:+ lf)
  else if String.eqb name "permissions"
  then Ok ("service_id,permission,enabled" +:+ lf +:+ "admin,service_admission.revoke,true" +:+ lf)
  else example_files name.

Definition deployed_keys : key_loader :=
  KeyLoader (λ _, Ok "pem") (λ _, (Some ("PRIVATE KEY", "der"), "")) (λ _, Ok (Ed25519Key (pad_to 64 "key"))).

Definition deployed_env : start_env :=
  StartEnv example_tls deployed_keys deployed_files no_fault_env (1000 * Second) id.

Definition deployed_environment : list (string * string) :=
  example_environment ++
  [("INCOMUDON_MANAGEMENT_GRANT_SIGNING_KEY_FILE", "signing-key"); ("INCOMUDON_MANAGEMENT_GRANT_KEY_ID", "key-1");
   ("INCOMUDON_MANAGEMENT_GRANT_ISSUER", "management"); ("INCOMUDON_MANAGEMENT_GRANT_AUDIENCE", "relay");
   ("INCOMUDON_MANAGEMENT_GRANT_TTL_SECONDS", "3600")].

Definition deployed_process : process :=
  Process (λ name, match list_find (λ v, v.1 = name) deployed_environment with
                   | Some (_, (_, value)) => value | None => "" end) (λ _, None).

Definition deployed_start : service_start :=
  match (start deployed_env deployed_process no_files).2 with
  | Ok st => st
  | Err _ => ServiceStart empty_client newManagementState None ""
  end.

Lemma deployed_started : start deployed_env deployed_process no_files = (no_files, Ok deployed_start).
Proof. vm_compute. reflexivity. Qed.

Lemma deployed_order : order_env deployed_env.
Proof. intros l. reflexivity. Qed.

Definition deployed_exec : action → @service string → option (@service string) :=
  exec example_sum example_sign (chunked_write 10) "" (link_config deployed_process).
Definition deployed_run (acts : list action) : option (@service string) :=
  exec_all example_sum example_sign (chunked_write 10) "" (link_config deployed_process) acts
    (started deployed_start).

(** The state after a run. *)
Definition deployed_after (acts : list action) : @service string :=
  default (started deployed_start) (deployed_run acts).

Lemma deployed_exec_sound act sv sv' :
  deployed_exec act sv = Some sv' →
  service_step example_sum example_sign (chunked_write 10) (link_config deployed_process) sv sv'.
Proof. apply exec_sound. Qed.

Lemma deployed_run_sound acts sv :
  deployed_run acts = Some sv →
  rtc (service_step example_sum example_sign (chunked_write 10) (link_config deployed_process))
    (started deployed_start) sv.
Proof. apply exec_all_sound. Qed.

Lemma deployed_reachable acts :
  rtc (service_step example_sum example_sign (chunked_write 10) (link_config deployed_process))
    (started deployed_start) (deployed_after acts).
Proof.
  unfold deployed_after. destruct (deployed_run acts) as [sv|] eqn:E; [|apply rtc_refl].
  by apply deployed_run_sound in E.
Qed.

(** The thread [tid] of a state. *)
Definition point_at (tid : Z) (sv : @service string) : option request_point :=
  p ← sv_server sv; th_point <$> ap_threads p !! tid.

(** *** A revocation over the wire *)

Definition revocation_http : http_request :=
  Request "POST" "/v1/service-admission-revocations" []
    (print_json (JObject [("channel_id", jnum 7); ("service_id", JString "svc");
       ("reason", JString "grant_revoked"); ("deny_until", jnum 2000)])) (Some admin_fingerprint).

Definition relay_ack (id : string) : string :=
  print_json (JObject [("schema_version", JString privateControlSchemaVersion); ("type", JString "ack");
    ("message_id", JString "BBBBBBBBBBBBBBBBBBBBBA"); ("in_reply_to", JString id);
    ("outcome", JString "applied"); ("deny_until", jnum 2000); ("affected_membership_count", jnum 1);
    ("talk_release_count", jnum 0)]).

Definition revocation_queued : list action :=
  [Dial example_hello_ack (1000 * Second); RequestSnapshot; Accept 1 revocation_http; Handle 1 (1000 * Second) (Ok "");
   Enqueue 1 (Ok "abcdefghijklmnop")].

Definition revocation_acknowledged : list action :=
  revocation_queued ++
  [TakeSnapshot; SendNext 1000; SendDone; Message (relay_ack (newPrivateControlID "abcdefghijklmnop")) (1001 * Second)].

(** The administrator is answered with the Relay's acknowledgement. *)
Example revocation_round_trip :
  (rs_Status <$> (match point_at 1 (deployed_after (revocation_acknowledged ++ [TakeResult 1])) with
                  | Some (Answered response) => Some response | _ => None end)) = Some 200.
Proof. vm_compute. reflexivity. Qed.

Close Scope Z_scope.
