(* ===== verification/Waiters.v ===== *)
(** * The callers of a revocation

    A revocation request waits in the goroutine of its handler while the
    command it queued goes to the Relay in the session's goroutine, survives
    the loss of the session, lapses, or is answered.  The two sides meet in the
    command's result channel only.  In every reachable state of the service
    each waiting request still has its command in the queue, or its result in a
    channel that no other request reads; and what a caller is told in the end
    is what the Relay said about its own command. *)

From S2P Require Export Scenario.

Open Scope Z_scope.

(** ** What a command can be answered with *)

(** The acknowledgement [ack] is the Relay's answer to the command. *)
Definition acknowledges (ack : privateControlAck) (command : privateControlPendingCommand) : Prop :=
  (∃ raw, decode_ack raw = Ok ack) ∧ validPrivateControlAck ack = true ∧
  ack_InReplyTo ack = command_id command ∧ ack_DenyUntil ack = rev_DenyUntil (pc_message command).

Inductive result_for (command : privateControlPendingCommand) : privateControlCommandResult → Prop :=
| result_acknowledged ack : acknowledges ack command → result_for command (CommandResult ack None)
| result_refused code : code ∈ privateControlErrorCodes →
    result_for command (CommandResult zero_ack (Some (err_relay code)))
| result_lapsed : result_for command lapsed_result.

(** Nobody forgot the command: it is pending, or answered. *)
Definition waiter_ok (c : privateControlClient) (command : privateControlPendingCommand) : Prop :=
  cl_pending c !! command_id command = Some command ∨
  ∃ result, cl_results c !! pc_result command = Some result ∧ result_for command result.

(** What may happen to the queue while callers wait, but for the one whose
    channel is [except]. *)
Definition keeps_waiters (except : option Z) (c c' : privateControlClient) : Prop :=
  cl_next c ≤ cl_next c' ∧
  ∀ command, except ≠ Some (pc_result command) → waiter_ok c command → waiter_ok c' command.

Lemma keeps_same c c' :
  cl_pending c' = cl_pending c → cl_results c' = cl_results c → cl_next c' = cl_next c → keeps_waiters None c c'.
Proof. intros Hp Hr Hn. split; [lia|]. intros command _. unfold waiter_ok. by rewrite Hp, Hr. Qed.

Lemma keeps_refl c : keeps_waiters None c c.
Proof. by apply keeps_same. Qed.

Lemma keeps_grows c c' : queue_grows c c' → keeps_waiters None c c'.
Proof.
  intros (Hr & Hn & Hp). split; [done|]. intros command _ [H|H]; [left; by apply Hp|right; by rewrite Hr].
Qed.

(** The channel of a pending command holds nothing that a waiter could lose. *)
Lemma pending_channel_unread c id command waiting result :
  client_ok c → cl_pending c !! id = Some command → cl_results c !! pc_result waiting = Some result →
  pc_result command ≠ pc_result waiting.
Proof. intros Hok Hid Hr Heq. rewrite <-Heq, (ok_empty c Hok id command Hid) in Hr. done. Qed.

Lemma keeps_completes id result c c' err :
  client_ok c → completes id result c c' err →
  (∀ command, cl_pending c !! id = Some command → command_id command = id → result_for command result) →
  keeps_waiters None c c'.
Proof.
  intros Hok (command & Hid & _ & Hn & _ & H) Hfor. destruct err as [e|].
  - destruct H as [Hp Hr]. by apply keeps_same.
  - destruct H as (Hp & Hr & _). destruct (ok_pending c Hok _ _ Hid) as [Hcid _]. split; [lia|].
    intros waiting _ [Hw|(r & Hw & Hrf)].
    + destruct (decide (command_id waiting = id)) as [Heq|Hne].
      * rewrite Heq, Hid in Hw. injection Hw as <-. right. exists result. rewrite Hr, lookup_insert_eq.
        split; [done|]. by apply Hfor.
      * left. by rewrite Hp, lookup_delete_ne.
    + right. exists r. rewrite Hr, lookup_insert_ne; [done|]. by eapply pending_channel_unread.
Qed.

Lemma keeps_receive ch result c c' :
  receive_result ch c = Some (result, c') → keeps_waiters (Some ch) c c'.
Proof.
  unfold receive_result. destruct (cl_results c !! ch) as [r|] eqn:E; simpl; [|done]. intros [= <- <-].
  split; [simpl; lia|]. intros command Hne [H|(r' & H & Hfor)]; [by left|right].
  exists r'. simpl. rewrite lookup_delete_ne; [done|]. congruence.
Qed.

Section session.
Context {W : Type} (Write : W → string → W * (Z * option error)) (delivered : W → string).
Context (Hcontract : writer_contract Write delivered).

(** *** What a session does to the queue: nothing, or it settles one command. *)
Inductive session_effect (c c' : privateControlClient) : Prop :=
| effect_none : cl_pending c' = cl_pending c → cl_results c' = cl_results c → cl_next c' = cl_next c →
    session_effect c c'
| effect_settles id result err : completes id result c c' err →
    (∀ command, cl_pending c !! id = Some command → command_id command = id → result_for command result) →
    session_effect c c'.

Lemma effect_refl c : session_effect c c.
Proof. by apply effect_none. Qed.

Lemma send_effect now envs cmd w sent c w' sent' c' err :
  client_ok c → (∀ id, env_ok (envs id) c) → cl_pending c !! command_id cmd = Some cmd →
  send_loop Write now envs [cmd] w sent c = Some (w', sent', c', err) → session_effect c c'.
Proof.
  intros Hok Henv Hp. cbn [send_loop]. destruct (bool_decide _); [intros [= _ _ <- _]; apply effect_refl|].
  destruct (_ <=? _).
  - pose proof (completePendingCommand_spec (envs (command_id cmd)) (command_id cmd) lapsed_result c Hok (Henv _)) as H.
    unfold lapsed_result, command_id in H. destruct (completePendingCommand _ _ _ _) as [c1 [found e]].
    destruct found; [|by destruct H as (_ & _ & ?); unfold command_id in Hp; congruence].
    intros Hrun. assert (c1 = c') as -> by (by destruct e; injection Hrun).
    eapply effect_settles; [exact H|]. intros command _ _. apply result_lapsed.
  - destruct (writePrivateControlFrame _ _ _) as [[w1 [e|]]|]; cbn [mbind option_bind]; [| |done];
      intros [= _ _ <- _]; apply effect_refl.
Qed.

Lemma message_effects now order env raw id o o' err :
  client_ok (so_conn o) → env_ok env (so_conn o) →
  handleSessionMessage now order env raw id o = Some (o', err) →
  session_effect (so_conn o) (so_conn o').
Proof.
  intros Hok Henv Hm. apply handleSessionMessage_spec in Hm; [|done|done]. destruct err as [e|].
  { destruct Hm as (_ & Hp & Hr & _ & _ & Hn). by apply effect_none. }
  destruct Hm as [event s' _ _ _ ->|response sn dl _ _ _ _ ->|response c' Hd Hv Hdeny Hc ->
    |response c' Hd Hv _ Hc ->]; simpl; [apply effect_refl|apply effect_refl|..].
  - eapply effect_settles; [exact Hc|]. intros command Hcmd Hid. constructor.
    rewrite Hcmd in Hdeny. injection Hdeny as Hdeny. split_and!; [by exists raw|done|by symmetry|by symmetry].
  - eapply effect_settles; [exact Hc|]. intros command _ _. constructor.
    unfold validPrivateControlError in Hv. destruct (_ || _); [done|]. destruct (_ && _); [done|].
    by apply in_set_spec.
Qed.

Lemma session_effects id w0 (x x' : @session W) :
  session_ok delivered w0 x → session_step Write id x x' → ses_point x' ≠ ses_point x →
  session_effect (so_conn (ses_objects x)) (so_conn (ses_objects x')).
Proof.
  intros [Hok Hpt _ _] Hstep Hne.
  destruct Hstep; cbn [so_conn ses_objects with_client ses_point point_ok] in *; try apply effect_refl; [..|done].
  - eapply send_effect; [done| | |eassumption]; [done|]. apply (proj2 Hpt). by left.
  - eapply send_effect; [done| | |eassumption]; [done|]. apply (proj2 Hpt). by left.
  - by apply effect_none.
  - by eapply message_effects.
  - by eapply message_effects.
Qed.

Lemma keeps_effect c c' : client_ok c → session_effect c c' → keeps_waiters None c c'.
Proof. intros Hok [Hp Hr Hn|id result err Hc Hfor]; [by apply keeps_same|by eapply keeps_completes]. Qed.

(** ** The waiting threads of the service *)

Context (Sum256 : string → string) (Sign : string → string → string) (config : privateControlClientConfig).
#[local] Abbreviation step := (service_step Sum256 Sign Write config).

(** The thread [tid] waits with [command] for a caller that asked for [body]. *)
Definition awaits (p : api_process) (tid : Z) (body : managementServiceAdmissionRevocationRequest)
    (command : privateControlPendingCommand) : Prop :=
  ∃ t, ap_threads p !! tid = Some t ∧ th_point t = Awaiting body command.

Record waiters_ok (c : privateControlClient) (p : api_process) : Prop := WaitersOk {
  waiters_served : ∀ tid body command, awaits p tid body command →
    waiter_ok c command ∧ command_for command body ∧ pc_result command < cl_next c ∧ command_id command ≠ "";
  waiters_distinct : ∀ tid1 body1 command1 tid2 body2 command2,
    awaits p tid1 body1 command1 → awaits p tid2 body2 command2 →
    pc_result command1 = pc_result command2 → tid1 = tid2;
}.

Definition service_waiters (sv : @service W) : Prop :=
  match sv_server sv with Some p => waiters_ok (sv_client sv) p | None => True end.

Lemma awaits_with_thread p tid t tid' body command :
  awaits (with_thread tid t p) tid' body command →
  tid' = tid ∧ th_point t = Awaiting body command ∨ tid' ≠ tid ∧ awaits p tid' body command.
Proof.
  intros (t' & Ht & Hpoint). simpl in Ht. rewrite lookup_insert in Ht. case_decide as Heq.
  - subst. injection Ht as <-. by left.
  - right. split; [done|]. by exists t'.
Qed.

(** Nothing is lost while no thread starts to wait. *)
Lemma waiters_keep c c' p p' :
  keeps_waiters None c c' → (∀ tid body command, awaits p' tid body command → awaits p tid body command) →
  waiters_ok c p → waiters_ok c' p'.
Proof.
  intros [Hn Hk] Hp [H1 H2]. constructor; [|by eauto]. intros tid body command Ha.
  destruct (H1 _ _ _ (Hp _ _ _ Ha)) as (Hw & Hfor & Hlt & Hid). split_and!; [by apply Hk|done|lia|done].
Qed.

(** A thread that moves to a point without a wait. *)
Lemma waiters_moved c c' p srv tid t point :
  keeps_waiters None c c' → (∀ body command, point ≠ Awaiting body command) →
  waiters_ok c p → waiters_ok c' (with_thread tid (at_point point t) (with_server srv p)).
Proof.
  intros Hk Hpoint. apply waiters_keep; [done|].
  intros tid' body command [[_ H]|[_ H]]%awaits_with_thread; [by destruct (Hpoint body command)|done].
Qed.

(** The caller whose command was queued. *)
Lemma waiters_queued env raw body queued c c' p tid t :
  client_ok c → env_ok env c → request_ints body → revoke_start env raw body c = (c', queued) →
  waiters_ok c p → waiters_ok c' (with_thread tid (at_point (point_queued body queued) t) p).
Proof.
  intros Hok Henv Hints Hrun Hw.
  pose proof (revoke_start_spec env raw body c Hok Henv Hints) as Hs.
  pose proof (revoke_start_grows env raw body c Hok Henv Hints) as Hg. rewrite Hrun in Hs, Hg.
  destruct Hg as [Hg Hnew]. pose proof (keeps_grows c c' Hg) as Hk.
  destruct queued as [cmd|e]; [|by apply (waiters_moved c c' p (ap_server p))].
  destruct Hs as (Hok' & _ & Hfor & _ & Hp & _). specialize (Hnew cmd eq_refl).
  assert (command_id cmd ≠ "") as Hid.
  { destruct (ok_pending c' Hok' (command_id cmd) cmd) as [_ Hwf]; [by rewrite Hp, lookup_insert_eq|].
    by apply revocation_wf_id. }
  assert (∀ tid' body' command, awaits p tid' body' command → pc_result command < pc_result cmd) as Hlt.
  { intros tid' body' command Ha. destruct (waiters_served _ _ Hw _ _ _ Ha) as (_ & _ & ? & _). lia. }
  destruct Hk as [Hn Hk]. constructor.
  - intros tid' body' command [[-> [= <- <-]]|[_ Ha]]%awaits_with_thread.
    + split_and!; [left; by rewrite Hp, lookup_insert_eq|done|lia|done].
    + destruct (waiters_served _ _ Hw _ _ _ Ha) as (H1 & H2 & H3 & H4). split_and!; [by apply Hk|done|lia|done].
  - intros tid1 b1 c1 tid2 b2 c2 [[-> [= _ <-]]|[_ H1]]%awaits_with_thread
      [[-> [= _ <-]]|[_ H2]]%awaits_with_thread Heq; [done|..].
    + specialize (Hlt _ _ _ H2). lia.
    + specialize (Hlt _ _ _ H1). lia.
    + by eapply (waiters_distinct _ _ Hw).
Qed.

(** A caller takes its result, and nobody else's. *)
Lemma waiters_answered c c' p tid t body command answer response :
  ap_threads p !! tid = Some t → th_point t = Awaiting body command → revoke_wait command c c' answer →
  waiters_ok c p → waiters_ok c' (with_thread tid (at_point (Answered response) t) p).
Proof.
  intros Ht Hpoint Hwait Hw.
  assert (∀ tid' body' command', awaits (with_thread tid (at_point (Answered response) t) p) tid' body' command' →
    tid' ≠ tid ∧ awaits p tid' body' command') as Hp.
  { by intros tid' body' command' [[_ H]|H]%awaits_with_thread. }
  constructor.
  - intros tid' body' command' [Hne Ha]%Hp. destruct (waiters_served _ _ Hw _ _ _ Ha) as (H1 & H2 & H3 & H4).
    destruct Hwait as [c c' result Hr|c e _]; [|by split_and!].
    destruct (keeps_receive _ _ _ _ Hr) as [Hn Hk]. split_and!; [|done|lia|done]. apply Hk; [|done].
    intros [= Heq]. apply Hne. symmetry. eapply (waiters_distinct _ _ Hw); [by exists t|exact Ha|done].
  - intros tid1 b1 c1 tid2 b2 c2 [_ H1]%Hp [_ H2]%Hp. by eapply (waiters_distinct _ _ Hw).
Qed.

Lemma keeps_reload os_open now env raws so ao files previous c c' result :
  client_ok c → az_ok previous → env_ok env c → reload_clock_ok now → orders_ok so ao previous →
  reload_queue os_open now (env, raws) so ao files previous (Some c) = (Some c', result) →
  keeps_waiters None c c'.
Proof.
  intros Hok Haz Henv Hclock Hord Hrun.
  destruct (reload_queue_effect _ _ _ _ _ _ _ _ _ _ _ Haz Hclock Hord Hrun) as [[->|(requests & Hr & ->)] _];
    [apply keeps_refl|]. by apply keeps_grows, queueServiceAdmissionRevocations_grows.
Qed.

Lemma service_waiters_step sv sv' :
  service_ok delivered config sv → step sv sv' → service_waiters sv → service_waiters sv'.
Proof.
  intros Hok Hstep. unfold service_waiters.
  service_step_cases Hstep; simpl; try done.
  - destruct p as [p|]; [|done]. destruct (service_link _ _ _ Hok) as (_ & (w0 & _ & Hs) & _).
    apply waiters_keep; [|done]. apply keeps_effect; [apply Hok|]. by apply (session_effects id w0 _ _ Hs Hses).
  - by apply (waiters_moved c c p (ap_server p) tid (Thread request service Accepted)); [apply keeps_refl|..].
  - apply waiters_moved; [apply keeps_refl|]. by destruct k as [[]| |].
  - pose proof (service_server _ _ _ Hok : process_ok s p) as Hp.
    destruct (thread_lookup_ok s p tid t Hp Ht) as (_ & _ & Hints). rewrite Hpoint in Hints.
    by eapply waiters_queued; [apply Hok|..].
  - by eapply waiters_answered.
  - by apply (waiters_moved c c p (ap_server p)); [apply keeps_refl|..].
  - by apply (waiters_moved c c p (ap_server p)); [apply keeps_refl|..].
  - apply waiters_keep; [|done]. eapply keeps_reload; [apply Hok| |done..|exact Hrel].
    apply (server_authorizer _ _ (process_server _ _ (service_server _ _ _ Hok))).
  - apply waiters_keep; [|done]. eapply keeps_reload; [apply Hok| |done..|exact Hrel].
    apply (server_authorizer _ _ (process_server _ _ (service_server _ _ _ Hok))).
  - by apply waiters_keep; [apply keeps_refl|].
Qed.

Lemma reachable_waiters env p fs fs' st sv :
  order_env env → start env p fs = (fs', Ok st) → config = link_config p →
  rtc step (started st) sv → service_waiters sv.
Proof.
  intros Ho Hst Hconfig Hrun.
  enough (service_ok delivered config sv ∧ service_waiters sv) by tauto.
  eapply (rtc_invariant (λ sv, service_ok delivered config sv ∧ service_waiters sv)); [| |exact Hrun].
  - intros a b [Ha Hw] Hab. split; [by eapply service_step_ok|by eapply service_waiters_step].
  - split; [by eapply started_ok|]. unfold service_waiters, started. simpl.
    destruct (st_api st) as [srv|]; simpl; [|done].
    constructor; simpl; [by intros ? ? ? (t & Ht & _)|by intros ? ? ? ? ? ? (t & Ht & _)].
Qed.
End session.

(** ** The end of a wait *)

(** 503 *)
Definition unavailable : http_response :=
  Response 503 {["Content-Type" := "application/json"]}
    (print_json (JObject [("error", JString "Service Unavailable")]) +:+ newline).

(** What the caller that asked for [body] is told, for each way in which the
    wait for its [command] can end: the acknowledgement, message ID and error
    that [revokeServiceAdmission] returns to the handler. *)
Inductive caller_told (c : privateControlClient) (body : managementServiceAdmissionRevocationRequest)
    (command : privateControlPendingCommand) : privateControlAck * string * option error → http_response → Prop :=
| told_acknowledged ack :
    cl_results c !! pc_result command = Some (CommandResult ack None) →
    acknowledges ack command → ack_DenyUntil ack = rr_DenyUntil body →
    caller_told c body command (ack, command_id command, None)
      (Response 200 {["Content-Type" := "application/json"]}
         (print_json (JObject [("outcome", JString (ack_Outcome ack)); ("deny_until", jnum (rr_DenyUntil body));
            ("affected_membership_count", jnum (ack_AffectedMembershipCount ack));
            ("talk_release_count", jnum (ack_TalkReleaseCount ack))]) +:+ newline))
| told_failed e :
    cl_results c !! pc_result command = Some (CommandResult zero_ack (Some e)) →
    (∃ code, code ∈ privateControlErrorCodes ∧ e = err_relay code) ∨ e = err_deadline_elapsed →
    caller_told c body command (zero_ack, command_id command, Some e) unavailable
| told_pending : waiter_ok c command →
    caller_told c body command (zero_ack, command_id command, Some ErrContextDeadlineExceeded)
      (Response 202 {["Content-Type" := "application/json"]}
         (print_json (JObject [("status", JString "pending_relay_ack");
            ("message_id", JString (command_id command)); ("deny_until", jnum (rr_DenyUntil body))]) +:+ newline))
| told_cancelled : waiter_ok c command →
    caller_told c body command (zero_ack, command_id command, Some ErrContextCanceled) unavailable.

(** The answer leaves no choice. *)
Lemma caller_told_functional c body command answer r1 r2 :
  caller_told c body command answer r1 → caller_told c body command answer r2 → r1 = r2.
Proof.
  intros H1 H2. destruct H1 as [ack _ _ Hd|e _ He|_|_]; inversion H2; subst; try done.
  - by destruct He as [(code & _ & He)|He].
  - match goal with H : _ ∨ _ |- _ => by destruct H as [(code & _ & He)|He] end.
Qed.

Lemma wait_told c c' p tid body command answer :
  waiters_ok c p → client_ok c → awaits p tid body command → revoke_wait command c c' answer →
  caller_told c body command answer (revocation_answer body answer).
Proof.
  intros Hw Hok Ha Hwait. destruct (waiters_served _ _ Hw _ _ _ Ha) as (Hwaiter & Hfor & _ & Hid).
  destruct Hwait as [c c' result Hr|c e He]; unfold revocation_answer.
  - unfold receive_result in Hr. destruct (cl_results c !! pc_result command) as [r|] eqn:E; simpl in Hr; [|done].
    injection Hr as -> <-. destruct Hwaiter as [Hp|(r & Hr & Hres)].
    { by rewrite (ok_empty c Hok _ _ Hp) in E. }
    rewrite E in Hr. injection Hr as <-. destruct Hfor as (_ & _ & _ & _ & Hbody).
    destruct Hres as [ack Hack|code Hcode|]; cbn [res_ack res_err].
    + assert (ack_DenyUntil ack = rr_DenyUntil body) as Hdeny by (rewrite <-Hbody; apply Hack).
      rewrite Hdeny, Z.eqb_refl. pose proof (told_acknowledged c body command ack E Hack Hdeny) as H.
      unfold writeJSON, revocation_response_json. rewrite Hdeny. exact H.
    + apply told_failed; [done|left; by exists code].
    + apply told_failed; [done|by right].
  - destruct He as [-> | ->]; simpl; [by apply told_cancelled|].
    rewrite (proj2 (String.eqb_neq _ _) Hid). simpl. by apply told_pending.
Qed.

(** Only its own goroutine ends a wait. *)
Lemma wait_ends {W} Sum256 Sign (Write : W → string → W * (Z * option error)) config
    (sv sv' : @service W) p p' tid t body command response :
  service_step Sum256 Sign Write config sv sv' → sv_server sv = Some p → sv_server sv' = Some p' →
  awaits p tid body command → ap_threads p' !! tid = Some t → th_point t = Answered response →
  ∃ answer, revoke_wait command (sv_client sv) (sv_client sv') answer ∧
            response = revocation_answer body answer.
Proof.
  intros Hstep Hp Hp' (t0 & Ht0 & Hpoint0) Ht Hpoint.
  assert (∀ tid1 t1 q, ap_threads (with_thread tid1 t1 q) !! tid = Some t → ap_threads q = ap_threads p →
    tid1 = tid ∧ t = t1) as Hmoved.
  { intros tid1 t1 q Hl Hq. simpl in Hl. rewrite lookup_insert, Hq in Hl. case_decide; [by simplify_eq|].
    rewrite Ht0 in Hl. congruence. }
  destruct Hstep as [Hlink|[Hreq|Hrel]]; [by destruct Hlink; cbn [sv_server] in *; simplify_eq; congruence| |
   
    by destruct Hrel; cbn [sv_server] in *; simplify_eq; cbn [ap_threads] in *; congruence].
  destruct Hreq as
    [tid1 request service c s l p1 Hfree Hauth
    |tid1 t1 env a k c s l p1 Ht1 Hpoint1 Hraw Hrun
    |tid1 t1 body1 env raw queued c c' s l p1 Ht1 Hpoint1 Henv Hrun
    |tid1 t1 body1 command1 answer c c' s l p1 Ht1 Hpoint1 Hwait
    |tid1 t1 jobID c s l p1 Ht1 Hpoint1
    |tid1 t1 ch sub resp hub q event q' c s l p1 Ht1 Hpoint1 Hhub Hch Hrecv
    |tid1 t1 ch sub resp hub hub' c s l p1 Ht1 Hpoint1 Hhub Hun];
    cbn [sv_server sv_client] in *; simplify_eq; try congruence; try (cbn [ap_threads] in Ht; congruence);
    apply Hmoved in Ht as [-> ->]; try done; simplify_eq; try congruence.
  exists answer. split; [congruence|]. cbn [at_point th_point] in Hpoint. congruence.
Qed.

(** ** Properties *)

(** C4: a revocation reaches its caller.  In every reachable state of the
    running service, whatever goroutines, sessions, failures and reloads came
    between: each request that waits has a command that carries it, and that
    command is pending with nothing in its result channel, or its result is in
    the channel and is the Relay's acknowledgement of this very command, the
    Relay's refusal, or the lapse of its deadline; no two requests share a
    channel.  And whenever a wait ends, its goroutine took the result or found
    its context done, and what the caller is told is settled by that: the
    acknowledgement gives 200 with what it says, under the deadline asked for;
    a refusal by the Relay, or a lapse, gives 503; the end of the handler's
    wait gives 202 with the command's identifier, while the command is still
    pending or its result unread; and a caller that went away gives 503. *)
Theorem revocation_callers_answered Sum256 Sign {W} (Write : W → string → W * (Z * option error))
    (delivered : W → string) env p fs fs' st sv api :
  writer_contract Write delivered → order_env env → start env p fs = (fs', Ok st) →
  rtc (service_step Sum256 Sign Write (link_config p)) (started st) sv → sv_server sv = Some api →
  (∀ tid body command, awaits api tid body command →
     command_for command body ∧
     (cl_pending (sv_client sv) !! command_id command = Some command ∧
        cl_results (sv_client sv) !! pc_result command = None ∨
      ∃ result, cl_results (sv_client sv) !! pc_result command = Some result ∧ result_for command result)) ∧
  (∀ tid1 body1 command1 tid2 body2 command2,
     awaits api tid1 body1 command1 → awaits api tid2 body2 command2 →
     pc_result command1 = pc_result command2 → tid1 = tid2) ∧
  ∀ sv' api' tid t body command response,
    service_step Sum256 Sign Write (link_config p) sv sv' → sv_server sv' = Some api' →
    awaits api tid body command → ap_threads api' !! tid = Some t → th_point t = Answered response →
    ∃ answer, revoke_wait command (sv_client sv) (sv_client sv') answer ∧
      caller_told (sv_client sv) body command answer response.
Proof.
  intros Hc Ho Hst Hrun Hapi.
  pose proof (reachable_waiters Write delivered Hc Sum256 Sign _ env p fs fs' st sv Ho Hst eq_refl Hrun) as Hw.
  assert (client_ok (sv_client sv)) as Hok by by eapply service_client, service_reachable_ok.
  unfold service_waiters in Hw. rewrite Hapi in Hw. split_and!.
  - intros tid body command Ha. destruct (waiters_served _ _ Hw _ _ _ Ha) as (Hwait & Hfor & _).
    split; [done|]. destruct Hwait as [Hp|Hr]; [left|by right]. split; [done|]. by apply (ok_empty _ Hok _ _ Hp).
  - apply (waiters_distinct _ _ Hw).
  - intros sv' api' tid t body command response Hstep Hapi' Ha Ht Hpoint.
    destruct (wait_ends _ _ _ _ _ _ _ _ _ _ _ _ _ Hstep Hapi Hapi' Ha Ht Hpoint) as (answer & Hwait & ->).
    exists answer. split; [done|by eapply wait_told].
Qed.

(** The administrator's request waits, its command is acknowledged, and its
    goroutine takes the result: 200, with the deadline it asked for. *)
Lemma revocation_callers_answered_witness :
  ∃ sv' body command ack response,
    deployed_exec (TakeResult 1) (deployed_after revocation_acknowledged) = Some sv' ∧
    point_at 1 (deployed_after revocation_acknowledged) = Some (Awaiting body command) ∧
    acknowledges ack command ∧ ack_DenyUntil ack = rr_DenyUntil body ∧
    point_at 1 sv' = Some (Answered response) ∧ rs_Status response = 200.
Proof.
  set (sv := deployed_after revocation_acknowledged).
  assert (match sv_server sv, deployed_exec (TakeResult 1) sv with
          | Some api, Some sv' =>
              match ap_threads api !! 1, sv_server sv' with
              | Some t, Some api' =>
                  match th_point t, ap_threads api' !! 1 with
                  | Awaiting _ _, Some t' =>
                      match th_point t' with Answered response => rs_Status response =? 200 | _ => false end
                  | _, _ => false end
              | _, _ => false end
          | _, _ => false end = true) as Hv by (vm_compute; reflexivity).
  destruct (sv_server sv) as [api|] eqn:Es; [|discriminate Hv].
  destruct (deployed_exec (TakeResult 1) sv) as [sv'|] eqn:Ex; [|discriminate Hv].
  destruct (ap_threads api !! 1) as [t|] eqn:Et; [|discriminate Hv].
  destruct (sv_server sv') as [api'|] eqn:Es'; [|discriminate Hv].
  destruct (th_point t) as [|body|body command|jobID|c i r|r] eqn:Ep; try discriminate Hv.
  destruct (ap_threads api' !! 1) as [t'|] eqn:Et'; [|discriminate Hv].
  destruct (th_point t') as [| | | | |response] eqn:Ep'; try discriminate Hv. apply Z.eqb_eq in Hv.
  destruct (revocation_callers_answered example_sum example_sign (chunked_write 10) Datatypes.id deployed_env
    deployed_process no_files no_files deployed_start sv api (chunked_write_contract 10) deployed_order
    deployed_started (deployed_reachable _) Es) as (_ & _ & H).
  destruct (H sv' api' 1 t' body command response (deployed_exec_sound _ _ _ Ex) Es'
    (ex_intro _ t (conj Et Ep)) Et' Ep') as (answer & _ & Htold).
  destruct Htold as [ack _ Hack Hdeny| | |]; try discriminate Hv.
  exists sv', body, command, ack. eexists. split; [reflexivity|].
  split; [unfold point_at; rewrite Es; cbn [mbind option_bind]; rewrite Et; cbn [fmap option_fmap option_map];
          rewrite Ep; reflexivity|].
  split; [exact Hack|]. split; [exact Hdeny|].
  split; [unfold point_at; rewrite Es'; cbn [mbind option_bind]; rewrite Et'; cbn [fmap option_fmap option_map];
          rewrite Ep'; reflexivity|exact Hv].
Defined.

Close Scope Z_scope.
