(* ===== verification/Ledger.v ===== *)
(** * The ledger of revocations

    What the running service promises about revocations, without its
    goroutines, sessions, channels and files: a ledger of messages that grows
    by whole batches of new valid revocations and from which a message goes
    only when the Relay acknowledged or refused it or its deadline lapsed.  The
    service implements the ledger, and every change of it is in the store file
    before anybody is told. *)

From S2P Require Export Waiters.

Open Scope Z_scope.

(** ** The specification *)

Abbreviation ledger := (gmap string privateControlRevokeServiceAdmission).

(** The messages of a batch, by their identifiers. *)
Definition entries (batch : list privateControlRevokeServiceAdmission) : ledger :=
  list_to_map ((λ m, (rev_MessageID m, m)) <$> batch).

Inductive ledger_step (l : ledger) : ledger → Prop :=
| ledger_same : ledger_step l l
| ledger_queued batch :
    batch ≠ [] → NoDup (rev_MessageID <$> batch) →
    Forall (λ m, validPrivateControlRevocation m = true ∧ l !! rev_MessageID m = None) batch →
    (size l + length batch ≤ 64)%nat → ledger_step l (entries batch ∪ l)
| ledger_settled id command result :
    l !! id = Some (pc_message command) → result_for command result → ledger_step l (delete id l).

(** ** The implementation *)

Definition ledger_of (c : privateControlClient) : ledger := pc_message <$> cl_pending c.

(** The step of the queue from [c] to [c'] is one of the ledger, a change of
    the ledger is stored, and what left the ledger has told its caller. *)
Record implements (c c' : privateControlClient) : Prop := Implements {
  impl_step : ledger_step (ledger_of c) (ledger_of c');
  impl_stored : ledger_of c' ≠ ledger_of c → stored c';
  impl_told : ∀ id command, cl_pending c !! id = Some command → cl_pending c' !! id = None →
    ∃ result, cl_results c' !! pc_result command = Some result ∧ result_for command result;
}.

Lemma implements_same c c' : cl_pending c' = cl_pending c → implements c c'.
Proof.
  intros Hp. unfold ledger_of. constructor; unfold ledger_of; rewrite Hp; [constructor|done|congruence].
Qed.

Lemma entries_lookup batch id m :
  NoDup (rev_MessageID <$> batch) → entries batch !! id = Some m ↔ m ∈ batch ∧ rev_MessageID m = id.
Proof.
  intros Hnd. unfold entries. rewrite <-elem_of_list_to_map.
  - rewrite list_elem_of_fmap. split; [by intros (x & [= -> ->] & Hx)|]. intros [Hm <-]. by exists m.
  - by rewrite <-list_fmap_compose.
Qed.

Lemma ledger_add cmds c c' :
  admissible (cl_pending c) cmds → cl_pending c' = add_all cmds (cl_pending c) →
  ledger_of c' = entries (pc_message <$> cmds) ∪ ledger_of c.
Proof.
  intros [Hall Hnd] Hp. unfold ledger_of. rewrite Hp. rewrite Forall_forall in Hall.
  assert (∀ x, x ∈ cmds → cl_pending c !! command_id x = None) as Hnew by (intros; by apply Hall).
  assert (NoDup (rev_MessageID <$> (pc_message <$> cmds))) as Hnd' by by rewrite <-list_fmap_compose.
  apply map_eq. intros id. apply option_eq. intros m.
  rewrite lookup_union_Some_raw, lookup_fmap, fmap_Some, entries_lookup by done.
  setoid_rewrite add_all_lookup; [|done|done]. split.
  - intros (cmd & [Hid|[Hin <-]] & ->).
    + right. split; [|by rewrite lookup_fmap, Hid].
      apply eq_None_not_Some. intros [m Hm]. apply entries_lookup in Hm as [Hin Heq]; [|done].
      apply list_elem_of_fmap in Hin as (x & -> & Hx). fold (command_id x) in Heq.
      rewrite <-Heq, (Hnew x Hx) in Hid. done.
    + left. split; [by apply list_elem_of_fmap_2|done].
  - intros [[Hin <-]|[_ Hid]].
    + apply list_elem_of_fmap in Hin as (x & -> & Hx). exists x. split; [by right|done].
    + rewrite lookup_fmap in Hid. apply fmap_Some in Hid as (x & Hx & ->). exists x. split; [by left|done].
Qed.

Lemma implements_enqueue env commands n c :
  env_ok env c → implements c (enqueuePendingCommands env commands (with_next n c)).1.
Proof.
  intros Henv. destruct commands as [|x xs]; [by apply implements_same|].
  pose proof (enqueue_spec env (x :: xs) (with_next n c) Henv ltac:(done)) as He.
  destruct (enqueuePendingCommands _ _ _) as [c' [e|]]; destruct He as [_ He]; simpl.
  { destruct He as [Hp _]. by apply implements_same. }
  destruct He as (cmds & Heq & Hadm & Hsize & Hp & _ & Hst). simpl in Hadm, Hsize, Hp.
  pose proof Hadm as [Hall Hnd]. rewrite Forall_forall in Hall. constructor.
  - rewrite (ledger_add cmds c c' Hadm Hp). apply ledger_queued.
    + by destruct cmds.
    + by rewrite <-list_fmap_compose.
    + apply Forall_fmap, Forall_forall. intros y Hy. destruct (Hall y Hy) as [Hv Hno]. split; [done|].
      simpl. unfold ledger_of. rewrite lookup_fmap. fold (command_id y). by rewrite Hno.
    + unfold ledger_of. by rewrite map_size_fmap, length_fmap.
  - done.
  - intros id command Hid Hno. exfalso. rewrite Hp in Hno.
    assert (add_all cmds (cl_pending c) !! id = Some command) as Hk; [|congruence].
    apply add_all_lookup; [done| |by left]. intros y Hy. by apply Hall.
Qed.

Lemma implements_queue env raws requests c :
  client_ok c → env_ok env c → Forall request_ints requests →
  implements c (queueServiceAdmissionRevocations env raws requests c).1.
Proof.
  intros Hok Henv Hr. unfold queueServiceAdmissionRevocations.
  pose proof (new_batch_spec raws requests c Hok Hr) as Hb.
  destruct (new_batch raws requests c) as [c1 [commands|e]]; destruct Hb as [(n & Hn & ->) _];
    [by apply implements_enqueue|by apply implements_same].
Qed.

Lemma implements_revoke env raw body c :
  client_ok c → env_ok env c → request_ints body → implements c (revoke_start env raw body c).1.
Proof.
  intros Hok Henv Hr. unfold revoke_start, enqueuePendingCommand.
  pose proof (new_batch_spec [raw] [body] c Hok ltac:(by constructor)) as Hb. simpl in Hb.
  destruct (newPendingRevocation raw body c) as [c1 [cmd|e]]; destruct Hb as [(n & Hn & ->) _];
    [|by apply implements_same].
  pose proof (implements_enqueue env [Some cmd] n c Henv) as H.
  by destruct (enqueuePendingCommands _ _ _) as [c2 [e|]].
Qed.

Lemma implements_effect c c' : client_ok c → session_effect c c' → implements c c'.
Proof.
  intros Hok [Hp _ _|id result [e|] (cmd & Hid & _ & _ & _ & H) Hfor]; [by apply implements_same|..].
  { destruct H as [Hp _]. by apply implements_same. }
  destruct H as (Hp & Hr & Hst). destruct (ok_pending c Hok _ _ Hid) as [Hcid _]. constructor.
  - unfold ledger_of. rewrite Hp, fmap_delete. eapply ledger_settled; [|by apply (Hfor cmd)].
    by rewrite lookup_fmap, Hid.
  - done.
  - intros id' command Hid' Hno. rewrite Hp in Hno. apply lookup_delete_None in Hno as [->|Hno]; [|congruence].
    rewrite Hid in Hid'. injection Hid' as <-. exists result. split; [by rewrite Hr, lookup_insert_eq|by apply Hfor].
Qed.

Lemma service_implements {W} Sum256 Sign (Write : W → string → W * (Z * option error)) (delivered : W → string)
    config (sv sv' : @service W) :
  service_ok delivered config sv → service_step Sum256 Sign Write config sv sv' →
  implements (sv_client sv) (sv_client sv').
Proof.
  intros Hok Hstep. service_step_cases Hstep; cbn [sv_client]; try by apply implements_same.
  - destruct (service_link _ _ _ Hok) as (_ & (w0 & _ & Hs) & _).
    apply implements_effect; [apply Hok|]. by apply (session_effects Write delivered id w0 _ _ Hs Hses).
  - pose proof (service_server _ _ _ Hok : process_ok s p) as Hp.
    destruct (thread_lookup_ok s p tid t Hp Ht) as (_ & _ & Hints). rewrite Hpoint in Hints.
    pose proof (implements_revoke env raw body c (service_client _ _ _ Hok) Henv Hints) as H. by rewrite Hrun in H.
  - apply implements_same. destruct Hwait as [c c' result Hr|]; [|done].
    unfold receive_result in Hr. destruct (cl_results c !! _); simpl in Hr; [|done]. by injection Hr as _ <-.
  - pose proof (server_authorizer _ _ (process_server _ _ (service_server _ _ _ Hok : process_ok s p))) as Haz.
    destruct (reload_queue_effect _ _ _ _ _ _ _ _ _ _ _ Haz Hclock Hord Hrel) as [[->|(requests & Hr & ->)] _];
      [by apply implements_same|]. by apply implements_queue; [apply Hok|..].
  - pose proof (server_authorizer _ _ (process_server _ _ (service_server _ _ _ Hok : process_ok s p))) as Haz.
    destruct (reload_queue_effect _ _ _ _ _ _ _ _ _ _ _ Haz Hclock Hord Hrel) as [[->|(requests & Hr & ->)] _];
      [by apply implements_same|]. by apply implements_queue; [apply Hok|..].
Qed.

(** The ledger the service starts with is what its store file held. *)
Lemma started_ledger {W} env p fs fs' st :
  start env p fs = (fs', Ok st) →
  ∃ fs1 filename pending next,
    openPrivateControlCommandStore (se_fs env) (cfg_commandStoreFile (link_config p)) (se_now env) 0 fs =
      (fs1, Ok (filename, pending, next)) ∧
    cl_store (sv_client (@started W st)) = Some filename ∧
    ledger_of (sv_client (@started W st)) = pc_message <$> pending.
Proof.
  unfold start, link_config. destruct (loadConfiguration p) as [[cfg httpListen] apiConfig]. cbn [fst].
  unfold newPrivateControlClient. destruct (negb _); [done|].
  destruct (openPrivateControlCommandStore _ _ _ _ _) as [fs1 [[[filename pending] next]|e]]; [|done].
  destruct (check_transport _ _) as [e|]; [done|]. intros Hst. exists fs1, filename, pending, next.
  split; [done|]. revert Hst. destruct (newManagementAPI _ _ _ _) as [[srv|]|e]; [..|done];
    intros [= <- <-]; by split.
Qed.

(** The administrator's request up to the critical section that queues. *)
Definition revocation_decoded : list action :=
  [Dial example_hello_ack (1000 * Second); RequestSnapshot; Accept 1 revocation_http; Handle 1 (1000 * Second) (Ok "")].

(** ** Properties *)

(** C2: the service implements the ledger.  It starts with the revocations
    that the store file held; from then on every step of every goroutine leaves
    the ledger alone, adds one whole batch of valid revocations under new
    identifiers, at most 64 in all, or settles one revocation: the Relay
    acknowledged it with its own deadline, refused it, or its deadline lapsed.
    After a step that changed the ledger the store file holds exactly the new
    one, and the result channel of a revocation that was settled holds the
    reason. *)
Theorem service_refines_ledger Sum256 Sign {W} (Write : W → string → W * (Z * option error))
    (delivered : W → string) env p fs fs' st sv sv' :
  writer_contract Write delivered → order_env env → start env p fs = (fs', Ok st) →
  rtc (service_step Sum256 Sign Write (link_config p)) (started st) sv →
  service_step Sum256 Sign Write (link_config p) sv sv' →
  (∃ fs1 filename pending next,
     openPrivateControlCommandStore (se_fs env) (cfg_commandStoreFile (link_config p)) (se_now env) 0 fs =
       (fs1, Ok (filename, pending, next)) ∧
     cl_store (sv_client (@started W st)) = Some filename ∧
     ledger_of (sv_client (@started W st)) = pc_message <$> pending) ∧
  ledger_step (ledger_of (sv_client sv)) (ledger_of (sv_client sv')) ∧
  (ledger_of (sv_client sv') ≠ ledger_of (sv_client sv) → stored (sv_client sv')) ∧
  ∀ id command, cl_pending (sv_client sv) !! id = Some command → cl_pending (sv_client sv') !! id = None →
    ∃ result, cl_results (sv_client sv') !! pc_result command = Some result ∧ result_for command result.
Proof.
  intros Hc Ho Hst Hrun Hstep. split; [by eapply started_ledger|].
  destruct (service_implements Sum256 Sign Write delivered (link_config p) sv sv') as [H1 H2 H3];
    [by eapply service_reachable_ok|done|]. by split_and!.
Qed.

(** The administrator's revocation is queued: one step, and it is stored. *)
Lemma service_refines_ledger_witness :
  ∃ sv sv', deployed_run revocation_decoded = Some sv ∧
    deployed_exec (Enqueue 1 (Ok "abcdefghijklmnop")) sv = Some sv' ∧
    ledger_of (sv_client sv) = ∅ ∧ ledger_of (sv_client sv') ≠ ∅ ∧
    ledger_step (ledger_of (sv_client sv)) (ledger_of (sv_client sv')) ∧ stored (sv_client sv').
Proof.
  assert (match deployed_run revocation_decoded with
          | Some sv =>
              bool_decide (ledger_of (sv_client sv) = ∅) &&
              match deployed_exec (Enqueue 1 (Ok "abcdefghijklmnop")) sv with
              | Some sv' => bool_decide (ledger_of (sv_client sv') ≠ ∅) | None => false end
          | None => false end = true) as Hv by (vm_compute; reflexivity).
  destruct (deployed_run revocation_decoded) as [sv|] eqn:E; [|discriminate Hv].
  apply andb_true_iff in Hv as [Hv0 Hv].
  destruct (deployed_exec (Enqueue 1 (Ok "abcdefghijklmnop")) sv) as [sv'|] eqn:E'; [|discriminate Hv].
  apply bool_decide_eq_true_1 in Hv, Hv0.
  destruct (service_refines_ledger example_sum example_sign (chunked_write 10) Datatypes.id deployed_env
    deployed_process no_files no_files deployed_start sv sv' (chunked_write_contract 10) deployed_order
    deployed_started (deployed_run_sound _ _ E) (deployed_exec_sound _ _ _ E')) as (_ & H1 & H2 & _).
  exists sv, sv'. split; [reflexivity|]. split; [exact E'|]. split; [exact Hv0|]. split; [exact Hv|].
  split; [exact H1|]. apply H2. rewrite Hv0. exact Hv.
Defined.

Close Scope Z_scope.
