(* ===== verification/Streams.v ===== *)
(** * The open event streams

    A stream is a goroutine that holds a subscription of the hub; the hub may
    drop the subscription while the goroutine still drains its channel.  In
    every reachable state of the service the hub's subscribers are exactly the
    streams that were not dropped: no subscription outlives its stream, no two
    streams share one, and a dropped stream finds its channel closed. *)

From S2P Require Export Scenario.

Open Scope Z_scope.

(** ** What happens to a hub between subscriptions *)

(** The subscription [id] of the channel [c] is alive, or was ended and its
    channel closed. *)
Definition subscribed_or_closed (h : managementLiveEventHub) (id c : Z) : Prop :=
  ∃ q, hub_chans h !! c = Some q ∧ (hub_subscribers h !! id = Some c ∨ ch_closed q = true).

Record shrinks (h h' : managementLiveEventHub) : Prop := Shrinks {
  shrinks_next : hub_nextSubID h' = hub_nextSubID h ∧ hub_nextChan h' = hub_nextChan h;
  shrinks_subscribers : ∀ id c, hub_subscribers h' !! id = Some c → hub_subscribers h !! id = Some c;
  shrinks_chans : ∀ id c, subscribed_or_closed h id c → subscribed_or_closed h' id c;
}.

Lemma shrinks_refl h : shrinks h h.
Proof. by constructor. Qed.

Lemma shrinks_publish order input h h' :
  hub_ok h → map_order (hub_subscribers h) order → hub_publish order input h = Some h' → shrinks h h'.
Proof.
  intros Hok Ho Hpub. destruct (decide (hub_nextEventID h = max_u64)) as [Hmax|Hmax].
  { unfold hub_publish in Hpub. rewrite Hmax, Z.eqb_refl in Hpub. injection Hpub as <-. apply shrinks_refl. }
  destruct (hub_publish_published h order input Hok Ho Hmax) as (h2 & Hpub' & _ & Hp). rewrite Hpub in Hpub'.
  injection Hpub' as <-.
  assert (∀ id c, (id, c) ∈ order ↔ hub_subscribers h !! id = Some c) as Hin by (intros; by apply map_order_elem).
  constructor.
  - by destruct (pub_counters _ _ _ _ Hp) as (_ & -> & ->).
  - intros id c. eapply published_sub; [exact Hok| |exact Hp|done|done]. intros. by apply Hin.
  - intros id c (q & Hq & Hor). destruct (decide (c ∈ order.*2)) as [Hc|Hc].
    + apply list_elem_of_fmap in Hc as ([id' c'] & -> & Hc). pose proof (proj1 (Hin id' c') Hc) as Hid'.
      destruct (hub_ok_open h Hok id' c' Hid') as (buf & Hbuf & _). simpl in *.
      rewrite Hbuf in Hq. injection Hq as <-. destruct Hor as [Hid|?]; [|done].
      pose proof (hub_ok_inj h Hok id id' c' Hid Hid') as ->.
      pose proof (pub_listed _ _ _ _ Hp id' c' buf Hc Hbuf) as Hl. destruct (has_room buf);
        destruct Hl as [Hs Hb]; eexists; (split; [exact Hb|]); [by left|by right].
    + exists q. rewrite (pub_other_chan _ _ _ _ Hp c Hc). split; [done|]. destruct Hor as [Hid|?]; [|by right].
      destruct Hc. apply list_elem_of_fmap. exists (id, c). split; [done|by apply Hin].
Qed.

Lemma shrinks_receive h c ch ch' event :
  hub_chans h !! c = Some ch → recv ch = Received event ch' → shrinks h (with_chan c ch' h).
Proof.
  intros Hc Hr. constructor; simpl; [done|done|]. intros id c' (q & Hq & Hor).
  unfold subscribed_or_closed. simpl. rewrite lookup_insert. case_decide as Heq; [|by exists q].
  subst c'. rewrite Hc in Hq. injection Hq as <-. exists ch'. split; [done|].
  unfold recv in Hr. destruct ch as [[|e buf] closed]; simpl in *; [by destruct closed|]. by injection Hr as _ <-.
Qed.

Lemma shrinks_unsubscribe h h' id :
  hub_ok h → hub_unsubscribe id h = Some h' → shrinks h h' ∧ hub_subscribers h' !! id = None.
Proof.
  intros Hok. unfold hub_unsubscribe. destruct (hub_subscribers h !! id) as [c|] eqn:Hid.
  2: { intros [= <-]. split; [apply shrinks_refl|done]. }
  destruct (hub_ok_open h Hok id c Hid) as (buf & Hbuf & _). unfold drop_subscriber. rewrite Hbuf.
  cbn [mbind option_bind close_chan ch_closed]. intros [= <-]. simpl.
  split; [constructor; simpl; [done| |]|apply lookup_delete_eq].
  - by intros id' c' [_ ?]%lookup_delete_Some.
  - intros id' c' (q & Hq & Hor). unfold subscribed_or_closed. simpl.
    destruct (decide (c = c')) as [<-|Hne].
    + eexists. rewrite lookup_insert_eq. split; [done|by right].
    + exists q. rewrite lookup_insert_ne by done. split; [done|]. destruct Hor as [Hid'|?]; [left|by right].
      rewrite lookup_delete_ne; [done|]. intros ->. congruence.
Qed.

(** *** Hubs of states *)

Definition hubs_shrink (s s' : managementState) : Prop :=
  match ms_liveEvents s, ms_liveEvents s' with
  | Some h, Some h' => shrinks h h'
  | None, None => True
  | _, _ => False
  end.

Lemma hubs_same s s' : ms_liveEvents s' = ms_liveEvents s → hubs_shrink s s'.
Proof. unfold hubs_shrink. intros ->. destruct (ms_liveEvents s); [apply shrinks_refl|done]. Qed.

Lemma hubs_event now order event s s' :
  state_ok s → hub_order s order → recordLifecycleEvent now order event s = Some s' → hubs_shrink s s'.
Proof.
  intros [_ Hhub _] Ho. unfold recordLifecycleEvent, hubs_shrink. simpl.
  destruct (ms_liveEvents s) as [h|] eqn:E; [|intros [= <-]; simpl; by rewrite E].
  intros (h' & Hpub & ->)%fmap_Some. simpl. eapply shrinks_publish; [exact Hhub|by apply Ho|exact Hpub].
Qed.

Lemma hubs_session {W} (Write : W → string → W * (Z * option error)) id (x x' : @session W) :
  client_ok (so_conn (ses_objects x)) → state_ok (so_state (ses_objects x)) → session_step Write id x x' →
  hubs_shrink (so_state (ses_objects x)) (so_state (ses_objects x')).
Proof.
  intros Hcl Hs Hstep.
  destruct Hstep as [| | | | |now order env raw o o' w sent Henv Ho Hm
    |now order env raw o o' w sent e Henv Ho Hm| |];
    cbn [so_conn so_state ses_objects with_client] in *; try by apply hubs_same.
  - apply handleSessionMessage_spec in Hm; [|done|done].
    destruct Hm as [event s' _ _ Hr ->|response sn dl _ _ _ _ ->|response c' _ _ _ _ ->|response c' _ _ _ _ ->];
      [by eapply hubs_event|by apply hubs_same; destruct dl|by apply hubs_same..].
  - apply handleSessionMessage_spec in Hm as (-> & _); [|done|done]. by apply hubs_same.
Qed.

(** ** What a request does to the hub *)

Definition opens_stream {R} (a a' : managementAPI R) (out : outcome) : Prop :=
  ∃ s hub hub' channel subscription response, out = OpenStream s channel subscription response ∧
    ms_liveEvents (api_state a) = Some hub ∧ hub_subscribe hub = (hub', Some (channel, subscription)) ∧
    ms_liveEvents (api_state a') = Some hub'.

Lemma handleEvents_hub {R} env request s (a : managementAPI R) :
  let '(a', out) := handleEvents env request s a in
  opens_stream a a' out ∨ ms_liveEvents (api_state a') = ms_liveEvents (api_state a) ∧ ∃ r, out = Respond r.
Proof.
  unfold handleEvents, fail. destruct (negb _); [by right; eauto|].
  destruct (ms_liveEvents (api_state a)) as [hub|] eqn:Eh; [|by right; eauto].
  destruct (negb _); [by right; eauto|]. destruct (bool_decide _); [by right; eauto|].
  destruct (negb _); [by right; eauto|]. destruct (negb _); [by right; eauto|].
  destruct (hub_subscribe hub) as [hub' [[c id]|]] eqn:E.
  - left. by eexists _, hub, hub', c, id, _.
  - right. simpl. unfold hub_subscribe in E. case_match; [|done]. injection E as <-. eauto.
Qed.

(** A section either opens a stream or leaves the hub alone. *)
Definition hub_untouched {R} (a a' : managementAPI R) (k : remaining) : Prop :=
  ms_liveEvents (api_state a') = ms_liveEvents (api_state a) ∧
  ∀ s channel subscription response, k ≠ Finish (OpenStream s channel subscription response).

Lemma untouched_respond {R} (a : managementAPI R) (r : managementAPI R * outcome) :
  ms_liveEvents (api_state r.1) = ms_liveEvents (api_state a) → (∃ response, r.2 = Respond response) →
  hub_untouched a r.1 (Finish r.2).
Proof. intros Hs [response Hr]. split; [done|]. rewrite Hr. by intros. Qed.

Section first_section_hub.
Context (Sum256 : string → string) (Sign : string → string → string) {R : Type}.
Implicit Types a : managementAPI R.

Lemma grant_hub env request s a :
  let r := handleServiceAdmissionGrant Sum256 Sign env request s a in
  ms_liveEvents (api_state r.1) = ms_liveEvents (api_state a) ∧ ∃ response, r.2 = Respond response.
Proof.
  cbv zeta. unfold handleServiceAdmissionGrant, fail. destruct (negb _); [by eauto|].
  destruct (negb _); [by eauto|]. destruct (negb _); [by eauto|].
  destruct (decodeManagementAPIRequest _ _ _); [|by eauto]. destruct (admissionACL _ _ _); [|by eauto].
  destruct (issue _ _ _ _ _ _ _ _) as [i [[grant expiresAt]|e]]; by eauto.
Qed.

Lemma job_start_hub env request s a :
  let r := handleRecordingJobStart env request s a in
  ms_liveEvents (api_state r.1) = ms_liveEvents (api_state a) ∧ ∃ response, r.2 = Respond response.
Proof.
  cbv zeta. unfold handleRecordingJobStart, fail. destruct (negb _); [by eauto|].
  destruct (decodeManagementAPIRequest _ _ _); [|by eauto]. destruct (negb _); [by eauto|].
  destruct (jobs_create _ _ _ _) as [jobs' [job|e]]; by eauto.
Qed.

Lemma revocation_hub env request s a :
  let r := admit_revocation env request s a in hub_untouched a r.1 r.2.
Proof.
  cbv zeta. unfold admit_revocation, fail. destruct (negb _); [done|]. destruct (_ || _); [done|].
  destruct (decodeManagementAPIRequest _ _ _) as [body|]; [|done].
  destruct (validateServiceAdmissionRevocation _ _ _ _) as [i [e|]]; [done|]. split; [done|].
  intros. cbn [snd]. by destruct (api_revoker a).
Qed.

Lemma stop_hub request s id a : hub_untouched a a (admit_stop request s id a).
Proof.
  split; [done|]. intros. unfold admit_stop, fail. destruct (negb _); [done|].
  destruct (jobs_get _ _); [|done]. by destruct (negb _).
Qed.

(** A read behind the check of the method. *)
Lemma get_hub (b : bool) o a :
  (∃ response, o = Respond response) →
  let r := if b then (a, Respond (writeManagementAPIMethodNotAllowed "GET")) else (a, o) in
  hub_untouched a r.1 (Finish r.2).
Proof. intros Ho. destruct b; apply untouched_respond; by eauto. Qed.

Lemma health_responds s a : ∃ response, handleHealth s a = Respond response.
Proof. unfold handleHealth, fail. destruct (negb _); by eauto. Qed.

Lemma channels_respond env s a : ∃ response, handleChannels env s a = Respond response.
Proof. unfold handleChannels, fail. destruct (negb _); [by eauto|]. destruct (managementAPIChannelState _); by eauto. Qed.

Lemma participants_respond env s c a : ∃ response, handleParticipants env s c a = Respond response.
Proof. unfold handleParticipants, fail. destruct (negb _); [by eauto|]. destruct (managementAPIChannelState _); by eauto. Qed.

Lemma first_section_hub env request s a :
  let '(a', k) := first_section Sum256 Sign env request s a in
  (∃ out, k = Finish out ∧ opens_stream a a' out) ∨ hub_untouched a a' k.
Proof.
  unfold first_section. cbv zeta.
  destruct (String.eqb _ "/v1/health"); [right; apply get_hub, health_responds|].
  destruct (String.eqb _ "/v1/channels"); [right; apply get_hub, channels_respond|].
  destruct (String.eqb _ "/v1/events").
  { pose proof (handleEvents_hub env request s a) as H. destruct (handleEvents _ _ _ _) as [a' out]. simpl.
    destruct H as [H|[H1 [r ->]]]; [left; eauto|by right]. }
  destruct (String.eqb _ "/v1/service-admission-grants").
  { right. by apply untouched_respond; apply grant_hub. }
  destruct (String.eqb _ "/v1/service-admission-revocations").
  { pose proof (revocation_hub env request s a) as H. destruct (admit_revocation _ _ _ _). by right. }
  destruct (String.eqb _ "/v1/recording-jobs").
  { right. by apply untouched_respond; apply job_start_hub. }
  destruct (managementAPIRecordingJobIDFromStopPath _) as [id|]; [right; apply stop_hub|].
  destruct (managementAPIChannelIDFromPath _) as [c|]; right; [|done]. apply get_hub, participants_respond.
Qed.
End first_section_hub.

(** ** The streams of the service *)

(** The thread [tid] reads the channel [ch] of the subscription [id]. *)
Definition streams (p : api_process) (tid ch id : Z) : Prop :=
  ∃ t response, ap_threads p !! tid = Some t ∧ th_point t = Streaming ch id response.

(** Subscription identifiers are a uint64 that the hub lets wrap; before it
    does they are one more than the number of the channel. *)
Definition unwrapped (h : managementLiveEventHub) : Prop := hub_nextChan h < 2 ^ 64.

Record streams_ok (h : managementLiveEventHub) (p : api_process) : Prop := StreamsOk {
  streams_next : 0 ≤ hub_nextChan h ∧ hub_nextSubID h = wrap_u64 (hub_nextChan h);
  streams_live : unwrapped h → ∀ tid ch id, streams p tid ch id →
    id = ch + 1 ∧ ch < hub_nextChan h ∧ subscribed_or_closed h id ch;
  streams_distinct : unwrapped h → ∀ tid1 tid2 ch id1 id2,
    streams p tid1 ch id1 → streams p tid2 ch id2 → tid1 = tid2;
  streams_read : unwrapped h → ∀ id ch, hub_subscribers h !! id = Some ch → ∃ tid, streams p tid ch id;
}.

Definition state_streams (s : managementState) (p : api_process) : Prop :=
  match ms_liveEvents s with
  | Some h => streams_ok h p
  | None => ∀ tid ch id, ¬ streams p tid ch id
  end.

Definition service_streams {W} (sv : @service W) : Prop :=
  match sv_server sv with Some p => state_streams (sv_state sv) p | None => True end.

Lemma streams_with_thread p tid t tid' ch id :
  streams (with_thread tid t p) tid' ch id ↔
  (tid' = tid ∧ ∃ response, th_point t = Streaming ch id response) ∨ (tid' ≠ tid ∧ streams p tid' ch id).
Proof.
  unfold streams. simpl. destruct (decide (tid = tid')) as [<-|Hne].
  - rewrite lookup_insert_eq. naive_solver.
  - rewrite lookup_insert_ne by done. naive_solver.
Qed.

(** The hub shrinks and the threads stream as before. *)
Lemma streams_shrink h h' p p' :
  shrinks h h' → (∀ tid ch id, streams p' tid ch id ↔ streams p tid ch id) → streams_ok h p → streams_ok h' p'.
Proof.
  intros [[Hn1 Hn2] Hsub Hch] Hp [H1 H2 H3 H4]. unfold unwrapped in *. constructor; unfold unwrapped;
    rewrite ?Hn1, ?Hn2; [done| | |].
  - intros Hu tid ch id Ha%Hp. destruct (H2 Hu _ _ _ Ha) as (? & ? & ?). split_and!; [done|done|by apply Hch].
  - intros Hu tid1 tid2 ch id1 id2 Ha%Hp Hb%Hp. by eapply H3.
  - intros Hu id ch [tid Ht]%Hsub%(H4 Hu). exists tid. by apply Hp.
Qed.

Lemma state_streams_shrink s s' p p' :
  hubs_shrink s s' → (∀ tid ch id, streams p' tid ch id ↔ streams p tid ch id) →
  state_streams s p → state_streams s' p'.
Proof.
  unfold hubs_shrink, state_streams. intros Hs Hp.
  destruct (ms_liveEvents s), (ms_liveEvents s'); try done; [by apply streams_shrink|]. intros H tid ch id. by rewrite Hp.
Qed.

(** A thread that does not stream moves on without streaming. *)
Lemma not_streaming p srv tid t point tid' ch id :
  (∀ t', ap_threads p !! tid = Some t' → ∀ ch id r, th_point t' ≠ Streaming ch id r) →
  (∀ ch id r, point ≠ Streaming ch id r) →
  streams (with_thread tid (at_point point t) (with_server srv p)) tid' ch id ↔ streams p tid' ch id.
Proof.
  intros Hold Hnew. rewrite streams_with_thread. split.
  - intros [[_ [r Hr]]|[_ H]]; [by destruct (Hnew ch id r)|done].
  - intros H. destruct (decide (tid' = tid)) as [->|Hne]; [|by right]. destruct H as (t' & r & Ht & Hr).
    by destruct (Hold t' Ht ch id r).
Qed.

Lemma streams_opened h h' p srv tid t ch id response :
  hub_ok h → hub_subscribe h = (h', Some (ch, id)) →
  (∀ t', ap_threads p !! tid = Some t' → ∀ ch id r, th_point t' ≠ Streaming ch id r) →
  streams_ok h p →
  streams_ok h' (with_thread tid (at_point (Streaming ch id response) t) (with_server srv p)).
Proof.
  intros Hok Hsub Hold [[Hn1 Hn2] H2 H3 H4]. unfold hub_subscribe in Hsub. case_match; [done|].
  injection Hsub as <- <- <-. set (c := hub_nextChan h) in *. unfold unwrapped in *. simpl in *.
  assert (c + 1 < 2 ^ 64 → wrap_u64 (hub_nextSubID h + 1) = c + 1) as Hid.
  { intros Hu. rewrite Hn2. fold c. rewrite (wrap_u64_small c), wrap_u64_small by (unfold is_u64; lia). done. }
  assert (∀ tid' ch id, streams p tid' ch id → tid' ≠ tid) as Hne.
  { intros tid' ch id (t' & r & Ht & Hr) ->. by destruct (Hold t' Ht ch id r). }
  constructor; unfold unwrapped; simpl.
  - split; [lia|]. fold c in Hn2. rewrite Hn2. unfold wrap_u64. by rewrite Zplus_mod_idemp_l.
  - intros Hu tid' ch id [[-> [r [= <- <- _]]]|[_ Hs]]%streams_with_thread.
    + rewrite Hid by done. split_and!; [done|lia|]. exists make_chan. simpl. rewrite !lookup_insert_eq. split; [done|by left].
    + destruct (H2 ltac:(lia) tid' ch id Hs) as (-> & Hlt & q & Hq & Hor). split_and!; [done|lia|].
      exists q. simpl. rewrite Hid by done. rewrite !lookup_insert_ne by lia. done.
  - intros Hu tid1 tid2 ch id1 id2 [[-> [r1 [= <- _ _]]]|[_ Ha]]%streams_with_thread
      [[-> [r2 [= <- _]]]|[_ Hb]]%streams_with_thread; [done|..].
    + destruct (H2 ltac:(lia) _ _ _ Hb) as (_ & ? & _). lia.
    + destruct (H2 ltac:(lia) _ _ _ Ha) as (_ & ? & _). lia.
    + eapply (H3 ltac:(lia)); [exact Ha|exact Hb].
  - intros Hu id ch. rewrite Hid by done. intros [[<- <-]|[_ Hs]]%lookup_insert_Some.
    + exists tid. apply streams_with_thread. left. split; [done|]. by eexists.
    + destruct (H4 ltac:(lia) id ch Hs) as [tid' Ht]. exists tid'. apply streams_with_thread. right.
      split; [by eapply Hne|done].
Qed.

(** The stream of [tid] ends with its subscription. *)
Lemma streams_ended h h' p tid t ch id response :
  hub_ok h → ap_threads p !! tid = Some t → th_point t = Streaming ch id response →
  hub_unsubscribe id h = Some h' → streams_ok h p →
  streams_ok h' (with_thread tid (at_point (Answered response) t) p).
Proof.
  intros Hok Ht Hpoint Hun [Hn H2 H3 H4].
  destruct (shrinks_unsubscribe h h' id Hok Hun) as [[[Hn1 Hn2] Hsub Hch] Hgone].
  assert (∀ tid' ch' id', streams (with_thread tid (at_point (Answered response) t) p) tid' ch' id' ↔
    tid' ≠ tid ∧ streams p tid' ch' id') as Hp.
  { intros tid' ch' id'. rewrite streams_with_thread. simpl. naive_solver. }
  assert (streams p tid ch id) as Hmine by by exists t, response.
  unfold unwrapped in *. constructor; unfold unwrapped; rewrite ?Hn1, ?Hn2; [done| | |].
  - intros Hu tid' ch' id' [_ Ha]%Hp. destruct (H2 Hu _ _ _ Ha) as (? & ? & ?). split_and!; [done|done|by apply Hch].
  - intros Hu tid1 tid2 ch' id1 id2 [_ Ha]%Hp [_ Hb]%Hp. by eapply H3.
  - intros Hu id' ch' Hs. destruct (H4 Hu id' ch' (Hsub _ _ Hs)) as [tid' Ht']. exists tid'. apply Hp.
    split; [|done]. intros ->. destruct (H2 Hu _ _ _ Ht') as (Hid' & _ & _).
    destruct (H2 Hu _ _ _ Hmine) as (Hid & _ & _). destruct Ht' as (t' & r' & Ht' & Hr').
    rewrite Ht in Ht'. injection Ht' as <-. rewrite Hpoint in Hr'. injection Hr' as -> -> ->. congruence.
Qed.

Section service.
Context (Sum256 : string → string) (Sign : string → string → string).
Context {W : Type} (Write : W → string → W * (Z * option error)) (delivered : W → string).
Context (Hcontract : writer_contract Write delivered) (config : privateControlClientConfig).
#[local] Abbreviation step := (service_step Sum256 Sign Write config).

Lemma streams_handled env t tid c s p a k :
  state_ok s → state_streams s p → ap_threads p !! tid = Some t → th_point t = Accepted →
  first_section Sum256 Sign env (th_request t) (th_service t) (api_of c s (ap_server p)) = (a, k) →
  state_streams (api_state a)
    (with_thread tid (at_point (point_after k) t) (with_server (with_api a (ap_server p)) p)).
Proof.
  intros Hs Hstr Ht Hpoint Hrun.
  assert (∀ t', ap_threads p !! tid = Some t' → ∀ ch id r, th_point t' ≠ Streaming ch id r) as Hold
    by (intros t' Ht' ch id r; congruence).
  pose proof (first_section_hub Sum256 Sign env (th_request t) (th_service t) (api_of c s (ap_server p))) as H.
  rewrite Hrun in H. destruct H as [(out & -> & svc & hub & hub' & ch & id & r & -> & Hhub & Hsub & Hhub')|[Hhub Hk]].
  - unfold state_streams in *. simpl in Hhub. rewrite Hhub in Hstr. rewrite Hhub'.
    apply (streams_opened hub); [|done|done|done]. pose proof (state_hub _ Hs) as Hok. by rewrite Hhub in Hok.
  - eapply state_streams_shrink; [by apply hubs_same| |exact Hstr]. intros. apply not_streaming; [done|].
    destruct k as [[r|svc ch' id' r]|body|job]; simpl; try done. by destruct (Hk svc ch' id' r).
Qed.

Lemma service_streams_step sv sv' :
  service_ok delivered config sv → step sv sv' → service_streams sv → service_streams sv'.
Proof.
  intros Hok Hstep. unfold service_streams.
  service_step_cases Hstep; cbn [sv_server sv_state] in *.
  - destruct p as [p|]; [|done]. by apply state_streams_shrink; [apply hubs_same|].
  - destruct p as [p|]; [|done]. by apply state_streams_shrink; [apply hubs_same|].
  - done.
  - done.
  - destruct p as [p|]; [|done]. apply state_streams_shrink; [|done].
    apply (hubs_session Write id _ _) in Hses; [done|apply Hok..].
  - destruct p as [p|]; [|done]. by apply state_streams_shrink; [apply hubs_same|].
  - destruct p as [p|]; [|done]. by apply state_streams_shrink; [apply hubs_same|].
  - apply state_streams_shrink; [by apply hubs_same|]. intros.
    apply (not_streaming p (ap_server p) tid (Thread request service Accepted)); [congruence|done].
  - intros Hs. by eapply streams_handled; [apply Hok|..].
  - apply state_streams_shrink; [by apply hubs_same|]. intros.
    apply (not_streaming p (ap_server p)); [congruence|by destruct queued].
  - apply state_streams_shrink; [by apply hubs_same|]. intros.
    apply (not_streaming p (ap_server p)); [congruence|done].
  - apply state_streams_shrink; [by apply hubs_same|]. intros.
    apply (not_streaming p (ap_server p)); [congruence|done].
  - apply state_streams_shrink; [|done]. unfold hubs_shrink. simpl. rewrite Hhub. by eapply shrinks_receive.
  - unfold state_streams. simpl. rewrite Hhub. eapply streams_ended; [|done|done|done].
    by eapply service_hub_ok.
  - by apply state_streams_shrink; [apply hubs_same|].
  - done.
  - by apply state_streams_shrink; [apply hubs_same|].
Qed.

(** The service starts with an empty hub and no threads. *)
Lemma started_streams env p fs fs' st :
  order_env env → start env p fs = (fs', Ok st) → service_streams (@started W st).
Proof.
  intros Ho. unfold start. destruct (loadConfiguration p) as [[cfg httpListen] apiConfig].
  destruct (newPrivateControlClient _ _ _ _ _) as [fs1 [c|e]]; [|done].
  pose proof (newManagementAPI_spec env apiConfig newManagementState (Some c) Ho) as Hs.
  destruct (newManagementAPI _ _ _ _) as [[srv|]|e]; [| |done]; intros [= <- <-]; [|done].
  unfold service_streams, state_streams. simpl. rewrite (started_state _ _ _ _ _ Hs). simpl.
  assert (∀ tid ch id, ¬ streams (ApiProcess srv ∅ None) tid ch id) as Hno.
  { intros tid ch id (t & r & Ht & _). simpl in Ht. by rewrite lookup_empty in Ht. }
  destruct (String.eqb _ "live"); [|done].
  constructor; simpl; [done|intros _ tid ch id H; by destruct (Hno tid ch id)|
    intros _ tid1 tid2 ch id1 id2 H; by destruct (Hno tid1 ch id1)|
    intros _ id ch H; by rewrite lookup_empty in H].
Qed.

Lemma reachable_streams env p fs fs' st sv :
  order_env env → start env p fs = (fs', Ok st) → config = link_config p →
  rtc step (started st) sv → service_streams sv.
Proof.
  intros Ho Hst Hconfig Hrun.
  enough (service_ok delivered config sv ∧ service_streams sv) by tauto.
  eapply (rtc_invariant (λ sv, service_ok delivered config sv ∧ service_streams sv)); [| |exact Hrun].
  - intros a b [Ha Hw] Hab. split; [by eapply service_step_ok|by eapply service_streams_step].
  - split; [by eapply started_ok|]. by eapply started_streams.
Qed.
End service.

(** ** Properties *)

(** C13: the hub's subscribers are the open event streams.  In every reachable
    state of the running service, as long as fewer than 2^64 streams were
    opened: each open stream has a channel that no other stream reads, and it
    is either subscribed, with its channel open and at most 32 events behind,
    or was dropped by the hub and finds its channel closed; every subscription
    of the hub belongs to exactly one open stream, so ended requests leave
    none behind, and a service without open streams has a hub without
    subscribers. *)
Theorem subscribers_are_streams Sum256 Sign {W} (Write : W → string → W * (Z * option error))
    (delivered : W → string) env p fs fs' st sv api hub :
  writer_contract Write delivered → order_env env → start env p fs = (fs', Ok st) →
  rtc (service_step Sum256 Sign Write (link_config p)) (started st) sv → sv_server sv = Some api →
  ms_liveEvents (sv_state sv) = Some hub → hub_nextChan hub < 2 ^ 64 →
  (∀ tid ch id, streams api tid ch id → ∃ q, hub_chans hub !! ch = Some q ∧
     if decide (hub_subscribers hub !! id = Some ch)
     then ch_closed q = false ∧ Z.of_nat (length (ch_buffer q)) ≤ 32
     else ch_closed q = true) ∧
  (∀ tid1 tid2 ch id1 id2, streams api tid1 ch id1 → streams api tid2 ch id2 → tid1 = tid2) ∧
  (∀ id ch, hub_subscribers hub !! id = Some ch → ∃ tid, ∀ tid', streams api tid' ch id ↔ tid' = tid) ∧
  ((∀ tid ch id, ¬ streams api tid ch id) → hub_subscriberCount hub = 0).
Proof.
  intros Hc Ho Hst Hrun Hapi Hhub Hu.
  pose proof (reachable_streams Sum256 Sign Write delivered Hc _ env p fs fs' st sv Ho Hst eq_refl Hrun) as Hs.
  unfold service_streams, state_streams in Hs. rewrite Hapi, Hhub in Hs.
  assert (hub_ok hub) as Hok.
  { pose proof (service_reachable_ok Sum256 Sign Write delivered Hc _ env p fs fs' st sv Ho Hst Hrun) as [_ H _ _].
    pose proof (state_hub _ H) as Hk. by rewrite Hhub in Hk. }
  destruct Hs as [_ Hlive Hdist Hread]. split_and!.
  - intros tid ch id Ha. destruct (Hlive Hu _ _ _ Ha) as (_ & _ & q & Hq & Hor). exists q. split; [done|].
    destruct (decide _) as [Hsub|Hsub].
    + destruct (hub_ok_open hub Hok id ch Hsub) as (buf & Hbuf & Hlen). rewrite Hbuf in Hq. by injection Hq as <-.
    + by destruct Hor.
  - apply (Hdist Hu).
  - intros id ch Hsub. destruct (Hread Hu id ch Hsub) as [tid Ht]. exists tid. intros tid'. split.
    + intros Ht'. by eapply (Hdist Hu).
    + by intros ->.
  - intros Hno. unfold hub_subscriberCount, len_map.
    assert (hub_subscribers hub = ∅) as ->; [|done]. apply map_empty. intros id.
    destruct (hub_subscribers hub !! id) as [ch|] eqn:E; [|done].
    destruct (Hread Hu id ch E) as [tid Ht]. by destruct (Hno tid ch id).
Qed.

Definition events_http : http_request := Request "GET" "/v1/events" [] "" (Some example_fingerprint).

(** One stream is open. *)
Definition stream_opened : list action := [Accept 1 events_http; Handle 1 (1000 * Second) (Ok "")].

Lemma subscribers_are_streams_witness :
  ∃ api hub, sv_server (deployed_after stream_opened) = Some api ∧
    ms_liveEvents (sv_state (deployed_after stream_opened)) = Some hub ∧
    hub_subscribers hub !! 1 = Some 0 ∧ ∃ tid, ∀ tid', streams api tid' 0 1 ↔ tid' = tid.
Proof.
  set (sv := deployed_after stream_opened).
  assert (match sv_server sv, ms_liveEvents (sv_state sv) with
          | Some _, Some hub => bool_decide (hub_subscribers hub !! 1 = Some 0) && (hub_nextChan hub <? 2 ^ 64)
          | _, _ => false end = true) as Hv by (vm_compute; reflexivity).
  destruct (sv_server sv) as [api|] eqn:Es; [|discriminate Hv].
  destruct (ms_liveEvents (sv_state sv)) as [hub|] eqn:Eh; [|discriminate Hv].
  apply andb_true_iff in Hv as [Hsub%bool_decide_eq_true_1 Hu%Z.ltb_lt].
  exists api, hub. split; [reflexivity|]. split; [reflexivity|]. split; [exact Hsub|].
  destruct (subscribers_are_streams example_sum example_sign (chunked_write 10) Datatypes.id deployed_env
    deployed_process no_files no_files deployed_start sv api hub (chunked_write_contract 10) deployed_order
    deployed_started (deployed_reachable _) Es Eh Hu) as (_ & _ & H & _).
  apply H. exact Hsub.
Defined.

Close Scope Z_scope.
