(* ===== verification/RightsInUse.v ===== *)
(** * Rights in use while the files change

    A request goes on with the service that it was given when it was accepted,
    also when a reload takes rights of that service away before the request is
    finished.  In every reachable state of the service, each right that any
    request was accepted with is still in force, or its revocation was pending
    in the command queue, and stored, in a state that the run went through; so
    a token that a request obtains with a right it has lost is denied by the
    Relay, for as long as the revocation says. *)

From S2P Require Export Scenario.

Open Scope Z_scope.

(** ** Rights *)

(** The service [id] may be admitted at [key] as [acl] says. *)
Definition holds_right (az : managementAPIAuthorizer) (id : string) (key : managementAdmissionKey)
    (acl : managementAdmissionACL) : Prop :=
  ∃ s, remaining_service az id = Some s ∧ svc_admissions s !! key = Some acl.

Section visits.
Context (Sum256 : string → string) (Sign : string → string → string).
Context {W : Type} (Write : W → string → W * (Z * option error)) (config : privateControlClientConfig).

(** A run of the service from [start], with the states it went through. *)
Inductive visits (start : @service W) : list (@service W) → @service W → Prop :=
| visits_start : visits start [start] start
| visits_step visited sv sv' : visits start visited sv → service_step Sum256 Sign Write config sv sv' →
    visits start (sv' :: visited) sv'.

Lemma visits_reachable start visited sv :
  visits start visited sv → rtc (service_step Sum256 Sign Write config) start sv.
Proof. induction 1 as [|visited sv sv' _ IH Hstep]; [apply rtc_refl|by eapply rtc_r]. Qed.

Lemma visits_rtc start visited sv sv' :
  visits start visited sv → rtc (service_step Sum256 Sign Write config) sv sv' →
  ∃ visited', visits start visited' sv' ∧ visited ⊆ visited'.
Proof.
  intros Hv Hrun. revert visited Hv. induction Hrun as [sv|sv sv1 sv' Hstep _ IH]; intros visited Hv; [by eauto|].
  destruct (IH (sv1 :: visited)) as (visited' & Hv' & Hsub); [by econstructor|].
  exists visited'. split; [done|]. intros x Hx. apply Hsub. by right.
Qed.
End visits.

(** The command queue holds the revocation [r], and so does its store file. *)
Definition queued_in {W} (sv : @service W) (r : managementServiceAdmissionRevocationRequest) : Prop :=
  command_pending (sv_client sv) r ∧ stored (sv_client sv).

(** A revocation of the service on the channel was queued on the way. *)
Definition revoked {W} (visited : list (@service W)) (id : string) (channel : Z) : Prop :=
  ∃ sv r, sv ∈ visited ∧ queued_in sv r ∧
    rr_ServiceID r = id ∧ rr_ChannelID r = channel ∧ rr_GrantIDHash r = "".

(** Every right of the service is in force or revoked. *)
Definition covered {W} (az : managementAPIAuthorizer) (visited : list (@service W))
    (s : managementAPIService) : Prop :=
  ∀ key acl, svc_admissions s !! key = Some acl →
    holds_right az (svc_serviceID s) key acl ∨ revoked visited (svc_serviceID s) key.1.

Lemma by_id_remaining az id s :
  az_ok az → service_by_id az id = Some s → svc_enabled s = true → remaining_service az id = Some s.
Proof.
  intros Hok Hs Hen. unfold remaining_service. destruct (az_byService az !! id) as [r|] eqn:Er.
  - by rewrite (proj2 (enabled_service_spec id az r s)).
  - unfold service_by_id in Hs. by rewrite Er in Hs.
Qed.

Lemma remaining_by_id az id s :
  remaining_service az id = Some s → service_by_id az id = Some s ∧ svc_enabled s = true.
Proof.
  unfold remaining_service. destruct (enabled_service id az) as [[r s']|] eqn:E; [|done]. intros [= <-].
  by apply enabled_service_spec in E as (_ & ? & ?).
Qed.

Lemma accepted_covered {W} az (visited : list (@service W)) fingerprint s :
  az_ok az → serviceForRequest az fingerprint = Some s → covered az visited s.
Proof.
  intros Hok Hauth key acl Hacl. left. destruct (authenticated_service az fingerprint s Hok Hauth) as (_ & Hen & Hs).
  exists s. split; [by apply by_id_remaining|done].
Qed.

(** A right is kept by a replacement or lost to it. *)
Lemma right_kept_or_lost az az' id key acl :
  holds_right az id key acl → holds_right az' id key acl ∨ right_lost az az' id key.
Proof.
  intros (s & Hs & Hacl). apply remaining_by_id in Hs as [Hs Hen].
  destruct (remaining_service az' id) as [s'|] eqn:E.
  - destruct (decide (svc_admissions s' !! key = Some acl)); [left; by exists s'|right].
    exists s, acl. split_and!; [done|done|done|]. intros s2. rewrite E. by intros [= <-].
  - right. exists s, acl. split_and!; [done|done|done|]. intros s2. by rewrite E.
Qed.

(** ** The invariant *)

Record rights_ok {W} (visited : list (@service W)) (p : api_process) : Prop := RightsOk {
  rights_threads : map_Forall (λ _, covered (api_authorizer (as_api (ap_server p))) visited ∘ th_service)
                     (ap_threads p);
  rights_reload : ∀ az id key, ap_reload p = Some az →
    right_lost (api_authorizer (as_api (ap_server p))) az id key → revoked visited id key.1;
}.

Definition service_rights {W} (visited : list (@service W)) (sv : @service W) : Prop :=
  match sv_server sv with Some p => rights_ok visited p | None => True end.

Lemma revoked_later {W} (visited : list (@service W)) sv id channel :
  revoked visited id channel → revoked (sv :: visited) id channel.
Proof. intros (sv0 & r & Hin & H). exists sv0, r. split; [by right|done]. Qed.

Lemma covered_later {W} az (visited : list (@service W)) sv s : covered az visited s → covered az (sv :: visited) s.
Proof. intros Hcov key acl Hacl. destruct (Hcov key acl Hacl); [by left|right; by apply revoked_later]. Qed.

Lemma rights_later {W} (visited : list (@service W)) sv p : rights_ok visited p → rights_ok (sv :: visited) p.
Proof.
  intros [H1 H2]. constructor; [|intros; apply revoked_later; by eapply H2].
  intros tid t Ht. apply covered_later. exact (H1 tid t Ht).
Qed.

(** A thread that moves on keeps its service. *)
Lemma rights_moved {W} (visited : list (@service W)) p srv tid t point :
  api_authorizer (as_api srv) = api_authorizer (as_api (ap_server p)) → ap_threads p !! tid = Some t →
  rights_ok visited p → rights_ok visited (with_thread tid (at_point point t) (with_server srv p)).
Proof.
  intros Haz Ht [H1 H2]. constructor; simpl; rewrite Haz; [|done].
  apply map_Forall_insert_2; [|done]. exact (H1 tid t Ht).
Qed.

(** The swap: what is lost was queued. *)
Lemma covered_swap {W} (visited : list (@service W)) p replacement s :
  rights_ok visited p → ap_reload p = Some replacement →
  covered (api_authorizer (as_api (ap_server p))) visited s → covered replacement visited s.
Proof.
  intros [_ Hr] Hheld Hcov key acl Hacl. destruct (Hcov key acl Hacl) as [Hin|?]; [|by right].
  destruct (right_kept_or_lost _ replacement _ _ _ Hin) as [?|Hlost]; [by left|right].
  by apply (Hr replacement).
Qed.

(** A reload that goes on has queued the revocations of the rights it will
    take away, and stored them. *)
Lemma reload_queued os_open now env raws so ao files previous c c' replacement n :
  client_ok c → env_ok env c → reload_clock_ok now → az_ok previous → orders_ok so ao previous →
  reload_queue os_open now (env, raws) so ao files previous (Some c) = (Some c', Ok (replacement, n)) →
  ∀ id key, right_lost previous replacement id key →
  ∃ r, command_pending c' r ∧ stored c' ∧ rr_ServiceID r = id ∧ rr_ChannelID r = key.1 ∧ rr_GrantIDHash r = "".
Proof.
  intros Hok Henv Hclock Haz Hord Hrun id key Hlost.
  pose proof (reload_queue_spec os_open now (env, raws) so ao files previous (Some c) Haz Hord Hclock) as Hs.
  rewrite Hrun in Hs. destruct Hs as (Hload & _ & Hpend & _); [by intros q [= <-]|].
  set (r := RevocationRequest key.1 id "" (lost_reason replacement id)
              (Unix (now + managementAPIAutomaticRevocationDenyWindow))).
  assert (lost_revocation now previous replacement r) as Hr by by exists id, key.
  exists r. split_and!; [by apply (Hpend r); right| |done|done|done].
  pose proof (revocation_requests_ints previous replacement so ao now Haz Hord Hclock) as Hints.
  apply (lost_requests so ao) in Hr; [|done|done]. revert Hrun. unfold reload_queue. rewrite Hload.
  set (targets := managementAutomaticRevocations _ _ _ _) in *. destruct targets as [|t0 ts] eqn:Et.
  { by apply elem_of_nil in Hr. }
  rewrite <-Et in *. clear Et. cbv zeta. cbn [dq_queue client_queue fst snd].
  set (requests := revocation_requests _ _) in *.
  destruct (queueServiceAdmissionRevocations env raws requests c) as [c1 [e|]] eqn:Eq; [done|]. intros [= <- _].
  eapply queue_revocations_stored; [exact Hok|exact Henv|exact Hints| |exact Eq].
  intros Hnil. unfold requests in *. rewrite Hnil in Hr. by apply elem_of_nil in Hr.
Qed.

Section service.
Context (Sum256 : string → string) (Sign : string → string → string).
Context {W : Type} (Write : W → string → W * (Z * option error)) (delivered : W → string).
Context (Hcontract : writer_contract Write delivered) (config : privateControlClientConfig).
#[local] Abbreviation step := (service_step Sum256 Sign Write config).

Lemma service_rights_step visited sv sv' :
  service_ok delivered config sv → step sv sv' → service_rights visited sv → service_rights (sv' :: visited) sv'.
Proof.
  intros Hok Hstep. unfold service_rights.
  service_step_cases Hstep; cbn [sv_server sv_state] in *;
    try (by destruct p; [apply rights_later|]); try (by apply rights_later);
    pose proof (service_server _ _ _ Hok : process_ok s p) as Hp;
    pose proof (server_authorizer _ _ (process_server _ _ Hp)) as Haz.
  - intros [H1 H2]%(rights_later _ (Service c s l (Some (with_thread tid (Thread request service Accepted) p)))).
    constructor; simpl; [|done]. apply map_Forall_insert_2; [|done]. by eapply accepted_covered.
  - intros Hr. apply rights_moved; [|done|by apply rights_later]. simpl.
    pose proof (first_section_serves Sum256 Sign env (th_request t) (th_service t) _
      (api_of_ok c s p (service_state _ _ _ Hok) Hp) Hraw) as [_ (Hsame & _)]. by rewrite Hrun in Hsame.
  - intros Hr. by apply (rights_moved _ p (ap_server p)), rights_later.
  - intros Hr. by apply (rights_moved _ p (ap_server p)), rights_later.
  - intros Hr. by apply (rights_moved _ p (ap_server p)), rights_later.
  - intros Hr. by apply (rights_moved _ p (ap_server p)), rights_later.
  - intros [H1 H2]. constructor; simpl.
    + intros tid t Ht. apply covered_later. exact (H1 tid t Ht).
    + intros az id key [= <-] Hlost.
      destruct (reload_queued _ _ _ _ _ _ _ _ _ _ _ _ (service_client _ _ _ Hok) Henv Hclock Haz Hord Hrel id key Hlost)
        as (r & Hpend & Hst & Hr). eexists _, r. split; [by left|]. split; [by split|done].
  - intros Hr%(rights_later _ (Service c s l (Some (ApiProcess (with_authorizer replacement (ap_server p))
        (ap_threads p) None)))). constructor; simpl; [|done].
    intros tid t Ht. apply (covered_swap _ p replacement); [done|done|]. exact (rights_threads _ p Hr tid t Ht).
Qed.

Lemma started_rights st visited : service_rights visited (@started W st).
Proof.
  unfold service_rights, started. simpl. destruct (st_api st) as [srv|]; simpl; [|done].
  constructor; simpl; [apply map_Forall_empty|done].
Qed.

Lemma visited_rights env p fs fs' st visited sv :
  order_env env → start env p fs = (fs', Ok st) → config = link_config p →
  visits Sum256 Sign Write config (started st) visited sv → service_rights visited sv.
Proof.
  intros Ho Hst Hconfig. induction 1 as [|visited sv sv' Hv IH Hstep]; [apply started_rights|].
  eapply service_rights_step; [|exact Hstep|exact IH].
  eapply service_reachable_ok; [done|exact Ho|exact Hst|by apply visits_reachable in Hv].
Qed.
End service.

(** ** Tokens *)

(** A token that the first section of a request answers with. *)
Record token_issued (Sum256 : string → string) (Verify : string → string → string → bool) (publicKey : string)
    (i : serviceAdmissionGrantIssuer) (env : request_env) (t : request_thread) (response : http_response)
    (body : managementServiceAdmissionGrantRequest) (acl : managementAdmissionACL) (grant : string)
    (claims : serviceAdmissionGrantClaims) : Prop := TokenIssued {
  token_body : decodeManagementAPIRequest grant_request_fields zero_grant_request (rq_Body (th_request t)) = Ok body;
  token_acl : svc_admissions (th_service t) !! (gr_ChannelID body, gr_SenderID body) = Some acl;
  token_response : rs_Body response =
    print_json (grant_response_json grant (gc_ExpiresAt claims * Second)) +:+ newline;
  token_opens : open_grant Verify publicKey grant = Some (grant_header_json (is_keyID i), grant_claims_json claims);
  token_within : claims_within Sum256 i (svc_serviceID (th_service t)) acl body (re_now env) claims;
  token_short : gc_ExpiresAt claims ≤ Unix (re_now env) + 3600;
}.

Lemma first_section_token Sum256 Sign Verify publicKey env t (a a' : managementAPI privateControlClient) i response :
  api_issuer a = Some i → issuer_ok i → utf8_Valid (is_issuer i) = true → utf8_Valid (is_audience i) = true →
  (∀ m, Verify publicKey m (Sign (is_privateKey i) m) = true) → 0 ≤ re_now env →
  Authorizer.service_ok (th_service t) → rq_Path (th_request t) = grant_path →
  first_section Sum256 Sign env (th_request t) (th_service t) a = (a', Finish (Respond response)) →
  rs_Status response = StatusCreated →
  ∃ body acl grant claims, token_issued Sum256 Verify publicKey i env t response body acl grant claims.
Proof.
  intros Hi Hok Hiss Haud Hverify Hnow Hs Hpath Hrun Hst.
  assert (handleServiceAdmissionGrant Sum256 Sign env (th_request t) (th_service t) a = (a', Respond response))
    as Hserve.
  { unfold first_section in Hrun. rewrite Hpath in Hrun.
    change (String.eqb grant_path "/v1/health") with false in Hrun.
    change (String.eqb grant_path "/v1/channels") with false in Hrun.
    change (String.eqb grant_path "/v1/events") with false in Hrun.
    change (String.eqb grant_path "/v1/service-admission-grants") with true in Hrun. cbv zeta iota in Hrun.
    destruct (handleServiceAdmissionGrant _ _ _ _ _ _) as [a1 out]. by injection Hrun as -> ->. }
  destruct (handleServiceAdmissionGrant_created _ _ _ _ _ _ _ _ Hserve Hst)
    as [body acl i' grant expiresAt _ _ Hbody Hacl Hissue _ ->]. rewrite Hi in Hissue.
  destruct (issue_opens Sum256 Sign Verify publicKey _ _ _ _ _ i i' grant expiresAt Hverify Hok Hiss Haud
    Hnow (service_acls _ Hs _ _ Hacl) Hissue) as (claims & Hopen & Hwithin & -> & _).
  exists body, acl, grant, claims. constructor; [done|done|done|done|done|].
  destruct (within_time _ _ _ _ _ _ _ Hwithin) as [_ ->]. destruct (issuer_lifetime i Hok) as (n & -> & Hn).
  rewrite Z.div_mul by done. lia.
Qed.

(** ** Properties *)

(** C8: no right is used uncovered.  In every run of the service, however
    requests and reloads interleave: for every request that was accepted,
    whatever point it has reached, each right of the service it was accepted
    with is in force now, or in a state that the run went through a revocation
    of that service on that channel was pending in the command queue with the
    queue in its store file.  A 201 that such a request obtains is a token for one
    of these rights, bound to its service, channel and key, that expires within
    an hour of its issue; when the right is lost, the revocation names the
    token's service and channel, and outlasts the token if its deadline is an
    hour from the issue or more. *)
Theorem rights_in_use_covered Sum256 Sign Verify publicKey {W} (Write : W → string → W * (Z * option error))
    (delivered : W → string) env p fs fs' st visited sv api tid t :
  writer_contract Write delivered → order_env env → start env p fs = (fs', Ok st) →
  visits Sum256 Sign Write (link_config p) (started st) visited sv → sv_server sv = Some api →
  ap_threads api !! tid = Some t →
  (∀ key acl, svc_admissions (th_service t) !! key = Some acl →
     holds_right (api_authorizer (as_api (ap_server api))) (svc_serviceID (th_service t)) key acl ∨
     revoked visited (svc_serviceID (th_service t)) key.1) ∧
  ∀ renv a' response i,
    api_issuer (as_api (ap_server api)) = Some i → utf8_Valid (is_issuer i) = true → utf8_Valid (is_audience i) = true →
    (∀ m, Verify publicKey m (Sign (is_privateKey i) m) = true) → 0 ≤ re_now renv →
    rq_Path (th_request t) = grant_path →
    first_section Sum256 Sign renv (th_request t) (th_service t)
      (api_of (sv_client sv) (sv_state sv) (ap_server api)) = (a', Finish (Respond response)) →
    rs_Status response = StatusCreated →
    ∃ body acl grant claims,
      token_issued Sum256 Verify publicKey i renv t response body acl grant claims ∧
      (holds_right (api_authorizer (as_api (ap_server api))) (gc_ServiceID claims)
         (gc_ChannelID claims, gc_SenderID claims) acl ∨
       ∃ before r, before ∈ visited ∧ queued_in before r ∧
            rr_ServiceID r = gc_ServiceID claims ∧ rr_ChannelID r = gc_ChannelID claims ∧
            (Unix (re_now renv) + 3600 ≤ rr_DenyUntil r → gc_ExpiresAt claims ≤ rr_DenyUntil r)).
Proof.
  intros Hc Ho Hst Hvisits Hapi Ht. pose proof (visits_reachable _ _ _ _ _ _ _ Hvisits) as Hrun.
  pose proof (visited_rights Sum256 Sign Write delivered Hc _ env p fs fs' st visited sv Ho Hst eq_refl Hvisits) as Hr.
  unfold service_rights in Hr. rewrite Hapi in Hr.
  pose proof (service_reachable_ok Sum256 Sign Write delivered Hc _ env p fs fs' st sv Ho Hst Hrun) as Hok.
  pose proof (service_server _ _ _ Hok) as Hp. rewrite Hapi in Hp. simpl in Hp.
  pose proof (rights_threads _ api Hr tid t Ht) as Hcov. split; [exact Hcov|].
  intros renv a' response i Hi Hiss Haud Hverify Hnow Hpath Hsec Hcreated.
  destruct (first_section_token Sum256 Sign Verify publicKey renv t
    (api_of (sv_client sv) (sv_state sv) (ap_server api)) a' i response)
    as (body & acl & grant & claims & Htok); [done| |done..| |done|done|done|].
  - by apply (server_issuer _ _ (process_server _ _ Hp)).
  - apply (thread_lookup_ok _ _ _ _ Hp Ht).
  - exists body, acl, grant, claims. split; [done|]. destruct Htok as [_ Hacl _ _ Hw Hshort].
    destruct (within_service _ _ _ _ _ _ _ Hw) as [-> _]. destruct (within_scope _ _ _ _ _ _ _ Hw) as [-> ->].
    destruct (Hcov _ _ Hacl) as [?|(before & r & Hin & Hq & Hid & Hch & _)]; [by left|right].
    exists before, r. split_and!; [done|done|done|done|lia].
Qed.

(** *** A reload overtakes a request *)

(** The request is accepted, the reload takes the service away, and the body
    arrives [seconds] after it. *)
Definition overtaken : list action :=
  [Accept 1 example_grant_http; Reload (1000 * Second) empty_files [Ok "ponmlkjihgfedcba"; Ok "abcdefghijklmnop"];
   Swap].

Definition overtaken_answer (seconds : Z) : option http_response :=
  match point_at 1 (deployed_after (overtaken ++ [Handle 1 ((1000 + seconds) * Second) (Ok example_random)])) with
  | Some (Answered response) => Some response
  | _ => None
  end.

(** The deadlines of the revocations that are pending. *)
Definition pending_deadlines (sv : @service string) : list Z :=
  (λ p, rev_DenyUntil (pc_message p.2)) <$> map_to_list (cl_pending (sv_client sv)).

(** It is refused from then on, but this request still gets its token. *)
Example overtaken_still_granted :
  (λ api, serviceForRequest (api_authorizer (as_api (ap_server api))) (Some example_fingerprint)) <$>
    sv_server (deployed_after overtaken) = Some None ∧
  rs_Status <$> overtaken_answer 10 = Some StatusCreated ∧
  pending_deadlines (deployed_after overtaken) = [6400].
Proof. vm_compute. split_and!; reflexivity. Qed.

(** The latest expiry among the grants that the issuer recorded. *)
Definition last_expiry (sv : @service string) : option Z :=
  api ← sv_server sv; i ← api_issuer (as_api (ap_server api));
  Some (foldr Z.max 0 ((λ g, Unix (ig_expiresAt g.2)) <$> map_to_list (is_issued i))).

(** A body that takes 40 minutes: nothing bounds how long the body may take, and the token
    outlasts the deadline of the revocation by ten minutes. *)
Example slow_body_outlasts_revocation :
  last_expiry (deployed_after (overtaken ++ [Handle 1 ((1000 + 2400) * Second) (Ok example_random)])) = Some 7000 ∧
  pending_deadlines (deployed_after overtaken) = [6400].
Proof. vm_compute. split; reflexivity. Qed.

Lemma rights_in_use_covered_witness :
  ∃ visited api t acl claims,
    visits example_sum example_sign (chunked_write 10) (link_config deployed_process) (started deployed_start)
      visited (deployed_after overtaken) ∧
    sv_server (deployed_after overtaken) = Some api ∧ ap_threads api !! 1 = Some t ∧
    svc_admissions (th_service t) !! (7, 1) = Some acl ∧
    (holds_right (api_authorizer (as_api (ap_server api))) (gc_ServiceID claims)
       (gc_ChannelID claims, gc_SenderID claims) acl ∨
     ∃ before r, before ∈ visited ∧ queued_in before r ∧
          rr_ServiceID r = gc_ServiceID claims ∧ rr_ChannelID r = gc_ChannelID claims ∧
          (1010 + 3600 ≤ rr_DenyUntil r → gc_ExpiresAt claims ≤ rr_DenyUntil r)).
Proof.
  set (sv := deployed_after overtaken).
  set (renv := RequestEnv (1010 * Second) (1010 * Second) (Ok example_random) [] [] true).
  assert (match sv_server sv with
          | Some api =>
              match ap_threads api !! 1, api_issuer (as_api (ap_server api)) with
              | Some t, Some i =>
                  String.eqb (rq_Path (th_request t)) grant_path && utf8_Valid (is_issuer i) &&
                  utf8_Valid (is_audience i) &&
                  match decodeManagementAPIRequest grant_request_fields zero_grant_request (rq_Body (th_request t)) with
                  | Ok body => (gr_ChannelID body =? 7) && (gr_SenderID body =? 1) | Err _ => false end &&
                  match (first_section example_sum example_sign renv (th_request t) (th_service t)
                           (api_of (sv_client sv) (sv_state sv) (ap_server api))).2 with
                  | Finish (Respond response) => rs_Status response =? StatusCreated | _ => false end
              | _, _ => false end
          | None => false end = true) as Hv by (vm_compute; reflexivity).
  destruct (sv_server sv) as [api|] eqn:Es; [|discriminate Hv].
  destruct (ap_threads api !! 1) as [t|] eqn:Et; [|discriminate Hv].
  destruct (api_issuer (as_api (ap_server api))) as [i|] eqn:Ei; [|discriminate Hv].
  apply andb_true_iff in Hv as [[[[Hpath Hiss]%andb_true_iff Haud]%andb_true_iff Hb]%andb_true_iff Hv].
  apply String.eqb_eq in Hpath.
  destruct (first_section example_sum example_sign renv (th_request t) (th_service t)
    (api_of (sv_client sv) (sv_state sv) (ap_server api))) as [a' k] eqn:Ek.
  destruct k as [[response|]|body|jobID]; cbn [snd] in Hv; try discriminate Hv. apply Z.eqb_eq in Hv.
  destruct (visits_rtc example_sum example_sign (chunked_write 10) (link_config deployed_process)
    (started deployed_start) [started deployed_start] _ sv (visits_start _ _ _ _ _) (deployed_reachable _))
    as (visited & Hvisits & _).
  destruct (rights_in_use_covered example_sum example_sign example_verify "" (chunked_write 10) Datatypes.id
    deployed_env deployed_process no_files no_files deployed_start visited sv api 1 t (chunked_write_contract 10)
    deployed_order deployed_started Hvisits Es Et) as [_ H].
  destruct (H renv a' response i Ei Hiss Haud) as (body & acl & grant & claims & Htok & Hcov).
  - intros m. apply String.eqb_refl.
  - discriminate.
  - exact Hpath.
  - exact Ek.
  - exact Hv.
  - exists visited, api, t, acl, claims. split; [exact Hvisits|]. split; [reflexivity|]. split; [exact Et|]. split; [|exact Hcov].
    destruct Htok as [Hbody Hacl _ _ _ _]. rewrite Hbody in Hb. apply andb_true_iff in Hb as [H7 H1].
    apply Z.eqb_eq in H7, H1. rewrite H7, H1 in Hacl. exact Hacl.
Defined.

Close Scope Z_scope.
