(* ===== verification/Conversation.v ===== *)
(** * What the Relay reads

    The two directions of the connection.  The reader goroutine turns a byte
    stream into exactly the frames it consists of; and what a session of the
    running service puts on the wire is, for a peer that reads frames in the
    same way, one hello, one snapshot request and the revocations recorded as
    sent, each once. *)

From S2P Require Export System.

Open Scope Z_scope.

(** ** The reader *)

(** A stream of frames, one after another. *)
Definition raw_frames (payloads : list string) : string :=
  foldr (λ p rest, frame_bytes p +:+ rest) "" payloads.

Definition readable (payload : string) : Prop :=
  frame_size_ok payload ∧ validatePrivateControlJSON payload = Ok tt.

Lemma frame_bytes_length payload : String.length (frame_bytes payload) = (4 + String.length payload)%nat.
Proof. unfold frame_bytes. by rewrite string_app_length. Qed.

(** A read that succeeds took the frame off the stream. *)
Lemma read_frame_inv stream payload rest :
  readPrivateControlFrame stream = Ok (payload, rest) →
  stream = frame_bytes payload +:+ rest ∧ readable payload.
Proof. intros (-> & ? & ?)%read_frame_inversion. by split. Qed.

Lemma readSessionFrames_spec fuel stream :
  (String.length stream < fuel)%nat →
  ∃ payloads rest e, readSessionFrames fuel stream = (Ok <$> payloads) ++ [Err e] ∧
    stream = raw_frames payloads +:+ rest ∧ Forall readable payloads ∧
    readPrivateControlFrame rest = Err e.
Proof.
  revert stream. induction fuel as [|fuel IH]; intros stream Hlen; [lia|]. cbn [readSessionFrames].
  destruct (readPrivateControlFrame stream) as [[payload rest]|e] eqn:E.
  - destruct (read_frame_inv _ _ _ E) as [-> Hp].
    rewrite string_app_length, frame_bytes_length in Hlen.
    destruct (IH rest) as (payloads & rest' & e & -> & -> & Hps & He); [lia|].
    exists (payload :: payloads), rest', e. split_and!; [done| |by constructor|done].
    unfold raw_frames. simpl. by rewrite string_app_assoc.
  - exists [], stream, e. by split_and!; [..|constructor|].
Qed.

Lemma session_incoming_frames payloads :
  Forall readable payloads → session_incoming (raw_frames payloads) = (Ok <$> payloads) ++ [Err ErrEOF].
Proof.
  unfold session_incoming. intros Hps.
  assert (∀ fuel, (String.length (raw_frames payloads) < fuel)%nat →
    readSessionFrames fuel (raw_frames payloads) = (Ok <$> payloads) ++ [Err ErrEOF]) as H; [|apply H; lia].
  induction Hps as [|payload payloads [Hsize Hv] Hps IH]; intros [|fuel] Hlen; [lia|done|lia|].
  unfold raw_frames in *. cbn [foldr readSessionFrames] in *.
  rewrite string_app_length, frame_bytes_length in Hlen.
  rewrite read_frame_bytes by done. rewrite IH by lia. done.
Qed.

(** ** The writer *)

Lemma service_id_utf8 v : validManagementServiceID v = true → utf8_Valid v = true.
Proof. intros (_ & ? & _)%validManagementServiceID_bytes. by apply plain_utf8. Qed.

Lemma opening_readable config raw id raw' :
  validManagementServiceID (cfg_serviceID config) = true → id = newPrivateControlID raw' →
  Forall (λ j, frame_size_ok (print_json j)) (opening config (newPrivateControlID raw) id) →
  Forall readable (print_json <$> opening config (newPrivateControlID raw) id).
Proof.
  intros Hid -> Hsize. apply Forall_fmap. unfold opening in *.
  apply Forall_cons in Hsize as [Hs1 [Hs2 _]%Forall_cons].
  assert (∀ raw, utf8_Valid (newPrivateControlID raw) = true) as Hraw.
  { intros r. apply plain_utf8, EncodeToString_plain. }
  pose proof (service_id_utf8 _ Hid).
  constructor; [|apply Forall_singleton]; (split; [done|]); apply validate_print; try reflexivity;
    apply wf_object; try done;
    repeat (apply Forall_cons; split; [split; [done|simpl; constructor; first [done|apply Hraw]]|]);
    constructor.
Qed.

Lemma command_readable cmd :
  revocation_wf (pc_message cmd) → readable (print_json (revoke_json (pc_message cmd))).
Proof. intros (? & ? & ?)%command_json_ok. split; [done|by apply validate_print]. Qed.

(** The message that was written is the message that is read. *)
Lemma command_decoded cmd :
  revocation_wf (pc_message cmd) →
  decodePrivateControlJSON revoke_fields zero_revoke (print_json (revoke_json (pc_message cmd))) =
  Ok (pc_message cmd).
Proof.
  intros Hwf. destruct (command_json_ok _ Hwf) as (Hj & Hu & _). destruct Hwf as (Hv & Hch & Hdeny).
  assert (1 ≤ rev_DenyUntil (pc_message cmd)) by (unfold validPrivateControlRevocation in Hv; go_bool; lia).
  unfold is_i64 in Hdeny. unfold decodePrivateControlJSON. rewrite validate_print by done.
  cbn [result_bind]. pose proof (decode_next_print _ "" Hj I) as Hd. rewrite string_app_empty_r in Hd.
  rewrite Hd. cbn [result_bind]. rewrite decode_revoke_json by (done || lia).
  cbn [type_checked result_bind]. unfold newDecoder. by rewrite (proj2 (requireJSONEOF_spec "" [])).
Qed.

Lemma raw_frames_app a b : raw_frames (a ++ b) = raw_frames a +:+ raw_frames b.
Proof. unfold raw_frames. induction a as [|x a IH]; [done|]. simpl. by rewrite IH, string_app_assoc. Qed.

Lemma payload_frames_raw js : payload_frames js = raw_frames (print_json <$> js).
Proof. unfold payload_frames, raw_frames. induction js as [|j js IH]; [done|]. simpl. by rewrite IH. Qed.

Definition command_payloads (out : list privateControlPendingCommand) : list string :=
  (λ cmd, print_json (revoke_json (pc_message cmd))) <$> out.

Lemma command_frames_raw out : command_frames out = raw_frames (command_payloads out).
Proof. unfold command_frames, raw_frames, command_payloads. induction out as [|x out IH]; [done|]. simpl. by rewrite IH. Qed.

(** A service that started has a valid identifier. *)
Lemma started_service_id env p fs fs' st :
  start env p fs = (fs', Ok st) → validManagementServiceID (cfg_serviceID (link_config p)) = true.
Proof.
  unfold start, link_config. destruct (loadConfiguration p) as [[config httpListen] apiConfig]. cbn [fst].
  unfold newPrivateControlClient. by destruct (validManagementServiceID _).
Qed.

(** ** Properties *)

(** C34: the reader goroutine hands on exactly the frames of the stream.  For
    any bytes that a connection delivers, it stops; what it put on [incoming]
    is a list of payloads followed by one error; and the stream is the frames
    of these payloads, each of an admissible size and passing the duplicate
    check, followed by bytes on which the next read fails with that error.
    The frames themselves are read back whatever the payloads are. *)
Theorem reader_exact stream :
  (∃ payloads rest e, session_incoming stream = (Ok <$> payloads) ++ [Err e] ∧
     stream = raw_frames payloads +:+ rest ∧ Forall readable payloads ∧
     readPrivateControlFrame rest = Err e) ∧
  ∀ payloads, stream = raw_frames payloads → Forall readable payloads →
    session_incoming stream = (Ok <$> payloads) ++ [Err ErrEOF].
Proof.
  split; [|intros payloads ->; apply session_incoming_frames].
  apply readSessionFrames_spec. lia.
Qed.

(** C12: what a session says.  In every state that the running service can
    reach, while a session has not ended, the bytes that went out on its
    connection read back as exactly: the hello of the configured service, the
    request for a snapshot under the identifier the session answers to, and
    one revocation for each command recorded as sent, no identifier twice.
    Each revocation passes the strict decoding and decodes to the message of
    its command, whatever the writer splits and however the API's goroutines
    interleave. *)
Theorem conversation_exact Sum256 Sign {W} (Write : W → string → W * (Z * option error))
    (delivered : W → string) env p fs fs' st sv id point sn w sent :
  writer_contract Write delivered → order_env env → start env p fs = (fs', Ok st) →
  rtc (service_step Sum256 Sign Write (link_config p)) (started st) sv →
  sv_link sv = Up id point sn w sent → (∀ e, point ≠ Ended e) →
  ∃ before wire raw raw' out,
    delivered w = before +:+ wire ∧ id = newPrivateControlID raw' ∧
    session_incoming wire =
      (Ok <$> (print_json <$> opening (link_config p) (newPrivateControlID raw) id) ++
              command_payloads out) ++ [Err ErrEOF] ∧
    NoDup (command_id <$> out) ∧ (∀ x, x ∈ sent ↔ x ∈ command_id <$> out) ∧
    ∀ cmd, cmd ∈ out →
      decodePrivateControlJSON revoke_fields zero_revoke (print_json (revoke_json (pc_message cmd))) =
      Ok (pc_message cmd).
Proof.
  intros Hc Ho Hst Hrun Hup Hne.
  assert (service_ok delivered (link_config p) sv) as [_ _ Hl _] by by eapply service_reachable_ok.
  rewrite Hup in Hl. destruct Hl as (_ & (w0 & (before & raw & raw' & Hid & Hw0 & Hsize) & Hses) & _).
  pose proof (sok_wire _ _ _ Hses) as Hw. unfold wire_ok in Hw. cbn in Hw.
  assert (∃ out, delivered w = delivered w0 +:+ command_frames out ∧ NoDup (command_id <$> out) ∧
    (∀ x, x ∈ sent ↔ x ∈ command_id <$> out) ∧ Forall (λ cmd, revocation_wf (pc_message cmd)) out)
    as (out & Hd & Hnd & Hs & Hwf) by (destruct point; [done|done|done|by destruct (Hne err)]).
  exists before, (payload_frames (opening (link_config p) (newPrivateControlID raw) id) +:+ command_frames out),
    raw, raw', out.
  split_and!; [by rewrite Hd, Hw0, string_app_assoc|done| |done|done|].
  - rewrite payload_frames_raw, command_frames_raw, <-raw_frames_app. apply session_incoming_frames.
    apply Forall_app. split; [by eapply opening_readable; [eapply started_service_id|..]|].
    apply Forall_fmap. eapply Forall_impl; [exact Hwf|]. intros cmd. apply command_readable.
  - intros cmd Hin. rewrite Forall_forall in Hwf. by apply command_decoded, Hwf.
Qed.

Lemma reader_exact_witness :
  session_incoming (raw_frames ["{}"; "[1]"]) = [Ok "{}"; Ok "[1]"; Err ErrEOF].
Proof.
  destruct (reader_exact (raw_frames ["{}"; "[1]"])) as [_ H]. apply (H ["{}"; "[1]"]).
  - reflexivity.
  - repeat (apply Forall_cons; split; [split; [split; apply Z.leb_le; reflexivity|vm_compute; reflexivity]|]).
    constructor.
Defined.

Lemma example_up :
  sv_link example_connected = Up (newPrivateControlID example_raw_id) AtHead None example_wire ∅.
Proof. unfold example_connected. cbn [sv_link]. reflexivity. Qed.

Lemma at_head_running (e : error) : AtHead ≠ Ended e.
Proof. discriminate. Qed.

Lemma conversation_exact_witness :
  ∃ before wire raw, Datatypes.id example_wire = before +:+ wire ∧
    session_incoming wire =
      (Ok <$> (print_json <$> opening (link_config example_process) (newPrivateControlID raw)
                                (newPrivateControlID example_raw_id)) ++
              command_payloads []) ++ [Err ErrEOF].
Proof.
  destruct (conversation_exact example_sum example_sign (chunked_write 10) Datatypes.id example_start_env
    example_process no_files no_files example_start example_connected
    (newPrivateControlID example_raw_id) AtHead None example_wire ∅ (chunked_write_contract 10) example_order
    example_started (example_connects example_sum example_sign) example_up at_head_running)
    as (before & wire & raw & raw' & out & Hd & _ & Hr & _ & Hs & _).
  exists before, wire, raw. split; [exact Hd|].
  destruct out as [|cmd out]; [exact Hr|].
  exfalso. apply (not_elem_of_empty (C:=gset string) (command_id cmd)), Hs. left.
Defined.

Close Scope Z_scope.
